(** * AI_Gallery image browser: a shallow embedding of [main.py]

    The browser is event-driven glue over three outside worlds: the
    filesystem (pathlib), the imaging library (Pillow) and the GUI toolkit
    (Dear PyGui).  Each world is modelled by the values the program reads
    from it and by the items the program creates in it; the functions of
    [main.py] are then translated one by one, in the order of the file.

    Conventions:
    - Python [int] is [Z]; [//] is [Z.div] and [%] is [Z.modulo] (both floor
      towards minus infinity for a positive divisor, as in Python).
    - Python [str] is [string] and string comparison is the comparison of
      codes.  [lower] is [str.lower] on ASCII strings; the properties that
      depend on the lower-casing of whole file names are stated for ASCII
      names ([is_ascii]).
    - paths are those of a POSIX system: [Path] is [pathlib.PosixPath] and
      [os.path] is [posixpath].
    - an exception is a value of [exn]; a computation that may raise has type
      [result A]; [try ... except Exception] is [try_except].  [DpgError] is
      what a DPG call raises when it names an item that does not exist.
    - the module-level dictionary [state], the DPG item tree and the trace of
      calls to Pillow and to the process launcher form the [Machine] that the
      stateful functions thread through a small state monad. *)

From Stdlib Require Import ZArith List String Ascii Bool Lia Permutation Sorted.
From stdpp Require Import gmap strings.
Import ListNotations.

Open Scope Z_scope.
Open Scope string_scope.
Open Scope list_scope.

(** ** Exceptions *)

Inductive exn : Type :=
| PermissionError (path : string)
| FileNotFoundError (path : string)
| NotADirectoryError (path : string)
| OSError (errno : Z) (path : string)
| UnidentifiedImageError (path : string)
| SpawnError (argv : list string) (errno : Z)
| StartfileError (path : string) (errno : Z)
| IndexError
| DpgError.

Inductive result (A : Type) : Type :=
| Ok (a : A)
| Raise (e : exn).
Arguments Ok {A} a.
Arguments Raise {A} e.

Definition rbind {A B} (r : result A) (k : A -> result B) : result B :=
  match r with
  | Ok a => k a
  | Raise e => Raise e
  end.

(** [try: body except Exception: handler]; every member of [exn] is a
    subclass of [Exception]. *)
Definition try_except {A} (body : result A) (handler : exn -> result A) : result A :=
  match body with
  | Ok a => Ok a
  | Raise e => handler e
  end.

(** A list comprehension [[x for x in l if f(x)]] whose condition may raise:
    the elements are tested from left to right and the first exception ends
    the comprehension. *)
Fixpoint filter_raising {A} (f : A -> result bool) (l : list A) : result (list A) :=
  match l with
  | [] => Ok []
  | x :: l' =>
      rbind (f x) (fun b =>
      rbind (filter_raising f l') (fun r =>
      Ok (if b then x :: r else r)))
  end.

(** ** Strings *)

Definition is_upper (c : ascii) : bool :=
  (65 <=? N_of_ascii c)%N && (N_of_ascii c <=? 90)%N.

Definition lower_ascii (c : ascii) : ascii :=
  if is_upper c then ascii_of_N (N_of_ascii c + 32) else c.

(** [str.lower] *)
Fixpoint lower (s : string) : string :=
  match s with
  | EmptyString => EmptyString
  | String c s' => String (lower_ascii c) (lower s')
  end.

(** [str.isascii] *)
Definition is_ascii_char (c : ascii) : bool := (N_of_ascii c <? 128)%N.

Fixpoint is_ascii (s : string) : bool :=
  match s with
  | EmptyString => true
  | String c s' => is_ascii_char c && is_ascii s'
  end.

(** Every character. *)
Definition all_ascii : list ascii := map ascii_of_nat (seq 0 256).

(** [s.split("/")] *)
Fixpoint split_sep (s : string) : list string :=
  match s with
  | EmptyString => [EmptyString]
  | String c s' =>
      if Ascii.eqb c "/" then EmptyString :: split_sep s'
      else match split_sep s' with
           | x :: r => String c x :: r
           | [] => [String c EmptyString]
           end
  end.

(** [str.rfind(c)]: the index of the last occurrence of [c]; Python's [-1]
    is [None]. *)
Fixpoint rfind (c : ascii) (s : string) : option nat :=
  match s with
  | EmptyString => None
  | String a s' =>
      match rfind c s' with
      | Some i => Some (S i)
      | None => if Ascii.eqb a c then Some O else None
      end
  end.

(** [s[i:]] *)
Fixpoint drop_string (i : nat) (s : string) : string :=
  match i, s with
  | O, _ => s
  | S i', String _ s' => drop_string i' s'
  | S _, EmptyString => EmptyString
  end.

(** ** Paths

    A [Path] carries its string form and its final component, which is
    empty for a path that has no component (the root, or [.]).  [iterdir]
    yields the child of [p] for every name [n] of the listing, so the final
    component of a child is the listed name itself. *)

Record Path : Type := mkPath { str : string; name : string }.

Definition sep : string := "/".

(** [os.path.basename]: what follows the last separator. *)
Definition basename (s : string) : string :=
  match rfind "/" s with
  | Some i => drop_string (S i) s
  | None => s
  end.

(** The root of a path: one slash, or two when the string starts with
    exactly two. *)
Definition path_root (s : string) : string :=
  if String.prefix "//" s && negb (String.prefix "///" s) then "//"
  else if String.prefix "/" s then "/"
  else EmptyString.

(** The components of a path: empty ones and [.] are dropped. *)
Definition is_part (x : string) : bool :=
  negb (String.eqb x EmptyString) && negb (String.eqb x ".").

Definition path_tail (s : string) : list string :=
  List.filter is_part (split_sep s).

(** [Path(s)]: separators that repeat or trail and the components [.]
    disappear; the path without root and components is [.]. *)
Definition Path_of (s : string) : Path :=
  let body := (path_root s ++ String.concat sep (path_tail s))%string in
  {| str := if String.eqb body EmptyString then "." else body;
     name := List.last (path_tail s) EmptyString |}.

(** The child [n] of [p], as [iterdir] makes it: no separator is put after
    a root, and the children of [.] are bare names. *)
Definition joinpath (p : Path) (n : string) : Path :=
  {| str := if negb (String.eqb (name p) EmptyString) then str p ++ sep ++ n
            else if String.eqb (str p) "." then n
            else str p ++ n;
     name := n |}.

(** [PurePath.suffix]:
    [i = name.rfind('.')]; [name[i:]] if [0 < i < len(name) - 1], else ['']. *)
Definition suffix (p : Path) : string :=
  match rfind "." (name p) with
  | Some i =>
      if (0 <? i)%nat && (i <? String.length (name p) - 1)%nat
      then drop_string i (name p)
      else EmptyString
  | None => EmptyString
  end.

(** ** The filesystem

    [listdir] is what [os.listdir] answers for a directory, in the order of
    the operating system, or the [OSError] it raises.  [stat] is the type of
    the file a path leads to; a path that leads nowhere (a dangling link, a
    file removed meanwhile) is [Other], and an error that pathlib does not
    swallow (permission denied on the parent) is raised. *)

Inductive FileType : Type := Regular | Directory | Other.

Record FileSystem : Type := {
  listdir : string -> result (list string);
  stat : string -> result FileType;
}.

(** [Path.iterdir] *)
Definition iterdir (fs : FileSystem) (p : Path) : result (list Path) :=
  rbind (listdir fs (str p)) (fun names => Ok (map (joinpath p) names)).

(** [Path.is_file] *)
Definition is_file (fs : FileSystem) (p : Path) : result bool :=
  rbind (stat fs (str p)) (fun t =>
  Ok match t with Regular => true | _ => false end).

(** [Path.is_dir] *)
Definition is_dir (fs : FileSystem) (p : Path) : result bool :=
  rbind (stat fs (str p)) (fun t =>
  Ok match t with Directory => true | _ => false end).

(** [sorted(l, key=key)]: a stable sort on the keys, here by insertion from
    the right, which keeps equal keys in their order of arrival. *)
Section Sorted.
Context {A : Type} (key : A -> string).

Fixpoint insert_sorted (x : A) (l : list A) : list A :=
  match l with
  | [] => [x]
  | y :: l' =>
      if String.leb (key x) (key y) then x :: y :: l'
      else y :: insert_sorted x l'
  end.

Fixpoint sorted (l : list A) : list A :=
  match l with
  | [] => []
  | x :: l' => insert_sorted x (sorted l')
  end.
End Sorted.


(** ** Names without regard to case

    What the specification calls the case-insensitive order of names, and
    names that are equal up to case, written without the sort key of the
    code. *)


(** The same character, or the same letter in its two cases. *)
Definition same_letter (a b : ascii) : bool :=
  Ascii.eqb a b
  || (is_upper a && Ascii.eqb b (ascii_of_N (N_of_ascii a + 32)))
  || (is_upper b && Ascii.eqb a (ascii_of_N (N_of_ascii b + 32))).

Fixpoint eq_nocase (s t : string) : bool :=
  match s, t with
  | EmptyString, EmptyString => true
  | String a s', String b t' => same_letter a b && eq_nocase s' t'
  | _, _ => false
  end.

(** The names of a listing are ASCII. *)
Definition ascii_names (names : list string) : Prop :=
  Forall (fun n => is_ascii n = true) names.

(** ** Constants of the module *)

Definition THUMB_SIZE : Z := 192.
Definition THUMB_PADDING : Z := 8.
Definition SIDEBAR_WIDTH : Z := 320.
Definition SUPPORTED_EXT : list string :=
  [".jpg"; ".jpeg"; ".png"; ".bmp"; ".gif"; ".tif"; ".tiff"; ".webp"].

(** [x in SUPPORTED_EXT] *)
Definition in_supported (s : string) : bool :=
  existsb (String.eqb s) SUPPORTED_EXT.

(** ** The scanner *)

(** [is_image_file] (main.py 37-38):
    [p.is_file() and p.suffix.lower() in SUPPORTED_EXT] *)
Definition is_image_file (fs : FileSystem) (p : Path) : result bool :=
  rbind (is_file fs p) (fun b =>
  if b then Ok (in_supported (lower (suffix p))) else Ok false).

(** The sort key [lambda x: x.name.lower()]. *)
Definition name_key (x : Path) : string := lower (name x).

(** [list_subdirs] (main.py 41-45): the directories are picked first, then
    sorted. *)
Definition list_subdirs (fs : FileSystem) (p : Path) : result (list Path) :=
  try_except
    (rbind (iterdir fs p) (fun xs =>
     rbind (filter_raising (is_dir fs) xs) (fun ds =>
     Ok (sorted name_key ds))))
    (fun _ => Ok []).

(** [list_images] (main.py 48-52): the children are sorted first, then the
    image files are picked and turned into strings. *)
Definition list_images (fs : FileSystem) (p : Path) : result (list string) :=
  try_except
    (rbind (iterdir fs p) (fun xs =>
     rbind (filter_raising (is_image_file fs) (sorted name_key xs)) (fun imgs =>
     Ok (map str imgs))))
    (fun _ => Ok []).

(** ** The layout *)

(** [compute_columns] (main.py 88-89) *)
Definition compute_columns (avail_w : Z) : Z :=
  Z.max 1 (avail_w / (THUMB_SIZE + THUMB_PADDING)).

(** ** Dear PyGui

    DPG keeps a registry of items.  An item has a tag (generated integer or
    alias string), a parent and a kind with its configuration; the children
    of a container are the items that name it as parent, in creation order.
    The [with dpg.xxx(...):] blocks of the source push the new container on
    DPG's container stack, so an item created inside a block without
    [parent=] has the innermost enclosing container as parent: the model
    writes that parent out. *)

Inductive tag : Type :=
| IntTag (n : Z)
| StrTag (s : string).

Global Instance tag_eq_dec : EqDecision tag.
Proof. solve_decision. Defined.

Inductive ItemKind : Type :=
| Window (width height : Z)
| ChildWindow
| TextureRegistry
| TreeNode (label : string)
| Table
| TableColumn (init_width : Z)
| TableRow
| TableCell
| Group
| Text (value : string)
| Button (label : string) (user_data : option string)
| ImageButton (texture_tag : tag)
| StaticTexture (width height : Z) (data : list Z)
| ItemHandlerRegistry
| DoubleClickedHandler (user_data : string).

Record Item : Type := mkItem {
  item_tag : tag;
  item_parent : option tag;
  item_kind : ItemKind;
}.

Record Dpg : Type := mkDpg {
  next_id : positive;               (* the counter behind generate_uuid *)
  items : list Item;                (* the registry, in creation order *)
  bound : list (tag * tag);         (* item -> handler registry, newest first *)
}.

(** The result of [Image.open], [thumbnail] and [pil_to_dpg]: a size and the
    RGBA bytes (the division by 255.0 is not modelled). *)
Record Image : Type := mkImage {
  img_width : Z;
  img_height : Z;
  img_data : list Z;
}.

(** ** The module state, the outside world and the machine *)

Record State : Type := mkState {
  root_dir : string;
  current_dir : string;
  images_in_dir : list string;
  thumb_tex : gmap string tag;
  thumb_items : list tag;
  grid_table : option tag;
  grid_child : option tag;
  texreg : tag;
  frames : Z;
}.

(** What is fixed when the module is imported. *)
Record Config : Type := mkConfig {
  PIL_OK : bool;
  platform : string;          (* sys.platform *)
  executable : string;        (* sys.executable *)
  script : string;            (* os.path.abspath(__file__) *)
}.

(** What the outside world answers at the time of one event. *)
Record Env : Type := mkEnv {
  fs : FileSystem;
  load_thumbnail : string -> result Image;   (* lines 71-73 of thumb_for *)
  rect_width : tag -> Z;                     (* get_item_rect_size(t)[0] *)
  spawn_errno : list string -> option Z;     (* why Popen(argv) fails *)
  startfile_errno : string -> option Z;      (* why os.startfile fails *)
}.

(** Calls that leave the process. *)
Inductive Call : Type :=
| ImageOpen (path : string)
| Popen (argv : list string)
| Startfile (path : string).

Record Machine : Type := mkMachine {
  state : State;
  dpg : Dpg;
  trace : list Call;
}.

(** Stateful code that may raise: the machine survives the exception, as
    the Python heap does. *)
Definition M (A : Type) : Type := Machine -> result A * Machine.

Definition ret {A} (a : A) : M A := fun m => (Ok a, m).
Definition raise {A} (e : exn) : M A := fun m => (Raise e, m).
Definition lift {A} (r : result A) : M A := fun m => (r, m).
Definition bind {A B} (c : M A) (k : A -> M B) : M B :=
  fun m =>
    match c m with
    | (Ok a, m') => k a m'
    | (Raise e, m') => (Raise e, m')
    end.

(** [try: c except Exception: h] *)
Definition try_catch {A} (c : M A) (h : exn -> M A) : M A :=
  fun m =>
    match c m with
    | (Ok a, m') => (Ok a, m')
    | (Raise e, m') => h e m'
    end.

Notation "'let*' x := c 'in' k" := (bind c (fun x => k))
  (at level 10, x pattern, c at level 100, k at level 200).

Definition exec {A} (c : M A) (m : Machine) : Machine := snd (c m).
Definition eval {A} (c : M A) (m : Machine) : result A := fst (c m).

(** [for x in l: body(x)] *)
Fixpoint for_each {A} (l : list A) (body : A -> M unit) : M unit :=
  match l with
  | [] => ret tt
  | x :: l' => let* _ := body x in for_each l' body
  end.

Definition get_state : M State := fun m => (Ok (state m), m).
Definition get_dpg : M Dpg := fun m => (Ok (dpg m), m).
Definition log (c : Call) : M unit :=
  fun m => (Ok tt, mkMachine (state m) (dpg m) (trace m ++ [c])).

(** *** Assignments to the keys of [state] *)

Definition set_root_dir (v : string) (s : State) : State :=
  mkState v (current_dir s) (images_in_dir s) (thumb_tex s) (thumb_items s)
          (grid_table s) (grid_child s) (texreg s) (frames s).
Definition set_current_dir (v : string) (s : State) : State :=
  mkState (root_dir s) v (images_in_dir s) (thumb_tex s) (thumb_items s)
          (grid_table s) (grid_child s) (texreg s) (frames s).
Definition set_images_in_dir (v : list string) (s : State) : State :=
  mkState (root_dir s) (current_dir s) v (thumb_tex s) (thumb_items s)
          (grid_table s) (grid_child s) (texreg s) (frames s).
Definition set_thumb_tex (v : gmap string tag) (s : State) : State :=
  mkState (root_dir s) (current_dir s) (images_in_dir s) v (thumb_items s)
          (grid_table s) (grid_child s) (texreg s) (frames s).
Definition set_thumb_items (v : list tag) (s : State) : State :=
  mkState (root_dir s) (current_dir s) (images_in_dir s) (thumb_tex s) v
          (grid_table s) (grid_child s) (texreg s) (frames s).
Definition set_grid_table (v : option tag) (s : State) : State :=
  mkState (root_dir s) (current_dir s) (images_in_dir s) (thumb_tex s)
          (thumb_items s) v (grid_child s) (texreg s) (frames s).

Definition modify_state (f : State -> State) : M unit :=
  fun m => (Ok tt, mkMachine (f (state m)) (dpg m) (trace m)).

(** *** The DPG calls the program makes

    A call that names an item that is not in the registry raises and
    leaves the registry as it is. *)

Definition has_tag (t : tag) (it : Item) : bool :=
  bool_decide (item_tag it = t).

Definition has_parent (t : tag) (it : Item) : bool :=
  bool_decide (item_parent it = Some t).

Definition item_exists (d : Dpg) (t : tag) : bool :=
  existsb (has_tag t) (items d).

Definition does_item_exist (t : tag) : M bool :=
  fun m => (Ok (item_exists (dpg m) t), m).

(** The items that need no parent. *)
Definition is_root (k : ItemKind) : bool :=
  match k with
  | Window _ _ | TextureRegistry | ItemHandlerRegistry => true
  | _ => false
  end.

(** DPG takes a new item when its parent exists, or when it needs none;
    the texture of an image button has to exist too. *)
Definition accepts (d : Dpg) (parent : option tag) (k : ItemKind) : bool :=
  match parent with
  | Some p => item_exists d p
  | None => is_root k
  end
  && match k with
     | ImageButton t => item_exists d t
     | _ => true
     end.

(** Every [dpg.add_*] without [tag=] takes the next generated id; DPG counts
    them upwards and never hands out 0, which stands for "no tag". *)
Definition add_item (parent : option tag) (k : ItemKind) : M tag :=
  fun m =>
    let d := dpg m in
    let t := IntTag (Z.pos (next_id d)) in
    if accepts d parent k
    then (Ok t, mkMachine (state m)
                  (mkDpg (next_id d + 1) (items d ++ [mkItem t parent k]) (bound d))
                  (trace m))
    else (Raise DpgError, m).

Definition bind_item_handler_registry (item registry : tag) : M unit :=
  fun m =>
    let d := dpg m in
    if item_exists d item && item_exists d registry
    then (Ok tt, mkMachine (state m)
                   (mkDpg (next_id d) (items d) ((item, registry) :: bound d))
                   (trace m))
    else (Raise DpgError, m).

(** [dpg.delete_item(t)] removes [t] and everything below it.  Parents are
    created before their children, so one pass in creation order finds all
    the descendants. *)
Fixpoint delete_from (dead : list tag) (l : list Item) : list Item :=
  match l with
  | [] => []
  | it :: l' =>
      if bool_decide (item_tag it ∈ dead)
         || match item_parent it with
            | Some p => bool_decide (p ∈ dead)
            | None => false
            end
      then delete_from (item_tag it :: dead) l'
      else it :: delete_from dead l'
  end.

Definition delete_item (t : tag) : M unit :=
  fun m =>
    let d := dpg m in
    if item_exists d t
    then (Ok tt, mkMachine (state m)
                   (mkDpg (next_id d) (delete_from [t] (items d)) (bound d))
                   (trace m))
    else (Raise DpgError, m).

(** [dpg.configure_item] and [dpg.set_value]: the item with that tag gets a
    new configuration. *)
Definition update_item (t : tag) (f : ItemKind -> ItemKind) : M unit :=
  fun m =>
    let d := dpg m in
    if item_exists d t
    then (Ok tt, mkMachine (state m)
                   (mkDpg (next_id d)
                      (map (fun it => if has_tag t it
                                      then mkItem (item_tag it) (item_parent it)
                                                  (f (item_kind it))
                                      else it) (items d))
                      (bound d))
                   (trace m))
    else (Raise DpgError, m).

Definition children (d : Dpg) (t : tag) : list Item :=
  List.filter (has_parent t) (items d).

(** [dpg.get_item_children(t, 1)] *)
Definition get_item_children (t : tag) : M (list tag) :=
  fun m =>
    if item_exists (dpg m) t
    then (Ok (map item_tag (children (dpg m) t)), m)
    else (Raise DpgError, m).

(** [dpg.get_item_rect_size(t)[0]] *)
Definition get_item_rect_width (env : Env) (t : tag) : M Z :=
  fun m =>
    if item_exists (dpg m) t
    then (Ok (rect_width env t), m)
    else (Raise DpgError, m).

(** Python truthiness of the values the program tests. *)
Definition truthy_int (n : Z) : bool := negb (n =? 0)%Z.
Definition truthy_tag (t : tag) : bool :=
  match t with
  | IntTag n => truthy_int n
  | StrTag s => negb (String.eqb s EmptyString)
  end.
Definition truthy_opt {A} (truthy : A -> bool) (o : option A) : bool :=
  match o with
  | Some a => truthy a
  | None => false
  end.

(** ** The thumbnail cache *)

(** [thumb_for] (main.py 62-78).  A cached value is returned when Python
    takes it for true; otherwise the image is opened, and either a texture
    is registered and cached, or the exception is swallowed. *)
Definition thumb_for (cfg : Config) (env : Env) (path : string) : M (option tag) :=
  if negb (PIL_OK cfg) then ret None
  else
    let* st := get_state in
    let tex := thumb_tex st !! path in
    if truthy_opt truthy_tag tex then ret tex
    else
      try_catch
        (let* _ := log (ImageOpen path) in
         let* im := lift (load_thumbnail env path) in
         let* tex := add_item (Some (texreg st))
                       (StaticTexture (img_width im) (img_height im) (img_data im)) in
         let* _ := modify_state (fun s => set_thumb_tex (<[path := tex]> (thumb_tex s)) s) in
         ret (Some tex))
        (fun _ => ret None).

(** ** The layout, continued *)

(** [available_grid_width] (main.py 81-85) *)
Definition available_grid_width (env : Env) : M Z :=
  let* st := get_state in
  match grid_child st with
  | Some gc =>
      if truthy_tag gc
      then let* w := get_item_rect_width env gc in
           ret (if (w >? 0)%Z then w else 800)
      else ret 800
  | None => ret 800
  end.

(** ** The viewer launcher *)

(** [subprocess.Popen(argv)] *)
Definition popen (env : Env) (argv : list string) : M unit :=
  let* _ := log (Popen argv) in
  match spawn_errno env argv with
  | Some errno => raise (SpawnError argv errno)
  | None => ret tt
  end.

(** [os.startfile(path)] *)
Definition startfile (env : Env) (path : string) : M unit :=
  let* _ := log (Startfile path) in
  match startfile_errno env path with
  | Some errno => raise (StartfileError path errno)
  | None => ret tt
  end.

(** [open_system_viewer] (main.py 92-98) *)
Definition open_system_viewer (cfg : Config) (env : Env) (image_path : string) : M unit :=
  if String.prefix "win" (platform cfg) then startfile env image_path
  else if String.eqb (platform cfg) "darwin" then popen env ["open"; image_path]
  else popen env ["xdg-open"; image_path].

(** [launch_viewer] (main.py 101-105) *)
Definition launch_viewer (cfg : Config) (env : Env) (image_path : string) : M unit :=
  try_catch
    (popen env [executable cfg; script cfg; "--view"; image_path])
    (fun _ => open_system_viewer cfg env image_path).

(** ** Callbacks and directory loading *)

(** [on_thumb_double] (main.py 133-135) *)
Definition on_thumb_double (cfg : Config) (env : Env) (user_data : string) : M unit :=
  launch_viewer cfg env user_data.

(** The configuration changes the program asks for: [set_value] of a text,
    [configure_item(label=...)] and [configure_item(width=..., height=...)]. *)
Definition set_text_value (v : string) (k : ItemKind) : ItemKind :=
  match k with
  | Text _ => Text v
  | _ => k
  end.

Definition set_label (v : string) (k : ItemKind) : ItemKind :=
  match k with
  | TreeNode _ => TreeNode v
  | Button _ ud => Button v ud
  | _ => k
  end.

Definition set_size (w h : Z) (k : ItemKind) : ItemKind :=
  match k with
  | Window _ _ => Window w h
  | _ => k
  end.

(** [load_directory_images] (main.py 145-148) *)
Definition load_directory_images (env : Env) (path : string) : M unit :=
  let* _ := modify_state (set_current_dir path) in
  let* imgs := lift (list_images (fs env) (Path_of path)) in
  let* _ := modify_state (set_images_in_dir imgs) in
  update_item (StrTag "path_label") (set_text_value path).

(** [rebuild_sidebar_tree] (main.py 151-162) *)
Definition rebuild_sidebar_tree (env : Env) : M unit :=
  let* st := get_state in
  let* _ := try_catch
              (update_item (StrTag "sidebar_tree")
                           (set_label (name (Path_of (root_dir st)))))
              (fun _ => ret tt) in
  let* kids := get_item_children (StrTag "sidebar_tree") in
  let* _ := for_each kids delete_item in
  let root := Path_of (root_dir st) in
  let* subs := lift (list_subdirs (fs env) root) in
  for_each subs (fun sub =>
    let* nid := add_item (Some (StrTag "sidebar_tree")) (TreeNode (name sub)) in
    let* _ := add_item (Some nid) (Button "Open folder" (Some (str sub))) in
    ret tt).

(** [clear_grid_items] (main.py 165-172) *)
Definition clear_grid_items : M unit :=
  let* st := get_state in
  let* _ := for_each (thumb_items st) (fun it =>
              let* ex := does_item_exist it in
              if ex then delete_item it else ret tt) in
  let* _ := modify_state (set_thumb_items []) in
  match grid_table st with
  | Some t =>
      if truthy_tag t
      then
        let* ex := does_item_exist t in
        if ex
        then let* _ := delete_item t in modify_state (set_grid_table None)
        else ret tt
      else ret tt
  | None => ret tt
  end.

(** [state["thumb_items"].append(x)] *)
Definition append_thumb_item (x : tag) : M unit :=
  modify_state (fun s => set_thumb_items (thumb_items s ++ [x]) s).

(** The body of [for i, p in enumerate(imgs)], with the loop variable [row]
    threaded through. *)
Fixpoint grid_loop (cfg : Config) (env : Env) (table_id : tag) (cols : Z)
         (i : Z) (row : option tag) (imgs : list string) : M unit :=
  match imgs with
  | [] => ret tt
  | p :: rest =>
      let* row := (if (i mod cols =? 0)%Z
                   then let* r := add_item (Some table_id) TableRow in ret (Some r)
                   else ret row) in
      let* cell := add_item row TableCell in
      let* tex := thumb_for cfg env p in
      let* g := add_item (Some cell) Group in
      let* btn := match tex with
                  | Some t =>
                      if truthy_tag t
                      then add_item (Some g) (ImageButton t)
                      else add_item (Some g) (Button "Open" None)
                  | None => add_item (Some g) (Button "Open" None)
                  end in
      let* ihr := add_item None ItemHandlerRegistry in
      let* _ := add_item (Some ihr) (DoubleClickedHandler p) in
      let* _ := bind_item_handler_registry btn ihr in
      let* _ := append_thumb_item ihr in
      let* _ := add_item (Some g) (Text (basename p)) in
      let* _ := append_thumb_item g in
      grid_loop cfg env table_id cols (i + 1) row rest
  end.

(** The text of the lone cell (main.py 196). *)
Definition no_images_message (cfg : Config) : string :=
  if PIL_OK cfg then "No images in this folder."
  else "Pillow not installed. Thumbs disabled.".

(** [build_thumbnail_grid] (main.py 175-216) *)
Definition build_thumbnail_grid (cfg : Config) (env : Env) : M unit :=
  let* _ := clear_grid_items in
  let* w := available_grid_width env in
  let cols := compute_columns w in
  let* st := get_state in
  let* table_id := add_item (grid_child st) Table in
  let* _ := modify_state (set_grid_table (Some table_id)) in
  let* _ := for_each (repeat tt (Z.to_nat cols)) (fun _ =>
              let* _ := add_item (Some table_id)
                          (TableColumn (THUMB_SIZE + THUMB_PADDING)) in
              ret tt) in
  let* st := get_state in
  let imgs := images_in_dir st in
  match imgs with
  | [] =>
      let* row := add_item (Some table_id) TableRow in
      let* cell := add_item (Some row) TableCell in
      let* t := add_item (Some cell) (Text (no_images_message cfg)) in
      append_thumb_item t
  | _ :: _ => grid_loop cfg env table_id cols 0 None imgs
  end.

(** [on_folder_click] (main.py 128-130) *)
Definition on_folder_click (cfg : Config) (env : Env) (user_data : string) : M unit :=
  let* _ := load_directory_images env user_data in
  build_thumbnail_grid cfg env.

(** [set_root_directory] (main.py 138-142) *)
Definition set_root_directory (cfg : Config) (env : Env) (path : string) : M unit :=
  let* _ := modify_state (set_root_dir path) in
  let* _ := load_directory_images env path in
  let* _ := rebuild_sidebar_tree env in
  build_thumbnail_grid cfg env.

(** [app_data[i]] *)
Definition index {A} (l : list A) (i : nat) : M A :=
  match nth_error l i with
  | Some a => ret a
  | None => raise IndexError
  end.

(** [resize_callback] (main.py 218-224): [app_data] is what DPG passes, the
    sizes of the viewport. *)
Definition resize_callback (cfg : Config) (env : Env) (app_data : list Z) : M unit :=
  let* size := try_catch
                 (let* width := index app_data 0 in
                  let* height := index app_data 1 in
                  ret (Some (width, height)))
                 (fun _ => ret None) in
  match size with
  | None => ret tt
  | Some (width, height) =>
      let* _ := update_item (StrTag "main_window") (set_size width (height - 30)) in
      build_thumbnail_grid cfg env
  end.

(** ** What the program does between two redraws

    DPG calls one callback at a time; an exception that leaves a callback is
    printed by DPG and the program goes on with the heap as it is. *)

Inductive Event : Type :=
| ThumbRequested (path : string)        (* thumb_for(path) *)
| FolderClicked (user_data : string)    (* on_folder_click *)
| ThumbDoubleClicked (user_data : string)
| RootChosen (path : string)            (* set_root_directory *)
| Resized (app_data : list Z)           (* resize_callback *)
| WidthChanged.                         (* the render loop rebuilds the grid *)

Definition handle (cfg : Config) (env : Env) (ev : Event) : M unit :=
  match ev with
  | ThumbRequested p => let* _ := thumb_for cfg env p in ret tt
  | FolderClicked p => on_folder_click cfg env p
  | ThumbDoubleClicked p => on_thumb_double cfg env p
  | RootChosen p => set_root_directory cfg env p
  | Resized a => resize_callback cfg env a
  | WidthChanged => build_thumbnail_grid cfg env
  end.

(** Each event comes with the outside world of its moment. *)
Fixpoint run (cfg : Config) (evs : list (Env * Event)) (m : Machine) : Machine :=
  match evs with
  | [] => m
  | (env, ev) :: evs' => run cfg evs' (exec (handle cfg env ev) m)
  end.


(** ** Vocabulary of the properties *)

(** The children of [p] for a listing [names]. *)
Definition entries (p : Path) (names : list string) : list Path :=
  map (joinpath p) names.

Definition is_regular (fs : FileSystem) (x : Path) : bool :=
  match stat fs (str x) with
  | Ok Regular => true
  | _ => false
  end.

Definition is_directory (fs : FileSystem) (x : Path) : bool :=
  match stat fs (str x) with
  | Ok Directory => true
  | _ => false
  end.

Definition has_supported_ext (x : Path) : bool :=
  in_supported (lower (suffix x)).

Definition stat_ok (fs : FileSystem) (x : Path) : Prop :=
  exists t, stat fs (str x) = Ok t.


(** A computation keeps a relation on the module state when the state after
    it is related to the state before it, whether it returns or raises. *)
Definition keeps {A} (Rs : State -> State -> Prop) (c : M A) : Prop :=
  forall m, Rs (state m) (state (exec c m)).

(** The cache only grows: an entry that holds a tag stays as it is. *)
Definition cache_grows (s s' : State) : Prop :=
  forall p t, thumb_tex s !! p = Some t -> truthy_tag t = true ->
              thumb_tex s' !! p = Some t.

(** Every handle of the cache that Python takes for true names an item of
    the registry. *)
Definition cache_registered (m : Machine) : Prop :=
  forall p t, thumb_tex (state m) !! p = Some t -> truthy_tag t = true ->
              item_exists (dpg m) t = true.

(** The selected directory and its stored image list are the same. *)
Definition same_directory (s s' : State) : Prop :=
  current_dir s' = current_dir s /\ images_in_dir s' = images_in_dir s.

(** The command line of the viewer process. *)
Definition viewer_argv (cfg : Config) (image_path : string) : list string :=
  [executable cfg; script cfg; "--view"; image_path].

(** The call by which the operating system opens a file. *)
Definition system_open_call (cfg : Config) (image_path : string) : Call :=
  if String.prefix "win" (platform cfg) then Startfile image_path
  else if String.eqb (platform cfg) "darwin" then Popen ["open"; image_path]
  else Popen ["xdg-open"; image_path].

(** The same outside world with another filesystem. *)
Definition with_fs (fs' : FileSystem) (env : Env) : Env :=
  mkEnv fs' (load_thumbnail env) (rect_width env) (spawn_errno env)
        (startfile_errno env).

Definition is_resize (e : Env * Event) : Prop :=
  match snd e with
  | Resized _ => True
  | _ => False
  end.

(** ** Reading the grid off the DPG registry *)

Definition is_row (k : ItemKind) : bool :=
  match k with TableRow => true | _ => false end.
Definition is_cell (k : ItemKind) : bool :=
  match k with TableCell => true | _ => false end.
Definition is_column (k : ItemKind) : bool :=
  match k with TableColumn _ => true | _ => false end.
Definition is_group (k : ItemKind) : bool :=
  match k with Group => true | _ => false end.
Definition is_button (k : ItemKind) : bool :=
  match k with Button _ _ | ImageButton _ => true | _ => false end.
Definition is_text (k : ItemKind) : bool :=
  match k with Text _ => true | _ => false end.
Definition is_handler (k : ItemKind) : bool :=
  match k with DoubleClickedHandler _ => true | _ => false end.

(** The children of [t] of one kind, in creation order. *)
Definition select (P : ItemKind -> bool) (t : tag) (l : list Item) : list Item :=
  List.filter (fun it => P (item_kind it) && has_parent t it) l.

Definition children_where (P : ItemKind -> bool) (d : Dpg) (t : tag) : list Item :=
  select P t (items d).

Definition table_columns (d : Dpg) (t : tag) : list tag :=
  map item_tag (children_where is_column d t).
Definition table_rows (d : Dpg) (t : tag) : list tag :=
  map item_tag (children_where is_row d t).
Definition row_cells (d : Dpg) (r : tag) : list tag :=
  map item_tag (children_where is_cell d r).
Definition cell_groups (d : Dpg) (c : tag) : list tag :=
  map item_tag (children_where is_group d c).

Definition text_value (k : ItemKind) : string :=
  match k with Text v => v | _ => EmptyString end.
Definition handler_data (k : ItemKind) : string :=
  match k with DoubleClickedHandler ud => ud | _ => EmptyString end.

Definition texts_of (d : Dpg) (t : tag) : list string :=
  map (fun it => text_value (item_kind it)) (children_where is_text d t).
Definition double_click_data (d : Dpg) (registry : tag) : list string :=
  map (fun it => handler_data (item_kind it)) (children_where is_handler d registry).

(** The handler registry bound to an item: the latest binding counts. *)
Fixpoint assoc (t : tag) (l : list (tag * tag)) : option tag :=
  match l with
  | [] => None
  | (a, b) :: l' => if bool_decide (a = t) then Some b else assoc t l'
  end.

(** What a table cell shows. *)
Inductive CellView : Type :=
| InfoCell (msg : string)
| ThumbCell (button : ItemKind) (user_data : string) (caption : string)
| OtherCell.

Definition cell_view (d : Dpg) (c : tag) : CellView :=
  match cell_groups d c, texts_of d c with
  | [], [msg] => InfoCell msg
  | [g], [] =>
      match children_where is_button d g, texts_of d g with
      | [b], [caption] =>
          match assoc (item_tag b) (bound d) with
          | Some registry =>
              match double_click_data d registry with
              | [ud] => ThumbCell (item_kind b) ud caption
              | _ => OtherCell
              end
          | None => OtherCell
          end
      | _, _ => OtherCell
      end
  | _, _ => OtherCell
  end.

(** The cells of a table, row by row. *)
Definition grid_cells (d : Dpg) (t : tag) : list (list tag) :=
  map (row_cells d) (table_rows d t).

Definition grid_view (d : Dpg) (t : tag) : list (list CellView) :=
  map (map (cell_view d)) (grid_cells d t).

(** A cell shows the image [p]: one button, which on a double click opens
    [p], above the file name. *)
Definition shows (p : string) (v : CellView) : Prop :=
  exists b, v = ThumbCell b p (basename p) /\ is_button b = true.

(** [ceil(n / c)] *)
Definition ceil_div (n c : Z) : Z := (n + c - 1) / c.

(** ** Well-formed registries *)

Definition tag_below (n : positive) (t : tag) : bool :=
  match t with
  | IntTag k => (k <? Z.pos n)%Z
  | StrTag _ => true
  end.

(** The kinds a table is made of. *)
Definition grid_kind (k : ItemKind) : bool :=
  is_column k || is_row k || is_cell k || is_group k || is_button k
  || is_text k || is_handler k.

Definition item_below (n : positive) (it : Item) : bool :=
  tag_below n (item_tag it)
  && match item_parent it with
     | Some p => negb (grid_kind (item_kind it)) || tag_below n p
     | None => true
     end.

Definition binding_below (n : positive) (ab : tag * tag) : bool :=
  tag_below n (fst ab) && tag_below n (snd ab).

(** The ids that DPG has handed out are below its counter, and what a table
    is made of hangs below an item that has been created. *)
Definition wf_dpg (d : Dpg) : Prop :=
  forallb (item_below (next_id d)) (items d) = true /\
  forallb (binding_below (next_id d)) (bound d) = true.

(** A computation keeps the DPG registry well formed. *)
Definition keeps_wf {A} (c : M A) : Prop :=
  forall m, wf_dpg (dpg m) -> wf_dpg (dpg (exec c m)).

(** ** The loop of [build_thumbnail_grid], turn by turn *)

(** What [thumb_for] registers. *)
Definition is_texture (k : ItemKind) : bool :=
  match k with StaticTexture _ _ _ => true | _ => false end.

(** What makes up the inside of a cell. *)
Definition grid_inner (k : ItemKind) : bool :=
  is_group k || is_button k || is_text k || is_handler k.

(** The button of a cell, by what [thumb_for] returned. *)
Definition thumb_button (tex : option tag) : ItemKind :=
  match tex with
  | Some t => if truthy_tag t then ImageButton t else Button "Open" None
  | None => Button "Open" None
  end.

(** The items that one turn of the loop of [build_thumbnail_grid] creates
    in the cell [cell] once the thumbnail is there, when DPG's counter is at
    [n]: the group, the button, the handler registry with its double-click
    handler, and the caption. *)
Definition thumb_cell_items (n : positive) (cell : tag) (button : ItemKind)
           (p : string) : list Item :=
  [ mkItem (IntTag (Z.pos n)) (Some cell) Group;
    mkItem (IntTag (Z.pos (n + 1))) (Some (IntTag (Z.pos n))) button;
    mkItem (IntTag (Z.pos (n + 1 + 1))) None ItemHandlerRegistry;
    mkItem (IntTag (Z.pos (n + 1 + 1 + 1))) (Some (IntTag (Z.pos (n + 1 + 1))))
           (DoubleClickedHandler p);
    mkItem (IntTag (Z.pos (n + 1 + 1 + 1 + 1))) (Some (IntTag (Z.pos n)))
           (Text (basename p)) ].

(** The machine one turn of the loop leaves, from the machine [m] that
    [thumb_for] left. *)
Definition filled_cell_machine (cell : tag) (p : string)
           (button : ItemKind) (m : Machine) : Machine :=
  let n := next_id (dpg m) in
  mkMachine
    (set_thumb_items
       ((thumb_items (state m) ++ [IntTag (Z.pos (n + 1 + 1))])
          ++ [IntTag (Z.pos n)]) (state m))
    (mkDpg (n + 1 + 1 + 1 + 1 + 1)
           (((((items (dpg m)
                ++ [mkItem (IntTag (Z.pos n)) (Some cell) Group])
                ++ [mkItem (IntTag (Z.pos (n + 1))) (Some (IntTag (Z.pos n))) button])
                ++ [mkItem (IntTag (Z.pos (n + 1 + 1))) None ItemHandlerRegistry])
                ++ [mkItem (IntTag (Z.pos (n + 1 + 1 + 1)))
                           (Some (IntTag (Z.pos (n + 1 + 1))))
                           (DoubleClickedHandler p)])
                ++ [mkItem (IntTag (Z.pos (n + 1 + 1 + 1 + 1)))
                           (Some (IntTag (Z.pos n))) (Text (basename p))])
           ((IntTag (Z.pos (n + 1)), IntTag (Z.pos (n + 1 + 1))) :: bound (dpg m)))
    (trace m).

(** The row and the cell that a turn of the loop creates first, when DPG's
    counter is at [n]: a new row when [newrow], and a cell in the current
    row. *)
Definition next_row (newrow : bool) (n : positive) (row : option tag) : option tag :=
  if newrow then Some (IntTag (Z.pos n)) else row.

Definition cell_id (newrow : bool) (n : positive) : positive :=
  if newrow then (n + 1)%positive else n.

Definition row_and_cell (newrow : bool) (n : positive) (t : tag)
           (row : option tag) : list Item :=
  (if newrow then [mkItem (IntTag (Z.pos n)) (Some t) TableRow] else [])
  ++ [mkItem (IntTag (Z.pos (cell_id newrow n))) (next_row newrow n row) TableCell].

(** The registry after a turn of the loop: the row and the cell, what
    [thumb_for] added, and the inside of the cell. *)
Definition dpg_after_turn (d : Dpg) (newrow : bool) (t : tag) (row : option tag)
           (T : list Item) (n3 : positive) (button : ItemKind) (p : string) : Dpg :=
  mkDpg (n3 + 1 + 1 + 1 + 1 + 1)
        (items d ++ row_and_cell newrow (next_id d) t row ++ T
           ++ thumb_cell_items n3 (IntTag (Z.pos (cell_id newrow (next_id d)))) button p)
        ((IntTag (Z.pos (n3 + 1)), IntTag (Z.pos (n3 + 1 + 1))) :: bound d).

(** What holds of the table [t] when the loop of [build_thumbnail_grid] has
    placed the images [done], [i] of them, with [c] columns: the table has
    its [c] columns, the rows but the last are full, the last one holds the
    rest, the loop variable is the last row, and the cells show the images
    in order. *)
Definition grid_inv (c : Z) (t : tag) (d : Dpg) (i : Z) (row : option tag)
           (done : list string) : Prop :=
  wf_dpg d /\ tag_below (next_id d) t = true /\
  Z.of_nat (List.length (table_columns d t)) = c /\
  i = Z.of_nat (List.length done) /\
  ((done = [] /\ table_rows d t = []) \/
   (exists R0 r,
       done <> [] /\ table_rows d t = R0 ++ [r] /\ row = Some r /\ ~ In r R0 /\
       Forall (fun r0 => Z.of_nat (List.length (row_cells d r0)) = c) R0 /\
       Z.of_nat (List.length R0) = (i - 1) / c /\
       Z.of_nat (List.length (row_cells d r)) = (i - 1) mod c + 1 /\
       Forall2 (fun p cl => shows p (cell_view d cl)) done
               (concat (map (row_cells d) R0) ++ row_cells d r))).

(** ** Sample worlds *)

(** A directory [/pics] that holds the files [b.PNG], [a.jpg] and [c.txt],
    listed in that order, and nothing else. *)
Definition pics_fs : FileSystem := {|
  listdir := fun d =>
    if String.eqb d "/pics" then Ok ["b.PNG"; "a.jpg"; "c.txt"]
    else Raise (FileNotFoundError d);
  stat := fun s =>
    if String.eqb s "/pics" then Ok Directory
    else if String.prefix "/pics/" s then Ok Regular
    else Ok Other
|}.

(** A directory [/album] with the sub-directories [Zoo] and [alps], the
    files [Cover.JPG] and [notes.txt], and a dangling link [back.png]. *)
Definition album_fs : FileSystem := {|
  listdir := fun d =>
    if String.eqb d "/album"
    then Ok ["Zoo"; "notes.txt"; "back.png"; "alps"; "Cover.JPG"]
    else Raise (FileNotFoundError d);
  stat := fun s =>
    if String.eqb s "/album" || String.eqb s "/album/Zoo"
       || String.eqb s "/album/alps"
    then Ok Directory
    else if String.eqb s "/album/Cover.JPG" || String.eqb s "/album/notes.txt"
    then Ok Regular
    else Ok Other
|}.

(** A directory [/home] that holds a dotfile named [.jpg] next to
    [x.jpg]. *)
Definition dotfile_fs : FileSystem := {|
  listdir := fun d =>
    if String.eqb d "/home" then Ok [".jpg"; "x.jpg"]
    else Raise (FileNotFoundError d);
  stat := fun s =>
    if String.eqb s "/home" then Ok Directory
    else if String.prefix "/home/" s then Ok Regular
    else Ok Other
|}.



(** The items with an alias that [build_ui] creates. *)
Definition ui_items : list Item := [
  mkItem (StrTag "texreg") None TextureRegistry;
  mkItem (StrTag "main_window") None (Window 900 820);
  mkItem (StrTag "path_label") (Some (StrTag "main_window")) (Text "/pics");
  mkItem (StrTag "sidebar_tree") (Some (StrTag "main_window")) (TreeNode "Root");
  mkItem (StrTag "grid_child") (Some (StrTag "main_window")) ChildWindow
].

Definition start_state : State := {|
  root_dir := "/pics";
  current_dir := "/pics";
  images_in_dir := [];
  thumb_tex := ∅;
  thumb_items := [];
  grid_table := None;
  grid_child := Some (StrTag "grid_child");
  texreg := StrTag "texreg";
  frames := 0;
|}.

(** A machine just after [build_ui] created the static items. *)
Definition start_machine : Machine := {|
  state := start_state;
  dpg := mkDpg 30 ui_items [];
  trace := [];
|}.

Definition linux_cfg : Config := {|
  PIL_OK := true;
  platform := "linux";
  executable := "/usr/bin/python3";
  script := "/opt/gallery/main.py";
|}.

(** A world where every image decodes to a 2x1 thumbnail, the grid is 500
    pixels wide and every process starts. *)
Definition good_env : Env := {|
  fs := pics_fs;
  load_thumbnail := fun _ => Ok (mkImage 2 1 [0; 0; 0; 255; 255; 255; 255; 255]);
  rect_width := fun _ => 500;
  spawn_errno := fun _ => None;
  startfile_errno := fun _ => None;
|}.

(** The same world, except that no image decodes and that the Python
    interpreter cannot be started. *)
Definition bad_env : Env := {|
  fs := pics_fs;
  load_thumbnail := fun p => Raise (UnidentifiedImageError p);
  rect_width := fun _ => 500;
  spawn_errno := fun argv =>
    match argv with
    | "/usr/bin/python3" :: _ => Some 2
    | _ => None
    end;
  startfile_errno := fun _ => None;
|}.

(** A machine where [/pics] with five images is selected. *)
Definition five_images : list string :=
  ["/pics/a.jpg"; "/pics/b.PNG"; "/pics/c.gif"; "/pics/d.bmp"; "/pics/e.webp"].

Definition five_machine : Machine := {|
  state := set_images_in_dir five_images start_state;
  dpg := mkDpg 30 ui_items [];
  trace := [];
|}.

From Stdlib Require Import DecimalString.

(** * The rest of [main.py] *)

(** ** More vocabulary for the scanner *)

(** [s[:i]] *)
Definition take_string (i : nat) (s : string) : string := String.substring 0 i s.

(** A directory on a case-sensitive filesystem: names that differ in case
    only, and a directory named like an image. *)
Definition case_fs : FileSystem := {|
  listdir := fun d =>
    if String.eqb d "/mix"
    then Ok ["sub"; "b.png"; "A.JPG"; "dir.jpg"; "a.jpg"; "B.PNG"; "Sub"]
    else Raise (FileNotFoundError d);
  stat := fun s =>
    if String.eqb s "/mix" || String.eqb s "/mix/dir.jpg"
       || String.eqb s "/mix/Sub" || String.eqb s "/mix/sub"
    then Ok Directory
    else if String.prefix "/mix/" s then Ok Regular
    else Ok Other
|}.

(** ** The callbacks of the dialogs *)

Definition truthy_str (s : string) : bool := negb (String.eqb s EmptyString).

(** [os.path.isdir]: [False] also when the path cannot be examined. *)
Definition isdir (fs : FileSystem) (s : string) : bool :=
  match stat fs s with
  | Ok Directory => true
  | _ => false
  end.

(** [on_dir_chosen] (main.py 112-115); [app_data] is the dictionary that
    the file dialog passes. *)
Definition on_dir_chosen (cfg : Config) (env : Env)
           (app_data : gmap string string) : M unit :=
  match app_data !! "file_path_name" with
  | Some sel =>
      if truthy_str sel && isdir (fs env) sel
      then set_root_directory cfg env sel
      else ret tt
  | None => ret tt
  end.

(** [on_open_in_explorer] (main.py 118-125) *)
Definition on_open_in_explorer (cfg : Config) (env : Env) : M unit :=
  let* st := get_state in
  let p := current_dir st in
  if String.prefix "win" (platform cfg) then startfile env p
  else if String.eqb (platform cfg) "darwin" then popen env ["open"; p]
  else popen env ["xdg-open"; p].

(** ** The main program *)

(** What [sys.argv] asks for (main.py 284-286). *)
Inductive Mode : Type :=
| ViewerMode (image_path : string)
| BrowserMode.

Definition dispatch (argv : list string) : Mode :=
  match argv with
  | _ :: a1 :: a2 :: _ =>
      if String.eqb a1 "--view" then ViewerMode a2 else BrowserMode
  | _ => BrowserMode
  end.

(** [sys.argv] of a process started with the command line [cmd]: the
    interpreter is dropped. *)
Definition sys_argv (cmd : list string) : list string := tl cmd.

(** The size of the viewport for a screen (main.py 294-295). *)
Definition viewport_size (screen_width screen_height : Z) : Z * Z :=
  (Z.max 800 (screen_width - 260), Z.max 600 (screen_height - 30)).

Definition set_frames (v : Z) (s : State) : State :=
  mkState (root_dir s) (current_dir s) (images_in_dir s) (thumb_tex s)
          (thumb_items s) (grid_table s) (grid_child s) (texreg s) v.

(** [str(n)] *)
Definition str_of_int (n : Z) : string := NilZero.string_of_int (Z.to_int n).

(** The local variables of the render loop, with the title of the viewport,
    which DPG keeps outside of the item registry. *)
Record Loop : Type := mkLoop {
  last_w : Z;
  last_title : Z;
  viewport_title : string;
}.

Definition frames_title (n : Z) : string :=
  "Image Browser — frames: " ++ str_of_int n.

(** The body of the render loop (main.py 309-318), up to
    [render_dearpygui_frame]; [l] holds [last_w] and [last_title]. *)
Definition render_frame (cfg : Config) (env : Env) (l : Loop) : M Loop :=
  let* _ := modify_state (fun s => set_frames (frames s + 1) s) in
  let* st := get_state in
  let* _ := update_item (StrTag "frame_label")
                        (set_text_value (str_of_int (frames st))) in
  let l := if (frames st - last_title l >=? 10)%Z
           then mkLoop (last_w l) (frames st) (frames_title (frames st))
           else l in
  match grid_child st with
  | Some gc =>
      if truthy_tag gc
      then
        let* gw := get_item_rect_width env gc in
        if truthy_int gw && negb (gw =? last_w l)%Z
        then
          let* _ := build_thumbnail_grid cfg env in
          ret (mkLoop gw (last_title l) (viewport_title l))
        else ret l
      else ret l
  | None => ret l
  end.

(** The callbacks that DPG may run during [render_dearpygui_frame]. *)
Inductive Callback : Type :=
| Handled (ev : Event)
| DirChosen (app_data : gmap string string)   (* on_dir_chosen *)
| OpenInExplorer.                             (* on_open_in_explorer *)

Definition call (cfg : Config) (env : Env) (cb : Callback) : M unit :=
  match cb with
  | Handled ev => handle cfg env ev
  | DirChosen app_data => on_dir_chosen cfg env app_data
  | OpenInExplorer => on_open_in_explorer cfg env
  end.

Fixpoint run_callbacks (cfg : Config) (cbs : list (Env * Callback))
         (m : Machine) : Machine :=
  match cbs with
  | [] => m
  | (env, cb) :: cbs' => run_callbacks cfg cbs' (exec (call cfg env cb) m)
  end.

(** A turn of the render loop: the world at the time of the body, and the
    callbacks of the frame, each with the world of its moment. *)
Record Turn : Type := mkTurn {
  turn_env : Env;
  turn_callbacks : list (Env * Callback);
}.

(** [while dpg.is_dearpygui_running(): ...], for the turns the user lets it
    run; an exception in the body would end the program. *)
Fixpoint render_loop (cfg : Config) (turns : list Turn) (l : Loop)
         (m : Machine) : result Loop * Machine :=
  match turns with
  | [] => (Ok l, m)
  | t :: turns' =>
      match render_frame cfg (turn_env t) l m with
      | (Ok l', m') =>
          render_loop cfg turns' l' (run_callbacks cfg (turn_callbacks t) m')
      | (Raise e, m') => (Raise e, m')
      end
  end.

(** The main program from [build_ui] on (main.py 291-319): the first layout
    for the size of the viewport, then the render loop. *)
Definition browser (cfg : Config) (env : Env) (screen_width screen_height : Z)
           (turns : list Turn) (m : Machine) : result Loop * Machine :=
  let (vw, vh) := viewport_size screen_width screen_height in
  match resize_callback cfg env [vw; vh] m with
  | (Ok _, m') =>
      render_loop cfg turns (mkLoop 0 0 "Image Browser — frames: 0") m'
  | (Raise e, m') => (Raise e, m')
  end.

(** ** Specifications of stateful code

    [triple P c Q E]: run on a machine that satisfies [P], the computation
    [c] either returns a value [a] and leaves a machine that satisfies
    [Q a], or raises and leaves a machine that satisfies [E]. *)
Definition triple {A} (P : Machine -> Prop) (c : M A)
           (Q : A -> Machine -> Prop) (E : Machine -> Prop) : Prop :=
  forall m, P m ->
            match c m with
            | (Ok a, m') => Q a m'
            | (Raise _, m') => E m'
            end.

(** The registry once [add_item parent k] has gone through. *)
Definition added (parent : option tag) (k : ItemKind) (d : Dpg) : Dpg :=
  mkDpg (next_id d + 1)
        (items d ++ [mkItem (IntTag (Z.pos (next_id d))) parent k])
        (bound d).

(** The machines that the DPG calls leave when they go through. *)
Definition add_done (parent : option tag) (k : ItemKind) (m : Machine) : Machine :=
  mkMachine (state m) (added parent k (dpg m)) (trace m).

Definition delete_done (t : tag) (m : Machine) : Machine :=
  mkMachine (state m)
    (mkDpg (next_id (dpg m)) (delete_from [t] (items (dpg m))) (bound (dpg m)))
    (trace m).

Definition update_done (t : tag) (f : ItemKind -> ItemKind) (m : Machine) : Machine :=
  mkMachine (state m)
    (mkDpg (next_id (dpg m))
       (map (fun it => if has_tag t it
                       then mkItem (item_tag it) (item_parent it) (f (item_kind it))
                       else it) (items (dpg m)))
       (bound (dpg m)))
    (trace m).

Definition bind_done (a b : tag) (m : Machine) : Machine :=
  mkMachine (state m)
    (mkDpg (next_id (dpg m)) (items (dpg m)) ((a, b) :: bound (dpg m)))
    (trace m).

(** ** What the registry and the cache always look like

    [n0] is where DPG's counter stood when [build_ui] had created the
    static items of the window, before the first call of
    [set_root_directory]. *)

(** What [build_ui] created: the items with an alias, and those with a
    generated id below [n0]. *)
Definition protected (n0 : positive) (t : tag) : Prop :=
  match t with
  | StrTag _ => True
  | IntTag k => (k < Z.pos n0)%Z
  end.

(** A generated id, handed out after [build_ui], that no texture
    carries. *)
Definition plain (n0 : positive) (m : Machine) (t : tag) : Prop :=
  (exists k : positive,
      t = IntTag (Z.pos k) /\ (n0 <= k)%positive /\
      (k < next_id (dpg m))%positive) /\
  forall it, In it (items (dpg m)) -> is_texture (item_kind it) = true ->
             item_tag it <> t.

(** A tag whose deletion can reach neither a texture nor what [build_ui]
    created. *)
Definition deletable (n0 : positive) (m : Machine) (t : tag) : Prop :=
  ~ protected n0 t /\
  forall it, In it (items (dpg m)) -> is_texture (item_kind it) = true ->
             item_tag it <> t.

Definition registered_texture (m : Machine) (t : tag) : Prop :=
  exists it, In it (items (dpg m)) /\ item_tag it = t /\
             is_texture (item_kind it) = true.

Definition is_table (k : ItemKind) : bool :=
  match k with Table => true | _ => false end.

Record sound (n0 : positive) (m : Machine) : Prop := mkSound {
  (* ids are below the counter, and no tag is used twice *)
  sound_wf : wf_dpg (dpg m);
  sound_tags : List.NoDup (map item_tag (items (dpg m)));
  (* the texture registry is a root item called "texreg"; textures hang
     below it *)
  sound_texreg : texreg (state m) = StrTag "texreg";
  sound_registry :
    forall it, In it (items (dpg m)) -> item_tag it = StrTag "texreg" ->
               item_parent it = None /\ is_texture (item_kind it) = false;
  sound_textures :
    forall it, In it (items (dpg m)) -> is_texture (item_kind it) = true ->
               item_parent it = Some (StrTag "texreg");
  (* every handle of the cache is a registered texture, and no two paths
     share one *)
  sound_cache :
    forall p t, thumb_tex (state m) !! p = Some t -> truthy_tag t = true ->
                registered_texture m t;
  sound_cache_inj :
    forall p q t, thumb_tex (state m) !! p = Some t ->
                  thumb_tex (state m) !! q = Some t ->
                  truthy_tag t = true -> p = q;
  (* what the next clearing deletes are plain items *)
  sound_thumb_items : Forall (plain n0 m) (thumb_items (state m));
  sound_grid_table : forall t, grid_table (state m) = Some t -> plain n0 m t;
  (* the only table is the one [state] knows *)
  sound_tables :
    forall it, In it (items (dpg m)) -> is_table (item_kind it) = true ->
               grid_table (state m) = Some (item_tag it);
  (* what an image button shows is a registered texture *)
  sound_buttons :
    forall it t, In it (items (dpg m)) -> item_kind it = ImageButton t ->
                 registered_texture m t;
  (* what [build_ui] created hangs below what [build_ui] created, and not
     below the tree of the sidebar *)
  sound_static :
    forall it, In it (items (dpg m)) -> protected n0 (item_tag it) ->
               item_parent it = None \/
               exists q, item_parent it = Some q /\ protected n0 q /\
                         q <> StrTag "sidebar_tree";
  sound_counter : (n0 <= next_id (dpg m))%positive;
}.

Arguments sound_wf {n0} m _.
Arguments sound_tags {n0} m _.
Arguments sound_texreg {n0} m _.
Arguments sound_registry {n0} m _.
Arguments sound_textures {n0} m _.
Arguments sound_cache {n0} m _.
Arguments sound_cache_inj {n0} m _.
Arguments sound_thumb_items {n0} m _.
Arguments sound_grid_table {n0} m _.
Arguments sound_tables {n0} m _.
Arguments sound_buttons {n0} m _.
Arguments sound_static {n0} m _.
Arguments sound_counter {n0} m _.

(** The invariant all the program keeps: the machine is sound, the tags of
    [G] (items under construction) are plain, and the textures [T] are still
    registered. *)
Definition inv (n0 : positive) (G : list tag) (T : list Item) (m : Machine) : Prop :=
  sound n0 m /\ Forall (plain n0 m) G /\
  Forall (fun it => In it (items (dpg m)) /\ is_texture (item_kind it) = true) T.

(** The same, with one more property [X] of the machine. *)
Definition inv_and (n0 : positive) (X : Machine -> Prop) (G : list tag)
           (T : list Item) (m : Machine) : Prop :=
  inv n0 G T m /\ X m.

Definition no_tables (m : Machine) : Prop :=
  forall it, In it (items (dpg m)) -> is_table (item_kind it) = false.

(** ** More sample worlds *)

(** The items with an alias that [build_ui] creates, the frame counter
    included. *)
Definition browser_items : list Item :=
  ui_items ++
  [mkItem (StrTag "frame_label") (Some (StrTag "main_window")) (Text "0")].

Definition browser_machine : Machine := {|
  state := start_state;
  dpg := mkDpg 30 browser_items [];
  trace := [];
|}.

(** Two turns of the render loop: the root [/pics] is chosen during the
    first, its folder is clicked and shown in the file manager during the
    second. *)
Definition sample_turns : list Turn := [
  mkTurn good_env [(good_env, Handled (RootChosen "/pics"))];
  mkTurn good_env [(good_env, Handled (FolderClicked "/pics"));
                   (good_env, OpenInExplorer)]
].

Definition sample_loop : Loop := mkLoop 0 0 "Image Browser — frames: 0".

(** The browser once the folder [/pics] has been clicked. *)
Definition shown_machine : Machine :=
  exec (on_folder_click linux_cfg good_env "/pics") browser_machine.

(** ** More vocabulary *)

(** The keys of [state] that say which directory is shown are the same. *)
Definition same_selection (s s' : State) : Prop :=
  root_dir s' = root_dir s /\ current_dir s' = current_dir s /\
  images_in_dir s' = images_in_dir s.

(** What the sidebar shows: the children of [sidebar_tree], in order, each
    with the buttons below it. *)
Definition sidebar_view (d : Dpg) : list (ItemKind * list ItemKind) :=
  map (fun it => (item_kind it,
                  map item_kind (children_where is_button d (item_tag it))))
      (children d (StrTag "sidebar_tree")).

(** A tree node for each sub-directory, with the button that opens it. *)
Definition sidebar_of (subs : list Path) : list (ItemKind * list ItemKind) :=
  map (fun sub => (TreeNode (name sub),
                   [Button "Open folder" (Some (str sub))])) subs.

(** The browser with the root [/album], before the sidebar is rebuilt. *)
Definition album_env : Env := with_fs album_fs good_env.

Definition album_machine : Machine := {|
  state := set_root_dir "/album" start_state;
  dpg := mkDpg 30 browser_items [];
  trace := [];
|}.

(** ** What leaves the process *)

(** The calls that start a process or hand a path to the operating system,
    as opposed to the decoding of an image. *)
Definition is_spawn (c : Call) : bool :=
  match c with
  | ImageOpen _ => false
  | Popen _ | Startfile _ => true
  end.

Definition spawns (tr : list Call) : list Call := List.filter is_spawn tr.

Definition decodes (tr : list Call) : list Call :=
  List.filter (fun c => negb (is_spawn c)) tr.

(** The callbacks that are meant to open something. *)
Definition launches (cb : Callback) : bool :=
  match cb with
  | Handled (ThumbDoubleClicked _) | OpenInExplorer => true
  | _ => false
  end.

(** Turns of the render loop in which the user only browses. *)
Definition browsing_turns : list Turn := [
  mkTurn good_env [(good_env, Handled (RootChosen "/pics"));
                   (good_env, Handled (Resized [1024; 768]))];
  mkTurn good_env [(good_env, Handled (FolderClicked "/pics"));
                   (good_env, DirChosen {[ "file_path_name" := "/pics" ]})]
].

(** The configuration of a Python without Pillow. *)
Definition no_pillow_cfg : Config := {|
  PIL_OK := false;
  platform := "linux";
  executable := "/usr/bin/python3";
  script := "/opt/gallery/main.py";
|}.

(** The frame counter and the child window of the grid are [f0] and [g0]. *)
Definition steady_at (f0 : Z) (g0 : option tag) (m : Machine) : Prop :=
  frames (state m) = f0 /\ grid_child (state m) = g0.

(** The title of the viewport follows the frame counter in steps of ten. *)
Definition title_follows (l : Loop) (s : State) : Prop :=
  last_title l = 10 * (frames s / 10) /\
  viewport_title l = frames_title (last_title l).

(** What the body of the render loop always does: count the frame and show
    the count. *)
Definition count_frame (m : Machine) : Machine :=
  exec (update_item (StrTag "frame_label")
                    (set_text_value (str_of_int (frames (state m) + 1))))
       (mkMachine (set_frames (frames (state m) + 1) (state m)) (dpg m) (trace m)).

(** ** The viewer process

    The viewer is a program of its own with a DPG context of its own: what
    it does to DPG is modelled by the calls it makes, in order. *)

Inductive DpgCall : Type :=
| CreateContext
| AddTextureRegistry
| AddStaticTexture (width height : Z) (data : list Z)
| AddWindow (label tag : string) (width height : Z)
| AddImage                      (* of the texture just created *)
| CreateViewport (title : string) (width height x_pos y_pos : Z)
| SetupDearpygui
| ShowViewport
| SetPrimaryWindow (tag : string)
| RenderFrame
| DestroyContext.

(** The world of the viewer: the world of [open_system_viewer], what
    [Image.open], [thumbnail((1600, 1000))] and [pil_to_dpg] give for a
    path, whether this DPG has [set_primary_window], and how many frames the
    user lets the window live. *)
Record ViewerEnv : Type := mkViewerEnv {
  view_env : Env;
  load_view : string -> result Image;
  has_set_primary_window : bool;
  view_frames : nat;
}.

(** [viewer_mode] (main.py 252-281): the DPG calls made, and what the
    function returns or raises, with the machine it leaves. *)
Definition viewer_mode (cfg : Config) (venv : ViewerEnv) (image_path : string)
           (m : Machine) : list DpgCall * (result unit * Machine) :=
  if negb (PIL_OK cfg)
  then ([], open_system_viewer cfg (view_env venv) image_path m)
  else
    let m1 := exec (log (ImageOpen image_path)) m in
    match load_view venv image_path with
    | Raise _ =>
        ([CreateContext], open_system_viewer cfg (view_env venv) image_path m1)
    | Ok im =>
        let w := img_width im in
        let h := img_height im in
        let title := basename image_path in
        let vw := Z.min (w + 40) 1800 in
        let vh := Z.min (h + 100) 1200 in
        ([CreateContext; AddTextureRegistry;
          AddStaticTexture w h (img_data im);
          AddWindow title "main_window" (vw - 20) (vh - 60);
          AddImage;
          CreateViewport ("Image Viewer — " ++ title) vw vh 100 100;
          SetupDearpygui; ShowViewport]
           ++ (if has_set_primary_window venv
               then [SetPrimaryWindow "main_window"] else [])
           ++ repeat RenderFrame (view_frames venv)
           ++ [DestroyContext],
         (Ok tt, m1))
    end.

(** The calls that put something on the screen. *)
Definition is_window_call (c : DpgCall) : bool :=
  match c with
  | AddWindow _ _ _ _ | CreateViewport _ _ _ _ _ | AddImage => true
  | _ => false
  end.

(** A viewer world where the image decodes to 1200x800. *)
Definition view_world : ViewerEnv := {|
  view_env := good_env;
  load_view := fun _ => Ok (mkImage 1200 800 []);
  has_set_primary_window := true;
  view_frames := 3;
|}.

(** A viewer world where the image does not decode. *)
Definition blind_world : ViewerEnv := {|
  view_env := good_env;
  load_view := fun p => Raise (UnidentifiedImageError p);
  has_set_primary_window := true;
  view_frames := 3;
|}.

(** ** The items of the window *)

(** The registry holds an item with the tag [t] below [parent]. *)
Definition present (m : Machine) (t : tag) (parent : option tag) : Prop :=
  exists it, In it (items (dpg m)) /\ item_tag it = t /\
             item_parent it = parent.

(** The registry holds a text with the alias [s] that shows [v]. *)
Definition shows_text (m : Machine) (s v : string) : Prop :=
  exists it, In it (items (dpg m)) /\ item_tag it = StrTag s /\
             item_kind it = Text v.

(** The items [ts] are in the registry, and [grid_child] is [g].  DPG raises
    when a call names an item that is not in the registry. *)
Definition window_has (ts : list tag) (g : option tag) (m : Machine) : Prop :=
  Forall (fun t => item_exists (dpg m) t = true) ts /\
  grid_child (state m) = g.

(** The decodings of the image [p] in a trace. *)
Definition is_decode_of (p : string) (c : Call) : bool :=
  match c with
  | ImageOpen q => String.eqb q p
  | _ => false
  end.

Definition decodes_of (p : string) (tr : list Call) : list Call :=
  List.filter (is_decode_of p) tr.
(** * Properties *)

(** ** Column count *)

Lemma compute_columns_ge_1 (w : Z) : 1 <= compute_columns w.
Proof. unfold compute_columns. lia. Qed.

Lemma compute_columns_mono (w1 w2 : Z) :
  w1 <= w2 -> compute_columns w1 <= compute_columns w2.
Proof.
  intros H. unfold compute_columns, THUMB_SIZE, THUMB_PADDING.
  assert (w1 / (192 + 8) <= w2 / (192 + 8)) by (apply Z.div_le_mono; lia).
  lia.
Qed.

(** Every column count from 1 on is the count of some width. *)
Lemma compute_columns_onto (c : Z) : 1 <= c -> compute_columns (200 * c) = c.
Proof.
  intros H. unfold compute_columns, THUMB_SIZE, THUMB_PADDING.
  replace (200 * c) with (c * (192 + 8)) by lia.
  rewrite Z.div_mul by lia. lia.
Qed.

(** C1: for every integer width [w], [compute_columns w] is
    [max(1, w // (tile_size + padding))] with a tile of 192 and a padding of
    8, that is the number of whole 200-pixel tiles that fit, and 1 when none
    fits; a width of 500 gives 2 columns. *)
Theorem C1_compute_columns_formula :
  THUMB_SIZE = 192 /\ THUMB_PADDING = 8 /\
  (forall w : Z,
      compute_columns w = Z.max 1 (w / (THUMB_SIZE + THUMB_PADDING)) /\
      (w < 200 -> compute_columns w = 1) /\
      (200 <= w ->
       200 * compute_columns w <= w < 200 * (compute_columns w + 1))) /\
  compute_columns 500 = 2.
Proof.
  split; [reflexivity|]. split; [reflexivity|]. split; [|reflexivity].
  intros w. split; [reflexivity|].
  unfold compute_columns, THUMB_SIZE, THUMB_PADDING.
  change (192 + 8) with 200.
  pose proof (Z.div_mod w 200 ltac:(lia)) as Hdm.
  pose proof (Z.mod_pos_bound w 200 ltac:(lia)) as Hb.
  split; intros Hw; lia.
Qed.

(** C7: [compute_columns] is non-decreasing in the width and is at least 1
    for every width, 0 included. *)
Theorem C7_compute_columns_monotone_positive (w1 w2 : Z) :
  w1 <= w2 ->
  compute_columns w1 <= compute_columns w2 /\
  1 <= compute_columns w1 /\ 1 <= compute_columns w2 /\
  1 <= compute_columns 0.
Proof.
  intros H. split; [now apply compute_columns_mono|].
  repeat split; apply compute_columns_ge_1.
Qed.

Lemma C7_witness :
  -7 <= 450 /\
  compute_columns (-7) <= compute_columns 450 /\
  1 <= compute_columns (-7) /\ 1 <= compute_columns 450 /\
  1 <= compute_columns 0.
Proof.
  split; [lia|]. apply (C7_compute_columns_monotone_positive (-7) 450). lia.
Defined.

(** ** Sorting by key *)


Section SortedFacts.
Context {A : Type} (key : A -> string).



Lemma insert_sorted_perm x l : Permutation (insert_sorted key x l) (x :: l).
Proof.
  induction l as [|y l IH]; simpl.
  - reflexivity.
  - destruct (String.leb (key x) (key y)).
    + reflexivity.
    + rewrite IH. apply perm_swap.
Qed.

Lemma sorted_perm l : Permutation (sorted key l) l.
Proof.
  induction l as [|x l IH]; simpl.
  - reflexivity.
  - rewrite insert_sorted_perm. now constructor.
Qed.



Lemma string_leb_refl (a : string) : String.leb a a = true.
Proof. destruct (String.leb_total a a); assumption. Qed.

(** [sorted] is stable: the elements of one key keep their order. *)
Lemma insert_sorted_same_key (k : string) x l :
  List.filter (fun y => String.eqb (key y) k) (insert_sorted key x l)
  = List.filter (fun y => String.eqb (key y) k) (x :: l).
Proof.
  induction l as [|y l IH]; simpl.
  - reflexivity.
  - destruct (String.leb (key x) (key y)) eqn:E; simpl.
    + reflexivity.
    + rewrite IH. simpl.
      destruct (String.eqb (key x) k) eqn:Ex, (String.eqb (key y) k) eqn:Ey;
        try reflexivity.
      apply String.eqb_eq in Ex, Ey. rewrite Ex, Ey, string_leb_refl in E.
      discriminate.
Qed.

Lemma sorted_stable (k : string) l :
  List.filter (fun y => String.eqb (key y) k) (sorted key l)
  = List.filter (fun y => String.eqb (key y) k) l.
Proof.
  induction l as [|x l IH]; simpl.
  - reflexivity.
  - rewrite insert_sorted_same_key. simpl. now rewrite IH.
Qed.

End SortedFacts.


(** ** Comprehensions whose condition may raise *)

Lemma filter_raising_ok {A} (f : A -> result bool) (g : A -> bool) (l : list A) :
  (forall x, In x l -> f x = Ok (g x)) ->
  filter_raising f l = Ok (List.filter g l).
Proof.
  induction l as [|x l IH]; intros H; simpl.
  - reflexivity.
  - rewrite (H x) by now left. simpl.
    rewrite IH by (intros; apply H; now right). simpl.
    reflexivity.
Qed.


Lemma filter_raising_In {A} (f : A -> result bool) (l r : list A) x :
  filter_raising f l = Ok r -> In x r -> In x l /\ f x = Ok true.
Proof.
  revert r. induction l as [|y l IH]; intros r H Hin; simpl in H.
  - inversion H; subst. destruct Hin.
  - destruct (f y) as [b|e] eqn:Ey; simpl in H; [|discriminate].
    destruct (filter_raising f l) as [r'|e]; simpl in H; [|discriminate].
    inversion H; subst; clear H.
    destruct b.
    + destruct Hin as [->|Hin]; [split; [now left|exact Ey]|].
      destruct (IH r' eq_refl Hin); split; [now right|assumption].
    + destruct (IH r' eq_refl Hin); split; [now right|assumption].
Qed.

(** ** Names and suffixes *)

Lemma lower_ascii_dot (a : ascii) :
  Ascii.eqb (lower_ascii a) "." = Ascii.eqb a ".".
Proof. destruct a as [[] [] [] [] [] [] [] []]; reflexivity. Qed.

Lemma rfind_dot_lower (s : string) : rfind "." (lower s) = rfind "." s.
Proof.
  induction s as [|a s IH]; simpl.
  - reflexivity.
  - rewrite IH, lower_ascii_dot. reflexivity.
Qed.

Lemma string_app_inv_head (s a b : string) : (s ++ a = s ++ b)%string -> a = b.
Proof.
  induction s as [|c s IH]; simpl; intros H.
  - exact H.
  - inversion H. now apply IH.
Qed.

Lemma joinpath_str_inj (p : Path) (n n' : string) :
  str (joinpath p n) = str (joinpath p n') -> n = n'.
Proof.
  unfold joinpath; simpl.
  destruct (negb (String.eqb (name p) EmptyString)).
  - intros H. apply string_app_inv_head in H. now inversion H.
  - destruct (String.eqb (str p) "."); [auto|apply string_app_inv_head].
Qed.

Lemma in_supported_In (s : string) : in_supported s = true <-> In s SUPPORTED_EXT.
Proof.
  unfold in_supported. rewrite existsb_exists. split.
  - intros (x & Hx & E). apply String.eqb_eq in E. now subst.
  - intros H. exists s. split; [exact H|apply String.eqb_refl].
Qed.

(** A name that is a dot followed by a supported extension, in any case,
    has no suffix: its only dot is the leading one. *)
Lemma suffix_of_dotfile (p : Path) (n : string) :
  In (lower n) SUPPORTED_EXT -> suffix (joinpath p n) = EmptyString.
Proof.
  intros H. unfold suffix. simpl name. rewrite <- rfind_dot_lower.
  unfold SUPPORTED_EXT in H. simpl in H.
  repeat (destruct H as [H|H]; [rewrite <- H; reflexivity|]).
  destruct H.
Qed.

(** ** The scanner *)

Lemma is_file_ok (fs : FileSystem) (x : Path) :
  stat_ok fs x -> is_file fs x = Ok (is_regular fs x).
Proof.
  intros [t Ht]. unfold is_file, is_regular. rewrite Ht. now destruct t.
Qed.

Lemma is_dir_ok (fs : FileSystem) (x : Path) :
  stat_ok fs x -> is_dir fs x = Ok (is_directory fs x).
Proof.
  intros [t Ht]. unfold is_dir, is_directory. rewrite Ht. now destruct t.
Qed.

Lemma is_image_file_ok (fs : FileSystem) (x : Path) :
  stat_ok fs x ->
  is_image_file fs x = Ok (is_regular fs x && has_supported_ext x).
Proof.
  intros H. unfold is_image_file. rewrite (is_file_ok _ _ H). simpl.
  now destruct (is_regular fs x).
Qed.

Lemma is_image_file_true (fs : FileSystem) (x : Path) :
  is_image_file fs x = Ok true ->
  stat fs (str x) = Ok Regular /\ In (lower (suffix x)) SUPPORTED_EXT.
Proof.
  unfold is_image_file, is_file.
  destruct (stat fs (str x)) as [[]|e]; simpl; try discriminate.
  intros H. split; [reflexivity|]. apply in_supported_In. congruence.
Qed.

(** The body of [list_images] when nothing raises. *)
Lemma list_images_no_error (fs : FileSystem) (p : Path) (names : list string) :
  listdir fs (str p) = Ok names ->
  Forall (stat_ok fs) (entries p names) ->
  list_images fs p =
  Ok (map str (List.filter (fun x => is_regular fs x && has_supported_ext x)
                           (sorted name_key (entries p names)))).
Proof.
  intros Hl Hs. unfold list_images, iterdir. rewrite Hl. simpl.
  fold (entries p names).
  rewrite (filter_raising_ok _ (fun x => is_regular fs x && has_supported_ext x)).
  - reflexivity.
  - intros x Hx. apply is_image_file_ok.
    rewrite List.Forall_forall in Hs. apply Hs.
    eapply Permutation_in; [apply sorted_perm|exact Hx].
Qed.

Lemma list_subdirs_no_error (fs : FileSystem) (p : Path) (names : list string) :
  listdir fs (str p) = Ok names ->
  Forall (stat_ok fs) (entries p names) ->
  list_subdirs fs p =
  Ok (sorted name_key (List.filter (is_directory fs) (entries p names))).
Proof.
  intros Hl Hs. unfold list_subdirs, iterdir. rewrite Hl. simpl.
  fold (entries p names).
  rewrite (filter_raising_ok _ (is_directory fs)).
  - reflexivity.
  - intros x Hx. apply is_dir_ok.
    rewrite List.Forall_forall in Hs. now apply Hs.
Qed.

Lemma list_images_total (fs : FileSystem) (p : Path) :
  exists imgs, list_images fs p = Ok imgs.
Proof.
  unfold list_images, try_except.
  destruct (rbind _ _) as [l|e]; eauto.
Qed.

Lemma list_subdirs_total (fs : FileSystem) (p : Path) :
  exists ds, list_subdirs fs p = Ok ds.
Proof.
  unfold list_subdirs, try_except.
  destruct (rbind _ _) as [l|e]; eauto.
Qed.



(** Upper case does not sort before lower case, and a dangling link is not
    a file. *)
Example list_subdirs_album :
  list_subdirs album_fs (Path_of "/album")
  = Ok [joinpath (Path_of "/album") "alps"; joinpath (Path_of "/album") "Zoo"].
Proof. reflexivity. Qed.

Example list_images_album :
  list_images album_fs (Path_of "/album") = Ok ["/album/Cover.JPG"].
Proof. reflexivity. Qed.

(** What [list_images] returns are children of [p] that passed
    [is_image_file]. *)
Lemma list_images_In (fs : FileSystem) (p : Path) (imgs : list string) (s : string) :
  list_images fs p = Ok imgs -> In s imgs ->
  exists n, s = str (joinpath p n) /\ is_image_file fs (joinpath p n) = Ok true /\
            exists names, listdir fs (str p) = Ok names /\ In n names.
Proof.
  unfold list_images, iterdir.
  destruct (listdir fs (str p)) as [names|e]; simpl.
  - destruct (filter_raising _ _) as [r|e] eqn:E; simpl.
    + intros H Hin. inversion H; subst; clear H.
      apply in_map_iff in Hin as (x & <- & Hx).
      destruct (filter_raising_In _ _ _ _ E Hx) as [Hx' Hf].
      apply (Permutation_in _ (sorted_perm name_key _)) in Hx'.
      apply in_map_iff in Hx' as (n & <- & Hn). eauto 6.
    + intros H Hin. inversion H; subst. destruct Hin.
  - intros H Hin. inversion H; subst. destruct Hin.
Qed.












(** C10: a file whose whole name is a dot followed by a supported extension
    (such as [.jpg], in any case) has an empty suffix, so [is_image_file]
    does not accept it and [list_images] never returns it. *)
Theorem C10_dotfile_excluded (fs : FileSystem) (p : Path) (n : string) :
  In (lower n) SUPPORTED_EXT ->
  suffix (joinpath p n) = EmptyString /\
  is_image_file fs (joinpath p n) <> Ok true /\
  (forall imgs, list_images fs p = Ok imgs -> ~ In (str (joinpath p n)) imgs).
Proof.
  intros H.
  assert (Hsuf : suffix (joinpath p n) = EmptyString) by now apply suffix_of_dotfile.
  assert (Hno : is_image_file fs (joinpath p n) <> Ok true).
  { intros Hf. apply is_image_file_true in Hf as [_ Hf].
    rewrite Hsuf in Hf. simpl in Hf.
    repeat (destruct Hf as [Hf|Hf]; [discriminate|]). destruct Hf. }
  repeat split; [exact Hsuf|exact Hno|].
  intros imgs Hl Hin.
  destruct (list_images_In _ _ _ _ Hl Hin) as (n' & E & Hf & _).
  apply joinpath_str_inj in E. subst n'. contradiction.
Qed.

Lemma C10_witness :
  In (lower ".jpg") SUPPORTED_EXT /\
  list_images dotfile_fs (Path_of "/home") = Ok ["/home/x.jpg"] /\
  suffix (joinpath (Path_of "/home") ".jpg") = EmptyString /\
  is_image_file dotfile_fs (joinpath (Path_of "/home") ".jpg") <> Ok true /\
  (forall imgs, list_images dotfile_fs (Path_of "/home") = Ok imgs ->
                ~ In (str (joinpath (Path_of "/home") ".jpg")) imgs).
Proof.
  split; [now left|]. split; [reflexivity|].
  apply (C10_dotfile_excluded dotfile_fs (Path_of "/home") ".jpg").
  now left.
Defined.

(** ** The DPG calls, when they go through and when they raise *)

Lemma add_item_ok parent k m :
  accepts (dpg m) parent k = true ->
  add_item parent k m
  = (Ok (IntTag (Z.pos (next_id (dpg m)))),
     mkMachine (state m)
       (mkDpg (next_id (dpg m) + 1)
              (items (dpg m) ++ [mkItem (IntTag (Z.pos (next_id (dpg m)))) parent k])
              (bound (dpg m)))
       (trace m)).
Proof. intros H. unfold add_item. now rewrite H. Qed.

Lemma add_item_fail parent k m :
  accepts (dpg m) parent k = false -> add_item parent k m = (Raise DpgError, m).
Proof. intros H. unfold add_item. now rewrite H. Qed.

Lemma delete_item_ok t m :
  item_exists (dpg m) t = true ->
  delete_item t m
  = (Ok tt, mkMachine (state m)
              (mkDpg (next_id (dpg m)) (delete_from [t] (items (dpg m)))
                     (bound (dpg m)))
              (trace m)).
Proof. intros H. unfold delete_item. now rewrite H. Qed.

Lemma delete_item_fail t m :
  item_exists (dpg m) t = false -> delete_item t m = (Raise DpgError, m).
Proof. intros H. unfold delete_item. now rewrite H. Qed.

Lemma update_item_ok t f m :
  item_exists (dpg m) t = true ->
  update_item t f m
  = (Ok tt, mkMachine (state m)
              (mkDpg (next_id (dpg m))
                 (map (fun it => if has_tag t it
                                 then mkItem (item_tag it) (item_parent it)
                                             (f (item_kind it))
                                 else it) (items (dpg m)))
                 (bound (dpg m)))
              (trace m)).
Proof. intros H. unfold update_item. now rewrite H. Qed.

Lemma update_item_fail t f m :
  item_exists (dpg m) t = false -> update_item t f m = (Raise DpgError, m).
Proof. intros H. unfold update_item. now rewrite H. Qed.

Lemma bind_item_handler_registry_ok a b m :
  item_exists (dpg m) a = true -> item_exists (dpg m) b = true ->
  bind_item_handler_registry a b m
  = (Ok tt, mkMachine (state m)
              (mkDpg (next_id (dpg m)) (items (dpg m)) ((a, b) :: bound (dpg m)))
              (trace m)).
Proof. intros Ha Hb. unfold bind_item_handler_registry. now rewrite Ha, Hb. Qed.

Lemma bind_item_handler_registry_fail a b m :
  item_exists (dpg m) a && item_exists (dpg m) b = false ->
  bind_item_handler_registry a b m = (Raise DpgError, m).
Proof. intros H. unfold bind_item_handler_registry. now rewrite H. Qed.

(** What a DPG call leaves: the machine as it was when it raises. *)
Lemma exec_add_item parent k m :
  (accepts (dpg m) parent k = false /\ exec (add_item parent k) m = m) \/
  (accepts (dpg m) parent k = true /\
   exec (add_item parent k) m = add_done parent k m).
Proof.
  unfold exec, add_item. destruct (accepts (dpg m) parent k); auto.
Qed.

Lemma exec_delete_item t m :
  (item_exists (dpg m) t = false /\ exec (delete_item t) m = m) \/
  (item_exists (dpg m) t = true /\
   exec (delete_item t) m = delete_done t m).
Proof.
  unfold exec, delete_item. destruct (item_exists (dpg m) t); auto.
Qed.

Lemma exec_update_item t f m :
  (item_exists (dpg m) t = false /\ exec (update_item t f) m = m) \/
  (item_exists (dpg m) t = true /\
   exec (update_item t f) m = update_done t f m).
Proof.
  unfold exec, update_item. destruct (item_exists (dpg m) t); auto.
Qed.

Lemma exec_bind_item_handler_registry a b m :
  (item_exists (dpg m) a && item_exists (dpg m) b = false /\
   exec (bind_item_handler_registry a b) m = m) \/
  ((item_exists (dpg m) a = true /\ item_exists (dpg m) b = true) /\
   exec (bind_item_handler_registry a b) m = bind_done a b m).
Proof.
  unfold exec, bind_item_handler_registry.
  destruct (item_exists (dpg m) a), (item_exists (dpg m) b); auto.
Qed.

(** What the DPG calls leave alone. *)
Lemma state_add_item parent k m : state (exec (add_item parent k) m) = state m.
Proof. destruct (exec_add_item parent k m) as [[_ ->]|[_ ->]]; reflexivity. Qed.

Lemma trace_add_item parent k m : trace (exec (add_item parent k) m) = trace m.
Proof. destruct (exec_add_item parent k m) as [[_ ->]|[_ ->]]; reflexivity. Qed.

Lemma bound_add_item parent k m :
  bound (dpg (exec (add_item parent k) m)) = bound (dpg m).
Proof. destruct (exec_add_item parent k m) as [[_ ->]|[_ ->]]; reflexivity. Qed.

Lemma state_delete_item t m : state (exec (delete_item t) m) = state m.
Proof. destruct (exec_delete_item t m) as [[_ ->]|[_ ->]]; reflexivity. Qed.

Lemma trace_delete_item t m : trace (exec (delete_item t) m) = trace m.
Proof. destruct (exec_delete_item t m) as [[_ ->]|[_ ->]]; reflexivity. Qed.

Lemma next_id_delete_item t m :
  next_id (dpg (exec (delete_item t) m)) = next_id (dpg m).
Proof. destruct (exec_delete_item t m) as [[_ ->]|[_ ->]]; reflexivity. Qed.

Lemma bound_delete_item t m :
  bound (dpg (exec (delete_item t) m)) = bound (dpg m).
Proof. destruct (exec_delete_item t m) as [[_ ->]|[_ ->]]; reflexivity. Qed.

Lemma state_update_item t f m : state (exec (update_item t f) m) = state m.
Proof. destruct (exec_update_item t f m) as [[_ ->]|[_ ->]]; reflexivity. Qed.

Lemma trace_update_item t f m : trace (exec (update_item t f) m) = trace m.
Proof. destruct (exec_update_item t f m) as [[_ ->]|[_ ->]]; reflexivity. Qed.

Lemma next_id_update_item t f m :
  next_id (dpg (exec (update_item t f) m)) = next_id (dpg m).
Proof. destruct (exec_update_item t f m) as [[_ ->]|[_ ->]]; reflexivity. Qed.

Lemma bound_update_item t f m :
  bound (dpg (exec (update_item t f) m)) = bound (dpg m).
Proof. destruct (exec_update_item t f m) as [[_ ->]|[_ ->]]; reflexivity. Qed.

Lemma state_bind_item_handler_registry a b m :
  state (exec (bind_item_handler_registry a b) m) = state m.
Proof.
  destruct (exec_bind_item_handler_registry a b m) as [[_ ->]|[_ ->]];
    reflexivity.
Qed.

Lemma items_bind_item_handler_registry a b m :
  items (dpg (exec (bind_item_handler_registry a b) m)) = items (dpg m).
Proof.
  destruct (exec_bind_item_handler_registry a b m) as [[_ ->]|[_ ->]];
    reflexivity.
Qed.

Lemma next_id_bind_item_handler_registry a b m :
  next_id (dpg (exec (bind_item_handler_registry a b) m)) = next_id (dpg m).
Proof.
  destruct (exec_bind_item_handler_registry a b m) as [[_ ->]|[_ ->]];
    reflexivity.
Qed.

Lemma trace_bind_item_handler_registry a b m :
  trace (exec (bind_item_handler_registry a b) m) = trace m.
Proof.
  destruct (exec_bind_item_handler_registry a b m) as [[_ ->]|[_ ->]];
    reflexivity.
Qed.

Lemma item_exists_In d t :
  item_exists d t = true <-> exists it, In it (items d) /\ item_tag it = t.
Proof.
  unfold item_exists. rewrite existsb_exists. split.
  - intros (it & Hin & H). exists it. split; [exact Hin|].
    now apply bool_decide_eq_true in H.
  - intros (it & Hin & H). exists it. split; [exact Hin|].
    now apply bool_decide_eq_true.
Qed.

Lemma item_exists_app d d' X t :
  items d' = items d ++ X ->
  item_exists d' t = item_exists d t || existsb (has_tag t) X.
Proof. intros E. unfold item_exists. rewrite E. apply existsb_app. Qed.

Lemma item_exists_grows d d' X t :
  items d' = items d ++ X -> item_exists d t = true -> item_exists d' t = true.
Proof. intros E H. rewrite (item_exists_app d d' X t E), H. reflexivity. Qed.

(** ** The thumbnail cache *)

Lemma thumb_for_disabled cfg env p m :
  PIL_OK cfg = false -> thumb_for cfg env p m = (Ok None, m).
Proof. intros H. unfold thumb_for. rewrite H. reflexivity. Qed.

Lemma thumb_for_hit cfg env p m t :
  PIL_OK cfg = true ->
  thumb_tex (state m) !! p = Some t -> truthy_tag t = true ->
  thumb_for cfg env p m = (Ok (Some t), m).
Proof.
  intros Hpil Hl Ht. unfold thumb_for. rewrite Hpil. simpl.
  unfold bind, get_state. rewrite Hl. simpl. rewrite Ht. reflexivity.
Qed.

Lemma thumb_for_miss_fail cfg env p m e :
  PIL_OK cfg = true ->
  truthy_opt truthy_tag (thumb_tex (state m) !! p) = false ->
  load_thumbnail env p = Raise e ->
  thumb_for cfg env p m =
  (Ok None, mkMachine (state m) (dpg m) (trace m ++ [ImageOpen p])).
Proof.
  intros Hpil Hl He. unfold thumb_for. rewrite Hpil. simpl.
  unfold bind at 1. unfold get_state. rewrite Hl.
  unfold try_catch, bind, log, lift. rewrite He. reflexivity.
Qed.

(** The image decodes, but the texture registry is not there: the
    exception of [add_static_texture] is swallowed and nothing is cached. *)
Lemma thumb_for_no_registry cfg env p m :
  PIL_OK cfg = true ->
  truthy_opt truthy_tag (thumb_tex (state m) !! p) = false ->
  item_exists (dpg m) (texreg (state m)) = false ->
  thumb_for cfg env p m =
  (Ok None, mkMachine (state m) (dpg m) (trace m ++ [ImageOpen p])).
Proof.
  intros Hpil Hl Hx. unfold thumb_for. rewrite Hpil. simpl.
  unfold bind at 1. unfold get_state. rewrite Hl.
  unfold try_catch, bind, log, lift.
  destruct (load_thumbnail env p) as [im|e]; [|reflexivity].
  unfold add_item, accepts. simpl. rewrite Hx. reflexivity.
Qed.

Lemma thumb_for_miss_ok cfg env p m im :
  PIL_OK cfg = true ->
  truthy_opt truthy_tag (thumb_tex (state m) !! p) = false ->
  load_thumbnail env p = Ok im ->
  item_exists (dpg m) (texreg (state m)) = true ->
  thumb_for cfg env p m =
  (Ok (Some (IntTag (Z.pos (next_id (dpg m))))),
   mkMachine
     (set_thumb_tex (<[p := IntTag (Z.pos (next_id (dpg m)))]> (thumb_tex (state m))) (state m))
     (mkDpg (next_id (dpg m) + 1)
            (items (dpg m) ++
               [mkItem (IntTag (Z.pos (next_id (dpg m)))) (Some (texreg (state m)))
                       (StaticTexture (img_width im) (img_height im) (img_data im))])
            (bound (dpg m)))
     (trace m ++ [ImageOpen p])).
Proof.
  intros Hpil Hl He Hx. unfold thumb_for. rewrite Hpil. simpl.
  unfold bind at 1. unfold get_state. rewrite Hl.
  unfold try_catch, bind, log, lift. rewrite He.
  unfold add_item, accepts. simpl. rewrite Hx. reflexivity.
Qed.

(** The four ways a call of [thumb_for] can go. *)
Lemma thumb_for_cases cfg env p m :
  (PIL_OK cfg = false /\ thumb_for cfg env p m = (Ok None, m)) \/
  (exists t, thumb_tex (state m) !! p = Some t /\ truthy_tag t = true /\
             thumb_for cfg env p m = (Ok (Some t), m)) \/
  (truthy_opt truthy_tag (thumb_tex (state m) !! p) = false /\
   thumb_for cfg env p m =
   (Ok None, mkMachine (state m) (dpg m) (trace m ++ [ImageOpen p]))) \/
  (truthy_opt truthy_tag (thumb_tex (state m) !! p) = false /\
   exists im,
     thumb_for cfg env p m =
     (Ok (Some (IntTag (Z.pos (next_id (dpg m))))),
      mkMachine
        (set_thumb_tex (<[p := IntTag (Z.pos (next_id (dpg m)))]> (thumb_tex (state m))) (state m))
        (mkDpg (next_id (dpg m) + 1)
               (items (dpg m) ++
                  [mkItem (IntTag (Z.pos (next_id (dpg m)))) (Some (texreg (state m)))
                          (StaticTexture (img_width im) (img_height im) (img_data im))])
               (bound (dpg m)))
        (trace m ++ [ImageOpen p]))).
Proof.
  destruct (PIL_OK cfg) eqn:Hpil.
  - destruct (truthy_opt truthy_tag (thumb_tex (state m) !! p)) eqn:Hl.
    + right; left.
      destruct (thumb_tex (state m) !! p) as [t|] eqn:Ht; [|discriminate].
      exists t. repeat split; [exact Hl|].
      now apply thumb_for_hit.
    + destruct (load_thumbnail env p) as [im|e] eqn:He.
      * destruct (item_exists (dpg m) (texreg (state m))) eqn:Hx.
        -- right; right; right. split; [reflexivity|]. exists im.
           now apply thumb_for_miss_ok.
        -- right; right; left. split; [reflexivity|].
           now apply thumb_for_no_registry.
      * right; right; left. split; [reflexivity|].
        eapply thumb_for_miss_fail; eauto.
  - left. split; [reflexivity|]. now apply thumb_for_disabled.
Qed.

(** A handle that is not from the cache was registered below the texture
    registry, which is there. *)
Lemma thumb_for_some_registry cfg env p m t m' :
  truthy_opt truthy_tag (thumb_tex (state m) !! p) = false ->
  thumb_for cfg env p m = (Ok (Some t), m') ->
  item_exists (dpg m) (texreg (state m)) = true.
Proof.
  intros Hmiss H. destruct (PIL_OK cfg) eqn:Hpil.
  - destruct (item_exists (dpg m) (texreg (state m))) eqn:Hx; [reflexivity|].
    rewrite (thumb_for_no_registry cfg env p m Hpil Hmiss Hx) in H.
    discriminate.
  - rewrite (thumb_for_disabled cfg env p m Hpil) in H. discriminate.
Qed.

(** ** Relations that the program keeps on its state *)

Section Keeps.
Context (Rs : State -> State -> Prop).
Context (Rs_refl : forall s, Rs s s).
Context (Rs_trans : forall s1 s2 s3, Rs s1 s2 -> Rs s2 s3 -> Rs s1 s3).

Lemma keeps_ret {A} (a : A) : keeps Rs (ret a).
Proof. intros m. apply Rs_refl. Qed.

Lemma keeps_raise {A} (e : exn) : keeps Rs (@raise A e).
Proof. intros m. apply Rs_refl. Qed.

Lemma keeps_lift {A} (r : result A) : keeps Rs (lift r).
Proof. intros m. apply Rs_refl. Qed.

Lemma keeps_bind {A B} (c : M A) (k : A -> M B) :
  keeps Rs c -> (forall a, keeps Rs (k a)) -> keeps Rs (bind c k).
Proof.
  intros Hc Hk m. specialize (Hc m). unfold exec, bind in *.
  destruct (c m) as [[a|e] m']; simpl in *.
  - eapply Rs_trans; [exact Hc|apply Hk].
  - exact Hc.
Qed.

Lemma keeps_try_catch {A} (c : M A) (h : exn -> M A) :
  keeps Rs c -> (forall e, keeps Rs (h e)) -> keeps Rs (try_catch c h).
Proof.
  intros Hc Hh m. specialize (Hc m). unfold exec, try_catch in *.
  destruct (c m) as [[a|e] m']; simpl in *.
  - exact Hc.
  - eapply Rs_trans; [exact Hc|apply Hh].
Qed.

Lemma keeps_for_each {A} (l : list A) (body : A -> M unit) :
  (forall x, keeps Rs (body x)) -> keeps Rs (for_each l body).
Proof.
  intros Hb. induction l as [|x l IH]; simpl.
  - apply keeps_ret.
  - apply keeps_bind; [apply Hb|intros _; exact IH].
Qed.

Lemma keeps_get_state : keeps Rs get_state.
Proof. intros m. apply Rs_refl. Qed.

Lemma keeps_get_dpg : keeps Rs get_dpg.
Proof. intros m. apply Rs_refl. Qed.

Lemma keeps_log c : keeps Rs (log c).
Proof. intros m. apply Rs_refl. Qed.

Lemma keeps_add_item parent k : keeps Rs (add_item parent k).
Proof.
  intros m. unfold exec, add_item.
  destruct (accepts (dpg m) parent k); apply Rs_refl.
Qed.

Lemma keeps_bind_item_handler_registry a b :
  keeps Rs (bind_item_handler_registry a b).
Proof.
  intros m. unfold exec, bind_item_handler_registry.
  destruct (item_exists (dpg m) a && item_exists (dpg m) b); apply Rs_refl.
Qed.

Lemma keeps_does_item_exist t : keeps Rs (does_item_exist t).
Proof. intros m. apply Rs_refl. Qed.

Lemma keeps_delete_item t : keeps Rs (delete_item t).
Proof.
  intros m. unfold exec, delete_item.
  destruct (item_exists (dpg m) t); apply Rs_refl.
Qed.

Lemma keeps_update_item t f : keeps Rs (update_item t f).
Proof.
  intros m. unfold exec, update_item.
  destruct (item_exists (dpg m) t); apply Rs_refl.
Qed.

Lemma keeps_get_item_children t : keeps Rs (get_item_children t).
Proof.
  intros m. unfold exec, get_item_children.
  destruct (item_exists (dpg m) t); apply Rs_refl.
Qed.

Lemma keeps_get_item_rect_width env t : keeps Rs (get_item_rect_width env t).
Proof.
  intros m. unfold exec, get_item_rect_width.
  destruct (item_exists (dpg m) t); apply Rs_refl.
Qed.

Lemma keeps_modify_state f :
  (forall s, Rs s (f s)) -> keeps Rs (modify_state f).
Proof. intros H m. apply H. Qed.

Lemma keeps_popen env argv : keeps Rs (popen env argv).
Proof.
  unfold popen. apply keeps_bind; [apply keeps_log|intros _].
  destruct (spawn_errno env argv); [apply keeps_raise|apply keeps_ret].
Qed.

Lemma keeps_startfile env p : keeps Rs (startfile env p).
Proof.
  unfold startfile. apply keeps_bind; [apply keeps_log|intros _].
  destruct (startfile_errno env p); [apply keeps_raise|apply keeps_ret].
Qed.

Lemma keeps_index {A} (l : list A) i : keeps Rs (index l i).
Proof.
  unfold index. destruct (nth_error l i); [apply keeps_ret|apply keeps_raise].
Qed.

(** One step of a syntax-directed proof of [keeps]. *)
Ltac keeps_step :=
  match goal with
  | |- keeps _ (bind _ _) => apply keeps_bind; [|intros ?]
  | |- keeps _ (try_catch _ _) => apply keeps_try_catch; [|intros ?]
  | |- keeps _ (for_each _ _) => apply keeps_for_each; intros ?
  | |- keeps _ (ret _) => apply keeps_ret
  | |- keeps _ (raise _) => apply keeps_raise
  | |- keeps _ (lift _) => apply keeps_lift
  | |- keeps _ get_state => apply keeps_get_state
  | |- keeps _ get_dpg => apply keeps_get_dpg
  | |- keeps _ (log _) => apply keeps_log
  | |- keeps _ (add_item _ _) => apply keeps_add_item
  | |- keeps _ (bind_item_handler_registry _ _) =>
      apply keeps_bind_item_handler_registry
  | |- keeps _ (does_item_exist _) => apply keeps_does_item_exist
  | |- keeps _ (delete_item _) => apply keeps_delete_item
  | |- keeps _ (update_item _ _) => apply keeps_update_item
  | |- keeps _ (get_item_children _) => apply keeps_get_item_children
  | |- keeps _ (get_item_rect_width _ _) => apply keeps_get_item_rect_width
  | |- keeps _ (popen _ _) => apply keeps_popen
  | |- keeps _ (startfile _ _) => apply keeps_startfile
  | |- keeps _ (index _ _) => apply keeps_index
  | |- keeps _ (modify_state _) => apply keeps_modify_state; intros ?
  | |- keeps _ (if ?b then _ else _) => destruct b
  | |- keeps _ (match ?x with _ => _ end) => destruct x
  end.

(** What the relation must allow: every assignment the program makes to a
    key of [state] other than the cache, and the growth of the cache by
    [thumb_for]. *)
Context (Rs_root_dir : forall v s, Rs s (set_root_dir v s)).
Context (Rs_thumb_items : forall v s, Rs s (set_thumb_items v s)).
Context (Rs_grid_table : forall v s, Rs s (set_grid_table v s)).
Context (Rs_thumb_for : forall cfg env p, keeps Rs (thumb_for cfg env p)).
Context (Rs_load : forall env p, keeps Rs (load_directory_images env p)).

Lemma keeps_open_system_viewer cfg env p : keeps Rs (open_system_viewer cfg env p).
Proof. unfold open_system_viewer. repeat keeps_step. Qed.

Lemma keeps_launch_viewer cfg env p : keeps Rs (launch_viewer cfg env p).
Proof.
  unfold launch_viewer. keeps_step; [keeps_step|].
  apply keeps_open_system_viewer.
Qed.

Lemma keeps_clear_grid_items : keeps Rs clear_grid_items.
Proof.
  unfold clear_grid_items. repeat keeps_step;
    auto using Rs_thumb_items, Rs_grid_table.
Qed.

Lemma keeps_available_grid_width env : keeps Rs (available_grid_width env).
Proof. unfold available_grid_width. repeat keeps_step. Qed.

Lemma keeps_append_thumb_item x : keeps Rs (append_thumb_item x).
Proof. unfold append_thumb_item. keeps_step. apply Rs_thumb_items. Qed.

Lemma keeps_grid_loop cfg env table_id cols imgs :
  forall i row, keeps Rs (grid_loop cfg env table_id cols i row imgs).
Proof.
  induction imgs as [|p rest IH]; intros i row; simpl.
  - apply keeps_ret.
  - apply keeps_bind; [repeat keeps_step|intros row'].
    apply keeps_bind; [keeps_step|intros cell].
    apply keeps_bind; [apply Rs_thumb_for|intros tex].
    apply keeps_bind; [keeps_step|intros g].
    apply keeps_bind; [repeat keeps_step|intros btn].
    apply keeps_bind; [keeps_step|intros ihr].
    apply keeps_bind; [keeps_step|intros _].
    apply keeps_bind; [keeps_step|intros _].
    apply keeps_bind; [apply keeps_append_thumb_item|intros _].
    apply keeps_bind; [keeps_step|intros _].
    apply keeps_bind; [apply keeps_append_thumb_item|intros _].
    apply IH.
Qed.

Lemma keeps_build_thumbnail_grid cfg env : keeps Rs (build_thumbnail_grid cfg env).
Proof.
  unfold build_thumbnail_grid.
  apply keeps_bind; [apply keeps_clear_grid_items|intros _].
  apply keeps_bind; [apply keeps_available_grid_width|intros w].
  apply keeps_bind; [keeps_step|intros st].
  apply keeps_bind; [keeps_step|intros table_id].
  apply keeps_bind; [keeps_step; apply Rs_grid_table|intros _].
  apply keeps_bind; [repeat keeps_step|intros _].
  apply keeps_bind; [keeps_step|intros st'].
  destruct (images_in_dir st') as [|p rest].
  - repeat keeps_step. apply keeps_append_thumb_item.
  - apply keeps_grid_loop.
Qed.

Lemma keeps_resize_callback cfg env app_data :
  keeps Rs (resize_callback cfg env app_data).
Proof.
  unfold resize_callback.
  apply keeps_bind; [repeat keeps_step|intros [[width height]|]].
  - apply keeps_bind; [keeps_step|intros _].
    apply keeps_build_thumbnail_grid.
  - apply keeps_ret.
Qed.

Lemma keeps_rebuild_sidebar_tree env : keeps Rs (rebuild_sidebar_tree env).
Proof. unfold rebuild_sidebar_tree. repeat keeps_step. Qed.

Lemma keeps_handle cfg env ev : keeps Rs (handle cfg env ev).
Proof.
  destruct ev; simpl.
  - apply keeps_bind; [apply Rs_thumb_for|intros _; apply keeps_ret].
  - unfold on_folder_click.
    apply keeps_bind; [apply Rs_load|intros _].
    apply keeps_build_thumbnail_grid.
  - apply keeps_launch_viewer.
  - unfold set_root_directory.
    apply keeps_bind; [keeps_step; apply Rs_root_dir|intros _].
    apply keeps_bind; [apply Rs_load|intros _].
    apply keeps_bind; [apply keeps_rebuild_sidebar_tree|intros _].
    apply keeps_build_thumbnail_grid.
  - apply keeps_resize_callback.
  - apply keeps_build_thumbnail_grid.
Qed.

Lemma keeps_run cfg evs m : Rs (state m) (state (run cfg evs m)).
Proof.
  revert m. induction evs as [|[env ev] evs IH]; intros m; simpl.
  - apply Rs_refl.
  - eapply Rs_trans; [apply keeps_handle|apply IH].
Qed.
End Keeps.

Lemma cache_grows_refl s : cache_grows s s.
Proof. intros p t H _. exact H. Qed.

Lemma cache_grows_trans s1 s2 s3 :
  cache_grows s1 s2 -> cache_grows s2 s3 -> cache_grows s1 s3.
Proof. intros H1 H2 p t H Ht. apply H2; [|exact Ht]. now apply H1. Qed.

Lemma cache_grows_same s s' : thumb_tex s' = thumb_tex s -> cache_grows s s'.
Proof. intros E p t H _. now rewrite E. Qed.

Lemma keeps_cache_thumb_for cfg env p : keeps cache_grows (thumb_for cfg env p).
Proof.
  intros m q t Hq Ht. unfold exec.
  destruct (thumb_for_cases cfg env p m)
    as [[_ ->]|[(t' & _ & _ & ->)|[[_ ->]|[Hmiss [im ->]]]]]; simpl; try exact Hq.
  destruct (decide (p = q)) as [->|Hne].
  - rewrite Hq in Hmiss. simpl in Hmiss. congruence.
  - now rewrite lookup_insert_ne.
Qed.

Lemma keeps_cache_load env p : keeps cache_grows (load_directory_images env p).
Proof.
  unfold load_directory_images.
  apply keeps_bind; [apply cache_grows_trans| |intros _].
  { apply keeps_modify_state. intros s. now apply cache_grows_same. }
  apply keeps_bind; [apply cache_grows_trans|apply keeps_lift, cache_grows_refl|intros imgs].
  apply keeps_bind; [apply cache_grows_trans| |intros _].
  { apply keeps_modify_state. intros s. now apply cache_grows_same. }
  apply keeps_update_item, cache_grows_refl.
Qed.

Lemma cache_grows_run cfg evs m : cache_grows (state m) (state (run cfg evs m)).
Proof.
  apply keeps_run.
  - apply cache_grows_refl.
  - apply cache_grows_trans.
  - intros v s. now apply cache_grows_same.
  - intros v s. now apply cache_grows_same.
  - intros v s. now apply cache_grows_same.
  - apply keeps_cache_thumb_for.
  - apply keeps_cache_load.
Qed.

(** What [thumb_for] returns is a tag that Python takes for true, and it is
    in the cache from then on. *)
Lemma thumb_for_returned cfg env p m t m1 :
  thumb_for cfg env p m = (Ok (Some t), m1) ->
  PIL_OK cfg = true /\ truthy_tag t = true /\
  thumb_tex (state m1) !! p = Some t.
Proof.
  intros H.
  destruct (thumb_for_cases cfg env p m)
    as [[_ E]|[(t' & Hl & Ht & E)|[[_ E]|[Hmiss [im E]]]]];
    rewrite E in H; inversion H; subst; clear H.
  - destruct (PIL_OK cfg) eqn:Hpil; [auto|].
    rewrite thumb_for_disabled in E by exact Hpil. discriminate.
  - destruct (PIL_OK cfg) eqn:Hpil.
    + repeat split. simpl. apply lookup_insert_eq.
    + rewrite thumb_for_disabled in E by exact Hpil. discriminate.
Qed.

(** C4: once [thumb_for p] has returned a texture handle, every later call
    of [thumb_for p], whatever the program did in between and whatever the
    file has become, returns that same handle and leaves the machine as it
    is: no decode, no new texture. *)
Theorem C4_thumb_for_returns_cached_handle
        (cfg : Config) (env : Env) (p : string) (m m1 : Machine) (t : tag) :
  thumb_for cfg env p m = (Ok (Some t), m1) ->
  forall (evs : list (Env * Event)) (env' : Env),
    let m2 := run cfg evs m1 in
    thumb_for cfg env' p m2 = (Ok (Some t), m2) /\
    trace (exec (thumb_for cfg env' p) m2) = trace m2.
Proof.
  intros H evs env' m2.
  destruct (thumb_for_returned _ _ _ _ _ _ H) as (Hpil & Ht & Hl).
  assert (E : thumb_for cfg env' p m2 = (Ok (Some t), m2)).
  { apply thumb_for_hit; [exact Hpil| |exact Ht].
    now apply (cache_grows_run cfg evs m1). }
  split; [exact E|]. unfold exec. now rewrite E.
Qed.

Lemma C4_witness :
  let m1 := exec (thumb_for linux_cfg good_env "/pics/a.jpg") start_machine in
  let m2 := run linux_cfg
              [(good_env, RootChosen "/pics"); (bad_env, Resized [640; 480])] m1 in
  thumb_for linux_cfg bad_env "/pics/a.jpg" m2 = (Ok (Some (IntTag 30)), m2) /\
  trace (exec (thumb_for linux_cfg bad_env "/pics/a.jpg") m2) = trace m2.
Proof.
  apply (C4_thumb_for_returns_cached_handle
           linux_cfg good_env "/pics/a.jpg" start_machine).
  reflexivity.
Defined.

(** C5: when [thumb_for p] has to decode [p] (Pillow is there and [p] has no
    handle in the cache) and the decode fails, it returns [None] and changes
    neither the cache nor any other part of the state nor the DPG registry;
    the failure is not remembered, so the next call opens the image again,
    and returns a fresh handle if the decode then succeeds and the texture
    registry is there. *)
Theorem C5_failed_decode_is_not_cached
        (cfg : Config) (env : Env) (p : string) (m : Machine) (e : exn) :
  PIL_OK cfg = true ->
  truthy_opt truthy_tag (thumb_tex (state m) !! p) = false ->
  load_thumbnail env p = Raise e ->
  let m1 := exec (thumb_for cfg env p) m in
  eval (thumb_for cfg env p) m = Ok None /\
  thumb_tex (state m1) = thumb_tex (state m) /\
  state m1 = state m /\ dpg m1 = dpg m /\
  trace m1 = trace m ++ [ImageOpen p] /\
  forall env',
    trace (exec (thumb_for cfg env' p) m1) = trace m1 ++ [ImageOpen p] /\
    (forall im, load_thumbnail env' p = Ok im ->
                item_exists (dpg m) (texreg (state m)) = true ->
                exists t, eval (thumb_for cfg env' p) m1 = Ok (Some t) /\
                          thumb_tex (state (exec (thumb_for cfg env' p) m1)) !! p = Some t) /\
    (forall e', load_thumbnail env' p = Raise e' ->
                eval (thumb_for cfg env' p) m1 = Ok None).
Proof.
  intros Hpil Hmiss He m1. subst m1. unfold eval, exec.
  rewrite (thumb_for_miss_fail cfg env p m e Hpil Hmiss He). simpl.
  set (m1 := mkMachine (state m) (dpg m) (trace m ++ [ImageOpen p])).
  assert (Hmiss1 : truthy_opt truthy_tag (thumb_tex (state m1) !! p) = false)
    by exact Hmiss.
  repeat split.
  - destruct (load_thumbnail env' p) as [im|e'] eqn:E.
    + destruct (item_exists (dpg m1) (texreg (state m1))) eqn:Hx.
      * rewrite (thumb_for_miss_ok cfg env' p m1 im Hpil Hmiss1 E Hx).
        reflexivity.
      * rewrite (thumb_for_no_registry cfg env' p m1 Hpil Hmiss1 Hx).
        reflexivity.
    + rewrite (thumb_for_miss_fail cfg env' p m1 e' Hpil Hmiss1 E). reflexivity.
  - intros im E Hx.
    rewrite (thumb_for_miss_ok cfg env' p m1 im Hpil Hmiss1 E Hx). simpl.
    eexists. split; [reflexivity|]. apply lookup_insert_eq.
  - intros e' E.
    rewrite (thumb_for_miss_fail cfg env' p m1 e' Hpil Hmiss1 E). reflexivity.
Qed.

Lemma C5_witness :
  let m1 := exec (thumb_for linux_cfg bad_env "/pics/a.jpg") start_machine in
  eval (thumb_for linux_cfg bad_env "/pics/a.jpg") start_machine = Ok None /\
  thumb_tex (state m1) = thumb_tex (state start_machine) /\
  state m1 = state start_machine /\ dpg m1 = dpg start_machine /\
  trace m1 = trace start_machine ++ [ImageOpen "/pics/a.jpg"] /\
  forall env',
    trace (exec (thumb_for linux_cfg env' "/pics/a.jpg") m1)
    = trace m1 ++ [ImageOpen "/pics/a.jpg"] /\
    (forall im, load_thumbnail env' "/pics/a.jpg" = Ok im ->
                item_exists (dpg start_machine) (texreg (state start_machine)) = true ->
                exists t, eval (thumb_for linux_cfg env' "/pics/a.jpg") m1 = Ok (Some t) /\
                          thumb_tex (state (exec (thumb_for linux_cfg env' "/pics/a.jpg") m1))
                            !! "/pics/a.jpg" = Some t) /\
    (forall e', load_thumbnail env' "/pics/a.jpg" = Raise e' ->
                eval (thumb_for linux_cfg env' "/pics/a.jpg") m1 = Ok None).
Proof.
  apply (C5_failed_decode_is_not_cached linux_cfg bad_env "/pics/a.jpg"
           start_machine (UnidentifiedImageError "/pics/a.jpg"));
    reflexivity.
Defined.

(** ** The viewer launcher *)

Lemma open_system_viewer_trace cfg env p m :
  trace (exec (open_system_viewer cfg env p) m)
  = trace m ++ [system_open_call cfg p] /\
  state (exec (open_system_viewer cfg env p) m) = state m /\
  dpg (exec (open_system_viewer cfg env p) m) = dpg m.
Proof.
  unfold open_system_viewer, system_open_call, exec.
  destruct (String.prefix "win" (platform cfg)).
  - unfold startfile, bind, log.
    destruct (startfile_errno env p); simpl; auto.
  - destruct (String.eqb (platform cfg) "darwin");
      unfold popen, bind, log;
      destruct (spawn_errno env _); simpl; auto.
Qed.

Lemma open_system_viewer_result cfg env p m :
  eval (open_system_viewer cfg env p) m = Ok tt \/
  (exists n, eval (open_system_viewer cfg env p) m = Raise (StartfileError p n)) \/
  (exists opener n,
      eval (open_system_viewer cfg env p) m = Raise (SpawnError [opener; p] n)).
Proof.
  unfold open_system_viewer, eval.
  destruct (String.prefix "win" (platform cfg)).
  - unfold startfile, bind, log.
    destruct (startfile_errno env p); simpl; eauto.
  - destruct (String.eqb (platform cfg) "darwin");
      unfold popen, bind, log;
      destruct (spawn_errno env _); simpl; eauto.
Qed.

(** C8: when the viewer process cannot be started, [launch_viewer p] goes on
    exactly as [open_system_viewer p] does after the failed attempt, so the
    operating system's opener is called for [p]; whatever comes back to the
    caller is the outcome of that opener, never the failure of the spawn. *)
Theorem C8_launch_viewer_falls_back
        (cfg : Config) (env : Env) (p : string) (m : Machine) (errno : Z) :
  spawn_errno env (viewer_argv cfg p) = Some errno ->
  let attempted :=
    mkMachine (state m) (dpg m) (trace m ++ [Popen (viewer_argv cfg p)]) in
  launch_viewer cfg env p m = open_system_viewer cfg env p attempted /\
  trace (exec (launch_viewer cfg env p) m)
  = trace m ++ [Popen (viewer_argv cfg p); system_open_call cfg p] /\
  (forall n, eval (launch_viewer cfg env p) m
             <> Raise (SpawnError (viewer_argv cfg p) n)).
Proof.
  intros H attempted.
  assert (E : launch_viewer cfg env p m = open_system_viewer cfg env p attempted).
  { unfold launch_viewer, try_catch, popen, bind, log.
    fold (viewer_argv cfg p). rewrite H. reflexivity. }
  split; [exact E|]. split.
  - unfold exec. rewrite E.
    destruct (open_system_viewer_trace cfg env p attempted) as (Ht & _ & _).
    unfold exec in Ht. rewrite Ht. subst attempted. simpl.
    rewrite <- app_assoc. reflexivity.
  - intros n. unfold eval. rewrite E.
    destruct (open_system_viewer_result cfg env p attempted)
      as [R|[[k R]|(o & k & R)]]; unfold eval in R; rewrite R;
      unfold viewer_argv; congruence.
Qed.

Lemma C8_witness :
  let attempted :=
    mkMachine (state start_machine) (dpg start_machine)
              (trace start_machine ++ [Popen (viewer_argv linux_cfg "/pics/a.jpg")]) in
  launch_viewer linux_cfg bad_env "/pics/a.jpg" start_machine
  = open_system_viewer linux_cfg bad_env "/pics/a.jpg" attempted /\
  trace (exec (launch_viewer linux_cfg bad_env "/pics/a.jpg") start_machine)
  = trace start_machine
    ++ [Popen (viewer_argv linux_cfg "/pics/a.jpg");
        system_open_call linux_cfg "/pics/a.jpg"] /\
  (forall n, eval (launch_viewer linux_cfg bad_env "/pics/a.jpg") start_machine
             <> Raise (SpawnError (viewer_argv linux_cfg "/pics/a.jpg") n)).
Proof.
  apply (C8_launch_viewer_falls_back linux_cfg bad_env "/pics/a.jpg" start_machine 2).
  reflexivity.
Defined.

(** ** Resizing *)

Lemma same_directory_refl s : same_directory s s.
Proof. split; reflexivity. Qed.

Lemma same_directory_trans s1 s2 s3 :
  same_directory s1 s2 -> same_directory s2 s3 -> same_directory s1 s3.
Proof. intros [A1 B1] [A2 B2]. split; congruence. Qed.

Lemma keeps_directory_thumb_for cfg env p :
  keeps same_directory (thumb_for cfg env p).
Proof.
  intros m. unfold exec.
  destruct (thumb_for_cases cfg env p m)
    as [[_ ->]|[(t' & _ & _ & ->)|[[_ ->]|[Hmiss [im ->]]]]]; simpl;
    split; reflexivity.
Qed.

Lemma keeps_directory_resize cfg env app_data :
  keeps same_directory (resize_callback cfg env app_data).
Proof.
  apply keeps_resize_callback.
  - apply same_directory_refl.
  - apply same_directory_trans.
  - intros v s. split; reflexivity.
  - intros v s. split; reflexivity.
  - apply keeps_directory_thumb_for.
Qed.

Lemma bind_ext {A B} (c : M A) (k k' : A -> M B) m :
  (forall a m', k a m' = k' a m') -> bind c k m = bind c k' m.
Proof.
  intros H. unfold bind. destruct (c m) as [[a|e] m']; [apply H|reflexivity].
Qed.

(** The grid is built without a look at the filesystem. *)
Lemma grid_loop_fs_indep cfg env fs' table_id cols imgs :
  forall i row m,
    grid_loop cfg (with_fs fs' env) table_id cols i row imgs m
    = grid_loop cfg env table_id cols i row imgs m.
Proof.
  induction imgs as [|p rest IH]; intros i row m; simpl.
  - reflexivity.
  - apply bind_ext; intros row' m1.
    apply bind_ext; intros cell m2.
    change (thumb_for cfg (with_fs fs' env) p) with (thumb_for cfg env p).
    apply bind_ext; intros tex m3.
    apply bind_ext; intros g m4.
    apply bind_ext; intros btn m5.
    apply bind_ext; intros ihr m6.
    apply bind_ext; intros u1 m7.
    apply bind_ext; intros u2 m8.
    apply bind_ext; intros u3 m9.
    apply bind_ext; intros u4 m10.
    apply bind_ext; intros u5 m11.
    apply IH.
Qed.

Lemma build_thumbnail_grid_fs_indep cfg env fs' m :
  build_thumbnail_grid cfg (with_fs fs' env) m = build_thumbnail_grid cfg env m.
Proof.
  unfold build_thumbnail_grid.
  apply bind_ext; intros u1 m1.
  change (available_grid_width (with_fs fs' env)) with (available_grid_width env).
  apply bind_ext; intros w m2.
  apply bind_ext; intros st m3.
  apply bind_ext; intros table_id m4.
  apply bind_ext; intros u2 m5.
  apply bind_ext; intros u3 m6.
  apply bind_ext; intros st' m7.
  destruct (images_in_dir st'); [reflexivity|].
  apply grid_loop_fs_indep.
Qed.

Lemma resize_callback_fs_indep cfg env fs' app_data m :
  resize_callback cfg (with_fs fs' env) app_data m
  = resize_callback cfg env app_data m.
Proof.
  unfold resize_callback.
  apply bind_ext; intros [[width height]|] m1; [|reflexivity].
  apply bind_ext; intros u m2.
  apply build_thumbnail_grid_fs_indep.
Qed.

Lemma same_directory_resizes cfg evs :
  Forall is_resize evs ->
  forall m, same_directory (state m) (state (run cfg evs m)).
Proof.
  induction 1 as [|[env ev] evs Hr _ IH]; intros m; simpl.
  - apply same_directory_refl.
  - eapply same_directory_trans; [|apply IH].
    destruct ev; try destruct Hr. simpl.
    apply keeps_directory_resize.
Qed.

(** C9: a resize event lays the grid out again and nothing more.  With a
    width and a height in [app_data], [resize_callback] resizes the main
    window and calls [build_thumbnail_grid]; otherwise it returns at once.
    Either way, and after any number of resize events, [state["current_dir"]]
    and [state["images_in_dir"]] are what they were, and the outcome does not
    depend on the filesystem: the directory is not scanned again. *)
Theorem C9_resize_relayouts_only
        (cfg : Config) (env : Env) (app_data : list Z) (m : Machine) :
  let m' := exec (resize_callback cfg env app_data) m in
  current_dir (state m') = current_dir (state m) /\
  images_in_dir (state m') = images_in_dir (state m) /\
  (forall fs', resize_callback cfg (with_fs fs' env) app_data m
               = resize_callback cfg env app_data m) /\
  (forall fs', build_thumbnail_grid cfg (with_fs fs' env) m
               = build_thumbnail_grid cfg env m) /\
  (forall width height rest,
      app_data = width :: height :: rest ->
      resize_callback cfg env app_data m
      = bind (update_item (StrTag "main_window") (set_size width (height - 30)))
             (fun _ => build_thumbnail_grid cfg env) m) /\
  (forall evs, Forall is_resize evs ->
               current_dir (state (run cfg evs m)) = current_dir (state m) /\
               images_in_dir (state (run cfg evs m)) = images_in_dir (state m)).
Proof.
  intros m'.
  destruct (keeps_directory_resize cfg env app_data m) as [Hc Hi].
  split; [exact Hc|]. split; [exact Hi|].
  split; [intros fs'; apply resize_callback_fs_indep|].
  split; [intros fs'; apply build_thumbnail_grid_fs_indep|].
  split.
  - intros width height rest ->. reflexivity.
  - intros evs Hr. apply (same_directory_resizes cfg evs Hr m).
Qed.

Lemma C9_witness :
  let m' := exec (resize_callback linux_cfg good_env [640; 480]) five_machine in
  current_dir (state m') = "/pics" /\
  images_in_dir (state m') = five_images /\
  grid_view (dpg m') (IntTag 30)
  = [[ThumbCell (ImageButton (IntTag 35)) "/pics/a.jpg" "a.jpg";
      ThumbCell (ImageButton (IntTag 42)) "/pics/b.PNG" "b.PNG"];
     [ThumbCell (ImageButton (IntTag 50)) "/pics/c.gif" "c.gif";
      ThumbCell (ImageButton (IntTag 57)) "/pics/d.bmp" "d.bmp"];
     [ThumbCell (ImageButton (IntTag 65)) "/pics/e.webp" "e.webp"]].
Proof.
  destruct (C9_resize_relayouts_only linux_cfg good_env [640; 480] five_machine)
    as (Hc & Hi & _).
  split; [exact Hc|]. split; [exact Hi|]. vm_compute. reflexivity.
Defined.

(** ** The DPG registry *)

Lemma tag_below_mono (n n' : positive) (t : tag) :
  (n <= n')%positive -> tag_below n t = true -> tag_below n' t = true.
Proof.
  intros Hn. destruct t as [k|s]; simpl; [|reflexivity].
  rewrite !Z.ltb_lt. lia.
Qed.

Lemma tag_below_fresh (n k : positive) :
  (n <= k)%positive -> tag_below n (IntTag (Z.pos k)) = false.
Proof. intros H. simpl. apply Z.ltb_ge. lia. Qed.

Lemma tag_below_ne (n : positive) (t t' : tag) :
  tag_below n t = true -> tag_below n t' = false -> t <> t'.
Proof. intros H H' ->. congruence. Qed.

Lemma item_below_mono (n n' : positive) (it : Item) :
  (n <= n')%positive -> item_below n it = true -> item_below n' it = true.
Proof.
  intros Hn. unfold item_below. rewrite !andb_true_iff. intros [H1 H2].
  split; [now apply (tag_below_mono n)|].
  destruct (item_parent it) as [p|]; [|reflexivity].
  apply orb_true_iff in H2 as [H2|H2]; apply orb_true_iff; [now left|right].
  now apply (tag_below_mono n).
Qed.

Lemma items_below_mono (n n' : positive) (l : list Item) :
  (n <= n')%positive ->
  forallb (item_below n) l = true -> forallb (item_below n') l = true.
Proof.
  intros Hn. rewrite !forallb_forall. intros H x Hx.
  apply (item_below_mono n); auto.
Qed.

Lemma bindings_below_mono (n n' : positive) (l : list (tag * tag)) :
  (n <= n')%positive ->
  forallb (binding_below n) l = true -> forallb (binding_below n') l = true.
Proof.
  intros Hn. rewrite !forallb_forall. intros H x Hx.
  specialize (H x Hx). unfold binding_below in *.
  apply andb_true_iff in H as [H1 H2].
  apply andb_true_iff; split; now apply (tag_below_mono n).
Qed.

Lemma select_app P t (l l' : list Item) :
  select P t (l ++ l') = select P t l ++ select P t l'.
Proof. unfold select. apply List.filter_app. Qed.

Lemma select_In P t (l : list Item) it :
  In it (select P t l) -> In it l /\ P (item_kind it) = true /\ item_parent it = Some t.
Proof.
  unfold select. rewrite filter_In, andb_true_iff.
  intros (Hin & HP & Hp). repeat split; auto.
  unfold has_parent in Hp. now apply bool_decide_eq_true in Hp.
Qed.

(** No item of a table hangs below an id that has not been handed out. *)
Lemma select_fresh_parent P n t (l : list Item) :
  forallb (item_below n) l = true ->
  (forall k, P k = true -> grid_kind k = true) ->
  tag_below n t = false ->
  select P t l = [].
Proof.
  intros Hl HP Ht.
  destruct (select P t l) as [|it r] eqn:E; [reflexivity|exfalso].
  assert (Hin : In it (select P t l)) by (rewrite E; now left).
  apply select_In in Hin as (Hin & Hk & Hp).
  rewrite forallb_forall in Hl. specialize (Hl it Hin).
  unfold item_below in Hl. rewrite Hp, (HP _ Hk) in Hl. simpl in Hl.
  apply andb_true_iff in Hl as [_ Hl]. congruence.
Qed.

(** A block of new items whose inner parts hang below fresh ids adds
    nothing below an old id. *)
Lemma select_fresh_block P n t (X : list Item) :
  Forall (fun it => grid_inner (item_kind it) = true ->
                    forall q, item_parent it = Some q -> tag_below n q = false) X ->
  (forall k, P k = true -> grid_inner k = true) ->
  tag_below n t = true ->
  select P t X = [].
Proof.
  intros HX HP Ht.
  destruct (select P t X) as [|it r] eqn:E; [reflexivity|exfalso].
  assert (Hin : In it (select P t X)) by (rewrite E; now left).
  apply select_In in Hin as (Hin & Hk & Hp).
  rewrite List.Forall_forall in HX.
  specialize (HX it Hin (HP _ Hk) t Hp). congruence.
Qed.

Lemma select_tag_below P n t (l : list Item) x :
  forallb (item_below n) l = true ->
  In x (map item_tag (select P t l)) -> tag_below n x = true.
Proof.
  intros Hl Hx. apply in_map_iff in Hx as (it & <- & Hin).
  apply select_In in Hin as (Hin & _ & _).
  rewrite forallb_forall in Hl. specialize (Hl it Hin).
  unfold item_below in Hl. now apply andb_true_iff in Hl as [Hl _].
Qed.

Lemma assoc_fresh_block n t (B l : list (tag * tag)) :
  Forall (fun ab => tag_below n (fst ab) = false) B ->
  tag_below n t = true ->
  assoc t (B ++ l) = assoc t l.
Proof.
  intros HB Ht. induction HB as [|[a b] B Hab _ IH]; simpl; [reflexivity|].
  simpl in Hab. rewrite bool_decide_eq_false_2; [exact IH|].
  intros ->. congruence.
Qed.

Lemma assoc_below n t r (l : list (tag * tag)) :
  forallb (binding_below n) l = true ->
  assoc t l = Some r -> tag_below n r = true.
Proof.
  induction l as [|[a b] l IH]; simpl; [discriminate|].
  rewrite andb_true_iff. intros [Hab Hl].
  destruct (bool_decide (a = t)).
  - intros [= <-]. unfold binding_below in Hab. simpl in Hab.
    now apply andb_true_iff in Hab as [_ Hab].
  - now apply IH.
Qed.

Lemma grid_inner_kind k : grid_inner k = true -> grid_kind k = true.
Proof. destruct k; simpl; auto. Qed.

(** The view of a cell that exists does not change when a block of new
    items, with inner parts below fresh ids only, is added. *)
Lemma cell_view_stable (d : Dpg) (X : list Item) (B : list (tag * tag))
      (n' : positive) (c : tag) :
  wf_dpg d ->
  tag_below (next_id d) c = true ->
  Forall (fun it => grid_inner (item_kind it) = true ->
                    forall q, item_parent it = Some q ->
                              tag_below (next_id d) q = false) X ->
  Forall (fun ab => tag_below (next_id d) (fst ab) = false) B ->
  cell_view (mkDpg n' (items d ++ X) (B ++ bound d)) c = cell_view d c.
Proof.
  intros [Hit Hbd] Hc HX HB.
  assert (Hsel : forall P t,
             (forall k, P k = true -> grid_inner k = true) ->
             tag_below (next_id d) t = true ->
             select P t (items d ++ X) = select P t (items d)).
  { intros P t HP Ht. rewrite select_app.
    rewrite (select_fresh_block P (next_id d) t X HX HP Ht).
    apply app_nil_r. }
  unfold cell_view, cell_groups, texts_of, double_click_data, children_where.
  simpl items. simpl bound.
  rewrite (Hsel is_group c), (Hsel is_text c); auto;
    try (intros []; simpl; auto).
  destruct (select is_group c (items d)) as [|g [|g' gs]] eqn:Eg; try reflexivity.
  simpl map.
  destruct (map _ (select is_text c (items d))) as [|msg ms]; try reflexivity.
  assert (Hg : tag_below (next_id d) (item_tag g) = true).
  { apply (select_tag_below is_group _ c (items d)); [exact Hit|].
    rewrite Eg. now left. }
  rewrite (Hsel is_button (item_tag g)), (Hsel is_text (item_tag g)); auto;
    try (intros []; simpl; auto).
  destruct (select is_button (item_tag g) (items d)) as [|b [|b' bs]] eqn:Eb;
    try reflexivity.
  destruct (map _ (select is_text (item_tag g) (items d))) as [|cap [|cap' caps]];
    try reflexivity.
  assert (Hb : tag_below (next_id d) (item_tag b) = true).
  { apply (select_tag_below is_button _ (item_tag g) (items d)); [exact Hit|].
    rewrite Eb. now left. }
  rewrite (assoc_fresh_block (next_id d)); auto.
  destruct (assoc (item_tag b) (bound d)) as [registry|] eqn:Ea; try reflexivity.
  rewrite (Hsel is_handler registry); auto; try (intros []; simpl; auto).
  eapply assoc_below; eauto.
Qed.

(** Deciding equalities of tags made of distinct or equal ids. *)
Ltac decide_tags :=
  repeat match goal with
         | |- context [bool_decide (?a = ?a)] =>
             rewrite (bool_decide_eq_true_2 (a = a)) by reflexivity
         | |- context [bool_decide (?a = ?b)] =>
             rewrite (bool_decide_eq_false_2 (a = b))
               by (intros [=]; lia)
         end.

Lemma select_no_inner P t (X : list Item) :
  Forall (fun it => grid_inner (item_kind it) = false) X ->
  (forall k, P k = true -> grid_inner k = true) ->
  select P t X = [].
Proof.
  intros HX HP.
  destruct (select P t X) as [|it r] eqn:E; [reflexivity|exfalso].
  assert (Hin : In it (select P t X)) by (rewrite E; now left).
  apply select_In in Hin as (Hin & Hk & _).
  rewrite List.Forall_forall in HX. specialize (HX it Hin).
  rewrite (HP _ Hk) in HX. discriminate.
Qed.

(** The view of the cell that one turn of the loop has just filled. *)
Lemma new_cell_view (d : Dpg) (Pre : list Item) (n nc n' : positive)
      (button : ItemKind) (p : string) :
  wf_dpg d ->
  (next_id d <= nc)%positive -> (nc < n)%positive ->
  Forall (fun it => grid_inner (item_kind it) = false) Pre ->
  is_button button = true ->
  cell_view
    (mkDpg n'
           (items d ++ Pre ++ thumb_cell_items n (IntTag (Z.pos nc)) button p)
           ((IntTag (Z.pos (n + 1)), IntTag (Z.pos (n + 1 + 1))) :: bound d))
    (IntTag (Z.pos nc))
  = ThumbCell button p (basename p).
Proof.
  intros [Hit Hbd] Hnc Hn HPre Hb.
  assert (Hsel : forall P k,
             (forall x, P x = true -> grid_inner x = true) ->
             (next_id d <= k)%positive ->
             select P (IntTag (Z.pos k))
                    (items d ++ Pre ++ thumb_cell_items n (IntTag (Z.pos nc)) button p)
             = select P (IntTag (Z.pos k))
                      (thumb_cell_items n (IntTag (Z.pos nc)) button p)).
  { intros P k HP Hk. rewrite !select_app.
    rewrite (select_fresh_parent P (next_id d) _ (items d) Hit).
    - rewrite (select_no_inner P _ Pre HPre HP). reflexivity.
    - intros x Hx. apply grid_inner_kind, HP, Hx.
    - now apply tag_below_fresh. }
  set (g := IntTag (Z.pos n)).
  set (registry := IntTag (Z.pos (n + 1 + 1))).
  set (d' := mkDpg n' _ _).
  assert (Hinner : forall P, In P [is_group; is_button; is_text; is_handler] ->
                             forall x, P x = true -> grid_inner x = true).
  { intros P HP x Hx. simpl in HP.
    destruct HP as [<-|[<-|[<-|[<-|[]]]]]; destruct x; simpl in *; auto. }
  assert (Eg : cell_groups d' (IntTag (Z.pos nc)) = [g]).
  { unfold cell_groups, children_where, d'. simpl items.
    rewrite Hsel; [|apply Hinner; simpl; auto|lia].
    unfold thumb_cell_items, select, has_parent.
    destruct button; try discriminate; simpl; decide_tags; reflexivity. }
  assert (Et : texts_of d' (IntTag (Z.pos nc)) = []).
  { unfold texts_of, children_where, d'. simpl items.
    rewrite Hsel; [|apply Hinner; simpl; auto|lia].
    unfold thumb_cell_items, select, has_parent.
    destruct button; try discriminate; simpl; decide_tags; reflexivity. }
  assert (Eb : children_where is_button d' g
               = [mkItem (IntTag (Z.pos (n + 1))) (Some g) button]).
  { unfold children_where, d', g. simpl items.
    rewrite Hsel; [|apply Hinner; simpl; auto|lia].
    unfold thumb_cell_items, select, has_parent.
    destruct button; try discriminate; simpl; decide_tags; reflexivity. }
  assert (Ec : texts_of d' g = [basename p]).
  { unfold texts_of, children_where, d', g. simpl items.
    rewrite Hsel; [|apply Hinner; simpl; auto|lia].
    unfold thumb_cell_items, select, has_parent.
    destruct button; try discriminate; simpl; decide_tags; reflexivity. }
  assert (Eh : double_click_data d' registry = [p]).
  { unfold double_click_data, children_where, d', registry. simpl items.
    rewrite Hsel; [|apply Hinner; simpl; auto|lia].
    unfold thumb_cell_items, select, has_parent.
    destruct button; try discriminate; simpl; decide_tags; reflexivity. }
  unfold cell_view. rewrite Eg, Et, Eb, Ec. simpl item_tag.
  assert (Ea : assoc (IntTag (Z.pos (n + 1))) (bound d') = Some registry).
  { unfold d'. simpl. decide_tags. reflexivity. }
  rewrite Ea, Eh. reflexivity.
Qed.

(** ** One turn of the loop that fills the grid *)

Lemma item_exists_snoc n (l : list Item) b it t :
  item_exists (mkDpg n (l ++ [it]) b) t
  = item_exists (mkDpg n l b) t || has_tag t it.
Proof.
  unfold item_exists. simpl. rewrite existsb_app. simpl.
  now rewrite orb_false_r.
Qed.

Lemma item_exists_items n d b t :
  item_exists (mkDpg n (items d) b) t = item_exists d t.
Proof. reflexivity. Qed.

(** The existence of an item in a registry that is written out. *)
Ltac exists_tac :=
  unfold accepts; cbn -[item_exists has_tag];
  rewrite ?item_exists_snoc, ?item_exists_items;
  unfold has_tag; cbn [item_tag];
  repeat match goal with
         | |- context [bool_decide (?a = ?a)] =>
             rewrite (bool_decide_eq_true_2 (a = a) eq_refl)
         | H : item_exists _ _ = true |- _ => rewrite H
         end;
  repeat (rewrite ?orb_true_r, ?orb_true_l, ?andb_true_r, ?andb_true_l;
          cbn [orb andb]);
  first [reflexivity|assumption].

Lemma bind_add_item {B} parent k (f : tag -> M B) m :
  accepts (dpg m) parent k = true ->
  bind (add_item parent k) f m
  = f (IntTag (Z.pos (next_id (dpg m))))
      (mkMachine (state m)
         (mkDpg (next_id (dpg m) + 1)
                (items (dpg m) ++ [mkItem (IntTag (Z.pos (next_id (dpg m)))) parent k])
                (bound (dpg m)))
         (trace m)).
Proof. intros H. unfold bind. now rewrite add_item_ok. Qed.

(** What [thumb_for] returns is in the registry, when the handles of the
    cache are. *)
Lemma thumb_for_registered cfg env p m :
  cache_registered m ->
  cache_registered (exec (thumb_for cfg env p) m) /\
  forall t, eval (thumb_for cfg env p) m = Ok (Some t) -> truthy_tag t = true ->
            item_exists (dpg (exec (thumb_for cfg env p) m)) t = true.
Proof.
  intros Hc. unfold exec, eval.
  destruct (thumb_for_cases cfg env p m)
    as [[_ ->]|[(t & Hl & Ht & ->)|[[_ ->]|[_ [im ->]]]]]; simpl.
  - split; [exact Hc|discriminate].
  - split; [exact Hc|]. intros t' E _. inversion E; subst. now apply (Hc p).
  - split; [exact Hc|discriminate].
  - split.
    + intros q t Hq Ht. simpl in Hq. unfold item_exists. simpl.
      rewrite existsb_app.
      destruct (decide (p = q)) as [->|Hne].
      * rewrite lookup_insert_eq in Hq. inversion Hq; subst. simpl.
        unfold has_tag. simpl. rewrite bool_decide_eq_true_2 by reflexivity.
        now rewrite orb_true_r.
      * rewrite lookup_insert_ne in Hq by exact Hne.
        apply orb_true_intro. left. now apply (Hc q).
    + intros t E _. inversion E; subst. unfold item_exists. simpl.
      rewrite existsb_app. simpl. unfold has_tag. simpl.
      rewrite bool_decide_eq_true_2 by reflexivity. now rewrite orb_true_r.
Qed.

Lemma thumb_for_effect cfg env p m :
  exists tex m3 T,
    thumb_for cfg env p m = (Ok tex, m3) /\
    items (dpg m3) = items (dpg m) ++ T /\
    bound (dpg m3) = bound (dpg m) /\
    (next_id (dpg m) <= next_id (dpg m3))%positive /\
    Forall (fun it => is_texture (item_kind it) = true /\
                      tag_below (next_id (dpg m3)) (item_tag it) = true) T /\
    is_button (thumb_button tex) = true.
Proof.
  destruct (thumb_for_cases cfg env p m)
    as [[_ E]|[(t & _ & Ht & E)|[[_ E]|[_ [im E]]]]]; rewrite E.
  - exists None, m, []. rewrite app_nil_r.
    repeat split; try reflexivity; auto; lia.
  - exists (Some t), m, []. rewrite app_nil_r.
    repeat split; try reflexivity; auto; try lia.
    simpl. now rewrite Ht.
  - eexists None, _, []. simpl. rewrite app_nil_r.
    repeat split; try reflexivity; auto; lia.
  - eexists _, _, _. split; [reflexivity|]. simpl.
    repeat split; try reflexivity; auto; try lia.
    repeat constructor. simpl. apply Z.ltb_lt. lia.
Qed.


Local Opaque thumb_for.

(** The rest of a turn, once [thumb_for] has returned [tex]. *)
Lemma grid_loop_fill cfg env tid c i row1 cell p rest tex m :
  item_exists (dpg m) cell = true ->
  (forall t, tex = Some t -> truthy_tag t = true ->
             item_exists (dpg m) t = true) ->
  (let* g := add_item (Some cell) Group in
   let* btn := match tex with
               | Some t =>
                   if truthy_tag t
                   then add_item (Some g) (ImageButton t)
                   else add_item (Some g) (Button "Open" None)
               | None => add_item (Some g) (Button "Open" None)
               end in
   let* ihr := add_item None ItemHandlerRegistry in
   let* _ := add_item (Some ihr) (DoubleClickedHandler p) in
   let* _ := bind_item_handler_registry btn ihr in
   let* _ := append_thumb_item ihr in
   let* _ := add_item (Some g) (Text (basename p)) in
   let* _ := append_thumb_item g in
   grid_loop cfg env tid c (i + 1) row1 rest) m
  = grid_loop cfg env tid c (i + 1) row1 rest
              (filled_cell_machine cell p (thumb_button tex) m).
Proof.
  intros Hcell Htex.
  assert (Hbtn : match thumb_button tex with
                 | ImageButton t => item_exists (dpg m) t = true
                 | _ => True
                 end).
  { destruct tex as [t|]; simpl; [|exact I].
    destruct (truthy_tag t) eqn:Ht; [auto|exact I]. }
  assert (E : (let* btn := add_item (Some (IntTag (Z.pos (next_id (dpg m)))))
                             (thumb_button tex) in
               let* ihr := add_item None ItemHandlerRegistry in
               let* _ := add_item (Some ihr) (DoubleClickedHandler p) in
               let* _ := bind_item_handler_registry btn ihr in
               let* _ := append_thumb_item ihr in
               let* _ := add_item (Some (IntTag (Z.pos (next_id (dpg m)))))
                           (Text (basename p)) in
               let* _ := append_thumb_item (IntTag (Z.pos (next_id (dpg m)))) in
               grid_loop cfg env tid c (i + 1) row1 rest)
              (mkMachine (state m)
                 (mkDpg (next_id (dpg m) + 1)
                    (items (dpg m)
                     ++ [mkItem (IntTag (Z.pos (next_id (dpg m)))) (Some cell) Group])
                    (bound (dpg m)))
                 (trace m))
            = grid_loop cfg env tid c (i + 1) row1 rest
                (filled_cell_machine cell p (thumb_button tex) m)).
  { rewrite bind_add_item by (destruct (thumb_button tex); exists_tac).
    cbv beta. rewrite bind_add_item by exists_tac. cbv beta.
    rewrite bind_add_item by exists_tac. cbv beta.
    unfold bind at 1.
    rewrite bind_item_handler_registry_ok by exists_tac.
    cbv iota beta. unfold bind at 1. unfold append_thumb_item at 1.
    unfold modify_state at 1. cbv iota beta.
    rewrite bind_add_item by exists_tac. cbv beta.
    reflexivity. }
  rewrite bind_add_item by exists_tac. cbv beta.
  rewrite <- E.
  destruct tex as [t|]; [simpl thumb_button; destruct (truthy_tag t)|];
    reflexivity.
Qed.

Lemma filled_cell_machine_dpg cell p button m :
  dpg (filled_cell_machine cell p button m)
  = mkDpg (next_id (dpg m) + 1 + 1 + 1 + 1 + 1)
          (items (dpg m) ++ thumb_cell_items (next_id (dpg m)) cell button p)
          ((IntTag (Z.pos (next_id (dpg m) + 1)),
            IntTag (Z.pos (next_id (dpg m) + 1 + 1))) :: bound (dpg m)).
Proof.
  unfold filled_cell_machine, thumb_cell_items. simpl.
  rewrite <- !app_assoc. reflexivity.
Qed.

Lemma cache_registered_grows m m' :
  thumb_tex (state m') = thumb_tex (state m) ->
  (forall t, item_exists (dpg m) t = true -> item_exists (dpg m') t = true) ->
  cache_registered m -> cache_registered m'.
Proof. intros E H Hc p t Hp Ht. rewrite E in Hp. eauto. Qed.

Lemma grid_loop_step cfg env tid c i row p rest m :
  let newrow := (i mod c =? 0)%Z in
  item_exists (dpg m) tid = true ->
  (newrow = false -> exists r, row = Some r /\ item_exists (dpg m) r = true) ->
  cache_registered m ->
  exists tex T n3 m3,
    grid_loop cfg env tid c i row (p :: rest) m
    = grid_loop cfg env tid c (i + 1) (next_row newrow (next_id (dpg m)) row) rest m3 /\
    (cell_id newrow (next_id (dpg m)) < n3)%positive /\
    Forall (fun it => is_texture (item_kind it) = true /\
                      tag_below n3 (item_tag it) = true) T /\
    is_button (thumb_button tex) = true /\
    dpg m3 = dpg_after_turn (dpg m) newrow tid row T n3 (thumb_button tex) p /\
    cache_registered m3.
Proof.
  intros newrow Htid Hrow Hcache. subst newrow.
  unfold dpg_after_turn, row_and_cell, next_row, cell_id.
  destruct (i mod c =? 0)%Z eqn:Hnew.
  - set (m2 := mkMachine (state m)
                 (mkDpg (next_id (dpg m) + 1 + 1)
                    ((items (dpg m)
                      ++ [mkItem (IntTag (Z.pos (next_id (dpg m)))) (Some tid) TableRow])
                      ++ [mkItem (IntTag (Z.pos (next_id (dpg m) + 1)))
                                 (Some (IntTag (Z.pos (next_id (dpg m))))) TableCell])
                    (bound (dpg m)))
                 (trace m)).
    assert (Hc2 : cache_registered m2).
    { apply (cache_registered_grows m); [reflexivity| |exact Hcache].
      intros t Ht. unfold m2. exists_tac. }
    destruct (thumb_for_effect cfg env p m2)
      as (tex & m3 & T & E & Hi & Hb & Hn & HT & Hbtn).
    destruct (thumb_for_registered cfg env p m2 Hc2) as [Hc3 Htex].
    unfold exec, eval in Hc3, Htex. rewrite E in Hc3, Htex. simpl in Hc3, Htex.
    assert (Hcell : item_exists (dpg m3) (IntTag (Z.pos (next_id (dpg m) + 1))) = true).
    { apply (item_exists_grows (dpg m2) (dpg m3) T _ Hi). unfold m2. exists_tac. }
    exists tex, T, (next_id (dpg m3)),
      (filled_cell_machine (IntTag (Z.pos (next_id (dpg m) + 1))) p
                           (thumb_button tex) m3).
    split.
    { rewrite <- grid_loop_fill;
        [|exact Hcell|intros t -> Ht; now apply Htex].
      simpl grid_loop. unfold bind at 1. rewrite Hnew.
      rewrite bind_add_item by exists_tac. cbv beta.
      unfold ret at 1. cbv iota beta.
      rewrite bind_add_item by exists_tac. cbv beta.
      cbn [dpg state items next_id bound trace]. fold m2.
      unfold bind at 1. rewrite E. reflexivity. }
    simpl in Hn, Hi, Hb.
    split; [lia|]. split; [exact HT|]. split; [exact Hbtn|].
    split.
    + rewrite filled_cell_machine_dpg, Hi, Hb. simpl.
      rewrite <- !app_assoc. reflexivity.
    + apply (cache_registered_grows m3); [reflexivity| |exact Hc3].
      intros t Ht. rewrite filled_cell_machine_dpg.
      unfold item_exists in *. simpl. rewrite existsb_app, Ht. reflexivity.
  - destruct (Hrow eq_refl) as (r & -> & Hr).
    set (m2 := mkMachine (state m)
                 (mkDpg (next_id (dpg m) + 1)
                    (items (dpg m)
                      ++ [mkItem (IntTag (Z.pos (next_id (dpg m)))) (Some r) TableCell])
                    (bound (dpg m)))
                 (trace m)).
    assert (Hc2 : cache_registered m2).
    { apply (cache_registered_grows m); [reflexivity| |exact Hcache].
      intros t Ht. unfold m2. exists_tac. }
    destruct (thumb_for_effect cfg env p m2)
      as (tex & m3 & T & E & Hi & Hb & Hn & HT & Hbtn).
    destruct (thumb_for_registered cfg env p m2 Hc2) as [Hc3 Htex].
    unfold exec, eval in Hc3, Htex. rewrite E in Hc3, Htex. simpl in Hc3, Htex.
    assert (Hcell : item_exists (dpg m3) (IntTag (Z.pos (next_id (dpg m)))) = true).
    { apply (item_exists_grows (dpg m2) (dpg m3) T _ Hi). unfold m2. exists_tac. }
    exists tex, T, (next_id (dpg m3)),
      (filled_cell_machine (IntTag (Z.pos (next_id (dpg m)))) p
                           (thumb_button tex) m3).
    split.
    { rewrite <- grid_loop_fill;
        [|exact Hcell|intros t -> Ht; now apply Htex].
      simpl grid_loop. unfold bind at 1. rewrite Hnew.
      unfold ret at 1. cbv iota beta.
      rewrite bind_add_item by exists_tac. cbv beta.
      cbn [dpg state items next_id bound trace]. fold m2.
      unfold bind at 1. rewrite E. reflexivity. }
    simpl in Hn, Hi, Hb.
    split; [lia|]. split; [exact HT|]. split; [exact Hbtn|].
    split.
    + rewrite filled_cell_machine_dpg, Hi, Hb. simpl.
      rewrite <- !app_assoc. reflexivity.
    + apply (cache_registered_grows m3); [reflexivity| |exact Hc3].
      intros t Ht. rewrite filled_cell_machine_dpg.
      unfold item_exists in *. simpl. rewrite existsb_app, Ht. reflexivity.
Qed.

(** ** The registry after one turn *)

Section Turn.
Context (d : Dpg) (newrow : bool) (tid : tag) (row : option tag)
        (T : list Item) (n3 : positive) (button : ItemKind) (p : string).
Context (Hwf : wf_dpg d).
Context (Htid : tag_below (next_id d) tid = true).
Context (Hrow : forall r, next_row newrow (next_id d) row = Some r ->
                          tag_below (next_id d + 1) r = true).
Context (Hn3 : (cell_id newrow (next_id d) < n3)%positive).
Context (HT : Forall (fun it => is_texture (item_kind it) = true /\
                                tag_below n3 (item_tag it) = true) T).
Context (Hbutton : is_button button = true).

Let d3 := dpg_after_turn d newrow tid row T n3 button p.
Let nc := cell_id newrow (next_id d).

Lemma cell_id_ge : (next_id d <= nc)%positive.
Proof. unfold nc, cell_id. destruct newrow; lia. Qed.

Lemma textures_not_inner :
  Forall (fun it => grid_inner (item_kind it) = false) T.
Proof.
  eapply List.Forall_impl; [|exact HT]. intros it [Hk _].
  destruct (item_kind it); simpl in *; first [reflexivity | discriminate | congruence].
Qed.

Lemma row_and_cell_not_inner :
  Forall (fun it => grid_inner (item_kind it) = false)
         (row_and_cell newrow (next_id d) tid row).
Proof. unfold row_and_cell. destruct newrow; repeat constructor. Qed.

Lemma turn_wf : wf_dpg d3.
Proof.
  destruct Hwf as [Hit Hbd]. pose proof cell_id_ge as Hge. fold nc in Hn3.
  assert (Hmono : forall t, tag_below (next_id d + 1) t = true ->
                            tag_below (n3 + 1 + 1 + 1 + 1 + 1) t = true).
  { intros t. apply tag_below_mono. lia. }
  split; unfold d3, dpg_after_turn; simpl next_id; simpl items; simpl bound.
  - rewrite !forallb_app.
    apply andb_true_iff; split;
      [|apply andb_true_iff; split; [|apply andb_true_iff; split]].
    + eapply items_below_mono; [|exact Hit]. lia.
    + unfold row_and_cell. fold nc.
      assert (Hcell : item_below (n3 + 1 + 1 + 1 + 1 + 1)
                        (mkItem (IntTag (Z.pos nc))
                                (next_row newrow (next_id d) row) TableCell) = true).
      { unfold item_below. simpl. apply andb_true_iff. split.
        - apply Z.ltb_lt. lia.
        - destruct (next_row newrow (next_id d) row) as [r|] eqn:Er; [|reflexivity].
          apply Hmono, Hrow. reflexivity. }
      rewrite forallb_app. apply andb_true_iff. split.
      * destruct newrow; [|reflexivity].
        simpl forallb. rewrite andb_true_r. unfold item_below. simpl.
        apply andb_true_iff. split; [apply Z.ltb_lt; lia|].
        apply (tag_below_mono (next_id d)); [lia|exact Htid].
      * simpl forallb. rewrite andb_true_r. exact Hcell.
    + apply forallb_forall. intros it Hin.
      rewrite List.Forall_forall in HT. destruct (HT it Hin) as [Hk Ht].
      unfold item_below. apply andb_true_iff. split.
      * eapply tag_below_mono; [|exact Ht]. lia.
      * destruct (item_parent it); [|reflexivity].
        destruct (item_kind it); simpl in *; first [reflexivity | discriminate | congruence].
    + unfold thumb_cell_items, item_below. simpl.
      repeat (apply andb_true_iff; split);
        try reflexivity; try (apply Z.ltb_lt; lia);
        try (apply orb_true_iff; right; apply Z.ltb_lt; lia).
  - apply andb_true_iff. split.
    + unfold binding_below. simpl.
      apply andb_true_iff; split; apply Z.ltb_lt; lia.
    + eapply bindings_below_mono; [|exact Hbd]. lia.
Qed.

Lemma turn_rows :
  table_rows d3 tid
  = table_rows d tid ++ (if newrow then [IntTag (Z.pos (next_id d))] else []).
Proof.
  unfold table_rows, children_where, d3, dpg_after_turn. simpl items.
  rewrite !select_app, !map_app.
  assert (E1 : select is_row tid T = []).
  { destruct (select is_row tid T) as [|it r] eqn:E; [reflexivity|exfalso].
    assert (Hin : In it (select is_row tid T)) by (rewrite E; now left).
    apply select_In in Hin as (Hin & Hk & _).
    rewrite List.Forall_forall in HT. destruct (HT it Hin) as [Hk' _].
    destruct (item_kind it); simpl in *; first [reflexivity | discriminate | congruence]. }
  assert (E2 : select is_row tid
                 (thumb_cell_items n3 (IntTag (Z.pos nc)) button p) = []).
  { unfold thumb_cell_items, select. simpl.
    destruct button; simpl in *; first [reflexivity | discriminate | congruence]. }
  fold nc. rewrite E1, E2. simpl. rewrite app_nil_r.
  f_equal. unfold row_and_cell, select, has_parent.
  destruct newrow; simpl; [|reflexivity].
  rewrite bool_decide_eq_true_2 by reflexivity. reflexivity.
Qed.

Lemma turn_cells (r : tag) :
  row_cells d3 r
  = row_cells d r
    ++ (if bool_decide (next_row newrow (next_id d) row = Some r)
        then [IntTag (Z.pos nc)] else []).
Proof.
  unfold row_cells, children_where, d3, dpg_after_turn. simpl items.
  rewrite !select_app, !map_app.
  assert (E1 : select is_cell r T = []).
  { destruct (select is_cell r T) as [|it l] eqn:E; [reflexivity|exfalso].
    assert (Hin : In it (select is_cell r T)) by (rewrite E; now left).
    apply select_In in Hin as (Hin & Hk & _).
    rewrite List.Forall_forall in HT. destruct (HT it Hin) as [Hk' _].
    destruct (item_kind it); simpl in *; first [reflexivity | discriminate | congruence]. }
  assert (E2 : select is_cell r
                 (thumb_cell_items n3 (IntTag (Z.pos nc)) button p) = []).
  { unfold thumb_cell_items, select. simpl.
    destruct button; simpl in *; first [reflexivity | discriminate | congruence]. }
  fold nc. rewrite E1, E2. simpl. rewrite app_nil_r.
  f_equal. unfold row_and_cell, select, has_parent. fold nc.
  destruct newrow; simpl;
    destruct (bool_decide _); reflexivity.
Qed.

Lemma turn_columns : table_columns d3 tid = table_columns d tid.
Proof.
  unfold table_columns, children_where, d3, dpg_after_turn. simpl items.
  rewrite !select_app, !map_app.
  assert (E0 : select is_column tid (row_and_cell newrow (next_id d) tid row) = []).
  { unfold row_and_cell, select. destruct newrow; reflexivity. }
  assert (E1 : select is_column tid T = []).
  { destruct (select is_column tid T) as [|it l] eqn:E; [reflexivity|exfalso].
    assert (Hin : In it (select is_column tid T)) by (rewrite E; now left).
    apply select_In in Hin as (Hin & Hk & _).
    rewrite List.Forall_forall in HT. destruct (HT it Hin) as [Hk' _].
    destruct (item_kind it); simpl in *; first [reflexivity | discriminate | congruence]. }
  assert (E2 : select is_column tid
                 (thumb_cell_items n3 (IntTag (Z.pos nc)) button p) = []).
  { unfold thumb_cell_items, select. simpl.
    destruct button; simpl in *; first [reflexivity | discriminate | congruence]. }
  fold nc. rewrite E0, E1, E2. simpl. now rewrite app_nil_r.
Qed.

Lemma turn_old_cell (cl : tag) :
  tag_below (next_id d) cl = true -> cell_view d3 cl = cell_view d cl.
Proof.
  intros Hcl. pose proof cell_id_ge as Hge. fold nc in Hn3.
  unfold d3, dpg_after_turn.
  change ((IntTag (Z.pos (n3 + 1)), IntTag (Z.pos (n3 + 1 + 1))) :: bound d)
    with ([(IntTag (Z.pos (n3 + 1)), IntTag (Z.pos (n3 + 1 + 1)))] ++ bound d).
  apply cell_view_stable; auto.
  - rewrite !Forall_app. repeat split.
    + eapply List.Forall_impl; [|apply row_and_cell_not_inner].
      simpl. intros it H H'. congruence.
    + eapply List.Forall_impl; [|apply textures_not_inner].
      simpl. intros it H H'. congruence.
    + fold nc. unfold thumb_cell_items.
      repeat constructor; simpl; intros _ q [= <-];
        apply Z.ltb_ge; lia.
  - repeat constructor. simpl. apply Z.ltb_ge. lia.
Qed.

Lemma turn_new_cell :
  cell_view d3 (IntTag (Z.pos nc)) = ThumbCell button p (basename p).
Proof.
  pose proof cell_id_ge as Hge. fold nc in Hn3.
  unfold d3, dpg_after_turn. fold nc.
  rewrite (List.app_assoc (row_and_cell newrow (next_id d) tid row) T).
  apply new_cell_view; auto.
  rewrite Forall_app. split;
    [apply row_and_cell_not_inner|apply textures_not_inner].
Qed.
End Turn.

(** ** Rows and remainders *)

Lemma row_full_step (c i : Z) :
  1 <= c -> 1 <= i -> i mod c = 0 ->
  (i - 1) mod c + 1 = c /\ (i - 1) / c + 1 = i / c.
Proof.
  intros Hc Hi Hm.
  pose proof (Z.div_mod i c ltac:(lia)) as Hd. rewrite Hm in Hd.
  assert (E : i - 1 = c * (i / c - 1) + (c - 1)) by lia.
  split.
  - rewrite <- (Z.mod_unique (i - 1) c (i / c - 1) (c - 1)); [lia|lia|exact E].
  - rewrite <- (Z.div_unique (i - 1) c (i / c - 1) (c - 1)); [lia|lia|exact E].
Qed.

Lemma row_part_step (c i : Z) :
  1 <= c -> 1 <= i -> i mod c <> 0 ->
  (i - 1) mod c + 1 = i mod c /\ (i - 1) / c = i / c.
Proof.
  intros Hc Hi Hm.
  pose proof (Z.div_mod i c ltac:(lia)) as Hd.
  pose proof (Z.mod_pos_bound i c ltac:(lia)) as Hb.
  assert (E : i - 1 = c * (i / c) + (i mod c - 1)) by lia.
  split.
  - rewrite <- (Z.mod_unique (i - 1) c (i / c) (i mod c - 1)); [lia|lia|exact E].
  - rewrite <- (Z.div_unique (i - 1) c (i / c) (i mod c - 1)); [lia|lia|exact E].
Qed.

Lemma ceil_div_rows (c n : Z) :
  1 <= c -> 1 <= n -> (n - 1) / c + 1 = ceil_div n c.
Proof.
  intros Hc Hn. unfold ceil_div.
  replace (n + c - 1) with (n - 1 + 1 * c) by lia.
  rewrite Z.div_add by lia. reflexivity.
Qed.

Lemma Forall2_impl_In {A B} (R R' : A -> B -> Prop) (l : list A) (l' : list B) :
  Forall2 R l l' ->
  (forall a b, In b l' -> R a b -> R' a b) ->
  Forall2 R' l l'.
Proof.
  induction 1 as [|a b l l' Hab H IH]; intros Himp.
  - constructor.
  - constructor.
    + apply Himp; [now left|exact Hab].
    + apply IH. intros a' b' Hin. apply Himp. now right.
Qed.

Lemma rows_below (d : Dpg) (t r : tag) :
  wf_dpg d -> In r (table_rows d t) -> tag_below (next_id d) r = true.
Proof. intros [Hit _] H. eapply select_tag_below; eauto. Qed.

Lemma cells_below (d : Dpg) (r cl : tag) :
  wf_dpg d -> In cl (row_cells d r) -> tag_below (next_id d) cl = true.
Proof. intros [Hit _] H. eapply select_tag_below; eauto. Qed.

Lemma row_cells_fresh (d : Dpg) (k : positive) :
  wf_dpg d -> (next_id d <= k)%positive -> row_cells d (IntTag (Z.pos k)) = [].
Proof.
  intros [Hit _] Hk. unfold row_cells, children_where.
  rewrite (select_fresh_parent is_cell (next_id d)); auto.
  - intros []; simpl; auto.
  - now apply tag_below_fresh.
Qed.

Lemma table_rows_fresh (d : Dpg) (k : positive) :
  wf_dpg d -> (next_id d <= k)%positive -> table_rows d (IntTag (Z.pos k)) = [].
Proof.
  intros [Hit _] Hk. unfold table_rows, children_where.
  rewrite (select_fresh_parent is_row (next_id d)); auto.
  - intros []; simpl; auto.
  - now apply tag_below_fresh.
Qed.

(** The invariant of the loop is kept by one turn. *)
Lemma grid_inv_step (c : Z) (tid : tag) (d : Dpg) (i : Z) (row : option tag)
      (done : list string) (p : string) (T : list Item) (n3 : positive)
      (button : ItemKind) :
  1 <= c ->
  grid_inv c tid d i row done ->
  let newrow := (i mod c =? 0)%Z in
  (cell_id newrow (next_id d) < n3)%positive ->
  Forall (fun it => is_texture (item_kind it) = true /\
                    tag_below n3 (item_tag it) = true) T ->
  is_button button = true ->
  grid_inv c tid (dpg_after_turn d newrow tid row T n3 button p)
           (i + 1) (next_row newrow (next_id d) row) (done ++ [p]).
Proof.
  intros Hc (Hwf & Htid & Hcols & Hi & Hcase) newrow Hn3 HT Hb.
  assert (Hrow : forall r, next_row newrow (next_id d) row = Some r ->
                           tag_below (next_id d + 1) r = true).
  { intros r Hr. unfold next_row in Hr. destruct newrow eqn:En.
    - inversion Hr; subst. simpl. apply Z.ltb_lt. lia.
    - destruct Hcase as [[Hd _]|(R0 & r' & _ & HR & Hrow' & _)].
      + subst done. simpl in Hi. subst i. subst newrow.
        rewrite Z.mod_0_l in En by lia. discriminate.
      + rewrite Hrow' in Hr. inversion Hr; subst r'.
        apply (tag_below_mono (next_id d)); [lia|].
        apply (rows_below d tid); [exact Hwf|]. rewrite HR.
        apply in_or_app. right. now left. }
  pose proof (turn_wf d newrow tid row T n3 button p Hwf Htid Hrow Hn3 HT) as W.
  pose proof (turn_rows d newrow tid row T n3 button p Hrow Hn3 HT Hb) as Hrows.
  pose proof (turn_cells d newrow tid row T n3 button p Hrow Hn3 HT Hb) as Hcells.
  pose proof (turn_old_cell d newrow tid row T n3 button p Hwf Hrow Hn3 HT) as Hold.
  pose proof (turn_new_cell d newrow tid row T n3 button p Hwf Hrow Hn3 HT Hb) as Hnew.
  set (d3 := dpg_after_turn d newrow tid row T n3 button p) in *.
  assert (Hshow : shows p (cell_view d3 (IntTag (Z.pos (cell_id newrow (next_id d)))))).
  { rewrite Hnew. exists button. split; [reflexivity|exact Hb]. }
  assert (Hge : (next_id d <= cell_id newrow (next_id d))%positive).
  { unfold cell_id. destruct newrow; lia. }
  split; [exact W|]. split.
  { apply (tag_below_mono (next_id d)); [|exact Htid].
    unfold d3, dpg_after_turn. simpl. lia. }
  split.
  { unfold d3. rewrite (turn_columns d newrow tid row T n3 button p Hrow Hn3 HT Hb).
    exact Hcols. }
  split. { rewrite length_app. simpl. lia. }
  right.
  assert (Hkeep : forall r0, next_row newrow (next_id d) row <> Some r0 ->
                             row_cells d3 r0 = row_cells d r0).
  { intros r0 Hne. rewrite Hcells, bool_decide_eq_false_2 by exact Hne.
    apply app_nil_r. }
  assert (Hadd : forall r0, next_row newrow (next_id d) row = Some r0 ->
                            row_cells d3 r0
                            = row_cells d r0 ++ [IntTag (Z.pos (cell_id newrow (next_id d)))]).
  { intros r0 He. rewrite Hcells, bool_decide_eq_true_2 by exact He. reflexivity. }
  destruct Hcase as [[Hd Hnone]|(R0 & r & Hne & HR & Hrow' & Hnin & Hfull & Hlen & Hlast & Hall)].
  - (* the first image *)
    subst done. simpl in Hi. subst i.
    assert (En : newrow = true).
    { subst newrow. rewrite Z.mod_0_l by lia. reflexivity. }
    rewrite En in *. simpl next_row in *.
    exists [], (IntTag (Z.pos (next_id d))).
    rewrite Hrows, Hnone. simpl.
    rewrite (Hadd _ eq_refl), (row_cells_fresh d) by (auto; lia). simpl.
    repeat split; auto;
      try (rewrite Z.mod_0_l by lia; reflexivity);
      try (constructor; [exact Hshow|constructor]).
  - destruct newrow eqn:En; simpl next_row in *.
    + (* a new row *)
      subst newrow. apply Z.eqb_eq in En.
      assert (Hi1 : 1 <= i).
      { destruct done; [congruence|]. simpl in Hi. lia. }
      destruct (row_full_step c i Hc Hi1 En) as [Hf1 Hf2].
      exists (R0 ++ [r]), (IntTag (Z.pos (next_id d))).
      assert (Hold_rows : forall r0, In r0 (R0 ++ [r]) ->
                                     row_cells d3 r0 = row_cells d r0).
      { intros r0 Hin. apply Hkeep. intros [= <-].
        assert (Hb0 : tag_below (next_id d) (IntTag (Z.pos (next_id d))) = true).
        { apply (rows_below d tid); [exact Hwf|]. now rewrite HR. }
        rewrite tag_below_fresh in Hb0 by lia. discriminate. }
      split. { intros E. destruct done; discriminate. }
      split. { rewrite Hrows, HR. reflexivity. }
      split; [reflexivity|].
      split.
      { intros Hin.
        assert (Hb0 : tag_below (next_id d) (IntTag (Z.pos (next_id d))) = true).
        { apply (rows_below d tid); [exact Hwf|]. now rewrite HR. }
        rewrite tag_below_fresh in Hb0 by lia. discriminate. }
      split.
      { apply List.Forall_forall. intros r0 Hin.
        rewrite (Hold_rows r0 Hin).
        apply in_app_or in Hin as [Hin|[<-|[]]].
        - rewrite List.Forall_forall in Hfull. now apply Hfull.
        - lia. }
      split. { rewrite length_app. simpl. replace (i + 1 - 1) with i by lia. lia. }
      split.
      { rewrite (Hadd _ eq_refl), (row_cells_fresh d) by (auto; lia). simpl.
        replace (i + 1 - 1) with i by lia. lia. }
      rewrite (Hadd _ eq_refl), (row_cells_fresh d) by (auto; lia). simpl app.
      rewrite (map_ext_in _ _ _ Hold_rows).
      rewrite map_app, concat_app. simpl. rewrite app_nil_r.
      apply Forall2_app; [|constructor; [exact Hshow|constructor]].
      eapply Forall2_impl_In; [exact Hall|].
      intros a cl Hin Hs. rewrite Hold; [exact Hs|].
      apply in_app_or in Hin as [Hin|Hin].
      * apply in_concat in Hin as (cs & Hcs & Hin).
        apply in_map_iff in Hcs as (r0 & <- & _).
        now apply (cells_below d r0).
      * now apply (cells_below d r).
    + (* the current row *)
      subst newrow. apply Z.eqb_neq in En.
      assert (Hi1 : 1 <= i).
      { destruct done; [congruence|]. simpl in Hi. lia. }
      destruct (row_part_step c i Hc Hi1 En) as [Hf1 Hf2].
      exists R0, r.
      assert (Hold_rows : forall r0, In r0 R0 -> row_cells d3 r0 = row_cells d r0).
      { intros r0 Hin. apply Hkeep. rewrite Hrow'. intros [= <-]. contradiction. }
      split. { intros E. destruct done; discriminate. }
      split. { rewrite Hrows, HR. apply app_nil_r. }
      split; [exact Hrow'|].
      split; [exact Hnin|].
      split.
      { apply List.Forall_forall. intros r0 Hin.
        rewrite (Hold_rows r0 Hin).
        rewrite List.Forall_forall in Hfull. now apply Hfull. }
      split. { replace (i + 1 - 1) with i by lia. lia. }
      split.
      { rewrite (Hadd _ Hrow'), length_app. simpl.
        replace (i + 1 - 1) with i by lia. lia. }
      rewrite (Hadd _ Hrow'), (map_ext_in _ _ _ Hold_rows).
      rewrite List.app_assoc.
      apply Forall2_app; [|constructor; [exact Hshow|constructor]].
      eapply Forall2_impl_In; [exact Hall|].
      intros a cl Hin Hs. rewrite Hold; [exact Hs|].
      apply in_app_or in Hin as [Hin|Hin].
      * apply in_concat in Hin as (cs & Hcs & Hin).
        apply in_map_iff in Hcs as (r0 & <- & _).
        now apply (cells_below d r0).
      * now apply (cells_below d r).
Qed.

Lemma keeps_grid_table_thumb_for cfg env p :
  keeps (fun s s' => grid_table s' = grid_table s) (thumb_for cfg env p).
Proof.
  intros m. unfold exec.
  destruct (thumb_for_cases cfg env p m)
    as [[_ ->]|[(t' & _ & _ & ->)|[[_ ->]|[Hmiss [im ->]]]]]; reflexivity.
Qed.

Lemma grid_loop_grid_table cfg env tid c imgs i row m :
  grid_table (state (exec (grid_loop cfg env tid c i row imgs) m))
  = grid_table (state m).
Proof.
  apply (keeps_grid_loop (fun s s' => grid_table s' = grid_table s)).
  - reflexivity.
  - intros s1 s2 s3 H1 H2. congruence.
  - reflexivity.
  - apply keeps_grid_table_thumb_for.
Qed.

Lemma item_exists_after_turn d newrow tid row T n3 button p t :
  item_exists d t = true ->
  item_exists (dpg_after_turn d newrow tid row T n3 button p) t = true.
Proof.
  intros H. unfold dpg_after_turn, item_exists in *. simpl.
  now rewrite existsb_app, H.
Qed.

Lemma next_row_after_turn d newrow tid row T n3 button p r :
  (forall r0, row = Some r0 -> item_exists d r0 = true) ->
  next_row newrow (next_id d) row = Some r ->
  item_exists (dpg_after_turn d newrow tid row T n3 button p) r = true.
Proof.
  intros Hrow Hr. unfold next_row in Hr. destruct newrow.
  - inversion Hr; subst. unfold dpg_after_turn, row_and_cell, item_exists.
    simpl. rewrite existsb_app. simpl. unfold has_tag at 2. simpl.
    rewrite bool_decide_eq_true_2 by reflexivity. simpl.
    now rewrite orb_true_r.
  - apply item_exists_after_turn. now apply Hrow.
Qed.

(** The loop runs to its end and keeps its invariant. *)
Lemma grid_loop_inv cfg env tid c imgs :
  1 <= c ->
  forall done i row m,
    grid_inv c tid (dpg m) i row done ->
    item_exists (dpg m) tid = true ->
    (forall r, row = Some r -> item_exists (dpg m) r = true) ->
    cache_registered m ->
    exists m' row',
      grid_loop cfg env tid c i row imgs m = (Ok tt, m') /\
      grid_inv c tid (dpg m') (i + Z.of_nat (List.length imgs)) row' (done ++ imgs) /\
      cache_registered m'.
Proof.
  intros Hc. induction imgs as [|p rest IH]; intros done i row m Hinv Htid Hrow Hcache.
  - exists m, row. split; [reflexivity|].
    simpl. rewrite Z.add_0_r, app_nil_r. split; [exact Hinv|exact Hcache].
  - assert (Hrow' : (i mod c =? 0)%Z = false ->
                    exists r, row = Some r /\ item_exists (dpg m) r = true).
    { intros Hnew. destruct Hinv as (_ & _ & _ & Hi & Hcase).
      destruct Hcase as [[Hd _]|(R0 & r & _ & _ & Hr & _)].
      - subst done. simpl in Hi. subst i.
        rewrite Z.mod_0_l in Hnew by lia. discriminate.
      - exists r. split; [exact Hr|now apply Hrow]. }
    destruct (grid_loop_step cfg env tid c i row p rest m Htid Hrow' Hcache)
      as (tex & T & n3 & m3 & E & Hn3 & HT & Hb & Hd & Hc3).
    pose proof (grid_inv_step c tid (dpg m) i row done p T n3 (thumb_button tex)
                  Hc Hinv Hn3 HT Hb) as Hinv3.
    rewrite <- Hd in Hinv3.
    destruct (IH (done ++ [p]) (i + 1) _ m3 Hinv3) as (m' & row' & E' & Hinv' & Hc').
    + rewrite Hd. now apply item_exists_after_turn.
    + intros r Hr. rewrite Hd. eapply next_row_after_turn; eauto.
    + exact Hc3.
    + exists m', row'. split; [now rewrite E|].
      rewrite <- app_assoc in Hinv'. simpl in Hinv'.
      replace (i + Z.of_nat (List.length (p :: rest)))
        with (i + 1 + Z.of_nat (List.length rest)) by (simpl List.length; lia).
      split; [exact Hinv'|exact Hc'].
Qed.

(** ** Before the loop: clearing, the table and its columns *)

Ltac conjs := repeat match goal with |- _ /\ _ => split end.

Lemma delete_from_In dead (l : list Item) it :
  In it (delete_from dead l) -> In it l.
Proof.
  revert dead. induction l as [|x l IH]; intros dead H; simpl in *.
  - exact H.
  - destruct (_ || _).
    + right. eapply IH, H.
    + destruct H as [<-|H]; [now left|right; eapply IH, H].
Qed.

Lemma delete_item_In t m it :
  In it (items (dpg (exec (delete_item t) m))) -> In it (items (dpg m)).
Proof.
  destruct (exec_delete_item t m) as [[_ ->]|[_ ->]]; [auto|].
  apply delete_from_In.
Qed.

Lemma delete_item_run t m :
  item_exists (dpg m) t = true ->
  delete_item t m = (Ok tt, exec (delete_item t) m).
Proof. intros H. unfold exec. now rewrite (delete_item_ok t m H). Qed.

Lemma delete_item_wf t m :
  wf_dpg (dpg m) -> wf_dpg (dpg (exec (delete_item t) m)).
Proof.
  intros W. destruct (exec_delete_item t m) as [[_ ->]|[_ ->]]; [exact W|].
  destruct W as [Hit Hbd]. split; simpl; [|exact Hbd].
  rewrite forallb_forall in *. intros it Hin.
  apply Hit. eapply delete_from_In, Hin.
Qed.

(** Clearing the grid only deletes items, and touches no key of [state]
    but [thumb_items] and [grid_table]. *)
Lemma delete_existing_effect (l : list tag) m :
  exists m',
    for_each l (fun it =>
      let* ex := does_item_exist it in
      if ex then delete_item it else ret tt) m = (Ok tt, m') /\
    state m' = state m /\
    next_id (dpg m') = next_id (dpg m) /\
    (wf_dpg (dpg m) -> wf_dpg (dpg m')).
Proof.
  revert m. induction l as [|t l IH]; intros m.
  - exists m. conjs; try reflexivity; auto.
  - simpl for_each.
    destruct (item_exists (dpg m) t) eqn:Ex.
    + destruct (IH (exec (delete_item t) m)) as (m' & E & Hs & Hn & Hw).
      exists m'. split; [|split; [|split]].
      * unfold bind at 1. unfold bind at 1. unfold does_item_exist.
        rewrite Ex. unfold exec in E.
        rewrite (delete_item_ok t m Ex) in E |- *. exact E.
      * rewrite Hs. unfold exec. now rewrite (delete_item_ok t m Ex).
      * rewrite Hn. unfold exec. now rewrite (delete_item_ok t m Ex).
      * intros W. apply Hw. now apply delete_item_wf.
    + destruct (IH m) as (m' & E & Hs & Hn & Hw).
      exists m'. split; [|split; [|split]]; auto.
      unfold bind at 1. unfold bind at 1. unfold does_item_exist.
      rewrite Ex. exact E.
Qed.

Lemma clear_grid_items_effect m :
  exists m',
    clear_grid_items m = (Ok tt, m') /\
    images_in_dir (state m') = images_in_dir (state m) /\
    grid_child (state m') = grid_child (state m) /\
    next_id (dpg m') = next_id (dpg m) /\
    (wf_dpg (dpg m) -> wf_dpg (dpg m')).
Proof.
  unfold clear_grid_items.
  destruct (delete_existing_effect (thumb_items (state m)) m)
    as (m1 & E1 & Hs1 & Hn1 & Hw1).
  unfold bind at 1. unfold get_state at 1.
  unfold bind at 1. rewrite E1.
  unfold bind at 1. unfold modify_state at 1.
  set (m2 := mkMachine (set_thumb_items [] (state m1)) (dpg m1) (trace m1)).
  destruct (grid_table (state m)) as [t|]; [destruct (truthy_tag t)|].
  - unfold bind at 1, does_item_exist.
    destruct (item_exists (dpg m2) t) eqn:Ex.
    + unfold bind. rewrite (delete_item_ok t m2 Ex).
      eexists. split; [reflexivity|]. simpl. rewrite Hs1.
      conjs; try reflexivity; auto.
      intros W. pose proof (delete_item_wf t m2 (Hw1 W)) as W2.
      unfold exec in W2. now rewrite (delete_item_ok t m2 Ex) in W2.
    + exists m2. split; [reflexivity|]. simpl. rewrite Hs1. conjs; try reflexivity; auto.
  - exists m2. split; [reflexivity|]. simpl. rewrite Hs1. conjs; try reflexivity; auto.
  - exists m2. split; [reflexivity|]. simpl. rewrite Hs1. conjs; try reflexivity; auto.
Qed.

Lemma available_grid_width_effect env m gc :
  grid_child (state m) = Some gc ->
  item_exists (dpg m) gc = true ->
  exists w, available_grid_width env m = (Ok w, m) /\
            forall m', grid_child (state m') = grid_child (state m) ->
                       item_exists (dpg m') gc = true ->
                       available_grid_width env m' = (Ok w, m').
Proof.
  intros E Hx. unfold available_grid_width, bind, get_state. rewrite E.
  destruct (truthy_tag gc) eqn:Et.
  - unfold get_item_rect_width. rewrite Hx.
    eexists. split; [reflexivity|]. intros m' -> Hx'.
    rewrite Et, Hx'. reflexivity.
  - eexists. split; [reflexivity|]. intros m' -> _. rewrite Et. reflexivity.
Qed.

Lemma snoc_wf (d : Dpg) parent k :
  wf_dpg d ->
  match parent with
  | Some q => negb (grid_kind k) || tag_below (next_id d + 1) q = true
  | None => True
  end ->
  wf_dpg (mkDpg (next_id d + 1)
                (items d ++ [mkItem (IntTag (Z.pos (next_id d))) parent k])
                (bound d)).
Proof.
  intros [Hit Hbd] Hp. split; simpl.
  - rewrite forallb_app. apply andb_true_iff. split.
    + eapply items_below_mono; [|exact Hit]. lia.
    + simpl. rewrite andb_true_r. unfold item_below. simpl.
      apply andb_true_iff. split; [apply Z.ltb_lt; lia|].
      destruct parent; [exact Hp|reflexivity].
  - eapply bindings_below_mono; [|exact Hbd]. lia.
Qed.

Lemma add_item_wf parent k m :
  wf_dpg (dpg m) ->
  match parent with
  | Some q => negb (grid_kind k) || tag_below (next_id (dpg m) + 1) q = true
  | None => True
  end ->
  wf_dpg (dpg (exec (add_item parent k) m)).
Proof.
  intros W Hp. destruct (exec_add_item parent k m) as [[_ ->]|[_ ->]]; [exact W|].
  now apply snoc_wf.
Qed.

(** The registry stays well formed when what follows the creation of an
    item keeps it so. *)
Lemma add_item_then_wf {B} parent k (K : tag -> M B) m :
  wf_dpg (dpg m) ->
  match parent with
  | Some q => negb (grid_kind k) || tag_below (next_id (dpg m) + 1) q = true
  | None => True
  end ->
  (forall m1, wf_dpg (dpg m1) -> next_id (dpg m1) = (next_id (dpg m) + 1)%positive ->
              wf_dpg (dpg (exec (K (IntTag (Z.pos (next_id (dpg m))))) m1))) ->
  wf_dpg (dpg (exec (bind (add_item parent k) K) m)).
Proof.
  intros W Hp HK. unfold exec, bind, add_item.
  destruct (accepts (dpg m) parent k); [|exact W].
  apply HK; [now apply snoc_wf|reflexivity].
Qed.

Lemma select_snoc P t (l : list Item) it :
  select P t (l ++ [it])
  = select P t l ++ (if P (item_kind it) && has_parent t it then [it] else []).
Proof. rewrite select_app. unfold select at 2. simpl. now destruct (_ && _). Qed.

(** The columns: [k] items below the table, and nothing else changes. *)
Lemma add_columns_effect (k : nat) (tid : tag) (width : Z) m :
  wf_dpg (dpg m) ->
  tag_below (next_id (dpg m)) tid = true ->
  item_exists (dpg m) tid = true ->
  exists m',
    for_each (repeat tt k) (fun _ =>
      let* _ := add_item (Some tid) (TableColumn width) in ret tt) m = (Ok tt, m') /\
    state m' = state m /\
    wf_dpg (dpg m') /\
    tag_below (next_id (dpg m')) tid = true /\
    table_rows (dpg m') tid = table_rows (dpg m) tid /\
    List.length (table_columns (dpg m') tid)
    = (List.length (table_columns (dpg m) tid) + k)%nat /\
    (forall t, item_exists (dpg m) t = true -> item_exists (dpg m') t = true).
Proof.
  revert m. induction k as [|k IH]; intros m W Ht Hx.
  - exists m. conjs; try reflexivity; auto.
  - simpl repeat. simpl for_each.
    assert (Ha : accepts (dpg m) (Some tid) (TableColumn width) = true)
      by exists_tac.
    set (m1 := mkMachine (state m)
                 (mkDpg (next_id (dpg m) + 1)
                    (items (dpg m)
                     ++ [mkItem (IntTag (Z.pos (next_id (dpg m)))) (Some tid)
                                (TableColumn width)])
                    (bound (dpg m)))
                 (trace m)).
    assert (E1 : exec (add_item (Some tid) (TableColumn width)) m = m1).
    { unfold exec. now rewrite add_item_ok. }
    assert (W1 : wf_dpg (dpg m1)).
    { rewrite <- E1. apply add_item_wf; [exact W|]. simpl.
      apply (tag_below_mono (next_id (dpg m))); [lia|exact Ht]. }
    assert (Ht1 : tag_below (next_id (dpg m1)) tid = true).
    { apply (tag_below_mono (next_id (dpg m))); [simpl; lia|exact Ht]. }
    assert (Hg : forall t, item_exists (dpg m) t = true ->
                           item_exists (dpg m1) t = true).
    { intros t Hxt. unfold m1. exists_tac. }
    destruct (IH m1 W1 Ht1 (Hg tid Hx)) as (m' & E & Hs & W' & Ht' & Hr & Hc & Hg').
    exists m'. split.
    { unfold bind at 1. rewrite bind_add_item by exact Ha. exact E. }
    split; [rewrite Hs; reflexivity|].
    split; [exact W'|]. split; [exact Ht'|].
    split; [|split].
    + rewrite Hr. unfold table_rows, children_where, m1. simpl.
      rewrite select_snoc. simpl. now rewrite app_nil_r.
    + rewrite Hc. unfold table_columns, children_where, m1. simpl.
      rewrite select_snoc. simpl. unfold has_parent. simpl.
      rewrite bool_decide_eq_true_2 by reflexivity.
      rewrite map_app, length_app. simpl. lia.
    + intros t Hxt. apply Hg', Hg, Hxt.
Qed.

(** The machine on which [build_thumbnail_grid] starts to fill the table:
    the old grid is gone, the table [tid] is registered in [state] and has
    its columns and no row yet. *)
Lemma build_thumbnail_grid_start cfg env m gc :
  wf_dpg (dpg m) ->
  grid_child (state m) = Some gc ->
  item_exists (dpg (exec clear_grid_items m)) gc = true ->
  cache_registered (exec clear_grid_items m) ->
  exists w tid m4,
    available_grid_width env (exec clear_grid_items m)
    = (Ok w, exec clear_grid_items m) /\
    build_thumbnail_grid cfg env m
    = match images_in_dir (state m) with
      | [] =>
          (let* row := add_item (Some tid) TableRow in
           let* cell := add_item (Some row) TableCell in
           let* t := add_item (Some cell) (Text (no_images_message cfg)) in
           append_thumb_item t) m4
      | _ :: _ =>
          grid_loop cfg env tid (compute_columns w) 0 None
                    (images_in_dir (state m)) m4
      end /\
    grid_table (state m4) = Some tid /\
    wf_dpg (dpg m4) /\
    tag_below (next_id (dpg m4)) tid = true /\
    table_rows (dpg m4) tid = [] /\
    Z.of_nat (List.length (table_columns (dpg m4) tid)) = compute_columns w /\
    item_exists (dpg m4) tid = true /\
    cache_registered m4.
Proof.
  intros W Hgc Hx1 Hcr1.
  destruct (clear_grid_items_effect m) as (m1 & E1 & Hi1 & Hg1 & Hn1 & Hw1).
  unfold exec in Hx1, Hcr1 |- *. rewrite E1 in Hx1, Hcr1 |- *.
  simpl in Hx1, Hcr1 |- *.
  assert (Hgc1 : grid_child (state m1) = Some gc) by congruence.
  destruct (available_grid_width_effect env m1 gc Hgc1 Hx1) as (w & Ew & _).
  set (tid := IntTag (Z.pos (next_id (dpg m1)))).
  set (m2 := mkMachine (state m1)
               (mkDpg (next_id (dpg m1) + 1)
                  (items (dpg m1) ++ [mkItem tid (Some gc) Table])
                  (bound (dpg m1)))
               (trace m1)).
  set (m3 := mkMachine (set_grid_table (Some tid) (state m2)) (dpg m2) (trace m2)).
  assert (Ha : accepts (dpg m1) (Some gc) Table = true) by exists_tac.
  assert (E2 : exec (add_item (Some gc) Table) m1 = m2).
  { unfold exec. now rewrite add_item_ok. }
  assert (W2 : wf_dpg (dpg m2)).
  { rewrite <- E2. apply add_item_wf; [auto|]. simpl; auto. }
  assert (Ht2 : tag_below (next_id (dpg m2)) tid = true).
  { simpl. apply Z.ltb_lt. lia. }
  assert (Hfresh : tag_below (next_id (dpg m1)) tid = false).
  { apply tag_below_fresh. lia. }
  assert (Hx3 : item_exists (dpg m3) tid = true).
  { unfold m3, m2, tid. exists_tac. }
  destruct (add_columns_effect (Z.to_nat (compute_columns w)) tid
              (THUMB_SIZE + THUMB_PADDING) m3 W2 Ht2 Hx3)
    as (m4 & E4 & Hs4 & W4 & Ht4 & Hr4 & Hc4 & Hg4).
  exists w, tid, m4.
  split; [exact Ew|].
  split.
  { unfold build_thumbnail_grid.
    unfold bind at 1. rewrite E1.
    unfold bind at 1. rewrite Ew.
    unfold bind at 1. unfold get_state at 1.
    rewrite Hgc1.
    rewrite bind_add_item by exact Ha. cbv beta. fold tid. fold m2.
    unfold bind at 1.
    change (modify_state (set_grid_table (Some tid)) m2) with (@Ok unit tt, m3).
    cbv iota beta.
    unfold bind at 1. rewrite E4.
    unfold bind at 1. unfold get_state at 1.
    rewrite Hs4.
    change (images_in_dir (state m3)) with (images_in_dir (state m1)).
    rewrite Hi1.
    destruct (images_in_dir (state m)); reflexivity. }
  split; [rewrite Hs4; reflexivity|].
  split; [exact W4|]. split; [exact Ht4|].
  assert (Hit1 : forallb (item_below (next_id (dpg m1))) (items (dpg m1)) = true)
    by (apply Hw1, W).
  split; [|split; [|split]].
  - rewrite Hr4. unfold table_rows, children_where. simpl.
    rewrite select_snoc. simpl.
    rewrite (select_fresh_parent is_row (next_id (dpg m1))); auto.
    intros []; simpl; auto.
  - rewrite Hc4. unfold table_columns, children_where. simpl.
    rewrite select_snoc. simpl.
    rewrite (select_fresh_parent is_column (next_id (dpg m1))); auto.
    + simpl. pose proof (compute_columns_ge_1 w). lia.
    + intros []; simpl; auto.
  - apply Hg4, Hx3.
  - apply (cache_registered_grows m1); [rewrite Hs4; reflexivity| |exact Hcr1].
    intros t Ht. apply Hg4. unfold m3, m2. exists_tac.
Qed.

(** ** The registry stays well formed

    [wf_dpg] holds when the program starts and every event keeps it, so it
    holds whenever [build_thumbnail_grid] runs. *)

Lemma keeps_wf_ret {A} (a : A) : keeps_wf (ret a).
Proof. intros m W. exact W. Qed.

Lemma keeps_wf_raise {A} (e : exn) : keeps_wf (@raise A e).
Proof. intros m W. exact W. Qed.

Lemma keeps_wf_lift {A} (r : result A) : keeps_wf (lift r).
Proof. intros m W. exact W. Qed.

Lemma keeps_wf_bind {A B} (c : M A) (k : A -> M B) :
  keeps_wf c -> (forall a, keeps_wf (k a)) -> keeps_wf (bind c k).
Proof.
  intros Hc Hk m W. specialize (Hc m W). unfold exec, bind in *.
  destruct (c m) as [[a|e] m']; simpl in *.
  - apply Hk, Hc.
  - exact Hc.
Qed.

Lemma keeps_wf_try_catch {A} (c : M A) (h : exn -> M A) :
  keeps_wf c -> (forall e, keeps_wf (h e)) -> keeps_wf (try_catch c h).
Proof.
  intros Hc Hh m W. specialize (Hc m W). unfold exec, try_catch in *.
  destruct (c m) as [[a|e] m']; simpl in *.
  - exact Hc.
  - apply Hh, Hc.
Qed.

Lemma keeps_wf_for_each {A} (l : list A) (body : A -> M unit) :
  (forall x, keeps_wf (body x)) -> keeps_wf (for_each l body).
Proof.
  intros Hb. induction l as [|x l IH]; simpl.
  - apply keeps_wf_ret.
  - apply keeps_wf_bind; [apply Hb|intros _; exact IH].
Qed.

Lemma keeps_wf_modify_state f : keeps_wf (modify_state f).
Proof. intros m W. exact W. Qed.

Lemma keeps_wf_delete_item t : keeps_wf (delete_item t).
Proof. intros m W. now apply delete_item_wf. Qed.

Lemma keeps_wf_update_item t f :
  (forall k, grid_kind (f k) = grid_kind k) -> keeps_wf (update_item t f).
Proof.
  intros Hf m W. destruct (exec_update_item t f m) as [[_ ->]|[_ ->]]; [exact W|].
  destruct W as [Hit Hbd]. split; simpl; [|exact Hbd].
  rewrite forallb_forall in *. intros it Hin.
  apply in_map_iff in Hin as (it0 & <- & Hin0).
  specialize (Hit it0 Hin0).
  destruct (has_tag t it0); [|exact Hit].
  unfold item_below in *. simpl. now rewrite Hf.
Qed.

Lemma keeps_wf_add_item_plain parent k :
  grid_kind k = false -> keeps_wf (add_item parent k).
Proof.
  intros Hk m W. apply add_item_wf; [exact W|].
  destruct parent; [|exact I]. now rewrite Hk.
Qed.

Lemma keeps_wf_thumb_for cfg env p : keeps_wf (thumb_for cfg env p).
Proof.
  intros m W. unfold exec.
  destruct (thumb_for_cases cfg env p m)
    as [[_ ->]|[(t' & _ & _ & ->)|[[_ ->]|[Hmiss [im ->]]]]]; simpl; try exact W.
  apply (snoc_wf (dpg m) (Some (texreg (state m)))
           (StaticTexture (img_width im) (img_height im) (img_data im)) W).
  reflexivity.
Qed.

Lemma keeps_wf_popen env argv : keeps_wf (popen env argv).
Proof.
  intros m W. unfold exec, popen, bind, log.
  destruct (spawn_errno env argv); exact W.
Qed.

Lemma keeps_wf_startfile env p : keeps_wf (startfile env p).
Proof.
  intros m W. unfold exec, startfile, bind, log.
  destruct (startfile_errno env p); exact W.
Qed.

Lemma keeps_wf_launch_viewer cfg env p : keeps_wf (launch_viewer cfg env p).
Proof.
  unfold launch_viewer. apply keeps_wf_try_catch; [apply keeps_wf_popen|].
  intros _. unfold open_system_viewer.
  destruct (String.prefix _ _); [apply keeps_wf_startfile|].
  destruct (String.eqb _ _); apply keeps_wf_popen.
Qed.

Lemma keeps_wf_load_directory_images env p :
  keeps_wf (load_directory_images env p).
Proof.
  unfold load_directory_images.
  apply keeps_wf_bind; [apply keeps_wf_modify_state|intros _].
  apply keeps_wf_bind; [apply keeps_wf_lift|intros imgs].
  apply keeps_wf_bind; [apply keeps_wf_modify_state|intros _].
  apply keeps_wf_update_item. intros []; reflexivity.
Qed.

Lemma keeps_wf_sidebar_entry (sub : Path) :
  keeps_wf (let* nid := add_item (Some (StrTag "sidebar_tree")) (TreeNode (name sub)) in
            let* _ := add_item (Some nid) (Button "Open folder" (Some (str sub))) in
            ret tt).
Proof.
  intros m W. apply add_item_then_wf; [exact W|reflexivity|].
  intros m1 W1 Hn. apply add_item_then_wf; [exact W1| |intros m2 W2 _; exact W2].
  simpl. rewrite Hn. apply Z.ltb_lt. lia.
Qed.

Lemma keeps_wf_rebuild_sidebar_tree env : keeps_wf (rebuild_sidebar_tree env).
Proof.
  unfold rebuild_sidebar_tree.
  apply keeps_wf_bind; [intros m W; exact W|intros st].
  apply keeps_wf_bind.
  { apply keeps_wf_try_catch; [|intros _; apply keeps_wf_ret].
    apply keeps_wf_update_item. intros []; reflexivity. }
  intros _.
  apply keeps_wf_bind.
  { intros m W. unfold exec, get_item_children.
    destruct (item_exists (dpg m) (StrTag "sidebar_tree")); exact W. }
  intros kids.
  apply keeps_wf_bind; [apply keeps_wf_for_each, keeps_wf_delete_item|intros _].
  apply keeps_wf_bind; [apply keeps_wf_lift|intros subs].
  apply keeps_wf_for_each, keeps_wf_sidebar_entry.
Qed.

Lemma Forall2_shows_map (d : Dpg) (imgs : list string) (cells : list tag) :
  Forall2 (fun p cl => shows p (cell_view d cl)) imgs cells ->
  Forall2 shows imgs (map (cell_view d) cells).
Proof. induction 1; simpl; constructor; auto. Qed.

(** The grid when there is nothing to show. *)
Lemma empty_grid_view (msg : string) (tid : tag) (m4 : Machine) :
  wf_dpg (dpg m4) ->
  tag_below (next_id (dpg m4)) tid = true ->
  table_rows (dpg m4) tid = [] ->
  item_exists (dpg m4) tid = true ->
  exists m5,
    (let* row := add_item (Some tid) TableRow in
     let* cell := add_item (Some row) TableCell in
     let* t := add_item (Some cell) (Text msg) in
     append_thumb_item t) m4 = (Ok tt, m5) /\
    grid_view (dpg m5) tid = [[InfoCell msg]] /\
    table_columns (dpg m5) tid = table_columns (dpg m4) tid /\
    grid_table (state m5) = grid_table (state m4) /\
    thumb_tex (state m5) = thumb_tex (state m4) /\
    (forall t, item_exists (dpg m4) t = true -> item_exists (dpg m5) t = true).
Proof.
  intros [Hit Hbd] Ht Hr Hx.
  eexists. split.
  { rewrite bind_add_item by exists_tac. cbv beta.
    rewrite bind_add_item by exists_tac. cbv beta.
    rewrite bind_add_item by exists_tac. cbv beta.
    reflexivity. }
  match goal with |- grid_view (dpg ?M) _ = _ /\ _ => set (m5 := M) end.
  set (n := next_id (dpg m4)) in *.
  assert (Hsel : forall P k,
             (forall x, P x = true -> grid_kind x = true) ->
             (n <= k)%positive ->
             select P (IntTag (Z.pos k)) (items (dpg m4)) = []).
  { intros P k HP Hk. apply (select_fresh_parent P n); auto.
    now apply tag_below_fresh. }
  assert (Erows : table_rows (dpg m5) tid = [IntTag (Z.pos n)]).
  { unfold table_rows, children_where, m5. simpl.
    rewrite !select_snoc. simpl. unfold has_parent. simpl.
    rewrite bool_decide_eq_true_2 by reflexivity.
    fold (table_rows (dpg m4) tid). unfold table_rows, children_where in Hr.
    rewrite !app_nil_r, map_app, Hr. reflexivity. }
  assert (Ecells : row_cells (dpg m5) (IntTag (Z.pos n)) = [IntTag (Z.pos (n + 1))]).
  { unfold row_cells, children_where, m5. simpl.
    rewrite !select_snoc. simpl. unfold has_parent. simpl.
    rewrite bool_decide_eq_true_2 by reflexivity.
    rewrite (Hsel is_cell n) by (try lia; intros []; simpl; auto).
    reflexivity. }
  assert (Eg : cell_groups (dpg m5) (IntTag (Z.pos (n + 1))) = []).
  { unfold cell_groups, children_where, m5. simpl.
    rewrite !select_snoc. simpl.
    rewrite (Hsel is_group (n + 1)%positive) by (try lia; intros []; simpl; auto).
    reflexivity. }
  assert (Et : texts_of (dpg m5) (IntTag (Z.pos (n + 1))) = [msg]).
  { unfold texts_of, children_where, m5. simpl.
    rewrite !select_snoc. simpl. unfold has_parent. simpl.
    rewrite bool_decide_eq_true_2 by reflexivity.
    rewrite (Hsel is_text (n + 1)%positive) by (try lia; intros []; simpl; auto).
    reflexivity. }
  assert (Ecols : table_columns (dpg m5) tid = table_columns (dpg m4) tid).
  { unfold table_columns, children_where, m5. simpl.
    rewrite !select_snoc. simpl. now rewrite !app_nil_r. }
  assert (Egt : grid_table (state m5) = grid_table (state m4)) by reflexivity.
  assert (Etx : thumb_tex (state m5) = thumb_tex (state m4)) by reflexivity.
  assert (Hg : forall t, item_exists (dpg m4) t = true ->
                         item_exists (dpg m5) t = true).
  { intros t Hxt. unfold m5. exists_tac. }
  clearbody m5 n.
  split; [|split; [exact Ecols|split; [exact Egt|split; [exact Etx|exact Hg]]]].
  unfold grid_view, grid_cells. rewrite Erows. simpl map. rewrite Ecells.
  simpl map. unfold cell_view. rewrite Eg, Et. reflexivity.
Qed.


(** * Further properties *)

(** ** Names, stems and extensions *)

Lemma string_length_app (s t : string) :
  String.length (s ++ t) = (String.length s + String.length t)%nat.
Proof. induction s as [|c s IH]; simpl; [reflexivity|now rewrite IH]. Qed.

Lemma length_lower (s : string) : String.length (lower s) = String.length s.
Proof. induction s as [|c s IH]; simpl; [reflexivity|now rewrite IH]. Qed.

Lemma lower_ascii_idem (c : ascii) : lower_ascii (lower_ascii c) = lower_ascii c.
Proof. destruct c as [[] [] [] [] [] [] [] []]; reflexivity. Qed.

Lemma lower_idem (s : string) : lower (lower s) = lower s.
Proof.
  induction s as [|c s IH]; simpl; [reflexivity|].
  now rewrite lower_ascii_idem, IH.
Qed.

Lemma drop_string_lower (i : nat) (s : string) :
  lower (drop_string i s) = drop_string i (lower s).
Proof.
  revert s. induction i as [|i IH]; intros s.
  - reflexivity.
  - destruct s as [|c s]; simpl; [reflexivity|apply IH].
Qed.

(** [suffix] and [lower] commute: the suffix looks at the dots only. *)
Lemma suffix_lower (x y : Path) :
  name y = lower (name x) -> suffix y = lower (suffix x).
Proof.
  intros E. unfold suffix. rewrite E, rfind_dot_lower, length_lower.
  destruct (rfind "." (name x)) as [i|]; [|reflexivity].
  destruct (_ && _); [|reflexivity].
  symmetry. apply drop_string_lower.
Qed.

Lemma rfind_app (c : ascii) (s t : string) :
  rfind c (s ++ t)
  = match rfind c t with
    | Some j => Some (String.length s + j)%nat
    | None => rfind c s
    end.
Proof.
  induction s as [|a s IH].
  - change (EmptyString ++ t)%string with t. destruct (rfind c t); reflexivity.
  - change (String a s ++ t)%string with (String a (s ++ t)).
    simpl rfind. rewrite IH. destruct (rfind c t); reflexivity.
Qed.

Lemma drop_string_app (s t : string) : drop_string (String.length s) (s ++ t) = t.
Proof. induction s as [|a s IH]; simpl; [reflexivity|exact IH]. Qed.

Lemma string_app_cons (c : ascii) (s t : string) :
  (String c s ++ t)%string = String c (s ++ t).
Proof. reflexivity. Qed.

Lemma take_drop_string (i : nat) (s : string) :
  (i <= String.length s)%nat -> (take_string i s ++ drop_string i s)%string = s.
Proof.
  unfold take_string. revert s. induction i as [|i IH]; intros s Hi.
  - destruct s; reflexivity.
  - destruct s as [|c s]; simpl in *; [lia|].
    rewrite string_app_cons. f_equal. apply IH. lia.
Qed.

Lemma length_take_string (i : nat) (s : string) :
  (i <= String.length s)%nat -> String.length (take_string i s) = i.
Proof.
  unfold take_string. revert s. induction i as [|i IH]; intros s Hi.
  - destruct s; reflexivity.
  - destruct s as [|c s]; simpl in *; [lia|].
    f_equal. apply IH. lia.
Qed.

(** A supported extension, in any case, is a dot followed by three or four
    characters that are not dots. *)
Lemma supported_ext_shape (ext : string) :
  In (lower ext) SUPPORTED_EXT ->
  rfind "." ext = Some O /\ (4 <= String.length ext)%nat.
Proof.
  intros H. rewrite <- rfind_dot_lower, <- length_lower.
  unfold SUPPORTED_EXT in H. simpl in H.
  repeat (destruct H as [H|H]; [rewrite <- H; simpl; split; [reflexivity|lia]|]).
  destruct H.
Qed.

Lemma suffix_of_stem_ext (p : Path) (stem ext : string) :
  stem <> EmptyString -> In (lower ext) SUPPORTED_EXT ->
  suffix (joinpath p (stem ++ ext)) = ext.
Proof.
  intros Hs He. destruct (supported_ext_shape ext He) as [Hr Hl].
  unfold suffix. simpl name. rewrite rfind_app, Hr, string_length_app.
  assert (0 < String.length stem)%nat by (destruct stem; simpl; [congruence|lia]).
  rewrite Nat.add_0_r.
  replace (0 <? String.length stem)%nat with true by (symmetry; apply Nat.ltb_lt; lia).
  replace (String.length stem <? String.length stem + String.length ext - 1)%nat
    with true by (symmetry; apply Nat.ltb_lt; lia).
  simpl. apply drop_string_app.
Qed.

Lemma suffix_split (x : Path) :
  suffix x <> EmptyString ->
  exists stem, name x = (stem ++ suffix x)%string /\ stem <> EmptyString.
Proof.
  unfold suffix. destruct (rfind "." (name x)) as [i|]; [|congruence].
  destruct (_ && _) eqn:E; [|congruence]. intros _.
  apply andb_true_iff in E as [E1 E2].
  apply Nat.ltb_lt in E1, E2.
  exists (take_string i (name x)). split.
  - symmetry. apply take_drop_string. lia.
  - intros H. pose proof (length_take_string i (name x) ltac:(lia)) as Hl.
    rewrite H in Hl. simpl in Hl. lia.
Qed.

(** X1: [is_image_file] accepts a child of a directory exactly when it is a
    regular file whose name is a non-empty stem followed by one of the
    supported extensions, in any mixture of upper and lower case. *)
Theorem X1_is_image_file_by_name (fs : FileSystem) (p : Path) (n : string) :
  is_image_file fs (joinpath p n) = Ok true <->
  stat fs (str (joinpath p n)) = Ok Regular /\
  exists stem ext,
    n = (stem ++ ext)%string /\ stem <> EmptyString /\
    In (lower ext) SUPPORTED_EXT.
Proof.
  split.
  - intros H. apply is_image_file_true in H as [Hreg Hext].
    split; [exact Hreg|].
    destruct (suffix_split (joinpath p n)) as (stem & E & Hs).
    + intros E. rewrite E in Hext. simpl in Hext.
      repeat (destruct Hext as [Hext|Hext]; [discriminate|]). destruct Hext.
    + exists stem, (suffix (joinpath p n)). repeat split; assumption.
  - intros (Hreg & stem & ext & -> & Hs & He).
    unfold is_image_file, is_file. rewrite Hreg. simpl.
    rewrite suffix_of_stem_ext by assumption.
    f_equal. now apply in_supported_In.
Qed.

(** X2: the test ignores case altogether: two paths of the same file type
    whose names are equal up to case are both image files or both not. *)
Theorem X2_is_image_file_ignores_case (fs : FileSystem) (x y : Path) :
  lower (name x) = lower (name y) ->
  stat fs (str x) = stat fs (str y) ->
  is_image_file fs x = is_image_file fs y.
Proof.
  intros Hn Hs. unfold is_image_file, is_file. rewrite Hs.
  destruct (stat fs (str y)) as [[]|e]; simpl; try reflexivity.
  f_equal. f_equal.
  rewrite <- (suffix_lower x (mkPath (str x) (lower (name x)))) by reflexivity.
  rewrite <- (suffix_lower y (mkPath (str y) (lower (name y)))) by reflexivity.
  unfold suffix. simpl. now rewrite Hn.
Qed.

Lemma X2_witness :
  is_image_file case_fs (joinpath (Path_of "/mix") "A.JPG")
  = is_image_file case_fs (joinpath (Path_of "/mix") "a.jpg").
Proof.
  apply (X2_is_image_file_ignores_case case_fs); reflexivity.
Defined.

(** ** The two listings side by side *)

Lemma list_subdirs_In (fs : FileSystem) (p : Path) (ds : list Path) (x : Path) :
  list_subdirs fs p = Ok ds -> In x ds ->
  exists n, x = joinpath p n /\ is_dir fs x = Ok true /\
            exists names, listdir fs (str p) = Ok names /\ In n names.
Proof.
  unfold list_subdirs, iterdir.
  destruct (listdir fs (str p)) as [names|e]; simpl.
  - destruct (filter_raising _ _) as [r|e] eqn:E; simpl.
    + intros H Hin. inversion H; subst; clear H.
      apply (Permutation_in _ (sorted_perm name_key _)) in Hin.
      destruct (filter_raising_In _ _ _ _ E Hin) as [Hx Hf].
      apply in_map_iff in Hx as (n & <- & Hn). eauto 6.
    + intros H Hin. inversion H; subst. destruct Hin.
  - intros H Hin. inversion H; subst. destruct Hin.
Qed.

Lemma filter_raising_NoDup {A} (f : A -> result bool) (l r : list A) :
  List.NoDup l -> filter_raising f l = Ok r -> List.NoDup r.
Proof.
  intros Hl. revert r. induction Hl as [|y l Hy Hl IH]; intros r H; simpl in H.
  - inversion H. constructor.
  - destruct (f y) as [b|e]; simpl in H; [|discriminate].
    destruct (filter_raising f l) as [r'|e] eqn:E; simpl in H; [|discriminate].
    inversion H; subst; clear H.
    specialize (IH r' eq_refl).
    destruct b; [|exact IH].
    constructor; [|exact IH].
    intros Hin. apply Hy. now destruct (filter_raising_In f l r' y E Hin).
Qed.

Lemma NoDup_map_on {A B} (f : A -> B) (l : list A) :
  (forall x y, In x l -> In y l -> f x = f y -> x = y) ->
  List.NoDup l -> List.NoDup (map f l).
Proof.
  intros Hinj Hl. induction Hl as [|x l Hx Hl IH]; simpl; constructor.
  - intros Hin. apply in_map_iff in Hin as (y & E & Hy).
    assert (y = x) by (apply Hinj; [now right|now left|exact E]).
    subst. contradiction.
  - apply IH. intros a b Ha Hb. apply Hinj; now right.
Qed.

Lemma joinpath_inj (p : Path) (n n' : string) :
  joinpath p n = joinpath p n' -> n = n'.
Proof. intros H. apply (joinpath_str_inj p). now rewrite H. Qed.

Lemma entries_NoDup (p : Path) (names : list string) :
  List.NoDup names -> List.NoDup (entries p names).
Proof.
  intros H. apply NoDup_map_on; [|exact H].
  intros x y _ _. apply joinpath_inj.
Qed.

(** X3: the two listings never overlap: no path that [list_subdirs] returns
    is among the strings that [list_images] returns, so a directory named
    like an image is a folder of the sidebar and not a tile of the grid. *)
Theorem X3_images_and_subdirs_disjoint
        (fs : FileSystem) (p : Path) (imgs : list string) (ds : list Path) (x : Path) :
  list_images fs p = Ok imgs ->
  list_subdirs fs p = Ok ds ->
  In x ds -> ~ In (str x) imgs.
Proof.
  intros Hi Hd Hx Hs.
  destruct (list_subdirs_In _ _ _ _ Hd Hx) as (n & -> & Hdir & _).
  destruct (list_images_In _ _ _ _ Hi Hs) as (n' & E & Hf & _).
  apply joinpath_str_inj in E. subst n'.
  apply is_image_file_true in Hf as [Hreg _].
  unfold is_dir in Hdir. rewrite Hreg in Hdir. discriminate.
Qed.

Lemma X3_witness :
  list_images case_fs (Path_of "/mix")
  = Ok ["/mix/A.JPG"; "/mix/a.jpg"; "/mix/b.png"; "/mix/B.PNG"] /\
  list_subdirs case_fs (Path_of "/mix")
  = Ok [joinpath (Path_of "/mix") "dir.jpg"; joinpath (Path_of "/mix") "sub";
        joinpath (Path_of "/mix") "Sub"] /\
  ~ In (str (joinpath (Path_of "/mix") "dir.jpg"))
       ["/mix/A.JPG"; "/mix/a.jpg"; "/mix/b.png"; "/mix/B.PNG"].
Proof.
  split; [reflexivity|]. split; [reflexivity|].
  apply (X3_images_and_subdirs_disjoint case_fs (Path_of "/mix") _
           [joinpath (Path_of "/mix") "dir.jpg"; joinpath (Path_of "/mix") "sub";
            joinpath (Path_of "/mix") "Sub"]).
  - reflexivity.
  - reflexivity.
  - now left.
Defined.

(** X4: when the operating system lists no name twice, neither listing
    returns a path twice. *)
Theorem X4_listings_without_repeats
        (fs : FileSystem) (p : Path) (names : list string)
        (imgs : list string) (ds : list Path) :
  listdir fs (str p) = Ok names -> List.NoDup names ->
  list_images fs p = Ok imgs -> list_subdirs fs p = Ok ds ->
  List.NoDup imgs /\ List.NoDup ds.
Proof.
  intros Hl Hn Hi Hd. pose proof (entries_NoDup p names Hn) as He. split.
  - unfold list_images, iterdir in Hi. rewrite Hl in Hi. simpl in Hi.
    fold (entries p names) in Hi.
    destruct (filter_raising _ _) as [r|e] eqn:E; simpl in Hi;
      inversion Hi; subst; [|constructor].
    assert (Hr : List.NoDup r).
    { eapply filter_raising_NoDup; [|exact E].
      eapply Permutation_NoDup; [symmetry; apply sorted_perm|exact He]. }
    apply NoDup_map_on; [|exact Hr].
    intros x y Hx Hy Hxy.
    destruct (filter_raising_In _ _ _ _ E Hx) as [Hx' _].
    destruct (filter_raising_In _ _ _ _ E Hy) as [Hy' _].
    apply (Permutation_in _ (sorted_perm name_key _)) in Hx', Hy'.
    apply in_map_iff in Hx' as (a & <- & _).
    apply in_map_iff in Hy' as (b & <- & _).
    f_equal. now apply (joinpath_str_inj p).
  - unfold list_subdirs, iterdir in Hd. rewrite Hl in Hd. simpl in Hd.
    fold (entries p names) in Hd.
    destruct (filter_raising _ _) as [r|e] eqn:E; simpl in Hd;
      inversion Hd; subst; [|constructor].
    eapply Permutation_NoDup; [symmetry; apply sorted_perm|].
    eapply filter_raising_NoDup; [exact He|exact E].
Qed.

Lemma X4_witness :
  List.NoDup ["/mix/A.JPG"; "/mix/a.jpg"; "/mix/b.png"; "/mix/B.PNG"] /\
  List.NoDup [joinpath (Path_of "/mix") "dir.jpg"; joinpath (Path_of "/mix") "sub";
         joinpath (Path_of "/mix") "Sub"].
Proof.
  apply (X4_listings_without_repeats case_fs (Path_of "/mix")
           ["sub"; "b.png"; "A.JPG"; "dir.jpg"; "a.jpg"; "B.PNG"; "Sub"]).
  - reflexivity.
  - repeat constructor; simpl; intuition discriminate.
  - reflexivity.
  - reflexivity.
Defined.

Lemma filter_filter_comm {A} (f g : A -> bool) (l : list A) :
  List.filter f (List.filter g l) = List.filter g (List.filter f l).
Proof.
  induction l as [|x l IH]; simpl; [reflexivity|].
  destruct (f x) eqn:Ef, (g x) eqn:Eg; simpl; rewrite ?Ef, ?Eg, IH; reflexivity.
Qed.

Lemma all_ascii_In (a : ascii) : In a all_ascii.
Proof.
  unfold all_ascii. apply in_map_iff. exists (nat_of_ascii a).
  split; [apply ascii_nat_embedding|].
  apply in_seq. pose proof (nat_ascii_bounded a). lia.
Qed.

Lemma same_letter_table :
  forallb (fun a =>
     forallb (fun b => Bool.eqb (same_letter a b)
                         (Ascii.eqb (lower_ascii a) (lower_ascii b)))
             all_ascii) all_ascii = true.
Proof. vm_compute. reflexivity. Qed.

(** Two characters are the same letter when their lower-case forms are
    equal. *)
Lemma same_letter_lower (a b : ascii) :
  same_letter a b = Ascii.eqb (lower_ascii a) (lower_ascii b).
Proof.
  pose proof same_letter_table as H. rewrite forallb_forall in H.
  specialize (H a (all_ascii_In a)). rewrite forallb_forall in H.
  specialize (H b (all_ascii_In b)). now apply Bool.eqb_prop.
Qed.

Lemma eq_nocase_lower (s t : string) :
  eq_nocase s t = String.eqb (lower s) (lower t).
Proof.
  revert t. induction s as [|a s IH]; intros [|b t]; simpl; try reflexivity.
  rewrite same_letter_lower, IH.
  destruct (Ascii.eqb (lower_ascii a) (lower_ascii b)); reflexivity.
Qed.

(** X5: both listings are stable: of ASCII names, the entries whose names
    are equal up to case come out in the order in which the operating
    system listed them. *)
Theorem X5_listings_stable
        (fs : FileSystem) (p : Path) (names : list string) (k : string) :
  listdir fs (str p) = Ok names ->
  Forall (stat_ok fs) (entries p names) ->
  ascii_names names ->
  let same_name := fun y : Path => eq_nocase (name y) k in
  exists xs ds,
    list_images fs p = Ok (map str xs) /\
    list_subdirs fs p = Ok ds /\
    List.filter same_name xs
    = List.filter same_name
        (List.filter (fun x => is_regular fs x && has_supported_ext x)
                     (entries p names)) /\
    List.filter same_name ds
    = List.filter same_name (List.filter (is_directory fs) (entries p names)).
Proof.
  intros Hl Hs _ same_name.
  assert (Hk : forall l : list Path,
             List.filter same_name l
             = List.filter (fun y => String.eqb (name_key y) (lower k)) l).
  { intros l. apply filter_ext. intros y. apply eq_nocase_lower. }
  eexists _, _. split; [apply (list_images_no_error fs p names Hl Hs)|].
  split; [apply (list_subdirs_no_error fs p names Hl Hs)|].
  rewrite !Hk. split.
  - rewrite filter_filter_comm, (filter_filter_comm (fun y => String.eqb _ _)).
    f_equal. apply sorted_stable.
  - apply sorted_stable.
Qed.

Lemma X5_witness :
  ascii_names ["sub"; "b.png"; "A.JPG"; "dir.jpg"; "a.jpg"; "B.PNG"; "Sub"] /\
  list_subdirs case_fs (Path_of "/mix")
  = Ok [joinpath (Path_of "/mix") "dir.jpg"; joinpath (Path_of "/mix") "sub";
        joinpath (Path_of "/mix") "Sub"] /\
  let same_name := fun y : Path => eq_nocase (name y) "SUB" in
  exists xs ds,
    list_images case_fs (Path_of "/mix") = Ok (map str xs) /\
    list_subdirs case_fs (Path_of "/mix") = Ok ds /\
    List.filter same_name xs
    = List.filter same_name
        (List.filter (fun x => is_regular case_fs x && has_supported_ext x)
           (entries (Path_of "/mix")
                    ["sub"; "b.png"; "A.JPG"; "dir.jpg"; "a.jpg"; "B.PNG"; "Sub"])) /\
    List.filter same_name ds
    = List.filter same_name
        (List.filter (is_directory case_fs)
           (entries (Path_of "/mix")
                    ["sub"; "b.png"; "A.JPG"; "dir.jpg"; "a.jpg"; "B.PNG"; "Sub"])).
Proof.
  split; [repeat constructor|]. split; [reflexivity|].
  apply (X5_listings_stable case_fs (Path_of "/mix")
           ["sub"; "b.png"; "A.JPG"; "dir.jpg"; "a.jpg"; "B.PNG"; "Sub"] "SUB").
  - reflexivity.
  - repeat constructor; eexists; reflexivity.
  - repeat constructor.
Defined.

(** ** Rules for specifications *)

Lemma triple_ret {A} (a : A) (Q : A -> Machine -> Prop) E :
  triple (Q a) (ret a) Q E.
Proof. intros m H. exact H. Qed.

Lemma triple_raise {A} (e : exn) (Q : A -> Machine -> Prop) E :
  triple E (raise e) Q E.
Proof. intros m H. exact H. Qed.

Lemma triple_conseq {A} (P P' : Machine -> Prop) (c : M A)
      (Q Q' : A -> Machine -> Prop) (E E' : Machine -> Prop) :
  triple P c Q E ->
  (forall m, P' m -> P m) -> (forall a m, Q a m -> Q' a m) ->
  (forall m, E m -> E' m) ->
  triple P' c Q' E'.
Proof.
  intros H HP HQ HE m Hm. specialize (H m (HP m Hm)).
  destruct (c m) as [[a|e] m']; auto.
Qed.

Lemma triple_bind {A B} P (c : M A) (R : A -> Machine -> Prop)
      (k : A -> M B) (Q : B -> Machine -> Prop) E :
  triple P c R E -> (forall a, triple (R a) (k a) Q E) ->
  triple P (bind c k) Q E.
Proof.
  intros Hc Hk m Hm. specialize (Hc m Hm). unfold bind.
  destruct (c m) as [[a|e] m']; [apply Hk, Hc|exact Hc].
Qed.

Lemma triple_try_catch {A} P (c : M A) (Q : A -> Machine -> Prop)
      (E' : Machine -> Prop) (h : exn -> M A) E :
  triple P c Q E' -> (forall e, triple E' (h e) Q E) ->
  triple P (try_catch c h) Q E.
Proof.
  intros Hc Hh m Hm. specialize (Hc m Hm). unfold try_catch.
  destruct (c m) as [[a|e] m']; [exact Hc|apply Hh, Hc].
Qed.

Lemma triple_for_each {A} (I : Machine -> Prop) (l : list A)
      (body : A -> M unit) E :
  (forall x, In x l -> triple I (body x) (fun _ => I) E) ->
  triple I (for_each l body) (fun _ => I) E.
Proof.
  induction l as [|x l IH]; intros Hb; simpl.
  - apply (triple_ret tt (fun _ => I)).
  - apply (triple_bind I (body x) (fun _ => I)); [apply Hb; now left|intros _].
    apply IH. intros y Hy. apply Hb. now right.
Qed.

Lemma triple_exists {A X} (P : X -> Machine -> Prop) (c : M A)
      (Q : A -> Machine -> Prop) E :
  (forall x, triple (P x) c Q E) -> triple (fun m => exists x, P x m) c Q E.
Proof. intros H m [x Hx]. now apply (H x). Qed.

Lemma triple_pure_pre {A} (P : Machine -> Prop) (F : Prop) (c : M A)
      (Q : A -> Machine -> Prop) E :
  (F -> triple P c Q E) -> triple (fun m => P m /\ F) c Q E.
Proof. intros H m [Hm HF]. now apply H. Qed.

Lemma triple_lift {A} (r : result A) (I : Machine -> Prop) :
  triple I (lift r) (fun _ => I) I.
Proof. intros m H. unfold lift. now destruct r. Qed.

Lemma triple_get_state (I : Machine -> Prop) E :
  triple I get_state (fun s m => I m /\ s = state m) E.
Proof. intros m H. simpl. auto. Qed.

(** A computation that leaves a machine in [Q], whether it returns or
    raises. *)
Lemma triple_of_exec {A} (P : Machine -> Prop) (c : M A)
      (Q E : Machine -> Prop) :
  (forall m, P m -> Q (exec c m)) -> (forall m, Q m -> E m) ->
  triple P c (fun _ => Q) E.
Proof.
  intros H HE m Hm. specialize (H m Hm). unfold exec in H.
  destruct (c m) as [[a|e] m']; simpl in H; auto.
Qed.

(** What a run leaves, whether it returns or raises. *)
Lemma triple_exec {A} (P : Machine -> Prop) (c : M A) (I : Machine -> Prop) :
  triple P c (fun _ => I) I -> forall m, P m -> I (exec c m).
Proof.
  intros H m Hm. specialize (H m Hm). unfold exec.
  destruct (c m) as [[a|e] m']; exact H.
Qed.

(** ** The registry

    In what follows [n0] is where DPG's counter stood at the end of
    [build_ui]. *)

Section Protected.
Context {n0 : positive}.

(** ** The registry keeps its textures *)

Lemma wf_tag_below d it :
  wf_dpg d -> In it (items d) -> tag_below (next_id d) (item_tag it) = true.
Proof.
  intros [H _] Hin. rewrite forallb_forall in H. specialize (H it Hin).
  unfold item_below in H. now apply andb_true_iff in H as [H _].
Qed.

Lemma NoDup_snoc {A} (l : list A) (x : A) :
  List.NoDup l -> ~ In x l -> List.NoDup (l ++ [x]).
Proof.
  intros Hl Hx. induction Hl as [|y l Hy Hl IH]; simpl.
  - constructor; [intros []|constructor].
  - constructor.
    + rewrite in_app_iff. intros [H|[H|[]]]; [now apply Hy|].
      apply Hx. now left.
    + apply IH. intros H. apply Hx. now right.
Qed.

(** What [delete_item] leaves carries none of the deleted tags. *)
Lemma delete_from_dead dead (l : list Item) it :
  In it (delete_from dead l) -> item_tag it ∉ dead.
Proof.
  revert dead. induction l as [|x l IH]; intros dead H; simpl in H.
  - destruct H.
  - destruct (bool_decide (item_tag x ∈ dead)) eqn:E1; simpl in H.
    + apply IH in H. intros Hd. apply H. apply elem_of_cons; now right.
    + destruct (match item_parent x with
                | Some p => bool_decide (p ∈ dead)
                | None => false
                end).
      * apply IH in H. intros Hd. apply H. apply elem_of_cons; now right.
      * destruct H as [<-|H]; [|now apply IH].
        now apply bool_decide_eq_false in E1.
Qed.

Lemma delete_from_NoDup dead (l : list Item) :
  List.NoDup (map item_tag l) -> List.NoDup (map item_tag (delete_from dead l)).
Proof.
  revert dead. induction l as [|x l IH]; intros dead H; simpl.
  - constructor.
  - inversion H as [|? ? Hx Hl]; subst.
    destruct (_ || _); [now apply IH|].
    simpl. constructor; [|now apply IH].
    intros Hin. apply Hx. apply in_map_iff in Hin as (y & <- & Hy).
    apply in_map. eapply delete_from_In, Hy.
Qed.

(** Deleting items that are neither the texture registry nor a texture
    deletes no texture. *)
Lemma delete_from_keeps_textures (l : list Item) (dead : list tag) :
  List.NoDup (map item_tag l) ->
  (forall it, In it l -> item_tag it = StrTag "texreg" -> item_parent it = None) ->
  (forall it, In it l -> is_texture (item_kind it) = true ->
              item_parent it = Some (StrTag "texreg")) ->
  StrTag "texreg" ∉ dead ->
  (forall it, In it l -> is_texture (item_kind it) = true -> item_tag it ∉ dead) ->
  forall it, In it l -> is_texture (item_kind it) = true ->
             In it (delete_from dead l).
Proof.
  revert dead. induction l as [|x l IH]; intros dead ND Hreg Htex Hr Hd it Hin Hit.
  - destruct Hin.
  - inversion ND as [|? ? Hx ND']; subst. simpl.
    destruct (bool_decide (item_tag x ∈ dead)) eqn:E1; simpl.
    + (* [x] is deleted by its tag: it is not a texture *)
      apply bool_decide_eq_true in E1.
      assert (Hxt : is_texture (item_kind x) = false).
      { destruct (is_texture (item_kind x)) eqn:Ex; [|reflexivity].
        exfalso. apply (Hd x (or_introl eq_refl) Ex), E1. }
      destruct Hin as [->|Hin]; [congruence|].
      apply IH; auto.
      * intros y Hy. apply Hreg. now right.
      * intros y Hy. apply Htex. now right.
      * intros Hr'. apply elem_of_cons in Hr' as [Hr'|Hr']; [|now apply Hr].
        apply Hr. now rewrite Hr'.
      * intros y Hy Hyt Hy'. apply elem_of_cons in Hy' as [Hy'|Hy'].
        -- apply Hx. rewrite <- Hy'. now apply in_map.
        -- apply (Hd y (or_intror Hy) Hyt), Hy'.
    + apply bool_decide_eq_false in E1.
      destruct (item_parent x) as [q|] eqn:Eq.
      * destruct (bool_decide (q ∈ dead)) eqn:E2.
        -- apply bool_decide_eq_true in E2.
           assert (Hxt : is_texture (item_kind x) = false).
           { destruct (is_texture (item_kind x)) eqn:Ex; [|reflexivity].
             exfalso. apply Hr.
             specialize (Htex x (or_introl eq_refl) Ex). congruence. }
           assert (Hxr : item_tag x <> StrTag "texreg").
           { intros Hxr. specialize (Hreg x (or_introl eq_refl) Hxr). congruence. }
           destruct Hin as [->|Hin]; [congruence|].
           apply IH; auto.
           ++ intros y Hy. apply Hreg. now right.
           ++ intros y Hy. apply Htex. now right.
           ++ intros Hr'. apply elem_of_cons in Hr' as [Hr'|Hr']; [|now apply Hr].
              now apply Hxr.
           ++ intros y Hy Hyt Hy'. apply elem_of_cons in Hy' as [Hy'|Hy'].
              ** apply Hx. rewrite <- Hy'. now apply in_map.
              ** apply (Hd y (or_intror Hy) Hyt), Hy'.
        -- destruct Hin as [->|Hin]; [now left|right].
           apply IH; auto.
           ++ intros y Hy. apply Hreg. now right.
           ++ intros y Hy. apply Htex. now right.
           ++ intros y Hy. apply Hd. now right.
      * destruct Hin as [->|Hin]; [now left|right].
        apply IH; auto.
        -- intros y Hy. apply Hreg. now right.
        -- intros y Hy. apply Htex. now right.
        -- intros y Hy. apply Hd. now right.
Qed.

(** How [plain] and [registered_texture] move from a machine to a later
    one. *)
Lemma plain_later m m' t :
  (next_id (dpg m) <= next_id (dpg m'))%positive ->
  (forall it, In it (items (dpg m')) -> is_texture (item_kind it) = true ->
              (exists it0, In it0 (items (dpg m)) /\ item_tag it0 = item_tag it /\
                           is_texture (item_kind it0) = true)
              \/ tag_below (next_id (dpg m)) (item_tag it) = false) ->
  plain n0 m t -> plain n0 m' t.
Proof.
  intros Hn Hit [(k & -> & Hk0 & Hk) Ht]. split.
  - exists k. split; [reflexivity|lia].
  - intros it Hin Hx. destruct (Hit it Hin Hx) as [(it0 & Hin0 & E0 & Hx0)|Hf].
    + rewrite <- E0. now apply Ht.
    + intros E. rewrite E in Hf. simpl in Hf. apply Z.ltb_ge in Hf. lia.
Qed.

Lemma plain_deletable m t : plain n0 m t -> deletable n0 m t.
Proof.
  intros [(k & -> & Hk & _) H]. split; [simpl; lia|exact H].
Qed.

Lemma inv_weaken G G' T m :
  (forall t, In t G' -> In t G) -> inv n0 G T m -> inv n0 G' T m.
Proof.
  intros H (S & HG & HT). split; [exact S|split; [|exact HT]].
  rewrite List.Forall_forall in *. auto.
Qed.

Lemma inv_nil G T m : inv n0 G T m -> inv n0 [] T m.
Proof. apply inv_weaken. intros t []. Qed.

Lemma inv_drop_textures G X T m : inv n0 G (X ++ T) m -> inv n0 G T m.
Proof.
  intros (S & HG & HT). split; [exact S|split; [exact HG|]].
  now apply Forall_app in HT as [_ HT].
Qed.

Lemma plain_below m t : plain n0 m t -> tag_below (next_id (dpg m)) t = true.
Proof. intros [(k & -> & _ & Hk) _]. simpl. apply Z.ltb_lt. lia. Qed.

(** *** Creating an item *)

Lemma plain_add_item m parent k st' tr t :
  wf_dpg (dpg m) -> plain n0 m t ->
  plain n0 (mkMachine st' (added parent k (dpg m)) tr) t.
Proof.
  intros W. apply plain_later; simpl; [lia|].
  intros it Hin Hx. apply in_app_iff in Hin as [Hin|[<-|[]]].
  - left. now exists it.
  - right. simpl. apply Z.ltb_ge. lia.
Qed.

Lemma plain_fresh m parent k st' tr :
  wf_dpg (dpg m) -> (n0 <= next_id (dpg m))%positive -> is_texture k = false ->
  plain n0 (mkMachine st' (added parent k (dpg m)) tr)
        (IntTag (Z.pos (next_id (dpg m)))).
Proof.
  intros W Hc Hk. split; simpl.
  - eexists. split; [reflexivity|lia].
  - intros it Hin Hx. apply in_app_iff in Hin as [Hin|[<-|[]]].
    + apply (tag_below_ne (next_id (dpg m))).
      * now apply wf_tag_below.
      * apply tag_below_fresh. lia.
    + simpl in Hx. congruence.
Qed.

Lemma sound_add m parent k st' tr :
  sound n0 m ->
  match parent with
  | Some q => negb (grid_kind k) || tag_below (next_id (dpg m) + 1) q = true
  | None => True
  end ->
  (is_texture k = true -> parent = Some (StrTag "texreg")) ->
  texreg st' = texreg (state m) ->
  (forall p t, thumb_tex st' !! p = Some t -> truthy_tag t = true ->
               thumb_tex (state m) !! p = Some t \/
               (t = IntTag (Z.pos (next_id (dpg m))) /\ is_texture k = true)) ->
  (forall p q t, thumb_tex st' !! p = Some t -> thumb_tex st' !! q = Some t ->
                 truthy_tag t = true -> p = q) ->
  thumb_items st' = thumb_items (state m) ->
  (forall t, grid_table st' = Some t ->
             grid_table (state m) = Some t \/
             (t = IntTag (Z.pos (next_id (dpg m))) /\ is_texture k = false)) ->
  (forall it, In it (items (dpg m)) -> is_table (item_kind it) = true ->
              grid_table st' = Some (item_tag it)) ->
  (is_table k = true -> grid_table st' = Some (IntTag (Z.pos (next_id (dpg m))))) ->
  (forall t, k = ImageButton t -> registered_texture m t) ->
  sound n0 (mkMachine st' (added parent k (dpg m)) tr).
Proof.
  intros S Hp Htx Hreg Hc Hinj Hti Hgt Htb Htk Hbt.
  pose proof (sound_wf m S) as W.
  assert (Reg : forall t, registered_texture m t ->
                          registered_texture
                            (mkMachine st' (added parent k (dpg m)) tr) t).
  { intros t (it & Hin & E & Hx). exists it. split; [|now split].
    simpl. apply in_app_iff. now left. }
  constructor; simpl.
  - now apply (snoc_wf (dpg m) parent k).
  - rewrite map_app. apply NoDup_snoc; [apply (sound_tags m S)|].
    simpl. intros Hin. apply in_map_iff in Hin as (it & E & Hin).
    apply (wf_tag_below _ _ W) in Hin. rewrite E in Hin. simpl in Hin.
    apply Z.ltb_lt in Hin. lia.
  - rewrite Hreg. apply (sound_texreg m S).
  - intros it Hin E. apply in_app_iff in Hin as [Hin|[<-|[]]].
    + now apply (sound_registry m S).
    + discriminate E.
  - intros it Hin Hx. apply in_app_iff in Hin as [Hin|[<-|[]]].
    + now apply (sound_textures m S).
    + simpl in *. auto.
  - intros p t Hl Ht. destruct (Hc p t Hl Ht) as [Hl0|[-> Hk]].
    + destruct (sound_cache m S p t Hl0 Ht) as (it & Hin & E & Hx).
      exists it. split; [|now split]. simpl. apply in_app_iff. now left.
    + eexists. split; [simpl; apply in_app_iff; right; left; reflexivity|].
      now split.
  - exact Hinj.
  - rewrite Hti. eapply List.Forall_impl; [|apply (sound_thumb_items m S)].
    intros t. now apply plain_add_item.
  - intros t Ht. destruct (Hgt t Ht) as [Ht0|[-> Hk]].
    + apply plain_add_item; [exact W|]. now apply (sound_grid_table m S).
    + apply plain_fresh; auto. apply (sound_counter m S).
  - intros it Hin Hk. apply in_app_iff in Hin as [Hin|[<-|[]]]; simpl in *; auto.
  - intros it t Hin Hk. apply Reg.
    apply in_app_iff in Hin as [Hin|[<-|[]]]; simpl in *; auto.
    now apply (sound_buttons m S it).
  - intros it Hin Hpr. apply in_app_iff in Hin as [Hin|[<-|[]]].
    + now apply (sound_static m S it).
    + exfalso. pose proof (sound_counter m S). simpl in Hpr. lia.
  - pose proof (sound_counter m S). simpl. lia.
Qed.

Lemma inv_add_item G T parent k m :
  inv n0 G T m -> is_texture k = false -> is_table k = false ->
  (grid_kind k = true -> match parent with Some q => In q G | None => True end) ->
  (forall t, k = ImageButton t -> exists x, In x T /\ item_tag x = t) ->
  inv n0 (IntTag (Z.pos (next_id (dpg m))) :: G) T
      (mkMachine (state m) (added parent k (dpg m)) (trace m)).
Proof.
  intros (S & HG & HT) Hx Htb Hp Hbt.
  pose proof (sound_wf m S) as W.
  split; [|split].
  - apply (sound_add m parent k (state m) (trace m) S); auto.
    6:{ intros t E. destruct (Hbt t E) as (x & Hin & <-).
        rewrite List.Forall_forall in HT. destruct (HT x Hin) as [H1 H2].
        now exists x. }
    + destruct parent as [q|]; [|exact I].
      destruct (grid_kind k); [|reflexivity]. simpl.
      apply (tag_below_mono (next_id (dpg m))); [lia|].
      apply plain_below. rewrite List.Forall_forall in HG. apply HG. now apply Hp.
    + congruence.
    + apply (sound_cache_inj m S).
    + apply (sound_tables m S).
    + congruence.
  - constructor.
    + apply (plain_fresh m parent k (state m) (trace m)); auto.
      apply (sound_counter m S).
    + eapply List.Forall_impl; [|exact HG].
      intros t. now apply (plain_add_item m parent k (state m) (trace m)).
  - eapply List.Forall_impl; [|exact HT]. simpl.
    intros it [Hin Hit]. split; [|exact Hit]. apply in_app_iff. now left.
Qed.

Lemma triple_add_item G T parent k :
  is_texture k = false -> is_table k = false ->
  (grid_kind k = true -> match parent with Some q => In q G | None => True end) ->
  (forall t, k = ImageButton t -> exists x, In x T /\ item_tag x = t) ->
  triple (inv n0 G T) (add_item parent k) (fun t => inv n0 (t :: G) T) (inv n0 [] T).
Proof.
  intros Hx Htb Hp Hbt m Hm. unfold add_item.
  destruct (accepts (dpg m) parent k).
  - now apply inv_add_item.
  - eapply inv_nil, Hm.
Qed.

(** *** Deleting an item *)

Lemma delete_item_keeps_textures m t it :
  sound n0 m -> deletable n0 m t ->
  In it (items (dpg m)) -> is_texture (item_kind it) = true ->
  In it (items (dpg (exec (delete_item t) m))).
Proof.
  destruct (exec_delete_item t m) as [[_ ->]|[_ ->]]; [auto|].
  intros S [Hr Hd] Hin Hit. simpl.
  apply delete_from_keeps_textures; auto.
  - apply (sound_tags m S).
  - intros x Hx E. now apply (sound_registry m S).
  - apply (sound_textures m S).
  - intros H. apply list_elem_of_singleton in H. apply Hr. now rewrite <- H.
  - intros x Hx Hxt H. apply list_elem_of_singleton in H.
    now apply (Hd x).
Qed.

Lemma plain_delete_item m t t' :
  plain n0 m t' -> plain n0 (exec (delete_item t) m) t'.
Proof.
  destruct (exec_delete_item t m) as [[_ ->]|[_ ->]]; [auto|].
  apply plain_later; simpl; [lia|].
  intros it Hin Hx. left. exists it. split; [|now split].
  eapply delete_from_In, Hin.
Qed.

Lemma deletable_delete_item m t t' :
  deletable n0 m t' -> deletable n0 (exec (delete_item t) m) t'.
Proof.
  destruct (exec_delete_item t m) as [[_ ->]|[_ ->]]; [auto|].
  intros [Hr Hd]. split; [exact Hr|]. simpl.
  intros it Hin. apply Hd. eapply delete_from_In, Hin.
Qed.

Lemma inv_delete_item G T t m :
  inv n0 G T m -> deletable n0 m t -> inv n0 G T (exec (delete_item t) m).
Proof.
  intros (S & HG & HT) Hd.
  assert (Sub : forall it, In it (items (dpg (exec (delete_item t) m))) ->
                           In it (items (dpg m))).
  { intros it. destruct (exec_delete_item t m) as [[_ ->]|[_ ->]]; [auto|].
    simpl. apply delete_from_In. }
  split; [|split].
  - constructor; rewrite ?state_delete_item, ?next_id_delete_item.
    + apply delete_item_wf, (sound_wf m S).
    + destruct (exec_delete_item t m) as [[_ ->]|[_ ->]];
        [apply (sound_tags m S)|].
      simpl. apply delete_from_NoDup, (sound_tags m S).
    + apply (sound_texreg m S).
    + intros it Hin. apply (sound_registry m S). now apply Sub.
    + intros it Hin. apply (sound_textures m S). now apply Sub.
    + intros p t' Hl Ht.
      destruct (sound_cache m S p t' Hl Ht) as (it & Hin & E & Hx).
      exists it. split; [|now split]. now apply delete_item_keeps_textures.
    + apply (sound_cache_inj m S).
    + eapply List.Forall_impl; [|apply (sound_thumb_items m S)].
      intros t'. apply plain_delete_item.
    + intros t' Ht'. apply plain_delete_item. now apply (sound_grid_table m S).
    + intros it Hin. apply (sound_tables m S). now apply Sub.
    + intros it t' Hin Hk.
      destruct (sound_buttons m S it t' (Sub it Hin) Hk) as (x & Hx & E & Hxt).
      exists x. split; [|now split]. now apply delete_item_keeps_textures.
    + intros it Hin. apply (sound_static m S). now apply Sub.
    + apply (sound_counter m S).
  - eapply List.Forall_impl; [|exact HG]. intros t'. apply plain_delete_item.
  - eapply List.Forall_impl; [|exact HT].
    intros it [Hin Hit]. split; [|exact Hit].
    now apply delete_item_keeps_textures.
Qed.

Lemma delete_item_gone m t it :
  In it (items (dpg (exec (delete_item t) m))) -> item_tag it <> t.
Proof.
  destruct (exec_delete_item t m) as [[Hx ->]|[_ ->]].
  - intros Hin E.
    assert (H : item_exists (dpg m) t = true)
      by (apply item_exists_In; now exists it).
    congruence.
  - simpl. intros Hin E. apply delete_from_dead in Hin. apply Hin.
    rewrite E. now apply list_elem_of_singleton.
Qed.

(** *** Changing the configuration of an item, and the rest *)

Lemma inv_update_done G T t f m :
  ((forall k, grid_kind (f k) = grid_kind k) ->
   wf_dpg (dpg m) -> wf_dpg (dpg (update_done t f m))) ->
  (forall k, grid_kind (f k) = grid_kind k) ->
  (forall k, is_table (f k) = is_table k) ->
  (forall k, is_texture (f k) = is_texture k) ->
  (forall k, is_texture k = true -> f k = k) ->
  (forall k b, f k = ImageButton b -> k = ImageButton b) ->
  inv n0 G T m -> inv n0 G T (update_done t f m).
Proof.
  intros KW Hg Htb Hx Hid Hib (S & HG & HT).
  assert (Back : forall it, In it (items (dpg (update_done t f m))) ->
            exists it0, In it0 (items (dpg m)) /\ item_tag it0 = item_tag it /\
                        item_parent it0 = item_parent it /\
                        is_texture (item_kind it0) = is_texture (item_kind it) /\
                        is_table (item_kind it0) = is_table (item_kind it) /\
                        forall b, item_kind it = ImageButton b ->
                                  item_kind it0 = ImageButton b).
  { simpl. intros it Hin. apply in_map_iff in Hin as (it0 & <- & Hin).
    exists it0. split; [exact Hin|].
    destruct (has_tag t it0); simpl; auto 10. }
  assert (Keep : forall it, In it (items (dpg m)) ->
                            is_texture (item_kind it) = true ->
                            In it (items (dpg (update_done t f m)))).
  { simpl. intros it Hin Hit. apply in_map_iff. exists it. split; [|exact Hin].
    destruct (has_tag t it); [|reflexivity].
    rewrite (Hid _ Hit). now destruct it. }
  assert (Pl : forall t', plain n0 m t' -> plain n0 (update_done t f m) t').
  { intros t'. apply plain_later; simpl; [lia|].
    intros it Hin Hit. left.
    destruct (Back it Hin) as (it0 & Hin0 & E1 & _ & E2 & _ & _).
    exists it0. split; [exact Hin0|]. split; [exact E1|congruence]. }
  split; [|split].
  - constructor.
    + apply KW; [exact Hg|apply (sound_wf m S)].
    + simpl. rewrite map_map.
      erewrite map_ext; [apply (sound_tags m S)|].
      intros it. now destruct (has_tag t it).
    + apply (sound_texreg m S).
    + intros it Hin E.
      destruct (Back it Hin) as (it0 & Hin0 & E1 & E2 & E3 & _ & _).
      rewrite <- E2, <- E3. apply (sound_registry m S); congruence.
    + intros it Hin Hit.
      destruct (Back it Hin) as (it0 & Hin0 & E1 & E2 & E3 & _ & _).
      rewrite <- E2. apply (sound_textures m S); congruence.
    + intros p t' Hl Ht.
      destruct (sound_cache m S p t' Hl Ht) as (it & Hin & E & Hit).
      exists it. split; [|now split]. now apply Keep.
    + apply (sound_cache_inj m S).
    + eapply List.Forall_impl; [|apply (sound_thumb_items m S)]. exact Pl.
    + intros t' Ht'. apply Pl. now apply (sound_grid_table m S).
    + intros it Hin Hit.
      destruct (Back it Hin) as (it0 & Hin0 & E1 & _ & _ & E4 & _).
      rewrite <- E1. apply (sound_tables m S); congruence.
    + intros it b Hin Hk.
      destruct (Back it Hin) as (it0 & Hin0 & _ & _ & _ & _ & E5).
      destruct (sound_buttons m S it0 b Hin0 (E5 b Hk)) as (x & Hx1 & Hx2 & Hx3).
      exists x. split; [|now split]. now apply Keep.
    + intros it Hin Hp.
      destruct (Back it Hin) as (it0 & Hin0 & E1 & E2 & _).
      rewrite <- E2. apply (sound_static m S it0 Hin0). now rewrite E1.
    + apply (sound_counter m S).
  - eapply List.Forall_impl; [|exact HG]. exact Pl.
  - eapply List.Forall_impl; [|exact HT].
    intros it [Hin Hit]. split; [|exact Hit]. now apply Keep.
Qed.

Lemma inv_update_item G T t f m :
  (forall k, grid_kind (f k) = grid_kind k) ->
  (forall k, is_table (f k) = is_table k) ->
  (forall k, is_texture (f k) = is_texture k) ->
  (forall k, is_texture k = true -> f k = k) ->
  (forall k b, f k = ImageButton b -> k = ImageButton b) ->
  inv n0 G T m -> inv n0 G T (exec (update_item t f) m).
Proof.
  pose proof (fun Hg W => keeps_wf_update_item t f Hg m W) as KW.
  destruct (exec_update_item t f m) as [[_ E]|[_ E]]; rewrite E in *; [auto|].
  now apply inv_update_done.
Qed.

Lemma inv_bind_item_handler_registry G T a b m :
  In a G -> In b G ->
  inv n0 G T m -> inv n0 G T (exec (bind_item_handler_registry a b) m).
Proof.
  intros Ha Hb Hm.
  destruct (exec_bind_item_handler_registry a b m) as [[_ ->]|[_ ->]];
    [exact Hm|].
  destruct Hm as (S & HG & HT).
  split; [|split; [exact HG|exact HT]].
  destruct S as [W ND R1 R2 R3 C1 C2 P1 P2 Tb Bt St Cn].
  constructor; auto.
  destruct W as [W1 W2]. split; [exact W1|]. simpl.
  rewrite W2, andb_true_r. unfold binding_below. simpl.
  rewrite List.Forall_forall in HG.
  now rewrite (plain_below m a (HG a Ha)), (plain_below m b (HG b Hb)).
Qed.

(** Assignments to the keys of [state] that the invariant does not read. *)
Lemma inv_modify_state G T f m :
  (forall s, texreg (f s) = texreg s /\ thumb_tex (f s) = thumb_tex s /\
             thumb_items (f s) = thumb_items s /\
             grid_table (f s) = grid_table s) ->
  inv n0 G T m -> inv n0 G T (exec (modify_state f) m).
Proof.
  intros Hf (S & HG & HT). destruct (Hf (state m)) as (E1 & E2 & E3 & E4).
  split; [|split; [exact HG|exact HT]].
  destruct S as [W ND R1 R2 R3 C1 C2 P1 P2 Tb Bt St Cn].
  constructor; simpl; rewrite ?E1, ?E2, ?E3, ?E4; auto.
Qed.

Lemma inv_append_thumb_item G T x m :
  In x G -> inv n0 G T m -> inv n0 G T (exec (append_thumb_item x) m).
Proof.
  intros Hx (S & HG & HT).
  split; [|split; [exact HG|exact HT]].
  pose proof HG as HG'. rewrite List.Forall_forall in HG'.
  destruct S as [W ND R1 R2 R3 C1 C2 P1 P2 Tb Bt St Cn].
  constructor; simpl; auto.
  apply Forall_app. split; [exact P1|]. constructor; [|constructor].
  now apply HG'.
Qed.

Lemma inv_log G T c m :
  inv n0 G T m -> inv n0 G T (mkMachine (state m) (dpg m) (trace m ++ [c])).
Proof.
  intros (S & HG & HT). split; [|split; [exact HG|exact HT]].
  destruct S. constructor; auto.
Qed.

(** *** [thumb_for] *)

Lemma cached_below m p t :
  sound n0 m -> thumb_tex (state m) !! p = Some t -> truthy_tag t = true ->
  t <> IntTag (Z.pos (next_id (dpg m))).
Proof.
  intros S Hl Ht. destruct (sound_cache m S p t Hl Ht) as (it & Hin & <- & _).
  apply (tag_below_ne (next_id (dpg m))).
  - apply wf_tag_below; [apply (sound_wf m S)|exact Hin].
  - apply tag_below_fresh. lia.
Qed.

Lemma inv_thumb_for_miss_ok G T p im m :
  inv n0 G T m ->
  inv n0 G T
   (mkMachine
     (set_thumb_tex (<[p := IntTag (Z.pos (next_id (dpg m)))]> (thumb_tex (state m))) (state m))
     (mkDpg (next_id (dpg m) + 1)
            (items (dpg m) ++
               [mkItem (IntTag (Z.pos (next_id (dpg m)))) (Some (texreg (state m)))
                       (StaticTexture (img_width im) (img_height im) (img_data im))])
            (bound (dpg m)))
     (trace m ++ [ImageOpen p])).
Proof.
  intros (S & HG & HT).
  pose proof (sound_wf m S) as W.
  set (k := StaticTexture (img_width im) (img_height im) (img_data im)).
  split; [|split].
  - apply (sound_add m (Some (texreg (state m))) k); auto.
    + intros _. now rewrite (sound_texreg m S).
    + simpl. intros q t Hl Ht.
      destruct (decide (p = q)) as [->|Hne].
      * rewrite lookup_insert_eq in Hl. right. split; [congruence|reflexivity].
      * rewrite lookup_insert_ne in Hl by exact Hne. now left.
    + simpl. intros q1 q2 t H1 H2 Ht.
      destruct (decide (p = q1)) as [<-|N1]; destruct (decide (p = q2)) as [<-|N2];
        try reflexivity.
      * rewrite lookup_insert_eq in H1. rewrite lookup_insert_ne in H2 by exact N2.
        exfalso. apply (cached_below m q2 t S H2 Ht). congruence.
      * rewrite lookup_insert_eq in H2. rewrite lookup_insert_ne in H1 by exact N1.
        exfalso. apply (cached_below m q1 t S H1 Ht). congruence.
      * rewrite lookup_insert_ne in H1 by exact N1.
        rewrite lookup_insert_ne in H2 by exact N2.
        apply (sound_cache_inj m S q1 q2 t H1 H2 Ht).
    + simpl. apply (sound_tables m S).
    + discriminate.
    + discriminate.
  - eapply List.Forall_impl; [|exact HG].
    intros t. now apply (plain_add_item m (Some (texreg (state m))) k).
  - eapply List.Forall_impl; [|exact HT]. simpl.
    intros it [Hin Hit]. split; [|exact Hit]. apply in_app_iff. now left.
Qed.

Lemma triple_thumb_for G T cfg env p :
  triple (inv n0 G T) (thumb_for cfg env p) (fun _ => inv n0 G T) (inv n0 [] T).
Proof.
  intros m Hm.
  destruct (thumb_for_cases cfg env p m)
    as [[_ ->]|[(t & _ & _ & ->)|[[_ ->]|[_ [im ->]]]]]; auto.
  - now apply inv_log.
  - now apply inv_thumb_for_miss_ok.
Qed.

(** What [thumb_for] returns is one of the registered textures [X]. *)
Lemma triple_thumb_for_tex G T cfg env p :
  triple (inv n0 G T) (thumb_for cfg env p)
         (fun tex m =>
            exists X, inv n0 G (X ++ T) m /\
                      forall t, tex = Some t -> truthy_tag t = true ->
                                exists x, In x X /\ item_tag x = t)
         (inv n0 [] T).
Proof.
  intros m Hm.
  destruct (thumb_for_cases cfg env p m)
    as [[_ ->]|[(t & Hl & Ht & ->)|[[_ ->]|[_ [im ->]]]]].
  - exists []. split; [exact Hm|]. intros t E. discriminate E.
  - destruct Hm as (S & HG & HT).
    destruct (sound_cache m S p t Hl Ht) as (x & Hin & E & Hx).
    exists [x]. split.
    + split; [exact S|split; [exact HG|]]. simpl. constructor; auto.
    + intros t' E' _. injection E' as <-. exists x. split; [now left|exact E].
  - exists []. split; [now apply inv_log|]. intros t E. discriminate E.
  - eexists [_]. split.
    + pose proof (inv_thumb_for_miss_ok G T p im m Hm) as (S' & HG' & HT').
      split; [exact S'|split; [exact HG'|]]. simpl. constructor; [|exact HT'].
      split; [simpl; apply in_app_iff; right; left; reflexivity|reflexivity].
    + intros t' E' _. injection E' as <-. eexists. split; [now left|reflexivity].
Qed.

(** *** [clear_grid_items] *)

Lemma item_exists_false d t it :
  item_exists d t = false -> In it (items d) -> item_tag it <> t.
Proof.
  unfold item_exists. intros H Hin E.
  assert (existsb (has_tag t) (items d) = true); [|congruence].
  apply existsb_exists. exists it. split; [exact Hin|].
  unfold has_tag. now apply bool_decide_eq_true.
Qed.

Lemma item_exists_true d t :
  item_exists d t = true -> exists it, In it (items d) /\ item_tag it = t.
Proof.
  unfold item_exists. intros H. apply existsb_exists in H as (it & Hin & H).
  exists it. split; [exact Hin|]. unfold has_tag in H.
  now apply bool_decide_eq_true in H.
Qed.

(** The first loop of [clear_grid_items]. *)
Lemma delete_existing_spec (l : list tag) m :
  exists m',
    for_each l (fun it =>
      let* ex := does_item_exist it in
      if ex then delete_item it else ret tt) m = (Ok tt, m') /\
    state m' = state m /\
    next_id (dpg m') = next_id (dpg m) /\
    bound (dpg m') = bound (dpg m) /\
    trace m' = trace m /\
    (forall it, In it (items (dpg m')) ->
                In it (items (dpg m)) /\ ~ In (item_tag it) l) /\
    (forall G T, inv n0 G T m -> Forall (deletable n0 m) l -> inv n0 G T m').
Proof.
  revert m. induction l as [|t l IH]; intros m.
  - exists m. conjs; try reflexivity; auto.
  - simpl for_each.
    destruct (item_exists (dpg m) t) eqn:Ex.
    + destruct (IH (exec (delete_item t) m)) as (m' & E & Hs & Hn & Hb & Htr & Hsub & Hinv).
      exists m'. conjs.
      * unfold bind at 1. unfold bind at 1. unfold does_item_exist.
        rewrite Ex, (delete_item_run t m Ex). exact E.
      * rewrite Hs. apply state_delete_item.
      * rewrite Hn. apply next_id_delete_item.
      * rewrite Hb. apply bound_delete_item.
      * rewrite Htr. apply trace_delete_item.
      * intros it Hin. destruct (Hsub it Hin) as [H1 H2]. split.
        -- eapply delete_item_In, H1.
        -- intros [H|H]; [|now apply H2].
           now apply (delete_item_gone m t it).
      * intros G T Hm Hd. inversion Hd as [|? ? Hd1 Hd2]; subst.
        apply Hinv; [now apply inv_delete_item|].
        eapply List.Forall_impl; [|exact Hd2].
        intros t'. apply deletable_delete_item.
    + destruct (IH m) as (m' & E & Hs & Hn & Hb & Htr & Hsub & Hinv).
      exists m'. conjs; auto.
      * unfold bind at 1. unfold bind at 1. unfold does_item_exist.
        rewrite Ex. exact E.
      * intros it Hin. destruct (Hsub it Hin) as [H1 H2]. split; [exact H1|].
        intros [H|H]; [|now apply H2].
        now apply (item_exists_false (dpg m) t it).
      * intros G T Hm Hd. inversion Hd; subst. now apply Hinv.
Qed.

Lemma plain_truthy m t : plain n0 m t -> truthy_tag t = true.
Proof. intros [(k & -> & _) _]. reflexivity. Qed.

Lemma inv_set_thumb_items_nil G T m :
  inv n0 G T m ->
  inv n0 G T (mkMachine (set_thumb_items [] (state m)) (dpg m) (trace m)).
Proof.
  intros (S & HG & HT). split; [|split; [exact HG|exact HT]].
  destruct S as [W ND R1 R2 R3 C1 C2 P1 P2 Tb Bt St Cn].
  constructor; simpl; auto.
Qed.

(** What [clear_grid_items] leaves: nothing of what [state] had recorded,
    the rest of the registry as it was. *)
Lemma clear_grid_items_spec m :
  exists m',
    clear_grid_items m = (Ok tt, m') /\
    thumb_items (state m') = [] /\
    root_dir (state m') = root_dir (state m) /\
    current_dir (state m') = current_dir (state m) /\
    images_in_dir (state m') = images_in_dir (state m) /\
    thumb_tex (state m') = thumb_tex (state m) /\
    grid_child (state m') = grid_child (state m) /\
    texreg (state m') = texreg (state m) /\
    frames (state m') = frames (state m) /\
    next_id (dpg m') = next_id (dpg m) /\
    bound (dpg m') = bound (dpg m) /\
    trace m' = trace m /\
    (forall it, In it (items (dpg m')) ->
                In it (items (dpg m)) /\ ~ In (item_tag it) (thumb_items (state m)) /\
                forall t, grid_table (state m) = Some t -> truthy_tag t = true ->
                          item_tag it <> t) /\
    (grid_table (state m') = None \/
     grid_table (state m') = grid_table (state m)) /\
    (forall T, inv n0 [] T m -> inv n0 [] T m' /\ no_tables m').
Proof.
  unfold clear_grid_items.
  destruct (delete_existing_spec (thumb_items (state m)) m)
    as (m1 & E1 & Hs1 & Hn1 & Hb1 & Htr1 & Hsub1 & Hinv1).
  unfold bind at 1. unfold get_state at 1.
  unfold bind at 1. rewrite E1.
  unfold bind at 1. unfold modify_state at 1.
  set (m2 := mkMachine (set_thumb_items [] (state m1)) (dpg m1) (trace m1)).
  assert (I2 : forall T, inv n0 [] T m -> inv n0 [] T m2).
  { intros T Hm. apply inv_set_thumb_items_nil, Hinv1; [exact Hm|].
    destruct Hm as (S & _).
    eapply List.Forall_impl; [|apply (sound_thumb_items m S)].
    intros t. apply plain_deletable. }
  assert (G2 : grid_table (state m2) = grid_table (state m))
    by (simpl; now rewrite Hs1).
  assert (NT : forall T t, inv n0 [] T m2 -> grid_table (state m) = Some t ->
                           (forall it, In it (items (dpg m2)) -> item_tag it <> t) ->
                           no_tables m2).
  { intros T t (S2 & _) Egt Hgone it Hin.
    destruct (is_table (item_kind it)) eqn:Ek; [|reflexivity].
    exfalso. apply (Hgone it Hin).
    pose proof (sound_tables m2 S2 it Hin Ek) as H. congruence. }
  destruct (grid_table (state m)) as [t|] eqn:Egt; [destruct (truthy_tag t) eqn:Et|].
  - unfold bind at 1, does_item_exist.
    destruct (item_exists (dpg m2) t) eqn:Ex.
    + assert (Ed : exec (delete_item t) m2 = delete_done t m2)
        by (unfold exec; now rewrite (delete_item_ok t m2 Ex)).
      exists (mkMachine (set_grid_table None (state m2))
                        (dpg (delete_done t m2)) (trace m2)).
      split; [unfold bind; rewrite (delete_item_ok t m2 Ex); reflexivity|].
      conjs; try (simpl; rewrite ?Hs1, ?Hn1, ?Hb1, ?Htr1; reflexivity).
      * intros it Hin.
        assert (Hin1 : In it (items (dpg m1))) by (eapply delete_from_In, Hin).
        destruct (Hsub1 it Hin1) as [H1 H2]. conjs; auto.
        intros t' E _. inversion E; subst t'.
        apply (delete_item_gone m2 t it). rewrite Ed. exact Hin.
      * now left.
      * intros T Hm. specialize (I2 T Hm).
        assert (I3 : inv n0 [] T (delete_done t m2)).
        { rewrite <- Ed. apply inv_delete_item; [exact I2|].
          apply plain_deletable. destruct I2 as (S2 & _).
          apply (sound_grid_table m2 S2). now rewrite G2. }
        assert (NT3 : forall it, In it (delete_from [t] (items (dpg m1))) ->
                                 is_table (item_kind it) = false).
        { intros it Hin. destruct (is_table (item_kind it)) eqn:Ek; [|reflexivity].
          exfalso. destruct I3 as (S3 & _).
          pose proof (sound_tables _ S3 it Hin Ek) as H.
          simpl in H. rewrite Hs1, Egt in H. inversion H as [H'].
          apply (delete_item_gone m2 t it); [|now symmetry]. rewrite Ed. exact Hin. }
        split; [|exact NT3].
        destruct I3 as (S3 & HG3 & HT3). split; [|split; [constructor|exact HT3]].
        destruct S3 as [W ND R1 R2 R3 C1 C2 P1 P2 Tb Bt St Cn].
        constructor;
          [exact W|exact ND|exact R1|exact R2|exact R3|exact C1|exact C2
          |exact P1| | |exact Bt|exact St|exact Cn].
        -- simpl. intros t' Ht'. discriminate.
        -- simpl. intros it Hin Hk. rewrite (NT3 it Hin) in Hk. discriminate.
    + exists m2. split; [reflexivity|].
      conjs; try (simpl; rewrite ?Hs1, ?Hn1, ?Hb1, ?Htr1; reflexivity).
      * intros it Hin. destruct (Hsub1 it Hin) as [H1 H2]. conjs; auto.
        intros t' E _. inversion E; subst t'.
        now apply (item_exists_false (dpg m2) t it).
      * right. simpl. now rewrite Hs1.
      * intros T Hm. split; [now apply I2|].
        apply (NT T t); auto.
        intros it. now apply item_exists_false.
  - exists m2. split; [reflexivity|].
    conjs; try (simpl; rewrite ?Hs1, ?Hn1, ?Hb1, ?Htr1; reflexivity).
    + intros it Hin. destruct (Hsub1 it Hin) as [H1 H2]. conjs; auto.
      intros t' E Ht'. congruence.
    + right. simpl. now rewrite Hs1.
    + intros T Hm. exfalso. destruct Hm as (S & _).
      pose proof (plain_truthy m t (sound_grid_table m S t Egt)). congruence.
  - exists m2. split; [reflexivity|].
    conjs; try (simpl; rewrite ?Hs1, ?Hn1, ?Hb1, ?Htr1; reflexivity).
    + intros it Hin. destruct (Hsub1 it Hin) as [H1 H2]. conjs; auto.
      all: intros t' E; discriminate.
    + right. simpl. now rewrite Hs1.
    + intros T Hm. split; [now apply I2|].
      intros it Hin. destruct (is_table (item_kind it)) eqn:Ek; [|reflexivity].
      exfalso. destruct (I2 T Hm) as (S2 & _).
      pose proof (sound_tables m2 S2 it Hin Ek) as H. congruence.
Qed.

(** *** The calls as specifications *)

Lemma triple_bind_item_handler_registry G T a b :
  In a G -> In b G ->
  triple (inv n0 G T) (bind_item_handler_registry a b) (fun _ => inv n0 G T) (inv n0 [] T).
Proof.
  intros Ha Hb. apply triple_of_exec.
  - intros m Hm. now apply inv_bind_item_handler_registry.
  - intros m. apply inv_nil.
Qed.

Lemma triple_append_thumb_item G T x :
  In x G ->
  triple (inv n0 G T) (append_thumb_item x) (fun _ => inv n0 G T) (inv n0 [] T).
Proof. intros Hx m Hm. now apply inv_append_thumb_item. Qed.

Lemma triple_update_item G T t f :
  (forall k, grid_kind (f k) = grid_kind k) ->
  (forall k, is_table (f k) = is_table k) ->
  (forall k, is_texture (f k) = is_texture k) ->
  (forall k, is_texture k = true -> f k = k) ->
  (forall k b, f k = ImageButton b -> k = ImageButton b) ->
  triple (inv n0 G T) (update_item t f) (fun _ => inv n0 G T) (inv n0 [] T).
Proof.
  intros H1 H2 H3 H4 H5. apply triple_of_exec.
  - intros m Hm. now apply inv_update_item.
  - intros m. apply inv_nil.
Qed.

Lemma triple_modify_state G T f :
  (forall s, texreg (f s) = texreg s /\ thumb_tex (f s) = thumb_tex s /\
             thumb_items (f s) = thumb_items s /\
             grid_table (f s) = grid_table s) ->
  triple (inv n0 G T) (modify_state f) (fun _ => inv n0 G T) (inv n0 [] T).
Proof. intros Hf m Hm. now apply inv_modify_state. Qed.

Ltac in_list := simpl; tauto.

(** *** The grid *)

Lemma triple_clear_grid_items T :
  triple (inv n0 [] T) clear_grid_items
         (fun _ m => inv n0 [] T m /\ no_tables m) (inv n0 [] T).
Proof.
  intros m Hm.
  destruct (clear_grid_items_spec m) as (m' & -> & H).
  repeat match type of H with _ /\ _ => destruct H as [_ H] end.
  now apply H.
Qed.

Lemma triple_available_grid_width env (P : Machine -> Prop) :
  triple P (available_grid_width env) (fun _ => P) P.
Proof.
  intros m Hm. unfold available_grid_width, bind, get_state.
  destruct (grid_child (state m)) as [gc|]; [|exact Hm].
  destruct (truthy_tag gc); [|exact Hm].
  unfold get_item_rect_width. destruct (item_exists (dpg m) gc); exact Hm.
Qed.

(** A new table, once [state] knows it. *)
Lemma inv_new_table T parent m :
  inv n0 [] T m -> no_tables m ->
  inv n0 [IntTag (Z.pos (next_id (dpg m)))] T
      (mkMachine (set_grid_table (Some (IntTag (Z.pos (next_id (dpg m))))) (state m))
                 (added parent Table (dpg m)) (trace m)).
Proof.
  intros (S & _ & HT) NT.
  pose proof (sound_wf m S) as W.
  assert (S' : sound n0 (mkMachine
                        (set_grid_table (Some (IntTag (Z.pos (next_id (dpg m))))) (state m))
                        (added parent Table (dpg m)) (trace m))).
  { apply (sound_add m parent Table); auto.
    - destruct parent; [reflexivity|exact I].
    - discriminate.
    - apply (sound_cache_inj m S).
    - simpl. intros t E. right. split; [congruence|reflexivity].
    - intros it Hin Hk. rewrite (NT it Hin) in Hk. discriminate.
    - discriminate. }
  split; [exact S'|split].
  - constructor; [|constructor]. now apply (sound_grid_table _ S').
  - eapply List.Forall_impl; [|exact HT]. simpl.
    intros it [Hin Hit]. split; [|exact Hit]. apply in_app_iff. now left.
Qed.

(** *** The callbacks *)

Ltac update_ok :=
  apply triple_update_item;
  [intros []; reflexivity|intros []; reflexivity|intros []; reflexivity
  |intros [] H; first [discriminate H|reflexivity]
  |intros [] b H; first [discriminate H|exact H]].

Lemma triple_load_directory_images T env p :
  triple (inv n0 [] T) (load_directory_images env p) (fun _ => inv n0 [] T) (inv n0 [] T).
Proof.
  unfold load_directory_images.
  eapply triple_bind; [apply triple_modify_state; intros s; auto|intros []].
  eapply triple_bind; [apply triple_lift|intros imgs].
  eapply triple_bind; [apply triple_modify_state; intros s; auto|intros []].
  update_ok.
Qed.

Lemma NoDup_map_eq {A B} (f : A -> B) (l : list A) x y :
  List.NoDup (map f l) -> In x l -> In y l -> f x = f y -> x = y.
Proof.
  induction l as [|a l IH]; intros ND Hx Hy E; [destruct Hx|].
  simpl in ND. inversion ND as [|? ? Ha ND']; subst.
  destruct Hx as [->|Hx]; destruct Hy as [->|Hy]; auto.
  - exfalso. apply Ha. rewrite E. now apply in_map.
  - exfalso. apply Ha. rewrite <- E. now apply in_map.
Qed.

(** The children of the sidebar are no textures. *)
Lemma sidebar_children_deletable m it :
  sound n0 m -> In it (children (dpg m) (StrTag "sidebar_tree")) ->
  deletable n0 m (item_tag it).
Proof.
  intros S Hin. unfold children in Hin. apply filter_In in Hin as [Hin Hp].
  unfold has_parent in Hp. apply bool_decide_eq_true in Hp.
  split.
  - intros Hpr.
    destruct (sound_static m S it Hin Hpr) as [Hn|(q & Hq & _ & Hne)]; congruence.
  - intros it' Hin' Hx E.
    assert (it' = it); [|subst it'].
    { apply (NoDup_map_eq item_tag (items (dpg m))); auto.
      apply (sound_tags m S). }
    pose proof (sound_textures m S it Hin Hx). congruence.
Qed.

(** ** An invariant of the whole program

    Beside soundness, the program keeps every property [X] that its
    elementary steps keep. *)

Lemma inv_count_frame T m : inv n0 [] T m -> inv n0 [] T (count_frame m).
Proof.
  intros Hm. unfold count_frame.
  apply inv_update_item;
    [intros []; reflexivity|intros []; reflexivity|intros []; reflexivity
    |intros [] H; first [discriminate H|reflexivity]
    |intros [] b H; first [discriminate H|exact H]|].
  apply (inv_modify_state [] T
           (fun s => set_frames (frames (state m) + 1) s) m); auto.
Qed.

Lemma item_exists_update_item t f m t' :
  item_exists (dpg (exec (update_item t f) m)) t' = item_exists (dpg m) t'.
Proof.
  destruct (exec_update_item t f m) as [[_ ->]|[_ ->]]; [reflexivity|].
  unfold item_exists. simpl. induction (items (dpg m)) as [|it l IH];
    [reflexivity|].
  simpl. rewrite IH. f_equal. unfold has_tag.
  now destruct (bool_decide (item_tag it = t)).
Qed.

Lemma item_exists_count_frame m t :
  item_exists (dpg (count_frame m)) t = item_exists (dpg m) t.
Proof. unfold count_frame. now rewrite item_exists_update_item. Qed.

(** The body of the render loop, case by case: it raises when the frame
    label or the child window of the grid is not there. *)
Lemma render_frame_cases cfg env l m :
  let f := frames (state m) + 1 in
  let l1 := if (f - last_title l >=? 10)%Z
            then mkLoop (last_w l) f (frames_title f) else l in
  render_frame cfg env l m =
  if item_exists (dpg m) (StrTag "frame_label")
  then
    match grid_child (state m) with
    | Some gc =>
        if truthy_tag gc
        then
          if item_exists (dpg m) gc
          then
            if truthy_int (rect_width env gc)
               && negb (rect_width env gc =? last_w l)%Z
            then (let* _ := build_thumbnail_grid cfg env in
                  ret (mkLoop (rect_width env gc) (last_title l1)
                              (viewport_title l1)))
                   (count_frame m)
            else (Ok l1, count_frame m)
          else (Raise DpgError, count_frame m)
        else (Ok l1, count_frame m)
    | None => (Ok l1, count_frame m)
    end
  else (Raise DpgError, count_frame m).
Proof.
  intros f l1. unfold render_frame.
  unfold bind at 1. unfold modify_state at 1.
  unfold bind at 1. unfold get_state at 1.
  cbv beta iota. cbn [state frames grid_child set_frames].
  fold f.
  set (m0 := mkMachine (set_frames f (state m)) (dpg m) (trace m)).
  assert (Hw : last_w l1 = last_w l) by (subst l1; now destruct (_ >=? _)%Z).
  pose proof (item_exists_count_frame m) as Hx.
  unfold count_frame in *. fold f in Hx |- *. fold m0 in Hx |- *.
  unfold bind at 1.
  destruct (item_exists (dpg m) (StrTag "frame_label")) eqn:Ef.
  - unfold exec in *.
    rewrite (update_item_ok (StrTag "frame_label") _ m0 Ef) in *.
    cbv beta iota. cbn [snd] in *. fold l1. rewrite Hw.
    destruct (grid_child (state m)) as [gc|]; [|reflexivity].
    destruct (truthy_tag gc); [|reflexivity].
    unfold bind at 1. unfold get_item_rect_width. rewrite (Hx gc).
    destruct (item_exists (dpg m) gc); [|reflexivity].
    cbv beta iota.
    destruct (truthy_int (rect_width env gc) && _); reflexivity.
  - unfold exec.
    rewrite (update_item_fail (StrTag "frame_label") _ m0 Ef). reflexivity.
Qed.

Lemma render_frame_without_label cfg env l m :
  item_exists (dpg m) (StrTag "frame_label") = false ->
  eval (render_frame cfg env l) m = Raise DpgError.
Proof.
  intros H. unfold eval. rewrite render_frame_cases. cbv zeta.
  now rewrite H.
Qed.

Lemma render_frame_effect cfg env l m :
  item_exists (dpg m) (StrTag "frame_label") = true ->
  (forall gc, grid_child (state m) = Some gc -> truthy_tag gc = true ->
              item_exists (dpg m) gc = true) ->
  let f := frames (state m) + 1 in
  let l1 := if (f - last_title l >=? 10)%Z
            then mkLoop (last_w l) f (frames_title f) else l in
  render_frame cfg env l m =
  match grid_child (state m) with
  | Some gc =>
      if truthy_tag gc && truthy_int (rect_width env gc)
         && negb (rect_width env gc =? last_w l)%Z
      then (let* _ := build_thumbnail_grid cfg env in
            ret (mkLoop (rect_width env gc) (last_title l1) (viewport_title l1)))
             (count_frame m)
      else (Ok l1, count_frame m)
  | None => (Ok l1, count_frame m)
  end.
Proof.
  intros Hf Hg f l1. rewrite render_frame_cases. cbv zeta. rewrite Hf.
  destruct (grid_child (state m)) as [gc|]; [|reflexivity].
  destruct (truthy_tag gc) eqn:Et; [|reflexivity].
  rewrite (Hg gc eq_refl Et). reflexivity.
Qed.

Section Invariant.
Context (X : Machine -> Prop).
Context (X_add : forall m parent k,
            sound n0 m -> X m -> X (exec (add_item parent k) m)).
Context (X_delete : forall m t,
            sound n0 m -> deletable n0 m t -> X m -> X (exec (delete_item t) m)).
Context (X_sidebar_label : forall m v,
            X m -> X (exec (update_item (StrTag "sidebar_tree") (set_label v)) m)).
Context (X_window_size : forall m w h,
            X m -> X (exec (update_item (StrTag "main_window") (set_size w h)) m)).
Context (X_bound : forall m a b,
            X m -> X (exec (bind_item_handler_registry a b) m)).
Context (X_state : forall m s',
            current_dir s' = current_dir (state m) ->
            frames s' = frames (state m) ->
            grid_child s' = grid_child (state m) ->
            X m -> X (mkMachine s' (dpg m) (trace m))).
Context (X_log : forall m c,
            X m -> X (mkMachine (state m) (dpg m) (trace m ++ [c]))).
Context (X_load : forall m env p,
            sound n0 m -> X m -> X (exec (load_directory_images env p) m)).
Context (X_count : forall m, sound n0 m -> X m -> X (count_frame m)).


Lemma triple_with {A} (P : Machine -> Prop) (c : M A)
      (Q : A -> Machine -> Prop) (E : Machine -> Prop) :
  triple P c Q E ->
  (forall m, P m -> X m -> X (exec c m)) ->
  triple (fun m => P m /\ X m) c (fun a m => Q a m /\ X m) (fun m => E m /\ X m).
Proof.
  intros H HX m [Hm Hx]. specialize (H m Hm). specialize (HX m Hm Hx).
  unfold exec in HX. destruct (c m) as [[a|e] m']; split; assumption.
Qed.

Lemma X_add_done m parent k :
  sound n0 m -> X m -> accepts (dpg m) parent k = true ->
  X (add_done parent k m).
Proof.
  intros S Hx Ha. pose proof (X_add m parent k S Hx) as H.
  unfold exec in H. now rewrite (add_item_ok parent k m Ha) in H.
Qed.

Lemma invX_nil G T m : inv_and n0 X G T m -> inv_and n0 X [] T m.
Proof. intros [Hm Hx]. split; [eapply inv_nil, Hm|exact Hx]. Qed.

Lemma invX_weaken G G' T m :
  (forall t, In t G' -> In t G) -> inv_and n0 X G T m -> inv_and n0 X G' T m.
Proof. intros H [Hm Hx]. split; [eapply inv_weaken; eauto|exact Hx]. Qed.

Lemma invX_drop_textures G Y T m : inv_and n0 X G (Y ++ T) m -> inv_and n0 X G T m.
Proof. intros [Hm Hx]. split; [eapply inv_drop_textures, Hm|exact Hx]. Qed.

Lemma tripleX_add_item G T parent k :
  is_texture k = false -> is_table k = false ->
  (grid_kind k = true -> match parent with Some q => In q G | None => True end) ->
  (forall t, k = ImageButton t -> exists x, In x T /\ item_tag x = t) ->
  triple (inv_and n0 X G T) (add_item parent k) (fun t => inv_and n0 X (t :: G) T) (inv_and n0 X [] T).
Proof.
  intros Hx Htb Hp Hbt.
  apply (triple_with (inv n0 G T) _ (fun t => inv n0 (t :: G) T) (inv n0 [] T)).
  - now apply triple_add_item.
  - intros m Hm HX. apply X_add; [apply Hm|exact HX].
Qed.

Ltac addX_ok :=
  apply tripleX_add_item;
  [reflexivity|reflexivity
  |first [discriminate|intros _; simpl; tauto]
  |let E := fresh in intros ? E; discriminate E].

Lemma X_thumb_for cfg env p m :
  sound n0 m -> X m -> X (exec (thumb_for cfg env p) m).
Proof.
  intros S Hx. unfold exec.
  destruct (thumb_for_cases cfg env p m)
    as [[_ ->]|[(t & _ & _ & ->)|[[_ ->]|[Hmiss [im E]]]]]; simpl; auto.
  pose proof (thumb_for_some_registry _ _ _ _ _ _ Hmiss E) as Hreg.
  rewrite E. simpl.
  set (k := StaticTexture (img_width im) (img_height im) (img_data im)).
  assert (Ha : X (add_done (Some (texreg (state m))) k m)).
  { replace (add_done (Some (texreg (state m))) k m)
      with (exec (add_item (Some (texreg (state m))) k) m).
    - apply X_add; assumption.
    - unfold exec. rewrite add_item_ok; [reflexivity|].
      unfold accepts. simpl. now rewrite Hreg. }
  set (ma := add_done (Some (texreg (state m))) k m) in *.
  apply (X_log (mkMachine _ (dpg ma) (trace ma))).
  now apply (X_state ma).
Qed.

Lemma tripleX_thumb_for_tex G T cfg env p :
  triple (inv_and n0 X G T) (thumb_for cfg env p)
         (fun tex m =>
            exists Y, inv_and n0 X G (Y ++ T) m /\
                      forall t, tex = Some t -> truthy_tag t = true ->
                                exists x, In x Y /\ item_tag x = t)
         (inv_and n0 X [] T).
Proof.
  eapply triple_conseq.
  - apply (triple_with (inv n0 G T) _ _ _ (triple_thumb_for_tex G T cfg env p)).
    intros m Hm Hx. apply X_thumb_for; [apply Hm|exact Hx].
  - auto.
  - intros tex m [(Y & HY & Htex) Hx]. exists Y. split; [split|]; assumption.
  - auto.
Qed.

Lemma tripleX_thumb_for G T cfg env p :
  triple (inv_and n0 X G T) (thumb_for cfg env p) (fun _ => inv_and n0 X G T) (inv_and n0 X [] T).
Proof.
  apply (triple_with (inv n0 G T) _ (fun _ => inv n0 G T) (inv n0 [] T)).
  - apply triple_thumb_for.
  - intros m Hm Hx. apply X_thumb_for; [apply Hm|exact Hx].
Qed.

Lemma tripleX_bind_item_handler_registry G T a b :
  In a G -> In b G ->
  triple (inv_and n0 X G T) (bind_item_handler_registry a b)
         (fun _ => inv_and n0 X G T) (inv_and n0 X [] T).
Proof.
  intros Ha Hb.
  apply (triple_with (inv n0 G T) _ (fun _ => inv n0 G T) (inv n0 [] T)).
  - now apply triple_bind_item_handler_registry.
  - intros m _ Hx. now apply X_bound.
Qed.

Lemma tripleX_append_thumb_item G T x :
  In x G ->
  triple (inv_and n0 X G T) (append_thumb_item x) (fun _ => inv_and n0 X G T) (inv_and n0 X [] T).
Proof.
  intros Hin.
  apply (triple_with (inv n0 G T) _ (fun _ => inv n0 G T) (inv n0 [] T)).
  - now apply triple_append_thumb_item.
  - intros m _ Hx. now apply (X_state m).
Qed.

Lemma tripleX_modify_state G T f :
  (forall s, texreg (f s) = texreg s /\ thumb_tex (f s) = thumb_tex s /\
             thumb_items (f s) = thumb_items s /\
             grid_table (f s) = grid_table s) ->
  (forall s, current_dir (f s) = current_dir s /\ frames (f s) = frames s /\
             grid_child (f s) = grid_child s) ->
  triple (inv_and n0 X G T) (modify_state f) (fun _ => inv_and n0 X G T) (inv_and n0 X [] T).
Proof.
  intros Hf Hg.
  apply (triple_with (inv n0 G T) _ (fun _ => inv n0 G T) (inv n0 [] T)).
  - now apply triple_modify_state.
  - intros m _ Hx. destruct (Hg (state m)) as (? & ? & ?). now apply (X_state m).
Qed.

(** *** The grid *)

Lemma X_delete_existing (l : list tag) :
  forall m G T,
    inv n0 G T m -> Forall (deletable n0 m) l -> X m ->
    X (exec (for_each l (fun it =>
               let* ex := does_item_exist it in
               if ex then delete_item it else ret tt)) m).
Proof.
  induction l as [|t l IH]; intros m G T Hm Hd Hx; [exact Hx|].
  inversion Hd as [|? ? Hd1 Hd2]; subst.
  destruct (item_exists (dpg m) t) eqn:Ex.
  - assert (E : exec (for_each (t :: l) (fun it =>
                        let* ex := does_item_exist it in
                        if ex then delete_item it else ret tt)) m
                = exec (for_each l (fun it =>
                          let* ex := does_item_exist it in
                          if ex then delete_item it else ret tt))
                       (exec (delete_item t) m)).
    { unfold exec at 1. simpl for_each. unfold bind at 1. unfold bind at 1.
      unfold does_item_exist. rewrite Ex, (delete_item_run t m Ex).
      reflexivity. }
    rewrite E. apply (IH _ G T).
    + now apply inv_delete_item.
    + eapply List.Forall_impl; [|exact Hd2].
      intros t'. apply deletable_delete_item.
    + apply X_delete; [apply Hm|exact Hd1|exact Hx].
  - assert (E : exec (for_each (t :: l) (fun it =>
                        let* ex := does_item_exist it in
                        if ex then delete_item it else ret tt)) m
                = exec (for_each l (fun it =>
                          let* ex := does_item_exist it in
                          if ex then delete_item it else ret tt)) m).
    { unfold exec. simpl for_each. unfold bind at 1. unfold bind at 1.
      unfold does_item_exist. rewrite Ex. reflexivity. }
    rewrite E. now apply (IH _ G T).
Qed.

Lemma X_clear_grid_items T m :
  inv n0 [] T m -> X m -> X (exec clear_grid_items m).
Proof.
  intros Hm Hx.
  assert (Hd : Forall (deletable n0 m) (thumb_items (state m))).
  { destruct Hm as (S & _).
    eapply List.Forall_impl; [|apply (sound_thumb_items m S)].
    intros t. apply plain_deletable. }
  pose proof (X_delete_existing (thumb_items (state m)) m [] T Hm Hd Hx) as X1.
  destruct (delete_existing_spec (thumb_items (state m)) m)
    as (m1 & E1 & Hs1 & _ & _ & _ & _ & Hinv1).
  unfold exec in X1. rewrite E1 in X1. simpl in X1.
  pose proof (Hinv1 [] T Hm Hd) as I1.
  unfold exec, clear_grid_items.
  unfold bind at 1. unfold get_state at 1.
  unfold bind at 1. rewrite E1.
  unfold bind at 1. unfold modify_state at 1.
  set (m2 := mkMachine (set_thumb_items [] (state m1)) (dpg m1) (trace m1)).
  assert (X2 : X m2) by now apply (X_state m1).
  assert (I2 : inv n0 [] T m2) by now apply inv_set_thumb_items_nil.
  destruct (grid_table (state m)) as [t|] eqn:Egt; [|exact X2].
  destruct (truthy_tag t); [|exact X2].
  unfold bind at 1, does_item_exist.
  destruct (item_exists (dpg m2) t) eqn:Ex; [|exact X2].
  assert (X3 : X (exec (delete_item t) m2)).
  { apply X_delete; [apply I2| |exact X2].
    apply plain_deletable. destruct I2 as (S2 & _).
    apply (sound_grid_table m2 S2). simpl. now rewrite Hs1. }
  unfold bind. rewrite (delete_item_run t m2 Ex). cbv beta iota.
  apply (X_state (exec (delete_item t) m2)); auto.
Qed.

Lemma tripleX_clear_grid_items T :
  triple (inv_and n0 X [] T) clear_grid_items
         (fun _ m => inv_and n0 X [] T m /\ no_tables m) (inv_and n0 X [] T).
Proof.
  eapply triple_conseq.
  - apply (triple_with (inv n0 [] T) _ _ _ (triple_clear_grid_items T)).
    intros m Hm Hx. now apply (X_clear_grid_items T).
  - auto.
  - intros _ m [[Hm NT] Hx]. split; [split|]; assumption.
  - auto.
Qed.

Lemma tripleX_grid_loop cfg env tid cols imgs :
  forall T i row G,
    In tid G ->
    match row with Some r => In r G | None => True end ->
    triple (inv_and n0 X G T) (grid_loop cfg env tid cols i row imgs)
           (fun _ => inv_and n0 X [] T) (inv_and n0 X [] T).
Proof.
  induction imgs as [|p rest IH]; intros T i row G Htid Hrow; simpl grid_loop.
  - intros m Hm. simpl. eapply invX_nil, Hm.
  - apply (triple_bind _ _
             (fun row' => inv_and n0 X (match row' with Some r => r :: G | None => G end) T)).
    { destruct (i mod cols =? 0)%Z.
      - eapply triple_bind.
        + addX_ok.
        + intros r m Hm. exact Hm.
      - destruct row as [r|]; intros m Hm; simpl; [|exact Hm].
        eapply invX_weaken; [|exact Hm]. intros t [<-|Ht]; auto. }
    intros row'.
    set (G1 := match row' with Some r => r :: G | None => G end).
    assert (Htid1 : In tid G1) by (subst G1; destruct row'; simpl; auto).
    assert (Hrow1 : match row' with Some r => In r G1 | None => True end).
    { subst G1. destruct row' as [r|]; simpl; auto. }
    clearbody G1.
    eapply triple_bind.
    { apply tripleX_add_item;
        [reflexivity|reflexivity|intros _; exact Hrow1|intros ? [=]]. }
    intros cell.
    eapply triple_bind; [apply tripleX_thumb_for_tex|intros tex].
    apply triple_exists. intros Y. apply triple_pure_pre. intros Htex.
    apply triple_conseq with (P := inv_and n0 X (cell :: G1) (Y ++ T))
                             (Q := fun _ => inv_and n0 X [] (Y ++ T))
                             (E := inv_and n0 X [] (Y ++ T));
      [|auto|intros _ m; apply invX_drop_textures
       |intros m; apply invX_drop_textures].
    eapply triple_bind.
    { addX_ok. }
    intros g.
    apply (triple_bind _ _ (fun btn => inv_and n0 X (btn :: g :: cell :: G1) (Y ++ T))).
    { destruct tex as [t|]; [destruct (truthy_tag t) eqn:Et|].
      - apply tripleX_add_item; [reflexivity|reflexivity|intros _; in_list|].
        intros t' E. injection E as <-.
        destruct (Htex t eq_refl Et) as (x & Hx & Ex).
        exists x. split; [apply in_app_iff; now left|exact Ex].
      - addX_ok.
      - addX_ok. }
    intros btn.
    eapply triple_bind.
    { addX_ok. }
    intros ihr.
    eapply triple_bind.
    { addX_ok. }
    intros h.
    eapply triple_bind.
    { apply (tripleX_bind_item_handler_registry _ _ btn ihr); in_list. }
    intros [].
    eapply triple_bind.
    { apply tripleX_append_thumb_item. in_list. }
    intros [].
    eapply triple_bind.
    { addX_ok. }
    intros txt.
    eapply triple_bind.
    { apply tripleX_append_thumb_item. in_list. }
    intros [].
    apply IH.
    + in_list.
    + destruct row'; [in_list|exact I].
Qed.

Lemma tripleX_build_thumbnail_grid T cfg env :
  triple (inv_and n0 X [] T) (build_thumbnail_grid cfg env)
         (fun _ => inv_and n0 X [] T) (inv_and n0 X [] T).
Proof.
  unfold build_thumbnail_grid.
  eapply triple_bind; [apply tripleX_clear_grid_items|intros []].
  apply (triple_bind _ _ (fun _ m => inv_and n0 X [] T m /\ no_tables m)).
  { apply triple_conseq
      with (P := fun m => inv_and n0 X [] T m /\ no_tables m)
           (Q := fun (_ : Z) m => inv_and n0 X [] T m /\ no_tables m)
           (E := fun m => inv_and n0 X [] T m /\ no_tables m);
      [apply triple_available_grid_width|auto|auto|intros m [H _]; exact H]. }
  intros w.
  eapply triple_bind; [apply triple_get_state|intros st].
  apply (triple_bind _ _
           (fun tid m => exists m0, inv_and n0 X [] T m0 /\ no_tables m0 /\
                                    accepts (dpg m0) (grid_child st) Table = true /\
                                    tid = IntTag (Z.pos (next_id (dpg m0))) /\
                                    m = add_done (grid_child st) Table m0)).
  { intros m [[Hm NT] _]. unfold add_item.
    destruct (accepts (dpg m) (grid_child st) Table) eqn:Ha; [|exact Hm].
    exists m. auto. }
  intros tid.
  apply (triple_bind _ _ (fun _ => inv_and n0 X [tid] T)).
  { intros m (m0 & [Hm0 Hx0] & NT & Ha & -> & ->). split.
    - apply (inv_new_table T (grid_child st) m0 Hm0 NT).
    - apply (X_state (add_done (grid_child st) Table m0)); auto.
      apply X_add_done; [apply Hm0|exact Hx0|exact Ha]. }
  intros [].
  apply (triple_bind _ _ (fun _ => inv_and n0 X [tid] T)).
  { apply triple_for_each. intros [] _.
    eapply triple_bind.
    - addX_ok.
    - intros c m Hm. simpl. eapply invX_weaken; [|exact Hm]. in_list. }
  intros [].
  eapply triple_bind; [apply triple_get_state|intros st'].
  destruct (images_in_dir st') as [|p imgs].
  - eapply triple_bind.
    { intros m [Hm _]. revert m Hm. addX_ok. }
    intros row.
    eapply triple_bind.
    { addX_ok. }
    intros cell.
    eapply triple_bind.
    { addX_ok. }
    intros t.
    apply triple_conseq with (P := inv_and n0 X [t; cell; row; tid] T)
                             (Q := fun _ => inv_and n0 X [t; cell; row; tid] T)
                             (E := inv_and n0 X [] T);
      [apply tripleX_append_thumb_item; in_list
      |auto|intros _ m; apply invX_nil|auto].
  - intros m [Hm _]. revert m Hm.
    apply tripleX_grid_loop; [in_list|exact I].
Qed.

(** *** The callbacks *)

Lemma tripleX_log G T c : triple (inv_and n0 X G T) (log c) (fun _ => inv_and n0 X G T) (inv_and n0 X G T).
Proof.
  intros m [Hm Hx]. split; [now apply inv_log|now apply X_log].
Qed.

Lemma tripleX_popen G T env argv :
  triple (inv_and n0 X G T) (popen env argv) (fun _ => inv_and n0 X G T) (inv_and n0 X G T).
Proof.
  unfold popen. eapply triple_bind; [apply tripleX_log|intros []].
  destruct (spawn_errno env argv); intros m Hm; exact Hm.
Qed.

Lemma tripleX_startfile G T env p :
  triple (inv_and n0 X G T) (startfile env p) (fun _ => inv_and n0 X G T) (inv_and n0 X G T).
Proof.
  unfold startfile. eapply triple_bind; [apply tripleX_log|intros []].
  destruct (startfile_errno env p); intros m Hm; exact Hm.
Qed.

Lemma tripleX_open_system_viewer G T cfg env p :
  triple (inv_and n0 X G T) (open_system_viewer cfg env p) (fun _ => inv_and n0 X G T) (inv_and n0 X G T).
Proof.
  unfold open_system_viewer.
  destruct (String.prefix _ _); [apply tripleX_startfile|].
  destruct (String.eqb _ _); apply tripleX_popen.
Qed.

Lemma tripleX_launch_viewer G T cfg env p :
  triple (inv_and n0 X G T) (launch_viewer cfg env p) (fun _ => inv_and n0 X G T) (inv_and n0 X G T).
Proof.
  unfold launch_viewer. eapply triple_try_catch; [apply tripleX_popen|].
  intros _. apply tripleX_open_system_viewer.
Qed.

Lemma tripleX_on_open_in_explorer G T cfg env :
  triple (inv_and n0 X G T) (on_open_in_explorer cfg env) (fun _ => inv_and n0 X G T) (inv_and n0 X G T).
Proof.
  unfold on_open_in_explorer.
  apply (triple_bind _ _ (fun _ => inv_and n0 X G T)); [intros m Hm; exact Hm|intros st].
  destruct (String.prefix _ _); [apply tripleX_startfile|].
  destruct (String.eqb _ _); apply tripleX_popen.
Qed.

Lemma tripleX_load_directory_images T env p :
  triple (inv_and n0 X [] T) (load_directory_images env p)
         (fun _ => inv_and n0 X [] T) (inv_and n0 X [] T).
Proof.
  apply (triple_with (inv n0 [] T) _ (fun _ => inv n0 [] T) (inv n0 [] T)).
  - apply triple_load_directory_images.
  - intros m Hm Hx. apply X_load; [apply Hm|exact Hx].
Qed.

Lemma tripleX_rebuild_sidebar_tree T env :
  triple (inv_and n0 X [] T) (rebuild_sidebar_tree env) (fun _ => inv_and n0 X [] T) (inv_and n0 X [] T).
Proof.
  unfold rebuild_sidebar_tree.
  eapply triple_bind; [apply triple_get_state|intros st].
  apply (triple_bind _ _ (fun _ => inv_and n0 X [] T)).
  { eapply triple_try_catch.
    - intros m [Hm _]. revert m Hm.
      apply (triple_with (inv n0 [] T) _ (fun _ => inv n0 [] T) (inv n0 [] T)).
      + update_ok.
      + intros m _ Hx. now apply X_sidebar_label.
    - intros _ m Hm. exact Hm. }
  intros [].
  apply (triple_bind _ _
           (fun kids m => inv_and n0 X [] T m /\ Forall (deletable n0 m) kids)).
  { intros m Hm. unfold get_item_children.
    destruct (item_exists (dpg m) (StrTag "sidebar_tree")); [|exact Hm].
    split; [exact Hm|].
    apply List.Forall_forall. intros t Ht.
    apply in_map_iff in Ht as (it & <- & Hit).
    destruct Hm as ((S & _) & _). now apply sidebar_children_deletable. }
  intros kids.
  apply (triple_bind _ _ (fun _ => inv_and n0 X [] T)).
  { eapply triple_conseq.
    - apply (triple_for_each
               (fun m => inv_and n0 X [] T m /\ Forall (deletable n0 m) kids)
               _ _ (inv_and n0 X [] T)).
      intros t Ht. apply triple_of_exec; [|intros m [Hm _]; exact Hm].
      intros m [[Hm Hx] Hd].
      assert (Hdt : deletable n0 m t).
      { rewrite List.Forall_forall in Hd. now apply Hd. }
      split; [split|].
      + now apply inv_delete_item.
      + apply X_delete; [apply Hm|exact Hdt|exact Hx].
      + eapply List.Forall_impl; [|exact Hd].
        intros t'. apply deletable_delete_item.
    - auto.
    - intros _ m [Hm _]. exact Hm.
    - auto. }
  intros [].
  eapply triple_bind; [apply triple_lift|intros subs].
  apply triple_for_each. intros sub _.
  eapply triple_bind.
  { addX_ok. }
  intros nid.
  eapply triple_bind.
  { addX_ok. }
  intros b m Hm. simpl. eapply invX_nil, Hm.
Qed.

Lemma tripleX_on_folder_click T cfg env p :
  triple (inv_and n0 X [] T) (on_folder_click cfg env p) (fun _ => inv_and n0 X [] T) (inv_and n0 X [] T).
Proof.
  unfold on_folder_click.
  eapply triple_bind; [apply tripleX_load_directory_images|intros []].
  apply tripleX_build_thumbnail_grid.
Qed.

Lemma tripleX_set_root_directory T cfg env p :
  triple (inv_and n0 X [] T) (set_root_directory cfg env p)
         (fun _ => inv_and n0 X [] T) (inv_and n0 X [] T).
Proof.
  unfold set_root_directory.
  eapply triple_bind.
  { apply tripleX_modify_state; intros s; auto. }
  intros [].
  eapply triple_bind; [apply tripleX_load_directory_images|intros []].
  eapply triple_bind; [apply tripleX_rebuild_sidebar_tree|intros []].
  apply tripleX_build_thumbnail_grid.
Qed.

Lemma tripleX_resize_callback T cfg env a :
  triple (inv_and n0 X [] T) (resize_callback cfg env a) (fun _ => inv_and n0 X [] T) (inv_and n0 X [] T).
Proof.
  unfold resize_callback.
  apply (triple_bind _ _ (fun _ => inv_and n0 X [] T)).
  { intros m Hm. destruct a as [|w [|h a']]; exact Hm. }
  intros [[w h]|]; [|intros m Hm; exact Hm].
  eapply triple_bind.
  { apply (triple_with (inv n0 [] T) _ (fun _ => inv n0 [] T) (inv n0 [] T)).
    - update_ok.
    - intros m _ Hx. now apply X_window_size. }
  intros []. apply tripleX_build_thumbnail_grid.
Qed.

Lemma tripleX_on_dir_chosen T cfg env a :
  triple (inv_and n0 X [] T) (on_dir_chosen cfg env a) (fun _ => inv_and n0 X [] T) (inv_and n0 X [] T).
Proof.
  unfold on_dir_chosen.
  destruct (a !! "file_path_name") as [sel|]; [|intros m Hm; exact Hm].
  destruct (truthy_str sel && isdir (fs env) sel);
    [apply tripleX_set_root_directory|intros m Hm; exact Hm].
Qed.

Lemma tripleX_handle T cfg env ev :
  triple (inv_and n0 X [] T) (handle cfg env ev) (fun _ => inv_and n0 X [] T) (inv_and n0 X [] T).
Proof.
  destruct ev; simpl.
  - eapply triple_bind; [apply tripleX_thumb_for|intros tex m Hm; exact Hm].
  - apply tripleX_on_folder_click.
  - apply tripleX_launch_viewer.
  - apply tripleX_set_root_directory.
  - apply tripleX_resize_callback.
  - apply tripleX_build_thumbnail_grid.
Qed.

Lemma tripleX_call T cfg env cb :
  triple (inv_and n0 X [] T) (call cfg env cb) (fun _ => inv_and n0 X [] T) (inv_and n0 X [] T).
Proof.
  destruct cb; simpl.
  - apply tripleX_handle.
  - apply tripleX_on_dir_chosen.
  - apply tripleX_on_open_in_explorer.
Qed.

Lemma invX_run T cfg evs m : inv_and n0 X [] T m -> inv_and n0 X [] T (run cfg evs m).
Proof.
  revert m. induction evs as [|[env ev] evs IH]; intros m Hm; simpl; [exact Hm|].
  apply IH. eapply triple_exec; [apply tripleX_handle|exact Hm].
Qed.

Lemma invX_run_callbacks T cfg cbs m :
  inv_and n0 X [] T m -> inv_and n0 X [] T (run_callbacks cfg cbs m).
Proof.
  revert m. induction cbs as [|[env cb] cbs IH]; intros m Hm; simpl; [exact Hm|].
  apply IH. eapply triple_exec; [apply tripleX_call|exact Hm].
Qed.

Lemma tripleX_render_frame T cfg env l :
  triple (inv_and n0 X [] T) (render_frame cfg env l) (fun _ => inv_and n0 X [] T) (inv_and n0 X [] T).
Proof.
  intros m [Hm Hx].
  assert (Hc : inv_and n0 X [] T (count_frame m)).
  { split; [now apply inv_count_frame|apply X_count; [apply Hm|exact Hx]]. }
  rewrite render_frame_cases. cbv zeta.
  destruct (item_exists (dpg m) (StrTag "frame_label")); [|exact Hc].
  destruct (grid_child (state m)) as [gc|]; [|exact Hc].
  destruct (truthy_tag gc); [|exact Hc].
  destruct (item_exists (dpg m) gc); [|exact Hc].
  destruct (_ && _); [|exact Hc].
  revert Hc. generalize (count_frame m).
  change (triple (inv_and n0 X [] T)
            (let* _ := build_thumbnail_grid cfg env in
             ret (mkLoop (rect_width env gc)
                    (last_title
                       (if (frames (state m) + 1 - last_title l >=? 10)%Z
                        then mkLoop (last_w l) (frames (state m) + 1)
                                    (frames_title (frames (state m) + 1))
                        else l))
                    (viewport_title
                       (if (frames (state m) + 1 - last_title l >=? 10)%Z
                        then mkLoop (last_w l) (frames (state m) + 1)
                                    (frames_title (frames (state m) + 1))
                        else l))))
            (fun _ => inv_and n0 X [] T) (inv_and n0 X [] T)).
  eapply triple_bind; [apply tripleX_build_thumbnail_grid|].
  intros [] m' Hm'. exact Hm'.
Qed.

Lemma invX_render_loop T cfg turns :
  forall l m, inv_and n0 X [] T m -> inv_and n0 X [] T (snd (render_loop cfg turns l m)).
Proof.
  induction turns as [|t turns IH]; intros l m Hm; simpl; [exact Hm|].
  pose proof (tripleX_render_frame T cfg (turn_env t) l m Hm) as H.
  destruct (render_frame cfg (turn_env t) l m) as [[l'|e] m']; [|exact H].
  apply IH, invX_run_callbacks, H.
Qed.

Lemma invX_browser T cfg env sw sh turns m :
  inv_and n0 X [] T m -> inv_and n0 X [] T (snd (browser cfg env sw sh turns m)).
Proof.
  intros Hm. unfold browser. simpl.
  pose proof (tripleX_resize_callback T cfg env
                [Z.max 800 (sw - 260); Z.max 600 (sh - 30)] m Hm) as H.
  destruct (resize_callback cfg env _ m) as [[[]|e] m']; [|exact H].
  now apply invX_render_loop.
Qed.

End Invariant.

(** The program keeps its machine sound. *)
Lemma inv_render_loop T cfg turns l m :
  inv n0 [] T m -> inv n0 [] T (snd (render_loop cfg turns l m)).
Proof.
  intros Hm.
  refine (proj1 (invX_render_loop (fun _ => True) _ _ _ _ _ _ _ _ _
                   T cfg turns l m (conj Hm I))); auto.
Qed.

Lemma inv_on_folder_click T cfg env p m :
  inv n0 [] T m -> inv n0 [] T (exec (on_folder_click cfg env p) m).
Proof.
  intros Hm.
  refine (proj1 (triple_exec _ (on_folder_click cfg env p)
                   (inv_and n0 (fun _ => True) [] T)
                   (tripleX_on_folder_click (fun _ => True) _ _ _ _ _ _
                      T cfg env p)
                   m (conj Hm I))); auto.
Qed.

(** *** Sound machines *)


Lemma sound_fresh_ui (l : list Item) (n : positive) :
  (n0 <= n)%positive ->
  forallb (item_below n) l = true ->
  List.NoDup (map item_tag l) ->
  (forall it, In it l -> protected n0 (item_tag it) ->
              item_parent it = None \/
              exists q, item_parent it = Some q /\ protected n0 q /\
                        q <> StrTag "sidebar_tree") ->
  (forall it, In it l -> item_tag it = StrTag "texreg" ->
              item_parent it = None /\ is_texture (item_kind it) = false) ->
  forallb (fun it => negb (is_texture (item_kind it))
                     && negb (is_table (item_kind it))
                     && negb (is_button (item_kind it))) l
  = true ->
  sound n0 (mkMachine start_state (mkDpg n l []) []).
Proof.
  intros Hn Hb ND Hst Hreg Hk. rewrite forallb_forall in Hk.
  constructor; simpl; auto.
  - split; [exact Hb|reflexivity].
  - intros it Hin Hx. specialize (Hk it Hin). rewrite Hx in Hk. discriminate.
  - intros p t H. rewrite lookup_empty in H. discriminate.
  - intros p q t H. rewrite lookup_empty in H. discriminate.
  - intros t H. discriminate.
  - intros it Hin Hx. specialize (Hk it Hin). rewrite Hx in Hk.
    rewrite andb_false_r in Hk. discriminate.
  - intros it t Hin Hx. specialize (Hk it Hin). rewrite Hx in Hk.
    rewrite andb_false_r in Hk. discriminate.
Qed.

Lemma sound_inv m : sound n0 m -> inv n0 [] [] m.
Proof. intros S. split; [exact S|split; constructor]. Qed.

Lemma registered_item m t :
  sound n0 m -> registered_texture m t ->
  exists w h data,
    In (mkItem t (Some (StrTag "texreg")) (StaticTexture w h data))
       (items (dpg m)).
Proof.
  intros S (it & Hin & E & Hx).
  pose proof (sound_textures m S it Hin Hx) as Hp.
  destruct it as [t' q k]. simpl in *. subst t' q.
  destruct k; try discriminate Hx. eauto.
Qed.

Lemma sound_render_loop cfg turns l m :
  sound n0 m -> sound n0 (snd (render_loop cfg turns l m)).
Proof.
  intros S. apply (inv_render_loop [] cfg turns l m (sound_inv m S)).
Qed.

(** ** The items with an alias *)

Lemma delete_from_keeps_static (l : list Item) (dead : list tag) :
  (forall it, In it l -> protected n0 (item_tag it) ->
              item_parent it = None \/
              exists q, item_parent it = Some q /\ protected n0 q) ->
  (forall t, t ∈ dead -> ~ protected n0 t) ->
  forall it, In it l -> protected n0 (item_tag it) -> In it (delete_from dead l).
Proof.
  revert dead. induction l as [|x l IH]; intros dead Hst Hd it Hin Hp.
  - destruct Hin.
  - assert (Hst' : forall it, In it l -> protected n0 (item_tag it) ->
                              item_parent it = None \/
                              exists q, item_parent it = Some q /\ protected n0 q).
    { intros y Hy. apply Hst. now right. }
    simpl.
    destruct (bool_decide (item_tag x ∈ dead)) eqn:E1; simpl.
    + apply bool_decide_eq_true in E1. pose proof (Hd _ E1) as Hx.
      destruct Hin as [->|Hin]; [contradiction|].
      apply (IH _ Hst'); auto.
      intros t Ht. apply elem_of_cons in Ht as [->|Ht]; [exact Hx|now apply Hd].
    + destruct (item_parent x) as [q|] eqn:Eq.
      * destruct (bool_decide (q ∈ dead)) eqn:E2.
        -- apply bool_decide_eq_true in E2. pose proof (Hd _ E2) as Hq.
           assert (Hx : ~ protected n0 (item_tag x)).
           { intros Hx.
             destruct (Hst x (or_introl eq_refl) Hx) as [H|(q' & H & Hq')];
               [congruence|]. apply Hq. congruence. }
           destruct Hin as [->|Hin]; [contradiction|].
           apply (IH _ Hst'); auto.
           intros t Ht. apply elem_of_cons in Ht as [->|Ht];
             [exact Hx|now apply Hd].
        -- destruct Hin as [->|Hin]; [now left|right].
           now apply (IH _ Hst').
      * destruct Hin as [->|Hin]; [now left|right].
        now apply (IH _ Hst').
Qed.

Lemma delete_item_keeps_static m t it :
  sound n0 m -> deletable n0 m t ->
  In it (items (dpg m)) -> protected n0 (item_tag it) ->
  In it (items (dpg (exec (delete_item t) m))).
Proof.
  destruct (exec_delete_item t m) as [[_ ->]|[_ ->]]; [auto|].
  intros S [Hnp _] Hin Hp. simpl.
  apply delete_from_keeps_static; auto.
  - intros x Hx Hpx.
    destruct (sound_static m S x Hx Hpx) as [H|(q & H & Hq & _)]; eauto.
  - intros t' Ht. apply list_elem_of_singleton in Ht. now rewrite Ht.
Qed.

Lemma update_item_other m t f it :
  In it (items (dpg m)) -> item_tag it <> t ->
  In it (items (dpg (exec (update_item t f) m))).
Proof.
  destruct (exec_update_item t f m) as [[_ ->]|[_ ->]]; [auto|].
  intros Hin Hne. simpl. apply in_map_iff. exists it. split; [|exact Hin].
  unfold has_tag. now rewrite bool_decide_eq_false_2.
Qed.

Lemma update_item_same m t f it :
  In it (items (dpg m)) -> item_tag it = t ->
  In (mkItem t (item_parent it) (f (item_kind it)))
     (items (dpg (exec (update_item t f) m))).
Proof.
  intros Hin E.
  assert (Hx : item_exists (dpg m) t = true)
    by (apply item_exists_In; now exists it).
  destruct (exec_update_item t f m) as [[Hn _]|[_ ->]]; [congruence|].
  simpl. apply in_map_iff. exists it. split; [|exact Hin].
  unfold has_tag. rewrite bool_decide_eq_true_2 by exact E. now rewrite E.
Qed.

Lemma update_item_present m t f s q :
  present m s q -> present (exec (update_item t f) m) s q.
Proof.
  intros (it & Hin & Hs & Hq).
  destruct (decide (item_tag it = t)) as [E|E].
  - eexists. split; [apply update_item_same; [exact Hin|exact E]|].
    simpl. split; congruence.
  - exists it. split; [now apply update_item_other|]. now split.
Qed.

Lemma load_directory_images_dpg env p m :
  exists imgs,
    state (exec (load_directory_images env p) m)
    = set_images_in_dir imgs (set_current_dir p (state m)) /\
    dpg (exec (load_directory_images env p) m)
    = dpg (exec (update_item (StrTag "path_label") (set_text_value p)) m).
Proof.
  destruct (list_images_total (fs env) (Path_of p)) as [imgs E].
  exists imgs.
  unfold exec, load_directory_images, bind, modify_state, lift. rewrite E.
  unfold update_item. simpl.
  destruct (item_exists (dpg m) (StrTag "path_label")); split; reflexivity.
Qed.

Lemma present_items m m' s q :
  items (dpg m') = items (dpg m) -> present m s q -> present m' s q.
Proof. intros E (it & Hin & H). exists it. now rewrite E. Qed.

Lemma shows_text_items m m' s v :
  items (dpg m') = items (dpg m) -> shows_text m s v -> shows_text m' s v.
Proof. intros E (it & Hin & H). exists it. now rewrite E. Qed.

Section Present.
Context (s : tag) (q : option tag) (Hs : protected n0 s).

Lemma present_add m parent k :
  sound n0 m -> present m s q -> present (exec (add_item parent k) m) s q.
Proof.
  destruct (exec_add_item parent k m) as [[_ ->]|[_ ->]]; [auto|].
  intros _ (it & Hin & H). exists it. split; [|exact H].
  simpl. apply in_app_iff. now left.
Qed.

Lemma present_delete m t :
  sound n0 m -> deletable n0 m t -> present m s q ->
  present (exec (delete_item t) m) s q.
Proof.
  intros S Hd (it & Hin & Ht & Hq). exists it. split; [|now split].
  apply (delete_item_keeps_static m t it); auto. now rewrite Ht.
Qed.

Lemma present_load m env p :
  sound n0 m -> present m s q -> present (exec (load_directory_images env p) m) s q.
Proof.
  intros _ H. destruct (load_directory_images_dpg env p m) as (imgs & _ & Ed).
  apply (update_item_present m (StrTag "path_label") (set_text_value p)) in H.
  destruct H as (it & Hin & H). exists it. split; [|exact H]. now rewrite Ed.
Qed.

Lemma present_count m : sound n0 m -> present m s q -> present (count_frame m) s q.
Proof.
  intros _ H. unfold count_frame.
  apply update_item_present. exact H.
Qed.

Lemma present_render_loop cfg turns l m :
  sound n0 m -> present m s q -> present (snd (render_loop cfg turns l m)) s q.
Proof.
  intros S H.
  apply (invX_render_loop (fun m => present m s q)
           present_add present_delete
           (fun m v => update_item_present m _ _ s q)
           (fun m w h => update_item_present m _ _ s q)
           (fun m a b =>
              present_items m _ s q (items_bind_item_handler_registry a b m))
           (fun m s' _ _ _ H => H) (fun m c H => H)
           present_load present_count [] cfg turns l m).
  split; [now apply sound_inv|exact H].
Qed.

End Present.

(** ** The labels and the state *)

Lemma shows_text_add m s v parent k :
  shows_text m s v -> shows_text (exec (add_item parent k) m) s v.
Proof.
  destruct (exec_add_item parent k m) as [[_ ->]|[_ ->]]; [auto|].
  intros (it & Hin & H). exists it. split; [|exact H].
  simpl. apply in_app_iff. now left.
Qed.

Lemma shows_text_delete m t s v :
  sound n0 m -> deletable n0 m t -> shows_text m s v ->
  shows_text (exec (delete_item t) m) s v.
Proof.
  intros S Hd (it & Hin & Hs & Hk). exists it. split; [|now split].
  apply (delete_item_keeps_static m t it); auto. now rewrite Hs.
Qed.

Lemma shows_text_update_other m t f s v :
  t <> StrTag s -> shows_text m s v ->
  shows_text (exec (update_item t f) m) s v.
Proof.
  intros Hne (it & Hin & Hs & Hk). exists it. split; [|now split].
  apply update_item_other; [exact Hin|congruence].
Qed.

Lemma shows_text_update m s v v' :
  shows_text m s v ->
  shows_text (exec (update_item (StrTag s) (set_text_value v')) m) s v'.
Proof.
  intros (it & Hin & Hs & Hk).
  eexists. split; [apply update_item_same; [exact Hin|exact Hs]|].
  simpl. rewrite Hk. split; reflexivity.
Qed.

Lemma shows_text_unique m s v it :
  sound n0 m -> shows_text m s v ->
  In it (items (dpg m)) -> item_tag it = StrTag s -> item_kind it = Text v.
Proof.
  intros S (it0 & Hin0 & Hs0 & Hk0) Hin Hs.
  assert (it = it0); [|now subst].
  apply (NoDup_map_eq item_tag (items (dpg m))); auto; [|congruence].
  apply (sound_tags m S).
Qed.

Lemma path_label_render_loop cfg turns l m :
  sound n0 m -> shows_text m "path_label" (current_dir (state m)) ->
  let m' := snd (render_loop cfg turns l m) in
  shows_text m' "path_label" (current_dir (state m')).
Proof.
  intros S H.
  refine (proj2 (invX_render_loop
                   (fun m => shows_text m "path_label" (current_dir (state m)))
                   _ _ _ _ _ _ _ _ _ [] cfg turns l m _)).
  - intros m0 parent k _. rewrite state_add_item. apply shows_text_add.
  - intros m0 t. rewrite state_delete_item. apply shows_text_delete.
  - intros m0 v. rewrite state_update_item.
    apply shows_text_update_other. discriminate.
  - intros m0 w h. rewrite state_update_item.
    apply shows_text_update_other. discriminate.
  - intros m0 a b. rewrite state_bind_item_handler_registry.
    apply shows_text_items, items_bind_item_handler_registry.
  - intros m0 s' E _ _ (it & Hin & H0). exists it. simpl. rewrite E. now split.
  - intros m0 c H0. exact H0.
  - intros m0 env p _ H0.
    destruct (load_directory_images_dpg env p m0) as (imgs & Es & Ed).
    apply (shows_text_update m0 "path_label" _ p) in H0.
    destruct H0 as (it & Hin & H0). exists it. rewrite Ed, Es. now split.
  - intros m0 _ H0. unfold count_frame. rewrite state_update_item.
    apply (shows_text_update_other
             (mkMachine (set_frames (frames (state m0) + 1) (state m0))
                        (dpg m0) (trace m0))); [discriminate|exact H0].
  - split; [now apply sound_inv|exact H].
Qed.

Lemma frame_label_render_loop cfg turns l m :
  sound n0 m -> shows_text m "frame_label" (str_of_int (frames (state m))) ->
  let m' := snd (render_loop cfg turns l m) in
  shows_text m' "frame_label" (str_of_int (frames (state m'))).
Proof.
  intros S H.
  refine (proj2 (invX_render_loop
                   (fun m => shows_text m "frame_label"
                                        (str_of_int (frames (state m))))
                   _ _ _ _ _ _ _ _ _ [] cfg turns l m _)).
  - intros m0 parent k _. rewrite state_add_item. apply shows_text_add.
  - intros m0 t. rewrite state_delete_item. apply shows_text_delete.
  - intros m0 v. rewrite state_update_item.
    apply shows_text_update_other. discriminate.
  - intros m0 w h. rewrite state_update_item.
    apply shows_text_update_other. discriminate.
  - intros m0 a b. rewrite state_bind_item_handler_registry.
    apply shows_text_items, items_bind_item_handler_registry.
  - intros m0 s' _ E _ (it & Hin & H0). exists it. simpl. rewrite E. now split.
  - intros m0 c H0. exact H0.
  - intros m0 env p _ H0.
    destruct (load_directory_images_dpg env p m0) as (imgs & Es & Ed).
    apply (shows_text_update_other m0 (StrTag "path_label") (set_text_value p))
      in H0; [|discriminate].
    destruct H0 as (it & Hin & H0). exists it. rewrite Ed, Es. now split.
  - intros m0 _ H0. unfold count_frame. rewrite state_update_item.
    apply (shows_text_update
             (mkMachine (set_frames (frames (state m0) + 1) (state m0))
                        (dpg m0) (trace m0))
             "frame_label" _ (str_of_int (frames (state m0) + 1))) in H0.
    exact H0.
  - split; [now apply sound_inv|exact H].
Qed.

(** ** The items that the callbacks name

    What [build_ui] created stays in the registry, and [grid_child] stays
    what it is. *)

Lemma item_exists_present m t :
  item_exists (dpg m) t = true <-> exists q, present m t q.
Proof.
  rewrite item_exists_In. split.
  - intros (it & Hin & E). exists (item_parent it), it. auto.
  - intros (q & it & Hin & E & _). exists it. auto.
Qed.

Lemma cache_registered_sound m : sound n0 m -> cache_registered m.
Proof.
  intros S p t Hp Ht.
  destruct (sound_cache m S p t Hp Ht) as (it & Hin & E & _).
  apply item_exists_In. now exists it.
Qed.

Section Window.
Context (ts : list tag) (g : option tag) (Hts : Forall (protected n0) ts).

Lemma window_items m m' :
  (forall t q, protected n0 t -> present m t q -> present m' t q) ->
  grid_child (state m') = grid_child (state m) ->
  window_has ts g m -> window_has ts g m'.
Proof.
  intros Hp Hg [Hx Hc]. split; [|congruence].
  rewrite List.Forall_forall in *. intros t Ht.
  destruct (proj1 (item_exists_present m t) (Hx t Ht)) as [q Hq].
  apply item_exists_present. exists q. apply Hp; auto.
Qed.

Lemma window_add m parent k :
  sound n0 m -> window_has ts g m -> window_has ts g (exec (add_item parent k) m).
Proof.
  intros S. apply window_items; [|now rewrite state_add_item].
  intros t q _. now apply present_add.
Qed.

Lemma window_delete m t :
  sound n0 m -> deletable n0 m t -> window_has ts g m ->
  window_has ts g (exec (delete_item t) m).
Proof.
  intros S D. apply window_items; [|now rewrite state_delete_item].
  intros t' q Ht. now apply present_delete.
Qed.

Lemma window_update m t f :
  window_has ts g m -> window_has ts g (exec (update_item t f) m).
Proof.
  apply window_items; [|now rewrite state_update_item].
  intros t' q _. apply update_item_present.
Qed.

Lemma window_bound m a b :
  window_has ts g m -> window_has ts g (exec (bind_item_handler_registry a b) m).
Proof.
  apply window_items; [|now rewrite state_bind_item_handler_registry].
  intros t' q _. apply present_items, items_bind_item_handler_registry.
Qed.

Lemma window_state m s' :
  grid_child s' = grid_child (state m) ->
  window_has ts g m -> window_has ts g (mkMachine s' (dpg m) (trace m)).
Proof. intros E. apply window_items; auto. Qed.

Lemma window_load m env p :
  sound n0 m -> window_has ts g m ->
  window_has ts g (exec (load_directory_images env p) m).
Proof.
  intros S. apply window_items.
  - intros t q _. now apply present_load.
  - destruct (load_directory_images_dpg env p m) as (imgs & -> & _).
    reflexivity.
Qed.

Lemma window_count m :
  sound n0 m -> window_has ts g m -> window_has ts g (count_frame m).
Proof.
  intros S. apply window_items.
  - intros t q _. now apply present_count.
  - unfold count_frame. now rewrite state_update_item.
Qed.

Ltac window_ok :=
  first [apply window_count|apply window_load
        |apply window_add|apply window_delete
        |intros ? ?; apply window_update
        |intros ? ? ?; apply window_update
        |apply window_bound
        |intros ? ? _ _; apply window_state
        |intros ? ? H; exact H].

Lemma window_clear_grid_items T :
  triple (inv_and n0 (window_has ts g) [] T) clear_grid_items
         (fun _ => inv_and n0 (window_has ts g) [] T)
         (inv_and n0 (window_has ts g) [] T).
Proof.
  eapply triple_conseq;
    [eapply tripleX_clear_grid_items; window_ok|intros m H; exact H
    |intros _ m [H _]; exact H|intros m H; exact H].
Qed.

Lemma window_build_thumbnail_grid T cfg env :
  triple (inv_and n0 (window_has ts g) [] T) (build_thumbnail_grid cfg env)
         (fun _ => inv_and n0 (window_has ts g) [] T)
         (inv_and n0 (window_has ts g) [] T).
Proof. eapply tripleX_build_thumbnail_grid; window_ok. Qed.

Lemma window_load_directory_images T env p :
  triple (inv_and n0 (window_has ts g) [] T) (load_directory_images env p)
         (fun _ => inv_and n0 (window_has ts g) [] T)
         (inv_and n0 (window_has ts g) [] T).
Proof. eapply tripleX_load_directory_images; window_ok. Qed.

Lemma window_rebuild_sidebar_tree T env :
  triple (inv_and n0 (window_has ts g) [] T) (rebuild_sidebar_tree env)
         (fun _ => inv_and n0 (window_has ts g) [] T)
         (inv_and n0 (window_has ts g) [] T).
Proof. eapply tripleX_rebuild_sidebar_tree; window_ok. Qed.

Lemma window_render_frame T cfg env l :
  triple (inv_and n0 (window_has ts g) [] T) (render_frame cfg env l)
         (fun _ => inv_and n0 (window_has ts g) [] T)
         (inv_and n0 (window_has ts g) [] T).
Proof. eapply tripleX_render_frame; window_ok. Qed.

Lemma window_modify_state T f :
  (forall s, texreg (f s) = texreg s /\ thumb_tex (f s) = thumb_tex s /\
             thumb_items (f s) = thumb_items s /\
             grid_table (f s) = grid_table s) ->
  (forall s, current_dir (f s) = current_dir s /\ frames (f s) = frames s /\
             grid_child (f s) = grid_child s) ->
  triple (inv_and n0 (window_has ts g) [] T) (modify_state f)
         (fun _ => inv_and n0 (window_has ts g) [] T)
         (inv_and n0 (window_has ts g) [] T).
Proof. intros H1 H2. eapply tripleX_modify_state; auto; window_ok. Qed.

Lemma window_run_callbacks T cfg cbs m :
  inv_and n0 (window_has ts g) [] T m ->
  inv_and n0 (window_has ts g) [] T (run_callbacks cfg cbs m).
Proof. eapply invX_run_callbacks; window_ok. Qed.

End Window.

(** What a call leaves when it returns. *)
Lemma exec_returns {A} (c : M A) (a : A) m m' : c m = (Ok a, m') -> exec c m = m'.
Proof. intros E. unfold exec. now rewrite E. Qed.

Lemma ready_intro (ts : list tag) (g : option tag) m :
  sound n0 m -> Forall (fun t => item_exists (dpg m) t = true) ts ->
  grid_child (state m) = g ->
  inv_and n0 (window_has ts g) [] [] m.
Proof. intros S Hx Hg. split; [now apply sound_inv|now split]. Qed.

Lemma ready_sound (ts : list tag) (g : option tag) m :
  inv_and n0 (window_has ts g) [] [] m -> sound n0 m.
Proof. intros [[S _] _]. exact S. Qed.

Lemma ready_exists (ts : list tag) (g : option tag) m t :
  inv_and n0 (window_has ts g) [] [] m -> In t ts ->
  item_exists (dpg m) t = true.
Proof.
  intros [_ [Hx _]] Hin. rewrite List.Forall_forall in Hx. now apply Hx.
Qed.

Lemma ready_grid_child (ts : list tag) (g : option tag) m :
  inv_and n0 (window_has ts g) [] [] m -> grid_child (state m) = g.
Proof. intros [_ [_ Hg]]. exact Hg. Qed.

(** The grid can be built: once the old one is cleared, the child window
    of the grid and the textures of the cache are still there. *)
Lemma build_thumbnail_grid_ready m gc :
  sound n0 m -> grid_child (state m) = Some gc -> protected n0 gc ->
  item_exists (dpg m) gc = true ->
  item_exists (dpg (exec clear_grid_items m)) gc = true /\
  cache_registered (exec clear_grid_items m).
Proof.
  intros S Hg Hp Hx.
  assert (R : inv_and n0 (window_has [gc] (Some gc)) [] [] m).
  { apply ready_intro; auto. }
  assert (Hts : Forall (protected n0) [gc]) by (repeat constructor; exact Hp).
  apply (triple_exec _ _ _ (window_clear_grid_items [gc] (Some gc) Hts [])) in R.
  split.
  - apply (ready_exists _ _ _ gc R). now left.
  - apply cache_registered_sound. apply (ready_sound _ _ _ R).
Qed.

(** *** Deleting the children of an item *)

Lemma delete_from_keeps_child (l : list Item) (dead : list tag) it q :
  List.NoDup (map item_tag l) ->
  In it l -> item_tag it ∉ dead -> item_parent it = Some q -> q ∉ dead ->
  (forall x, In x l -> item_tag x = q -> In x (delete_from dead l)) ->
  In it (delete_from dead l).
Proof.
  revert dead. induction l as [|x l IH]; intros dead ND Hin Ht Hq Hd Hk;
    [destruct Hin|].
  inversion ND as [|? ? Hx ND']; subst.
  assert (Hne : forall y, In y l -> item_tag y <> item_tag x).
  { intros y Hy E. apply Hx. rewrite <- E. now apply in_map. }
  simpl. simpl in Hk.
  destruct (bool_decide (item_tag x ∈ dead)
            || match item_parent x with
               | Some p => bool_decide (p ∈ dead)
               | None => false
               end) eqn:E.
  - destruct Hin as [<-|Hin].
    + exfalso. rewrite Hq in E.
      rewrite !bool_decide_eq_false_2 in E by assumption. discriminate E.
    + apply IH; auto.
      * rewrite elem_of_cons. intros [H|H]; [now apply (Hne it Hin)|now apply Ht].
      * rewrite elem_of_cons. intros [H|H]; [|now apply Hd].
        pose proof (Hk x (or_introl eq_refl) (eq_sym H)) as Hs.
        apply delete_from_dead in Hs. apply Hs. apply elem_of_cons. now left.
  - destruct Hin as [<-|Hin]; [now left|right].
    apply IH; auto.
    intros y Hy Ey. destruct (Hk y (or_intror Hy) Ey) as [->|H]; [|exact H].
    now destruct (Hne y Hy).
Qed.

Lemma delete_item_keeps_sibling m t it q :
  sound n0 m -> deletable n0 m t -> In it (items (dpg m)) ->
  item_tag it <> t -> item_parent it = Some q -> protected n0 q ->
  In it (items (dpg (exec (delete_item t) m))).
Proof.
  intros S Hd Hin Hne Hq Hp.
  pose proof (fun x Hx Hpx => delete_item_keeps_static m t x S Hd Hx Hpx) as K.
  destruct (exec_delete_item t m) as [[_ E]|[_ E]]; rewrite E in *; [exact Hin|].
  simpl in *. apply delete_from_keeps_child with (q := q); auto.
  - apply (sound_tags m S).
  - rewrite list_elem_of_singleton. exact Hne.
  - rewrite list_elem_of_singleton. intros ->. destruct Hd as [Hnp _].
    now apply Hnp.
  - intros x Hx Ex. apply K; [exact Hx|]. now rewrite Ex.
Qed.

Lemma NoDup_map_filter {A B} (f : A -> B) (p : A -> bool) (l : list A) :
  List.NoDup (map f l) -> List.NoDup (map f (List.filter p l)).
Proof.
  induction l as [|x l IH]; intros H; simpl; [constructor|].
  inversion H as [|? ? Hx Hl]; subst.
  destruct (p x); [|now apply IH].
  simpl. constructor; [|now apply IH].
  intros Hin. apply Hx. apply in_map_iff in Hin as (y & <- & Hy).
  apply in_map. now apply filter_In in Hy as [Hy _].
Qed.

(** The children of [q] can be deleted one after the other: none of them is
    gone when its turn comes. *)
Lemma delete_all_spec (q : tag) (kids : list Item) m :
  protected n0 q ->
  sound n0 m ->
  List.NoDup (map item_tag kids) ->
  Forall (fun it => In it (items (dpg m)) /\ item_parent it = Some q /\
                    deletable n0 m (item_tag it)) kids ->
  exists m1,
    for_each (map item_tag kids) delete_item m = (Ok tt, m1) /\
    state m1 = state m /\
    next_id (dpg m1) = next_id (dpg m) /\
    trace m1 = trace m /\
    (forall it, In it (items (dpg m1)) ->
                In it (items (dpg m)) /\ ~ In (item_tag it) (map item_tag kids)) /\
    sound n0 m1 /\
    (forall t, protected n0 t -> item_exists (dpg m) t = true ->
               item_exists (dpg m1) t = true).
Proof.
  intros Hq. revert m. induction kids as [|k kids IH]; intros m S ND HF.
  - exists m. conjs; auto.
  - inversion ND as [|? ? Hk ND']; subst.
    inversion HF as [|? ? (Hin & Hpar & Hd) HF']; subst.
    assert (Hx : item_exists (dpg m) (item_tag k) = true).
    { apply item_exists_In. now exists k. }
    set (m' := exec (delete_item (item_tag k)) m).
    assert (S' : sound n0 m').
    { apply (inv_delete_item [] [] (item_tag k) m (sound_inv m S) Hd). }
    assert (HF'' : Forall (fun it => In it (items (dpg m')) /\
                                     item_parent it = Some q /\
                                     deletable n0 m' (item_tag it)) kids).
    { rewrite List.Forall_forall in *. intros it Hit.
      destruct (HF' it Hit) as (Hin' & Hpar' & Hd').
      split; [|split; [exact Hpar'|now apply deletable_delete_item]].
      apply (delete_item_keeps_sibling m (item_tag k) it q); auto.
      intros E. apply Hk. rewrite <- E. now apply in_map. }
    destruct (IH m' S' ND' HF'') as (m1 & E & Hs & Hn & Htr & Hsub & S1 & Hkeep).
    exists m1. split.
    { simpl. unfold bind. rewrite (delete_item_run _ m Hx). fold m'. exact E. }
    unfold m' in Hs, Hn, Htr.
    rewrite state_delete_item in Hs. rewrite next_id_delete_item in Hn.
    rewrite trace_delete_item in Htr.
    conjs; auto.
    + intros it Hit. destruct (Hsub it Hit) as [H1 H2]. split.
      * eapply delete_item_In, H1.
      * simpl. intros [H|H]; [|now apply H2].
        now apply (delete_item_gone m (item_tag k) it).
    + intros t Ht Hxt. apply Hkeep; [exact Ht|].
      apply item_exists_present in Hxt as [q' Hq'].
      apply item_exists_present. exists q'.
      now apply (present_delete t q' Ht m (item_tag k)).
Qed.

Lemma sound_set_label m t v :
  sound n0 m -> sound n0 (exec (update_item t (set_label v)) m).
Proof.
  intros S.
  apply (inv_update_item [] [] t (set_label v) m);
    [intros []; reflexivity|intros []; reflexivity|intros []; reflexivity
    |intros [] H; first [discriminate H|reflexivity]
    |intros [] b H; first [discriminate H|exact H]|now apply sound_inv].
Qed.

End Protected.

(** ** The machine that [build_ui] leaves is sound *)

Ltac static_parents :=
  let H := fresh in
  intros ? H _; simpl in H;
  repeat (destruct H as [<-|H];
          [first [now left
                 |right; eexists; split;
                  [reflexivity|split; [exact I|discriminate]]]|]);
  destruct H.

Ltac nodup_tags :=
  repeat (constructor; [simpl; intuition discriminate|]); constructor.

Lemma start_machine_sound : sound 30 start_machine.
Proof.
  apply sound_fresh_ui; try reflexivity.
  - nodup_tags.
  - static_parents.
  - intros it [<-|[<-|[<-|[<-|[<-|[]]]]]]; simpl; intros E;
      first [discriminate E|split; reflexivity].
Qed.

Lemma browser_machine_sound : sound 30 browser_machine.
Proof.
  apply sound_fresh_ui; try reflexivity.
  - nodup_tags.
  - static_parents.
  - intros it [<-|[<-|[<-|[<-|[<-|[<-|[]]]]]]]; simpl; intros E;
      first [discriminate E|split; reflexivity].
Qed.

(** ** What holds of the cache and of the registry all along *)

(** X6: however long the browser runs, a handle found in the thumbnail cache
    is the tag of a static texture that is registered under [texreg], and
    no other path has that handle. *)
Theorem X6_cached_handles_are_registered
        (n0 : positive) (cfg : Config) (turns : list Turn) (l : Loop) (m : Machine) :
  sound n0 m ->
  let m' := snd (render_loop cfg turns l m) in
  forall p t,
    thumb_tex (state m') !! p = Some t -> truthy_tag t = true ->
    (exists w h data,
        In (mkItem t (Some (StrTag "texreg")) (StaticTexture w h data))
           (items (dpg m'))) /\
    (forall q, thumb_tex (state m') !! q = Some t -> q = p).
Proof.
  intros S m' p t Hl Ht.
  pose proof (sound_render_loop cfg turns l m S) as S'. fold m' in S'.
  split.
  - apply (registered_item m' t S'). now apply (sound_cache m' S' p).
  - intros q Hq. now apply (sound_cache_inj m' S' q p t).
Qed.

Lemma X6_witness :
  sound 30 browser_machine /\
  let m' := snd (render_loop linux_cfg sample_turns sample_loop browser_machine) in
  forall p t,
    thumb_tex (state m') !! p = Some t -> truthy_tag t = true ->
    (exists w h data,
        In (mkItem t (Some (StrTag "texreg")) (StaticTexture w h data))
           (items (dpg m'))) /\
    (forall q, thumb_tex (state m') !! q = Some t -> q = p).
Proof.
  split; [exact browser_machine_sound|].
  apply (X6_cached_handles_are_registered 30 linux_cfg sample_turns sample_loop
           browser_machine browser_machine_sound).
Defined.

(** X7: the browser never deletes a texture: one that is registered stays
    in the registry, with its size and its pixels, through every turn of the
    render loop and every callback. *)
Theorem X7_textures_are_never_deleted
        (n0 : positive) (cfg : Config) (turns : list Turn) (l : Loop) (m : Machine) (it : Item) :
  sound n0 m ->
  In it (items (dpg m)) -> is_texture (item_kind it) = true ->
  In it (items (dpg (snd (render_loop cfg turns l m)))).
Proof.
  intros S Hin Hx.
  assert (H : inv n0 [] [it] m).
  { split; [exact S|split; constructor; auto]. }
  apply (inv_render_loop [it] cfg turns l m) in H.
  destruct H as (_ & _ & H). inversion H as [|? ? [H1 _] _]; subst. exact H1.
Qed.

(** X8: there is never more than one table in the registry, and
    [state["grid_table"]] names it. *)
Theorem X8_one_table
        (n0 : positive) (cfg : Config) (turns : list Turn) (l : Loop) (m : Machine) :
  sound n0 m ->
  let m' := snd (render_loop cfg turns l m) in
  forall it, In it (items (dpg m')) -> item_kind it = Table ->
             grid_table (state m') = Some (item_tag it) /\
             forall it', In it' (items (dpg m')) -> item_kind it' = Table ->
                         it' = it.
Proof.
  intros S m' it Hin Hk.
  pose proof (sound_render_loop cfg turns l m S) as S'. fold m' in S'.
  assert (Ht : forall x, In x (items (dpg m')) -> item_kind x = Table ->
                         grid_table (state m') = Some (item_tag x)).
  { intros x Hx Ek. apply (sound_tables m' S' x Hx). now rewrite Ek. }
  split; [now apply Ht|].
  intros it' Hin' Hk'.
  apply (NoDup_map_eq item_tag (items (dpg m'))); auto.
  - apply (sound_tags m' S').
  - pose proof (Ht it Hin Hk). pose proof (Ht it' Hin' Hk'). congruence.
Qed.

(** X9: an image button always shows a texture that is registered: the grid
    never refers to a texture that is gone. *)
Theorem X9_image_buttons_show_registered_textures
        (n0 : positive) (cfg : Config) (turns : list Turn) (l : Loop) (m : Machine) :
  sound n0 m ->
  let m' := snd (render_loop cfg turns l m) in
  forall it t, In it (items (dpg m')) -> item_kind it = ImageButton t ->
               exists w h data,
                 In (mkItem t (Some (StrTag "texreg")) (StaticTexture w h data))
                    (items (dpg m')).
Proof.
  intros S m' it t Hin Hk.
  pose proof (sound_render_loop cfg turns l m S) as S'. fold m' in S'.
  apply (registered_item m' t S'). now apply (sound_buttons m' S' it).
Qed.

Lemma shown_machine_sound : sound 30 shown_machine.
Proof.
  apply (inv_on_folder_click [] linux_cfg good_env "/pics" browser_machine).
  apply sound_inv, browser_machine_sound.
Qed.

Ltac pick_item := vm_compute; repeat (first [left; reflexivity|right]).

Lemma X7_witness :
  let it := mkItem (IntTag 35) (Some (StrTag "texreg"))
                   (StaticTexture 2 1 [0; 0; 0; 255; 255; 255; 255; 255]) in
  sound 30 shown_machine /\ In it (items (dpg shown_machine)) /\
  is_texture (item_kind it) = true /\
  In it (items (dpg (snd (render_loop linux_cfg sample_turns sample_loop
                                      shown_machine)))).
Proof.
  intros it.
  assert (Hin : In it (items (dpg shown_machine))) by pick_item.
  split; [exact shown_machine_sound|]. split; [exact Hin|].
  split; [reflexivity|].
  apply (X7_textures_are_never_deleted 30 linux_cfg sample_turns sample_loop
           shown_machine it shown_machine_sound Hin).
  reflexivity.
Defined.

Lemma X8_witness :
  sound 30 shown_machine /\
  let m' := snd (render_loop linux_cfg sample_turns sample_loop shown_machine) in
  forall it, In it (items (dpg m')) -> item_kind it = Table ->
             grid_table (state m') = Some (item_tag it) /\
             forall it', In it' (items (dpg m')) -> item_kind it' = Table ->
                         it' = it.
Proof.
  split; [exact shown_machine_sound|].
  apply (X8_one_table 30 linux_cfg sample_turns sample_loop shown_machine
           shown_machine_sound).
Defined.

Lemma X9_witness :
  sound 30 shown_machine /\
  let m' := snd (render_loop linux_cfg sample_turns sample_loop shown_machine) in
  forall it t, In it (items (dpg m')) -> item_kind it = ImageButton t ->
               exists w h data,
                 In (mkItem t (Some (StrTag "texreg")) (StaticTexture w h data))
                    (items (dpg m')).
Proof.
  split; [exact shown_machine_sound|].
  apply (X9_image_buttons_show_registered_textures
           30 linux_cfg sample_turns sample_loop shown_machine shown_machine_sound).
Defined.

(** ** Clearing the grid *)

Lemma item_exists_none d t :
  (forall it, In it (items d) -> item_tag it <> t) -> item_exists d t = false.
Proof.
  intros H. destruct (item_exists d t) eqn:E; [|reflexivity].
  apply item_exists_true in E as (it & Hin & Ht). now destruct (H it Hin).
Qed.

(** X10: [clear_grid_items] never raises; afterwards [thumb_items] is empty
    and none of the items it listed, nor the table that [grid_table] named,
    exists any more; nothing is created, and the other keys of [state], the
    cache among them, are as before. *)
Theorem X10_clear_grid_items_removes_what_state_recorded (m : Machine) :
  exists m',
    clear_grid_items m = (Ok tt, m') /\
    thumb_items (state m') = [] /\
    (forall t, In t (thumb_items (state m)) -> item_exists (dpg m') t = false) /\
    (forall t, grid_table (state m) = Some t -> truthy_tag t = true ->
               item_exists (dpg m') t = false) /\
    (grid_table (state m') = None \/ grid_table (state m') = grid_table (state m)) /\
    (forall it, In it (items (dpg m')) -> In it (items (dpg m))) /\
    next_id (dpg m') = next_id (dpg m) /\
    thumb_tex (state m') = thumb_tex (state m) /\
    images_in_dir (state m') = images_in_dir (state m) /\
    current_dir (state m') = current_dir (state m) /\
    root_dir (state m') = root_dir (state m).
Proof.
  destruct (clear_grid_items_spec (n0 := 1) m)
    as (m' & E & Hti & Hrd & Hcd & Him & Htx & _ & _ & _ & Hn & _ & _ & Hit & Hgt & _).
  exists m'. conjs; auto.
  - intros t Ht. apply item_exists_none. intros it Hin E'.
    destruct (Hit it Hin) as (_ & H & _). apply H. now rewrite E'.
  - intros t Ht Htr. apply item_exists_none. intros it Hin.
    destruct (Hit it Hin) as (_ & _ & H). now apply H.
  - intros it Hin. now apply Hit.
Qed.

(** ** One call of [thumb_for] *)

(** X11: [thumb_for p] never raises, whatever the registry holds; it returns
    either nothing or a handle that Python takes for true and that the
    cache now holds for [p]; it touches no other entry of the cache and no
    other key of [state], and all it does to the registry is to append at
    most one texture.  When the texture registry is not there, DPG refuses
    the texture: the exception is swallowed, nothing is returned and
    nothing is cached or registered. *)
Theorem X11_thumb_for_frame (cfg : Config) (env : Env) (p : string) (m : Machine) :
  exists tex m',
    thumb_for cfg env p m = (Ok tex, m') /\
    (tex = None \/
     exists t, tex = Some t /\ truthy_tag t = true /\
               thumb_tex (state m') !! p = Some t) /\
    (forall q, q <> p -> thumb_tex (state m') !! q = thumb_tex (state m) !! q) /\
    (exists T, items (dpg m') = items (dpg m) ++ T /\
               (List.length T <= 1)%nat /\
               Forall (fun it => is_texture (item_kind it) = true /\
                                 item_parent it = Some (texreg (state m))) T) /\
    bound (dpg m') = bound (dpg m) /\
    root_dir (state m') = root_dir (state m) /\
    current_dir (state m') = current_dir (state m) /\
    images_in_dir (state m') = images_in_dir (state m) /\
    thumb_items (state m') = thumb_items (state m) /\
    grid_table (state m') = grid_table (state m) /\
    (truthy_opt truthy_tag (thumb_tex (state m) !! p) = false ->
     item_exists (dpg m) (texreg (state m)) = false ->
     tex = None /\ state m' = state m /\ dpg m' = dpg m).
Proof.
  destruct (thumb_for_cases cfg env p m)
    as [[_ E]|[(t & Hl & Ht & E)|[[_ E]|[Hmiss [im E]]]]].
  - rewrite E. exists None, m. conjs; auto.
    exists []. rewrite app_nil_r. conjs; auto.
  - rewrite E. exists (Some t), m. conjs; auto.
    + right. exists t. auto.
    + exists []. rewrite app_nil_r. conjs; auto.
    + intros H. rewrite Hl in H. simpl in H. congruence.
  - rewrite E. eexists None, _. conjs; try reflexivity; auto.
    exists []. simpl. rewrite app_nil_r. conjs; auto.
  - pose proof (thumb_for_some_registry _ _ _ _ _ _ Hmiss E) as Hreg.
    rewrite E. eexists (Some _), _. conjs; try reflexivity.
    + right. eexists. conjs; try reflexivity. simpl. apply lookup_insert_eq.
    + intros q Hq. simpl. apply lookup_insert_ne. congruence.
    + eexists [_]. simpl. conjs; try reflexivity; auto.
    + intros _ H. congruence.
Qed.

(** ** A click on a folder *)

Lemma same_selection_refl s : same_selection s s.
Proof. repeat split. Qed.

Lemma same_selection_trans s1 s2 s3 :
  same_selection s1 s2 -> same_selection s2 s3 -> same_selection s1 s3.
Proof. intros (A & B & C) (A' & B' & C'). repeat split; congruence. Qed.

Lemma keeps_selection_thumb_for cfg env p :
  keeps same_selection (thumb_for cfg env p).
Proof.
  intros m. unfold exec.
  destruct (thumb_for_cases cfg env p m)
    as [[_ ->]|[(t' & _ & _ & ->)|[[_ ->]|[Hmiss [im ->]]]]]; simpl;
    repeat split.
Qed.

Lemma keeps_selection_build_thumbnail_grid cfg env :
  keeps same_selection (build_thumbnail_grid cfg env).
Proof.
  apply keeps_build_thumbnail_grid.
  - apply same_selection_refl.
  - apply same_selection_trans.
  - intros v s. repeat split.
  - intros v s. repeat split.
  - apply keeps_selection_thumb_for.
Qed.

(** The grid that [build_thumbnail_grid] leaves shows the stored images, in
    order. *)
Lemma build_thumbnail_grid_shows n0 cfg env m gc :
  sound n0 m -> grid_child (state m) = Some gc -> protected n0 gc ->
  item_exists (dpg m) gc = true ->
  exists m' tid,
    build_thumbnail_grid cfg env m = (Ok tt, m') /\
    grid_table (state m') = Some tid /\
    same_selection (state m) (state m') /\
    (images_in_dir (state m) = [] ->
     grid_view (dpg m') tid = [[InfoCell (no_images_message cfg)]]) /\
    (images_in_dir (state m) <> [] ->
     Forall2 shows (images_in_dir (state m)) (concat (grid_view (dpg m') tid))).
Proof.
  intros S Hgc Hp Hx.
  pose proof (keeps_selection_build_thumbnail_grid cfg env m) as Hsel.
  unfold exec in Hsel.
  destruct (build_thumbnail_grid_ready m gc S Hgc Hp Hx) as [Hx1 Hcr1].
  destruct (build_thumbnail_grid_start cfg env m gc (sound_wf m S) Hgc Hx1 Hcr1)
    as (w & tid & m4 & Ew & Eb & Hgt & W4 & Ht4 & Hr4 & Hc4 & Hx4 & Hcr4).
  pose proof (compute_columns_ge_1 w) as Hc.
  destruct (images_in_dir (state m)) as [|p0 rest] eqn:Eimgs.
  - destruct (empty_grid_view (no_images_message cfg) tid m4 W4 Ht4 Hr4 Hx4)
      as (m5 & E5 & Hv & Hcol & Hg & _).
    exists m5, tid. rewrite Eb, E5 in Hsel.
    split; [rewrite Eb; exact E5|].
    split; [rewrite Hg; exact Hgt|].
    split; [exact Hsel|].
    split; [intros _; exact Hv|]. intros H. congruence.
  - assert (Hinv0 : grid_inv (compute_columns w) tid (dpg m4) 0 None []).
    { split; [exact W4|]. split; [exact Ht4|]. split; [exact Hc4|].
      split; [reflexivity|]. left. split; [reflexivity|exact Hr4]. }
    destruct (grid_loop_inv cfg env tid (compute_columns w) (p0 :: rest) Hc
                [] 0 None m4 Hinv0 Hx4 ltac:(intros r Hr; discriminate Hr) Hcr4)
      as (m' & row' & E' & (_ & Ht' & Hc' & Hi' & Hcase) & _).
    exists m', tid. rewrite Eb, E' in Hsel. simpl in Hsel.
    split; [rewrite Eb; exact E'|].
    split.
    { pose proof (grid_loop_grid_table cfg env tid (compute_columns w)
                    (p0 :: rest) 0 None m4) as Hg.
      unfold exec in Hg. rewrite E' in Hg. simpl in Hg. congruence. }
    split; [exact Hsel|].
    split; [intros H; discriminate|]. intros _.
    simpl app in Hcase.
    destruct Hcase as [[Hd _]|(R0 & r & _ & HR & _ & _ & _ & _ & _ & Hall)];
      [discriminate|].
    unfold grid_view, grid_cells. rewrite HR.
    rewrite !map_app. simpl map.
    rewrite concat_app. simpl concat. rewrite app_nil_r.
    rewrite <- concat_map, <- map_app.
    apply Forall2_shows_map. exact Hall.
Qed.

(** C3: on a sound machine where the child window of the grid, created by
    [build_ui], is in the registry, [build_thumbnail_grid] returns and lays
    the [N] stored images out, in order, in a table of [c] columns, [c]
    being the column count of the available width (any count from 1 on):
    [ceil(N / c)] rows, of [c] cells each except the last one, which holds
    the remaining 1 to [c] images; when there is no image, the table has
    exactly one row with one cell that holds the informational text. *)
Theorem C3_grid_rows
        (n0 : positive) (cfg : Config) (env : Env) (m : Machine) (gc : tag)
        (w c : Z) :
  1 <= c ->
  sound n0 m ->
  grid_child (state m) = Some gc -> protected n0 gc ->
  item_exists (dpg m) gc = true ->
  eval (available_grid_width env) m = Ok w ->
  compute_columns w = c ->
  let imgs := images_in_dir (state m) in
  let N := Z.of_nat (List.length imgs) in
  exists (m' : Machine) (tid : tag),
    build_thumbnail_grid cfg env m = (Ok tt, m') /\
    grid_table (state m') = Some tid /\
    Z.of_nat (List.length (table_columns (dpg m') tid)) = c /\
    let rows := grid_view (dpg m') tid in
    (imgs = [] -> rows = [[InfoCell (no_images_message cfg)]]) /\
    (imgs <> [] ->
     Z.of_nat (List.length rows) = ceil_div N c /\
     Forall2 shows imgs (concat rows) /\
     exists full last,
       rows = full ++ [last] /\
       Forall (fun r => Z.of_nat (List.length r) = c) full /\
       1 <= Z.of_nat (List.length last) <= c /\
       Z.of_nat (List.length last) = N - c * Z.of_nat (List.length full)).
Proof.
  intros Hc S Hgc Hp Hx Hw Hcols imgs N.
  destruct (build_thumbnail_grid_ready m gc S Hgc Hp Hx) as [Hx1 Hcr1].
  destruct (build_thumbnail_grid_start cfg env m gc (sound_wf m S) Hgc Hx1 Hcr1)
    as (w' & tid & m4 & Ew & Eb & Hgt & W4 & Ht4 & Hr4 & Hc4 & Hx4 & Hcr4).
  assert (w' = w); [|subst w'].
  { destruct (available_grid_width_effect env m gc Hgc Hx) as (w0 & E0 & Hall).
    unfold eval in Hw. rewrite E0 in Hw. simpl in Hw. injection Hw as ->.
    rewrite Hall in Ew; [now injection Ew|
      |exact Hx1].
    destruct (clear_grid_items_effect m) as (m1 & E1 & _ & Hg1 & _).
    unfold exec. rewrite E1. exact Hg1. }
  rewrite Hcols in *. clear Hw.
  subst imgs N. destruct (images_in_dir (state m)) as [|p0 rest] eqn:Eimgs.
  - destruct (empty_grid_view (no_images_message cfg) tid m4 W4 Ht4 Hr4 Hx4)
      as (m5 & E5 & Hv & Hcol & Hg & _).
    exists m5, tid.
    split; [rewrite Eb; exact E5|].
    split; [rewrite Hg; exact Hgt|].
    split; [rewrite Hcol; exact Hc4|].
    split; [intros _; exact Hv|]. intros H. congruence.
  - assert (Hinv0 : grid_inv c tid (dpg m4) 0 None []).
    { split; [exact W4|]. split; [exact Ht4|]. split; [exact Hc4|].
      split; [reflexivity|]. left. split; [reflexivity|exact Hr4]. }
    destruct (grid_loop_inv cfg env tid c (p0 :: rest) Hc [] 0 None m4 Hinv0
                Hx4 ltac:(intros r Hr; discriminate Hr) Hcr4)
      as (m' & row' & E' & (W' & Ht' & Hc' & Hi' & Hcase) & _).
    exists m', tid.
    split; [rewrite Eb; exact E'|].
    split.
    { pose proof (grid_loop_grid_table cfg env tid c (p0 :: rest) 0 None m4) as Hg.
      unfold exec in Hg. rewrite E' in Hg. simpl in Hg. congruence. }
    split; [exact Hc'|].
    split; [intros H; discriminate|]. intros _.
    simpl app in Hcase.
    destruct Hcase as [[Hd _]|(R0 & r & _ & HR & _ & _ & Hfull & Hlen & Hlast & Hall)];
      [discriminate|].
    set (N := Z.of_nat (List.length (p0 :: rest))) in *.
    assert (HN : 1 <= N) by (subst N; simpl List.length; lia).
    replace (0 + N - 1) with (N - 1) in * by lia.
    pose proof (Z.mod_pos_bound (N - 1) c ltac:(lia)) as Hmb.
    pose proof (Z.div_mod (N - 1) c ltac:(lia)) as Hdm.
    unfold grid_view, grid_cells. rewrite HR.
    rewrite !map_app. simpl map.
    split.
    { rewrite length_app, !length_map. simpl List.length.
      rewrite <- (ceil_div_rows c N) by lia. lia. }
    split.
    { rewrite concat_app. simpl concat. rewrite app_nil_r.
      rewrite <- concat_map, <- map_app.
      apply Forall2_shows_map. exact Hall. }
    exists (map (map (cell_view (dpg m'))) (map (row_cells (dpg m')) R0)),
           (map (cell_view (dpg m')) (row_cells (dpg m') r)).
    split; [reflexivity|].
    split.
    { apply List.Forall_forall. intros x Hx'.
      apply in_map_iff in Hx' as (cs & <- & Hcs).
      apply in_map_iff in Hcs as (r0 & <- & Hr0).
      rewrite length_map. rewrite List.Forall_forall in Hfull. now apply Hfull. }
    rewrite !length_map. split; [lia|]. lia.
Qed.

(** Without a child window to hang the table in, DPG refuses the table. *)
Lemma build_thumbnail_grid_without_window cfg env m :
  grid_child (state m) = None ->
  eval (build_thumbnail_grid cfg env) m = Raise DpgError.
Proof.
  intros Hg.
  destruct (clear_grid_items_effect m) as (m1 & E1 & _ & Hg1 & _).
  unfold eval, build_thumbnail_grid.
  unfold bind at 1. rewrite E1.
  unfold bind at 1. unfold available_grid_width at 1.
  unfold bind at 1. unfold get_state at 1. rewrite Hg1, Hg.
  unfold ret at 1. unfold bind at 1. unfold get_state at 1.
  unfold bind at 1. unfold add_item at 1. rewrite Hg1, Hg. reflexivity.
Qed.

Lemma five_machine_sound : sound 30 five_machine.
Proof.
  apply (inv_modify_state [] [] (set_images_in_dir five_images) start_machine).
  - intros s. repeat split.
  - apply sound_inv, start_machine_sound.
Qed.

Lemma C3_witness :
  exists (m' : Machine) (tid : tag),
    build_thumbnail_grid linux_cfg good_env five_machine = (Ok tt, m') /\
    grid_table (state m') = Some tid /\
    Z.of_nat (List.length (table_columns (dpg m') tid)) = 2 /\
    let rows := grid_view (dpg m') tid in
    (five_images = [] -> rows = [[InfoCell (no_images_message linux_cfg)]]) /\
    (five_images <> [] ->
     Z.of_nat (List.length rows) = ceil_div 5 2 /\
     Forall2 shows five_images (concat rows) /\
     exists full last,
       rows = full ++ [last] /\
       Forall (fun r => Z.of_nat (List.length r) = 2) full /\
       1 <= Z.of_nat (List.length last) <= 2 /\
       Z.of_nat (List.length last) = 5 - 2 * Z.of_nat (List.length full)).
Proof.
  apply (C3_grid_rows 30 linux_cfg good_env five_machine (StrTag "grid_child")
           500 2).
  - lia.
  - exact five_machine_sound.
  - reflexivity.
  - exact I.
  - reflexivity.
  - reflexivity.
  - reflexivity.
Defined.

Lemma load_directory_images_effect env p m :
  item_exists (dpg m) (StrTag "path_label") = true ->
  exists imgs,
    list_images (fs env) (Path_of p) = Ok imgs /\
    load_directory_images env p m =
    (Ok tt, update_done (StrTag "path_label") (set_text_value p)
              (mkMachine (set_images_in_dir imgs (set_current_dir p (state m)))
                         (dpg m) (trace m))).
Proof.
  intros Hx.
  destruct (list_images_total (fs env) (Path_of p)) as [imgs E].
  exists imgs. split; [exact E|].
  unfold load_directory_images, bind, modify_state, lift. rewrite E.
  now rewrite update_item_ok.
Qed.

(** X12: a click on a folder of the sidebar, on a sound machine where the
    label of the path and the child window of the grid, both created by
    [build_ui], are in the registry, returns; it selects that folder,
    stores what [list_images] finds there (nothing when the folder cannot
    be read), leaves the root as it is, and the new table shows these
    images in order, or the lone informational cell when there is none. *)
Theorem X12_folder_click_shows_the_folder
        (n0 : positive) (cfg : Config) (env : Env) (p : string) (m : Machine)
        (gc : tag) :
  sound n0 m ->
  item_exists (dpg m) (StrTag "path_label") = true ->
  grid_child (state m) = Some gc -> protected n0 gc ->
  item_exists (dpg m) gc = true ->
  exists m' tid imgs,
    on_folder_click cfg env p m = (Ok tt, m') /\
    list_images (fs env) (Path_of p) = Ok imgs /\
    current_dir (state m') = p /\
    images_in_dir (state m') = imgs /\
    root_dir (state m') = root_dir (state m) /\
    grid_table (state m') = Some tid /\
    (imgs = [] ->
     grid_view (dpg m') tid = [[InfoCell (no_images_message cfg)]]) /\
    (imgs <> [] -> Forall2 shows imgs (concat (grid_view (dpg m') tid))).
Proof.
  intros S Hpl Hgc Hp Hx.
  destruct (load_directory_images_effect env p m Hpl) as (imgs & Ei & El).
  assert (Hts : Forall (protected n0) [gc]) by (repeat constructor; exact Hp).
  assert (R : inv_and n0 (window_has [gc] (Some gc)) [] [] m).
  { apply ready_intro; auto. }
  apply (triple_exec _ _ _ (window_load_directory_images [gc] (Some gc) Hts
                              [] env p)) in R.
  rewrite (exec_returns _ _ _ _ El) in R.
  match type of El with _ = (_, ?x) => set (m1 := x) in * end.
  destruct (build_thumbnail_grid_shows n0 cfg env m1 gc (ready_sound _ _ _ R)
              (ready_grid_child _ _ _ R) Hp
              (ready_exists _ _ _ gc R ltac:(now left)))
    as (m' & tid & Eb & Hgt & (Hr & Hc & Him) & Hnone & Hsome).
  exists m', tid, imgs.
  split; [unfold on_folder_click, bind; rewrite El; exact Eb|].
  split; [exact Ei|].
  change (images_in_dir (state m1)) with imgs in *.
  change (current_dir (state m1)) with p in *.
  change (root_dir (state m1)) with (root_dir (state m)) in *.
  conjs; auto.
Qed.

Lemma X12_witness :
  exists m' tid imgs,
    on_folder_click linux_cfg good_env "/pics" browser_machine = (Ok tt, m') /\
    list_images (fs good_env) (Path_of "/pics") = Ok imgs /\
    current_dir (state m') = "/pics" /\
    images_in_dir (state m') = imgs /\
    root_dir (state m') = root_dir (state browser_machine) /\
    grid_table (state m') = Some tid /\
    (imgs = [] ->
     grid_view (dpg m') tid = [[InfoCell (no_images_message linux_cfg)]]) /\
    (imgs <> [] -> Forall2 shows imgs (concat (grid_view (dpg m') tid))).
Proof.
  apply (X12_folder_click_shows_the_folder 30 linux_cfg good_env "/pics"
           browser_machine (StrTag "grid_child")).
  - exact browser_machine_sound.
  - reflexivity.
  - reflexivity.
  - exact I.
  - reflexivity.
Defined.

(** ** The sidebar *)

(** One turn of the loop of [rebuild_sidebar_tree]. *)
Lemma sidebar_entry_effect (sub : Path) m :
  wf_dpg (dpg m) ->
  item_exists (dpg m) (StrTag "sidebar_tree") = true ->
  exists m2,
    (let* nid := add_item (Some (StrTag "sidebar_tree")) (TreeNode (name sub)) in
     let* _ := add_item (Some nid) (Button "Open folder" (Some (str sub))) in
     ret tt) m = (Ok tt, m2) /\
    state m2 = state m /\ trace m2 = trace m /\ wf_dpg (dpg m2) /\
    item_exists (dpg m2) (StrTag "sidebar_tree") = true /\
    sidebar_view (dpg m2) = sidebar_view (dpg m) ++ sidebar_of [sub].
Proof.
  intros W Hx.
  pose proof (keeps_wf_sidebar_entry sub m W) as W2.
  set (n := next_id (dpg m)).
  set (node := mkItem (IntTag (Z.pos n)) (Some (StrTag "sidebar_tree"))
                      (TreeNode (name sub))).
  set (btn := mkItem (IntTag (Z.pos (n + 1))) (Some (IntTag (Z.pos n)))
                     (Button "Open folder" (Some (str sub)))).
  assert (E : exists m2,
             (let* nid := add_item (Some (StrTag "sidebar_tree"))
                                   (TreeNode (name sub)) in
              let* _ := add_item (Some nid)
                                 (Button "Open folder" (Some (str sub))) in
              ret tt) m = (Ok tt, m2) /\
             items (dpg m2) = (items (dpg m) ++ [node]) ++ [btn] /\
             state m2 = state m /\ trace m2 = trace m).
  { eexists. split.
    - rewrite bind_add_item by exists_tac. cbv beta.
      rewrite bind_add_item by exists_tac. cbv beta. reflexivity.
    - simpl. auto. }
  destruct E as (m2 & E & Ei & Hs & Htr).
  unfold exec in W2. rewrite E in W2. simpl in W2.
  exists m2. split; [exact E|].
  split; [exact Hs|]. split; [exact Htr|]. split; [exact W2|].
  split.
  { apply (item_exists_grows (dpg m) (dpg m2) [node; btn]); [|exact Hx].
    rewrite Ei, <- app_assoc. reflexivity. }
  assert (Ec : children (dpg m2) (StrTag "sidebar_tree")
               = children (dpg m) (StrTag "sidebar_tree") ++ [node]).
  { unfold children. rewrite Ei, !List.filter_app. simpl.
    now rewrite app_nil_r. }
  unfold sidebar_view. rewrite Ec, map_app. f_equal.
  - apply map_ext_in. intros it Hin. f_equal. f_equal.
    unfold children_where. rewrite Ei, !select_snoc. simpl.
    unfold children in Hin. apply filter_In in Hin as [Hin _].
    pose proof (wf_tag_below _ _ W Hin) as Hb. fold n in Hb.
    unfold has_parent. simpl.
    rewrite bool_decide_eq_false_2; [now rewrite !app_nil_r|].
    intros E'. injection E' as E'. rewrite <- E' in Hb. simpl in Hb.
    apply Z.ltb_lt in Hb. lia.
  - simpl. f_equal. f_equal.
    unfold children_where. rewrite Ei, !select_snoc. simpl.
    rewrite (select_fresh_parent is_button n).
    + unfold has_parent. simpl.
      now rewrite bool_decide_eq_true_2 by reflexivity.
    + apply W.
    + intros k Hk. unfold grid_kind. rewrite Hk.
      now rewrite !orb_true_r.
    + apply tag_below_fresh. lia.
Qed.

Lemma sidebar_entries_effect (subs : list Path) m :
  wf_dpg (dpg m) ->
  item_exists (dpg m) (StrTag "sidebar_tree") = true ->
  exists m',
    for_each subs (fun sub =>
      let* nid := add_item (Some (StrTag "sidebar_tree")) (TreeNode (name sub)) in
      let* _ := add_item (Some nid) (Button "Open folder" (Some (str sub))) in
      ret tt) m = (Ok tt, m') /\
    state m' = state m /\ trace m' = trace m /\ wf_dpg (dpg m') /\
    sidebar_view (dpg m') = sidebar_view (dpg m) ++ sidebar_of subs.
Proof.
  revert m. induction subs as [|sub subs IH]; intros m W Hx.
  - exists m. conjs; auto. simpl. now rewrite app_nil_r.
  - destruct (sidebar_entry_effect sub m W Hx)
      as (m2 & E2 & Hs & Htr & W2 & Hx2 & Hv).
    destruct (IH m2 W2 Hx2) as (m' & E & Hs' & Htr' & W' & Hv').
    exists m'. split.
    { simpl for_each. unfold bind at 1. rewrite E2. exact E. }
    conjs; auto; try congruence.
    rewrite Hv', Hv, <- app_assoc. reflexivity.
Qed.

Lemma rebuild_sidebar_tree_effect n0 env m :
  sound n0 m ->
  item_exists (dpg m) (StrTag "sidebar_tree") = true ->
  exists m', rebuild_sidebar_tree env m = (Ok tt, m') /\
             state m' = state m /\ trace m' = trace m /\ wf_dpg (dpg m') /\
             exists subs,
               list_subdirs (fs env) (Path_of (root_dir (state m))) = Ok subs /\
               sidebar_view (dpg m') = sidebar_of subs.
Proof.
  intros S Hx.
  destruct (list_subdirs_total (fs env) (Path_of (root_dir (state m))))
    as [subs Es].
  set (f := set_label (name (Path_of (root_dir (state m))))).
  set (mu := exec (update_item (StrTag "sidebar_tree") f) m).
  assert (Eu : update_item (StrTag "sidebar_tree") f m = (Ok tt, mu)).
  { unfold mu, exec. now rewrite update_item_ok. }
  assert (Su : sound n0 mu) by now apply sound_set_label.
  assert (Hxu : item_exists (dpg mu) (StrTag "sidebar_tree") = true).
  { unfold mu. now rewrite item_exists_update_item. }
  assert (Hsu : state mu = state m) by apply state_update_item.
  assert (Htu : trace mu = trace m) by apply trace_update_item.
  set (kids := children (dpg mu) (StrTag "sidebar_tree")).
  destruct (delete_all_spec (n0 := n0) (StrTag "sidebar_tree") kids mu I Su)
    as (m1 & E1 & Hs1 & Hn1 & Htr1 & Hsub1 & S1 & Hkeep).
  { apply NoDup_map_filter, (sound_tags mu Su). }
  { apply List.Forall_forall. intros it Hit.
    split; [|split; [|now apply sidebar_children_deletable]].
    - now apply filter_In in Hit as [Hit _].
    - apply filter_In in Hit as [_ Hp]. unfold has_parent in Hp.
      now apply bool_decide_eq_true in Hp. }
  destruct (sidebar_entries_effect subs m1 (sound_wf m1 S1)
              (Hkeep (StrTag "sidebar_tree") I Hxu))
    as (m' & E' & Hs' & Htr' & W' & Hv').
  exists m'.
  split.
  { unfold rebuild_sidebar_tree. unfold bind at 1. unfold get_state at 1.
    unfold bind at 1. unfold try_catch. fold f. rewrite Eu.
    unfold bind at 1. unfold get_item_children. rewrite Hxu.
    fold kids. unfold bind at 1. rewrite E1.
    unfold bind at 1. unfold lift. rewrite Es. exact E'. }
  split; [rewrite Hs', Hs1; exact Hsu|].
  split; [rewrite Htr', Htr1; exact Htu|]. split; [exact W'|].
  exists subs. split; [exact Es|].
  rewrite Hv'.
  assert (Hc : children (dpg m1) (StrTag "sidebar_tree") = []).
  { destruct (children (dpg m1) (StrTag "sidebar_tree")) as [|it r] eqn:Ec;
      [reflexivity|exfalso].
    assert (Hin : In it (children (dpg m1) (StrTag "sidebar_tree")))
      by (rewrite Ec; now left).
    unfold children in Hin. apply filter_In in Hin as [Hin Hp].
    destruct (Hsub1 it Hin) as [H1 H2]. apply H2.
    apply in_map. unfold kids, children. apply filter_In. now split. }
  unfold sidebar_view at 1. rewrite Hc. reflexivity.
Qed.

(** X13: [rebuild_sidebar_tree], on a sound machine where the tree of the
    sidebar, created by [build_ui], is in the registry, returns and touches
    neither [state] nor the trace; afterwards the sidebar holds one tree
    node for each sub-directory of the root that [list_subdirs] returns, in
    that order, labelled with the name of the sub-directory and with one
    button, Open folder, that carries its path; what was below
    [sidebar_tree] before is gone. *)
Theorem X13_sidebar_shows_the_subdirectories
        (n0 : positive) (env : Env) (m : Machine) :
  sound n0 m ->
  item_exists (dpg m) (StrTag "sidebar_tree") = true ->
  exists m' subs,
    rebuild_sidebar_tree env m = (Ok tt, m') /\
    list_subdirs (fs env) (Path_of (root_dir (state m))) = Ok subs /\
    sidebar_view (dpg m') = sidebar_of subs /\
    state m' = state m /\ trace m' = trace m /\ wf_dpg (dpg m').
Proof.
  intros S Hx.
  destruct (rebuild_sidebar_tree_effect n0 env m S Hx)
    as (m' & E & Hs & Htr & W' & subs & Es & Hv).
  exists m', subs. conjs; auto.
Qed.

Lemma album_machine_sound : sound 30 album_machine.
Proof.
  apply (inv_modify_state [] [] (set_root_dir "/album") browser_machine).
  - intros s. repeat split.
  - apply sound_inv, browser_machine_sound.
Qed.

Lemma X13_witness :
  exists m' subs,
    rebuild_sidebar_tree album_env album_machine = (Ok tt, m') /\
    list_subdirs (fs album_env) (Path_of (root_dir (state album_machine)))
    = Ok subs /\
    sidebar_view (dpg m') = sidebar_of subs /\
    state m' = state album_machine /\ trace m' = trace album_machine /\
    wf_dpg (dpg m').
Proof.
  apply (X13_sidebar_shows_the_subdirectories 30 album_env album_machine).
  - exact album_machine_sound.
  - reflexivity.
Defined.


(** ** A new root *)

Lemma set_root_directory_effect n0 cfg env p m gc :
  sound n0 m ->
  item_exists (dpg m) (StrTag "path_label") = true ->
  item_exists (dpg m) (StrTag "sidebar_tree") = true ->
  grid_child (state m) = Some gc -> protected n0 gc ->
  item_exists (dpg m) gc = true ->
  exists m' tid imgs,
    set_root_directory cfg env p m = (Ok tt, m') /\
    list_images (fs env) (Path_of p) = Ok imgs /\
    root_dir (state m') = p /\
    current_dir (state m') = p /\
    images_in_dir (state m') = imgs /\
    grid_table (state m') = Some tid /\
    (imgs = [] ->
     grid_view (dpg m') tid = [[InfoCell (no_images_message cfg)]]) /\
    (imgs <> [] -> Forall2 shows imgs (concat (grid_view (dpg m') tid))).
Proof.
  intros S Hpl Hst Hgc Hp Hx.
  set (ts := [StrTag "path_label"; StrTag "sidebar_tree"; gc]).
  assert (Hts : Forall (protected n0) ts) by (repeat constructor; exact Hp).
  assert (R : inv_and n0 (window_has ts (Some gc)) [] [] m).
  { apply ready_intro; auto. repeat constructor; assumption. }
  set (m0 := mkMachine (set_root_dir p (state m)) (dpg m) (trace m)).
  assert (R0 : inv_and n0 (window_has ts (Some gc)) [] [] m0).
  { apply (triple_exec _ _ _ (window_modify_state ts (Some gc) Hts []
                                (set_root_dir p)
                                ltac:(intros s; repeat split)
                                ltac:(intros s; repeat split)) m R). }
  destruct (load_directory_images_effect env p m0 Hpl) as (imgs & Ei & El).
  pose proof (triple_exec _ _ _ (window_load_directory_images ts (Some gc) Hts
                                   [] env p) m0 R0) as R1.
  rewrite (exec_returns _ _ _ _ El) in R1.
  match type of El with _ = (_, ?x) => set (m1 := x) in * end.
  destruct (rebuild_sidebar_tree_effect n0 env m1 (ready_sound _ _ _ R1)
              (ready_exists _ _ _ (StrTag "sidebar_tree") R1
                 ltac:(right; now left)))
    as (m2 & E2 & Hs2 & _ & _ & _).
  pose proof (triple_exec _ _ _ (window_rebuild_sidebar_tree ts (Some gc) Hts
                                   [] env) m1 R1) as R2.
  rewrite (exec_returns _ _ _ _ E2) in R2.
  destruct (build_thumbnail_grid_shows n0 cfg env m2 gc (ready_sound _ _ _ R2)
              (ready_grid_child _ _ _ R2) Hp
              (ready_exists _ _ _ gc R2 ltac:(right; right; now left)))
    as (m' & tid & Eb & Hgt & (Hr & Hc & Him) & Hnone & Hsome).
  exists m', tid, imgs.
  split.
  { unfold set_root_directory. unfold bind at 1. unfold modify_state at 1.
    fold m0. unfold bind at 1. rewrite El.
    unfold bind at 1. rewrite E2. exact Eb. }
  split; [exact Ei|].
  rewrite Hs2 in *.
  change (images_in_dir (state m1)) with imgs in *.
  change (current_dir (state m1)) with p in *.
  change (root_dir (state m1)) with p in *.
  conjs; auto.
Qed.

(** X14: [set_root_directory p], on a sound machine where the label of the
    path, the tree of the sidebar and the child window of the grid, all
    created by [build_ui], are in the registry, returns; [p] becomes the
    root and the selected directory, its images are stored and the new
    table shows them in order, or the lone informational cell when
    [list_images] finds none. *)
Theorem X14_new_root_is_selected_and_shown
        (n0 : positive) (cfg : Config) (env : Env) (p : string) (m : Machine)
        (gc : tag) :
  sound n0 m ->
  item_exists (dpg m) (StrTag "path_label") = true ->
  item_exists (dpg m) (StrTag "sidebar_tree") = true ->
  grid_child (state m) = Some gc -> protected n0 gc ->
  item_exists (dpg m) gc = true ->
  exists m' tid imgs,
    set_root_directory cfg env p m = (Ok tt, m') /\
    list_images (fs env) (Path_of p) = Ok imgs /\
    root_dir (state m') = p /\
    current_dir (state m') = p /\
    images_in_dir (state m') = imgs /\
    grid_table (state m') = Some tid /\
    (imgs = [] ->
     grid_view (dpg m') tid = [[InfoCell (no_images_message cfg)]]) /\
    (imgs <> [] -> Forall2 shows imgs (concat (grid_view (dpg m') tid))).
Proof. apply set_root_directory_effect. Qed.

Lemma X14_witness :
  exists m' tid imgs,
    set_root_directory linux_cfg album_env "/album" browser_machine = (Ok tt, m') /\
    list_images (fs album_env) (Path_of "/album") = Ok imgs /\
    root_dir (state m') = "/album" /\
    current_dir (state m') = "/album" /\
    images_in_dir (state m') = imgs /\
    grid_table (state m') = Some tid /\
    (imgs = [] ->
     grid_view (dpg m') tid = [[InfoCell (no_images_message linux_cfg)]]) /\
    (imgs <> [] -> Forall2 shows imgs (concat (grid_view (dpg m') tid))).
Proof.
  apply (X14_new_root_is_selected_and_shown 30 linux_cfg album_env "/album"
           browser_machine (StrTag "grid_child")).
  - exact browser_machine_sound.
  - reflexivity.
  - reflexivity.
  - reflexivity.
  - exact I.
  - reflexivity.
Defined.

(** X15: [on_dir_chosen] returns on a sound machine where the label of the
    path, the tree of the sidebar and the child window of the grid, all
    created by [build_ui], are in the registry.  When the dialog names an
    existing directory, that directory becomes the root and the selected
    directory and its images are stored and shown; when the dialog was
    cancelled (no [file_path_name], or an empty one), or what it names is
    not a directory or cannot be examined, nothing changes. *)
Theorem X15_on_dir_chosen
        (n0 : positive) (cfg : Config) (env : Env)
        (app_data : gmap string string) (m : Machine) (gc : tag) :
  sound n0 m ->
  item_exists (dpg m) (StrTag "path_label") = true ->
  item_exists (dpg m) (StrTag "sidebar_tree") = true ->
  grid_child (state m) = Some gc -> protected n0 gc ->
  item_exists (dpg m) gc = true ->
  exists m',
    on_dir_chosen cfg env app_data m = (Ok tt, m') /\
    (forall sel,
        app_data !! "file_path_name" = Some sel -> sel <> EmptyString ->
        stat (fs env) sel = Ok Directory ->
        root_dir (state m') = sel /\ current_dir (state m') = sel /\
        exists imgs tid,
          list_images (fs env) (Path_of sel) = Ok imgs /\
          images_in_dir (state m') = imgs /\
          grid_table (state m') = Some tid /\
          (imgs <> [] -> Forall2 shows imgs (concat (grid_view (dpg m') tid)))) /\
    ((app_data !! "file_path_name" = None \/
      app_data !! "file_path_name" = Some EmptyString \/
      exists sel, app_data !! "file_path_name" = Some sel /\
                  stat (fs env) sel <> Ok Directory) ->
     m' = m).
Proof.
  intros S Hpl Hst Hgc Hp Hx. unfold on_dir_chosen.
  destruct (app_data !! "file_path_name") as [sel|] eqn:Ea.
  - destruct (truthy_str sel) eqn:Et; simpl.
    + assert (Hne : sel <> EmptyString).
      { intros ->. discriminate Et. }
      unfold isdir.
      destruct (stat (fs env) sel) as [[| |]|e] eqn:Es;
        try (exists m; split; [reflexivity|]; split;
             [intros sel' E _ H; injection E as <-; congruence|reflexivity]).
      destruct (set_root_directory_effect n0 cfg env sel m gc S Hpl Hst Hgc Hp Hx)
        as (m' & tid & imgs & E & Ei & Hr & Hc & Him & Hgt & _ & Hsome).
      exists m'. split; [exact E|]. split.
      * intros sel' E' _ _. injection E' as <-.
        split; [exact Hr|]. split; [exact Hc|]. exists imgs, tid. auto.
      * intros [H|[H|(sel' & H & Hn)]]; congruence.
    + exists m. split; [reflexivity|]. split; [|reflexivity].
      intros sel' E Hn _. injection E as <-.
      unfold truthy_str in Et. apply negb_false_iff, String.eqb_eq in Et.
      congruence.
  - exists m. split; [reflexivity|]. split; [|reflexivity].
    intros sel E. discriminate E.
Qed.

Lemma X15_witness :
  exists m',
    on_dir_chosen linux_cfg album_env {[ "file_path_name" := "/album" ]}
                  browser_machine = (Ok tt, m') /\
    (forall sel,
        ({[ "file_path_name" := "/album" ]} : gmap string string)
          !! "file_path_name" = Some sel -> sel <> EmptyString ->
        stat (fs album_env) sel = Ok Directory ->
        root_dir (state m') = sel /\ current_dir (state m') = sel /\
        exists imgs tid,
          list_images (fs album_env) (Path_of sel) = Ok imgs /\
          images_in_dir (state m') = imgs /\
          grid_table (state m') = Some tid /\
          (imgs <> [] -> Forall2 shows imgs (concat (grid_view (dpg m') tid)))) /\
    ((({[ "file_path_name" := "/album" ]} : gmap string string)
        !! "file_path_name" = None \/
      ({[ "file_path_name" := "/album" ]} : gmap string string)
        !! "file_path_name" = Some EmptyString \/
      exists sel, ({[ "file_path_name" := "/album" ]} : gmap string string)
                    !! "file_path_name" = Some sel /\
                  stat (fs album_env) sel <> Ok Directory) ->
     m' = browser_machine).
Proof.
  apply (X15_on_dir_chosen 30 linux_cfg album_env
           {[ "file_path_name" := "/album" ]} browser_machine
           (StrTag "grid_child")).
  - exact browser_machine_sound.
  - reflexivity.
  - reflexivity.
  - reflexivity.
  - exact I.
  - reflexivity.
Defined.

(** ** Properties of the trace and of the cache

    An invariant that does not read the DPG registry is kept by the whole
    program as soon as [thumb_for] and the calls that are logged keep it. *)

Section Outside.
Context (cfg : Config) (I : Machine -> Prop) (allow : Call -> Prop).
Context (I_dpg : forall m d, I m -> I (mkMachine (state m) d (trace m))).
Context (I_state : forall m s', thumb_tex s' = thumb_tex (state m) ->
                                frames s' = frames (state m) ->
                                grid_child s' = grid_child (state m) ->
                                I m -> I (mkMachine s' (dpg m) (trace m))).
Context (I_frames : forall m v, I m -> I (mkMachine (set_frames v (state m))
                                                    (dpg m) (trace m))).
Context (I_log : forall m c, allow c -> I m ->
                             I (mkMachine (state m) (dpg m) (trace m ++ [c]))).
Context (I_thumb_for : forall env p, triple I (thumb_for cfg env p) (fun _ => I) I).

Lemma out_ret {A} (a : A) : triple I (ret a) (fun _ => I) I.
Proof. intros m Hm. exact Hm. Qed.

Lemma out_bind {A B} (c : M A) (k : A -> M B) :
  triple I c (fun _ => I) I -> (forall a, triple I (k a) (fun _ => I) I) ->
  triple I (bind c k) (fun _ => I) I.
Proof. intros Hc Hk. eapply triple_bind; [exact Hc|exact Hk]. Qed.

Lemma out_try_catch {A} (c : M A) (h : exn -> M A) :
  triple I c (fun _ => I) I -> (forall e, triple I (h e) (fun _ => I) I) ->
  triple I (try_catch c h) (fun _ => I) I.
Proof. intros Hc Hh. eapply triple_try_catch; [exact Hc|exact Hh]. Qed.

Lemma out_for_each {A} (l : list A) (body : A -> M unit) :
  (forall x, triple I (body x) (fun _ => I) I) ->
  triple I (for_each l body) (fun _ => I) I.
Proof. intros Hb. apply triple_for_each. intros x _. apply Hb. Qed.

Lemma out_get_state : triple I get_state (fun _ => I) I.
Proof. intros m Hm. exact Hm. Qed.

Lemma out_get_dpg : triple I get_dpg (fun _ => I) I.
Proof. intros m Hm. exact Hm. Qed.

Lemma out_lift {A} (r : result A) : triple I (lift r) (fun _ => I) I.
Proof. apply triple_lift. Qed.

Lemma out_add_item parent k : triple I (add_item parent k) (fun _ => I) I.
Proof.
  intros m Hm. unfold add_item.
  destruct (accepts _ _ _); [now apply (I_dpg m)|exact Hm].
Qed.

Lemma out_delete_item t : triple I (delete_item t) (fun _ => I) I.
Proof.
  intros m Hm. unfold delete_item.
  destruct (item_exists _ _); [now apply (I_dpg m)|exact Hm].
Qed.

Lemma out_update_item t f : triple I (update_item t f) (fun _ => I) I.
Proof.
  intros m Hm. unfold update_item.
  destruct (item_exists _ _); [now apply (I_dpg m)|exact Hm].
Qed.

Lemma out_bind_item_handler_registry a b :
  triple I (bind_item_handler_registry a b) (fun _ => I) I.
Proof.
  intros m Hm. unfold bind_item_handler_registry.
  destruct (_ && _); [now apply (I_dpg m)|exact Hm].
Qed.

Lemma out_get_item_children t : triple I (get_item_children t) (fun _ => I) I.
Proof.
  intros m Hm. unfold get_item_children. destruct (item_exists _ _); exact Hm.
Qed.

Lemma out_get_item_rect_width env t :
  triple I (get_item_rect_width env t) (fun _ => I) I.
Proof.
  intros m Hm. unfold get_item_rect_width. destruct (item_exists _ _); exact Hm.
Qed.

Lemma out_does_item_exist t : triple I (does_item_exist t) (fun _ => I) I.
Proof. intros m Hm. exact Hm. Qed.

Lemma out_modify_state f :
  (forall s, thumb_tex (f s) = thumb_tex s /\ frames (f s) = frames s /\
             grid_child (f s) = grid_child s) ->
  triple I (modify_state f) (fun _ => I) I.
Proof.
  intros Hf m Hm. simpl. destruct (Hf (state m)) as (H1 & H2 & H3).
  now apply I_state.
Qed.

Lemma out_index {A} (l : list A) i : triple I (index l i) (fun _ => I) I.
Proof. intros m Hm. unfold index. now destruct (nth_error l i). Qed.

Lemma out_log c : allow c -> triple I (log c) (fun _ => I) I.
Proof. intros Hc m Hm. simpl. now apply I_log. Qed.

(** One step of a syntax-directed proof. *)
Ltac out_step :=
  match goal with
  | |- triple _ (bind _ _) _ _ => apply out_bind; [|intros ?]
  | |- triple _ (try_catch _ _) _ _ => apply out_try_catch; [|intros ?]
  | |- triple _ (for_each _ _) _ _ => apply out_for_each; intros ?
  | |- triple _ (ret _) _ _ => apply out_ret
  | |- triple _ (lift _) _ _ => apply out_lift
  | |- triple _ get_state _ _ => apply out_get_state
  | |- triple _ get_dpg _ _ => apply out_get_dpg
  | |- triple _ (add_item _ _) _ _ => apply out_add_item
  | |- triple _ (bind_item_handler_registry _ _) _ _ =>
      apply out_bind_item_handler_registry
  | |- triple _ (does_item_exist _) _ _ => apply out_does_item_exist
  | |- triple _ (get_item_children _) _ _ => apply out_get_item_children
  | |- triple _ (get_item_rect_width _ _) _ _ => apply out_get_item_rect_width
  | |- triple _ (delete_item _) _ _ => apply out_delete_item
  | |- triple _ (update_item _ _) _ _ => apply out_update_item
  | |- triple _ (index _ _) _ _ => apply out_index
  | |- triple _ (thumb_for _ _ _) _ _ => apply I_thumb_for
  | |- triple _ (modify_state _) _ _ =>
      apply out_modify_state; intros ?; repeat split
  | |- triple _ (append_thumb_item _) _ _ =>
      apply out_modify_state; intros ?; repeat split
  | |- triple _ (if ?b then _ else _) _ _ => destruct b
  | |- triple _ (match ?x with _ => _ end) _ _ => destruct x
  end.

Lemma out_clear_grid_items : triple I clear_grid_items (fun _ => I) I.
Proof. unfold clear_grid_items. repeat out_step. Qed.

Lemma out_available_grid_width env :
  triple I (available_grid_width env) (fun _ => I) I.
Proof. apply triple_available_grid_width. Qed.

Lemma out_grid_loop env tid cols imgs :
  forall i row, triple I (grid_loop cfg env tid cols i row imgs) (fun _ => I) I.
Proof.
  induction imgs as [|p rest IH]; intros i row; simpl grid_loop.
  - apply out_ret.
  - apply out_bind; [repeat out_step|intros row'].
    apply out_bind; [out_step|intros cell].
    apply out_bind; [apply I_thumb_for|intros tex].
    apply out_bind; [out_step|intros g].
    apply out_bind; [repeat out_step|intros btn].
    apply out_bind; [out_step|intros ihr].
    apply out_bind; [out_step|intros h].
    apply out_bind; [out_step|intros ?].
    apply out_bind; [out_step|intros ?].
    apply out_bind; [out_step|intros ?].
    apply out_bind; [out_step|intros ?].
    apply IH.
Qed.

Lemma out_build_thumbnail_grid env :
  triple I (build_thumbnail_grid cfg env) (fun _ => I) I.
Proof.
  unfold build_thumbnail_grid.
  apply out_bind; [apply out_clear_grid_items|intros ?].
  apply out_bind; [apply out_available_grid_width|intros w].
  apply out_bind; [out_step|intros st].
  apply out_bind; [out_step|intros tid].
  apply out_bind; [out_step|intros ?].
  apply out_bind; [repeat out_step|intros ?].
  apply out_bind; [out_step|intros st'].
  destruct (images_in_dir st'); [repeat out_step|apply out_grid_loop].
Qed.

Lemma out_load_directory_images env p :
  triple I (load_directory_images env p) (fun _ => I) I.
Proof. unfold load_directory_images. repeat out_step. Qed.

Lemma out_rebuild_sidebar_tree env :
  triple I (rebuild_sidebar_tree env) (fun _ => I) I.
Proof. unfold rebuild_sidebar_tree. repeat out_step. Qed.

Lemma out_on_folder_click env p :
  triple I (on_folder_click cfg env p) (fun _ => I) I.
Proof.
  unfold on_folder_click.
  apply out_bind; [apply out_load_directory_images|intros ?].
  apply out_build_thumbnail_grid.
Qed.

Lemma out_set_root_directory env p :
  triple I (set_root_directory cfg env p) (fun _ => I) I.
Proof.
  unfold set_root_directory.
  apply out_bind; [out_step|intros ?].
  apply out_bind; [apply out_load_directory_images|intros ?].
  apply out_bind; [apply out_rebuild_sidebar_tree|intros ?].
  apply out_build_thumbnail_grid.
Qed.

Lemma out_resize_callback env a :
  triple I (resize_callback cfg env a) (fun _ => I) I.
Proof.
  unfold resize_callback.
  apply out_bind; [repeat out_step|intros [[w h]|]]; [|apply out_ret].
  apply out_bind; [out_step|intros ?].
  apply out_build_thumbnail_grid.
Qed.

Lemma out_on_dir_chosen env a :
  triple I (on_dir_chosen cfg env a) (fun _ => I) I.
Proof.
  unfold on_dir_chosen.
  destruct (a !! "file_path_name") as [sel|]; [|apply out_ret].
  destruct (_ && _); [apply out_set_root_directory|apply out_ret].
Qed.

Lemma out_render_frame env l :
  triple I (render_frame cfg env l) (fun _ => I) I.
Proof.
  unfold render_frame.
  apply out_bind; [intros m Hm; simpl; now apply I_frames|intros ?].
  apply out_bind; [out_step|intros st].
  apply out_bind; [out_step|intros ?].
  destruct (grid_child st) as [gc|]; [|apply out_ret].
  destruct (truthy_tag gc); [|apply out_ret].
  apply out_bind; [out_step|intros gw].
  destruct (_ && _); [|apply out_ret].
  apply out_bind; [apply out_build_thumbnail_grid|intros ?]. apply out_ret.
Qed.

Lemma out_popen env argv :
  allow (Popen argv) -> triple I (popen env argv) (fun _ => I) I.
Proof.
  intros Ha. unfold popen.
  apply out_bind; [now apply out_log|intros ?].
  destruct (spawn_errno env argv); [apply triple_raise|apply out_ret].
Qed.

Lemma out_startfile env p :
  allow (Startfile p) -> triple I (startfile env p) (fun _ => I) I.
Proof.
  intros Ha. unfold startfile.
  apply out_bind; [now apply out_log|intros ?].
  destruct (startfile_errno env p); [apply triple_raise|apply out_ret].
Qed.

Lemma out_call env cb :
  (launches cb = true -> forall c, is_spawn c = true -> allow c) ->
  triple I (call cfg env cb) (fun _ => I) I.
Proof.
  intros Ha. destruct cb as [[p|p|p|p|a|]|a|]; simpl.
  - apply out_bind; [apply I_thumb_for|intros ?; apply out_ret].
  - apply out_on_folder_click.
  - specialize (Ha eq_refl).
    unfold on_thumb_double, launch_viewer.
    apply out_try_catch; [apply out_popen; now apply Ha|intros _].
    unfold open_system_viewer.
    destruct (String.prefix _ _); [apply out_startfile; now apply Ha|].
    destruct (String.eqb _ _); apply out_popen; now apply Ha.
  - apply out_set_root_directory.
  - apply out_resize_callback.
  - apply out_build_thumbnail_grid.
  - apply out_on_dir_chosen.
  - specialize (Ha eq_refl). unfold on_open_in_explorer.
    apply out_bind; [apply out_get_state|intros st].
    destruct (String.prefix _ _); [apply out_startfile; now apply Ha|].
    destruct (String.eqb _ _); apply out_popen; now apply Ha.
Qed.

Lemma out_run_callbacks cbs :
  Forall (fun ec => launches (snd ec) = true ->
                    forall c, is_spawn c = true -> allow c) cbs ->
  forall m, I m -> I (run_callbacks cfg cbs m).
Proof.
  induction 1 as [|[env cb] cbs Hcb _ IH]; intros m Hm; simpl; [exact Hm|].
  apply IH. eapply triple_exec; [apply out_call; exact Hcb|exact Hm].
Qed.

Lemma out_render_loop turns :
  Forall (fun t => Forall (fun ec => launches (snd ec) = true ->
                                     forall c, is_spawn c = true -> allow c)
                          (turn_callbacks t)) turns ->
  forall l m, I m -> I (snd (render_loop cfg turns l m)).
Proof.
  induction 1 as [|t turns Ht _ IH]; intros l m Hm; simpl; [exact Hm|].
  pose proof (out_render_frame (turn_env t) l m Hm) as H.
  destruct (render_frame cfg (turn_env t) l m) as [[l'|e] m']; [|exact H].
  apply IH. now apply out_run_callbacks.
Qed.

End Outside.

Lemma spawns_app tr tr' : spawns (tr ++ tr') = spawns tr ++ spawns tr'.
Proof. apply List.filter_app. Qed.

Lemma decodes_app tr tr' : decodes (tr ++ tr') = decodes tr ++ decodes tr'.
Proof. apply List.filter_app. Qed.

(** X16: browsing starts nothing: as long as no thumbnail is double-clicked
    and Open in Explorer is not pressed, the render loop and the callbacks
    (choice of a root, click on a folder, resize) start no process and hand
    no path to the operating system; all they add to the trace is the
    decoding of images. *)
Theorem X16_browsing_starts_no_process
        (cfg : Config) (turns : list Turn) (l : Loop) (m : Machine) :
  Forall (fun t => Forall (fun ec => launches (snd ec) = false)
                          (turn_callbacks t)) turns ->
  spawns (trace (snd (render_loop cfg turns l m))) = spawns (trace m).
Proof.
  intros H.
  apply (out_render_loop cfg (fun m' => spawns (trace m') = spawns (trace m))
           (fun c => is_spawn c = false)); auto.
  - intros m' c Hc Hm'. simpl. rewrite spawns_app, Hm'. simpl. rewrite Hc.
    apply app_nil_r.
  - intros env p m' Hm'.
    destruct (thumb_for_cases cfg env p m')
      as [[_ ->]|[(t & _ & _ & ->)|[[_ ->]|[_ [im ->]]]]]; simpl; auto;
      rewrite spawns_app, Hm'; apply app_nil_r.
  - eapply List.Forall_impl; [|exact H]. intros t Ht.
    eapply List.Forall_impl; [|exact Ht]. intros ec Hec Hl. congruence.
Qed.

Lemma X16_witness :
  Forall (fun t => Forall (fun ec => launches (snd ec) = false)
                          (turn_callbacks t)) browsing_turns /\
  spawns (trace (snd (render_loop linux_cfg browsing_turns sample_loop
                                  browser_machine)))
  = spawns (trace browser_machine).
Proof.
  assert (H : Forall (fun t => Forall (fun ec => launches (snd ec) = false)
                                      (turn_callbacks t)) browsing_turns)
    by (repeat constructor).
  split; [exact H|].
  exact (X16_browsing_starts_no_process linux_cfg browsing_turns sample_loop
           browser_machine H).
Defined.

(** X17: without Pillow the browser never opens an image file: through
    every turn of the render loop and every callback the thumbnail cache
    stays as it is and no decoding is added to the trace. *)
Theorem X17_without_pillow_nothing_is_decoded
        (cfg : Config) (turns : list Turn) (l : Loop) (m : Machine) :
  PIL_OK cfg = false ->
  let m' := snd (render_loop cfg turns l m) in
  thumb_tex (state m') = thumb_tex (state m) /\
  decodes (trace m') = decodes (trace m).
Proof.
  intros Hpil.
  apply (out_render_loop cfg
           (fun m' => thumb_tex (state m') = thumb_tex (state m) /\
                      decodes (trace m') = decodes (trace m))
           (fun c => is_spawn c = true)); auto.
  - intros m' s' Hs' _ _ [H1 H2]. simpl. split; congruence.
  - intros m' c Hc [H1 H2]. simpl. split; [exact H1|].
    rewrite decodes_app, H2. simpl. rewrite Hc. apply app_nil_r.
  - intros env p m' Hm'. now rewrite (thumb_for_disabled cfg env p m' Hpil).
  - apply List.Forall_forall. intros t _.
    apply List.Forall_forall. intros ec _ _ c Hc. exact Hc.
Qed.

Lemma X17_witness :
  PIL_OK no_pillow_cfg = false /\
  let m' := snd (render_loop no_pillow_cfg sample_turns sample_loop
                             browser_machine) in
  thumb_tex (state m') = thumb_tex (state browser_machine) /\
  decodes (trace m') = decodes (trace browser_machine).
Proof.
  split; [reflexivity|].
  exact (X17_without_pillow_nothing_is_decoded no_pillow_cfg sample_turns
           sample_loop browser_machine eq_refl).
Defined.

(** ** The two modes of the program *)

(** X18: the process that [launch_viewer] starts is a viewer of the very
    image: the first thing [launch_viewer] does is to spawn the command line
    [viewer_argv], and the main program, given the arguments of that command
    line, takes the viewer branch with the same path, whatever the path
    looks like; with fewer than two arguments it is the browser that
    starts. *)
Theorem X18_viewer_process_views_the_image
        (cfg : Config) (env : Env) (image_path : string) (m : Machine) :
  (exists rest,
      trace (exec (launch_viewer cfg env image_path) m)
      = trace m ++ Popen (viewer_argv cfg image_path) :: rest) /\
  dispatch (sys_argv (viewer_argv cfg image_path)) = ViewerMode image_path /\
  (forall argv, (List.length argv < 3)%nat -> dispatch argv = BrowserMode).
Proof.
  split; [|split].
  - unfold launch_viewer, exec, try_catch, popen, bind, log. simpl.
    fold (viewer_argv cfg image_path).
    destruct (spawn_errno env (viewer_argv cfg image_path)); simpl.
    + unfold open_system_viewer.
      destruct (String.prefix _ _); [|destruct (String.eqb _ _)];
        unfold startfile, popen, bind, log; simpl;
        match goal with
        | |- context [match ?x with Some _ => _ | None => _ end] => destruct x
        end; simpl; rewrite <- app_assoc; eexists; reflexivity.
    + exists []. reflexivity.
  - reflexivity.
  - intros [|a0 [|a1 [|a2 argv]]] H; simpl in *; try reflexivity. lia.
Qed.

(** ** The render loop *)

(** The keys of [state] that only the render loop writes, or nothing. *)
Lemma thumb_for_keeps_frames cfg env p m :
  frames (state (exec (thumb_for cfg env p) m)) = frames (state m) /\
  grid_child (state (exec (thumb_for cfg env p) m)) = grid_child (state m).
Proof.
  unfold exec.
  destruct (thumb_for_cases cfg env p m)
    as [[_ ->]|[(t & _ & _ & ->)|[[_ ->]|[_ [im ->]]]]]; split; reflexivity.
Qed.

Section Frames.
Context (cfg : Config) (f0 : Z) (g0 : option tag).


Lemma steady_thumb_for env p :
  triple (steady_at f0 g0) (thumb_for cfg env p) (fun _ => (steady_at f0 g0)) (steady_at f0 g0).
Proof.
  intros m [H1 H2].
  destruct (thumb_for_keeps_frames cfg env p m) as [E1 E2]. unfold exec in *.
  destruct (thumb_for cfg env p m) as [[a|e] m']; simpl in *; split; congruence.
Qed.

Lemma steady_build_thumbnail_grid env :
  triple (steady_at f0 g0) (build_thumbnail_grid cfg env) (fun _ => (steady_at f0 g0)) (steady_at f0 g0).
Proof.
  apply (out_build_thumbnail_grid cfg (steady_at f0 g0)).
  - intros m d H. exact H.
  - intros m s' _ Hf Hg [H1 H2]. split; simpl; congruence.
  - apply steady_thumb_for.
Qed.

Lemma steady_call env cb :
  triple (steady_at f0 g0) (call cfg env cb) (fun _ => (steady_at f0 g0)) (steady_at f0 g0).
Proof.
  apply (out_call cfg (steady_at f0 g0) (fun _ => True)); auto.
  - intros m s' _ Hf Hg [H1 H2]. split; simpl; congruence.
  - apply steady_thumb_for.
Qed.

Lemma steady_run_callbacks cbs m :
  (steady_at f0 g0) m -> (steady_at f0 g0) (run_callbacks cfg cbs m).
Proof.
  revert m. induction cbs as [|[env cb] cbs IH]; intros m Hm; simpl; [exact Hm|].
  apply IH. eapply triple_exec; [apply steady_call|exact Hm].
Qed.

End Frames.

Lemma title_follows_step (l : Loop) (f0 : Z) :
  last_title l = 10 * (f0 / 10) ->
  viewport_title l = frames_title (last_title l) ->
  let f := f0 + 1 in
  let l1 := if (f - last_title l >=? 10)%Z
            then mkLoop (last_w l) f (frames_title f) else l in
  last_title l1 = 10 * (f / 10) /\
  viewport_title l1 = frames_title (last_title l1).
Proof.
  intros Hl Hv f l1. subst f l1.
  destruct (f0 + 1 - last_title l >=? 10)%Z eqn:E; simpl.
  - split; [|reflexivity]. apply Z.geb_le in E.
    rewrite Hl in E. clear Hl Hv. Z.div_mod_to_equations. lia.
  - split; [|exact Hv]. rewrite Z.geb_leb in E. apply Z.leb_gt in E.
    rewrite Hl in *. clear Hl Hv. Z.div_mod_to_equations. lia.
Qed.

Lemma render_frame_counts n0 cfg env l m gc :
  sound n0 m ->
  item_exists (dpg m) (StrTag "frame_label") = true ->
  grid_child (state m) = Some gc -> protected n0 gc ->
  item_exists (dpg m) gc = true ->
  exists l' m',
    render_frame cfg env l m = (Ok l', m') /\
    frames (state m') = frames (state m) + 1 /\
    grid_child (state m') = grid_child (state m) /\
    (title_follows l (state m) -> title_follows l' (state m')).
Proof.
  intros S Hfl Hg Hp Hx.
  assert (Hgx : forall gc', grid_child (state m) = Some gc' ->
                            truthy_tag gc' = true ->
                            item_exists (dpg m) gc' = true).
  { intros gc' E _. rewrite Hg in E. now injection E as <-. }
  pose proof (render_frame_effect cfg env l m Hfl Hgx) as E. cbv zeta in E.
  set (f := frames (state m) + 1) in *.
  set (l1 := if (f - last_title l >=? 10)%Z
             then mkLoop (last_w l) f (frames_title f) else l) in *.
  assert (Ht : title_follows l (state m) ->
               last_title l1 = 10 * (f / 10) /\
               viewport_title l1 = frames_title (last_title l1)).
  { intros [H1 H2]. apply (title_follows_step l (frames (state m)) H1 H2). }
  assert (Hc : frames (state (count_frame m)) = f /\
               grid_child (state (count_frame m)) = grid_child (state m)).
  { unfold count_frame. rewrite state_update_item. split; reflexivity. }
  assert (Plain : exists l' m',
             (Ok l1, count_frame m) = (Ok l', m') /\
             frames (state m') = f /\
             grid_child (state m') = grid_child (state m) /\
             (title_follows l (state m) -> title_follows l' (state m'))).
  { exists l1, (count_frame m). destruct Hc as [Hc1 Hc2]. conjs; auto.
    intros H. destruct (Ht H) as [H1 H2]. split; [|exact H2].
    now rewrite H1, Hc1. }
  rewrite E. rewrite Hg in *.
  destruct (_ && _); [|exact Plain].
  assert (Sc : sound n0 (count_frame m)).
  { apply (inv_count_frame [] m). now apply sound_inv. }
  assert (Hxc : item_exists (dpg (count_frame m)) gc = true)
    by now rewrite item_exists_count_frame.
  destruct (build_thumbnail_grid_shows n0 cfg env (count_frame m) gc Sc
              (proj2 Hc) Hp Hxc) as (m2 & tid & Eb & _).
  pose proof (steady_build_thumbnail_grid cfg f (Some gc) env (count_frame m) Hc)
    as Hs.
  unfold bind. rewrite Eb in *.
  destruct Hs as [Hf Hg2].
  eexists _, m2. split; [reflexivity|]. conjs; auto.
  intros H. destruct (Ht H) as [H1 H2]. split; simpl; [|exact H2].
  now rewrite H1, Hf.
Qed.

(** X19: on a sound machine where the label of the frame counter and the
    child window of the grid, both created by [build_ui], are in the
    registry, the render loop never ends on an exception, whatever the
    callbacks do; it counts one frame a turn, no callback touches the
    counter, and the title of the viewport follows the counter in steps of
    ten: it always shows the largest multiple of ten that the counter has
    reached. *)
Theorem X19_render_loop_counts_frames
        (n0 : positive) (cfg : Config) (turns : list Turn) (l : Loop)
        (m : Machine) (gc : tag) :
  sound n0 m ->
  item_exists (dpg m) (StrTag "frame_label") = true ->
  grid_child (state m) = Some gc -> protected n0 gc ->
  item_exists (dpg m) gc = true ->
  title_follows l (state m) ->
  exists l',
    fst (render_loop cfg turns l m) = Ok l' /\
    let m' := snd (render_loop cfg turns l m) in
    frames (state m') = frames (state m) + Z.of_nat (List.length turns) /\
    title_follows l' (state m').
Proof.
  intros S Hfl Hg Hp Hx.
  set (ts := [StrTag "frame_label"; gc]).
  assert (Hts : Forall (protected n0) ts) by (repeat constructor; exact Hp).
  assert (R : inv_and n0 (window_has ts (Some gc)) [] [] m).
  { apply ready_intro; auto. repeat constructor; assumption. }
  clear S Hfl Hg Hx. revert l m R.
  induction turns as [|t turns IH]; intros l m R Ht.
  - exists l. simpl. split; [reflexivity|]. split; [lia|exact Ht].
  - destruct (render_frame_counts n0 cfg (turn_env t) l m gc
                (ready_sound _ _ _ R)
                (ready_exists _ _ _ (StrTag "frame_label") R ltac:(now left))
                (ready_grid_child _ _ _ R) Hp
                (ready_exists _ _ _ gc R ltac:(right; now left)))
      as (l1 & m1 & E & Hf & Hg & Hl).
    specialize (Hl Ht).
    pose proof (triple_exec _ _ _ (window_render_frame ts (Some gc) Hts []
                                     cfg (turn_env t) l) m R) as R1.
    rewrite (exec_returns _ _ _ _ E) in R1.
    pose proof (steady_run_callbacks cfg (frames (state m1)) (grid_child (state m1))
                  (turn_callbacks t) m1 (conj eq_refl eq_refl)) as [Hf2 _].
    pose proof (window_run_callbacks ts (Some gc) Hts [] cfg (turn_callbacks t)
                  m1 R1) as R2.
    set (m2 := run_callbacks cfg (turn_callbacks t) m1) in *.
    assert (Hl2 : title_follows l1 (state m2)).
    { destruct Hl as [H1 H2]. split; [|exact H2]. now rewrite Hf2. }
    destruct (IH l1 m2 R2 Hl2) as (l' & El & Hfr & Hfin).
    exists l'. simpl render_loop. rewrite E. fold m2.
    split; [exact El|]. cbv zeta in *. split; [|exact Hfin].
    rewrite Hfr, Hf2, Hf. simpl List.length. lia.
Qed.

Lemma X19_witness :
  exists l',
    fst (render_loop linux_cfg sample_turns sample_loop browser_machine) = Ok l' /\
    let m' := snd (render_loop linux_cfg sample_turns sample_loop browser_machine) in
    frames (state m') = frames (state browser_machine)
                        + Z.of_nat (List.length sample_turns) /\
    title_follows l' (state m').
Proof.
  apply (X19_render_loop_counts_frames 30 linux_cfg sample_turns sample_loop
           browser_machine (StrTag "grid_child")).
  - exact browser_machine_sound.
  - reflexivity.
  - reflexivity.
  - exact I.
  - reflexivity.
  - split; reflexivity.
Defined.

Lemma render_frame_steady cfg env l m :
  item_exists (dpg m) (StrTag "frame_label") = true ->
  (forall gc, grid_child (state m) = Some gc -> truthy_tag gc = true ->
              item_exists (dpg m) gc = true /\
              (rect_width env gc = 0 \/ rect_width env gc = last_w l)) ->
  exists l', render_frame cfg env l m = (Ok l', count_frame m) /\
             last_w l' = last_w l.
Proof.
  intros Hfl H. rewrite render_frame_effect;
    [|exact Hfl|intros gc E Et; now apply (H gc)].
  cbv zeta.
  set (l1 := if (_ >=? 10)%Z then _ else l).
  assert (Hw : last_w l1 = last_w l) by (subst l1; now destruct (_ >=? _)%Z).
  destruct (grid_child (state m)) as [gc|]; [|now exists l1].
  destruct (truthy_tag gc) eqn:Et; [|now exists l1].
  destruct (H gc eq_refl Et) as [_ [E|E]]; rewrite E; simpl.
  - now exists l1.
  - rewrite Z.eqb_refl, andb_false_r. now exists l1.
Qed.

(** X20: a turn of the render loop that measures the width it has laid out
    last, or no width, only counts the frame, provided that the label of
    the frame counter and the child window that it measures are in the
    registry: the registry changes by the text of the frame counter alone,
    [state] by the key [frames] alone, nothing is decoded or started, and
    no table is rebuilt. *)
Theorem X20_steady_width_is_not_laid_out_again
        (cfg : Config) (env : Env) (l : Loop) (m : Machine) :
  item_exists (dpg m) (StrTag "frame_label") = true ->
  (forall gc, grid_child (state m) = Some gc -> truthy_tag gc = true ->
              item_exists (dpg m) gc = true /\
              (rect_width env gc = 0 \/ rect_width env gc = last_w l)) ->
  exists l' m',
    render_frame cfg env l m = (Ok l', m') /\
    last_w l' = last_w l /\
    state m' = set_frames (frames (state m) + 1) (state m) /\
    trace m' = trace m /\
    dpg m' = dpg (exec (update_item (StrTag "frame_label")
                          (set_text_value (str_of_int (frames (state m) + 1)))) m).
Proof.
  intros Hfl H. destruct (render_frame_steady cfg env l m Hfl H) as (l' & E & Hw).
  exists l', (count_frame m). split; [exact E|]. split; [exact Hw|].
  unfold count_frame, exec.
  rewrite !update_item_ok by exact Hfl. conjs; reflexivity.
Qed.

Lemma X20_witness :
  exists l' m',
    render_frame linux_cfg good_env (mkLoop 500 0 EmptyString) browser_machine
    = (Ok l', m') /\
    last_w l' = last_w (mkLoop 500 0 EmptyString) /\
    state m' = set_frames (frames (state browser_machine) + 1)
                          (state browser_machine) /\
    trace m' = trace browser_machine /\
    dpg m' = dpg (exec (update_item (StrTag "frame_label")
                          (set_text_value
                             (str_of_int (frames (state browser_machine) + 1))))
                       browser_machine).
Proof.
  apply (X20_steady_width_is_not_laid_out_again linux_cfg good_env
           (mkLoop 500 0 EmptyString) browser_machine).
  - reflexivity.
  - intros gc E _. injection E as <-. split; [reflexivity|right; reflexivity].
Defined.

(** X21: a width is laid out once.  On a sound machine where the label of
    the frame counter and the child window of the grid, both created by
    [build_ui], are in the registry: after a turn of the render loop that
    measured the grid (whether it rebuilt the table or not), a next turn
    that measures the same width only counts the frame. *)
Theorem X21_a_width_is_laid_out_once
        (n0 : positive) (cfg : Config) (env env2 : Env) (l : Loop)
        (m : Machine) (gc : tag) :
  sound n0 m ->
  item_exists (dpg m) (StrTag "frame_label") = true ->
  protected n0 gc -> item_exists (dpg m) gc = true ->
  grid_child (state m) = Some gc -> truthy_tag gc = true ->
  rect_width env2 gc = rect_width env gc ->
  exists l1 m1 l2,
    render_frame cfg env l m = (Ok l1, m1) /\
    render_frame cfg env2 l1 m1 = (Ok l2, count_frame m1) /\
    last_w l2 = last_w l1.
Proof.
  intros S Hfl Hp Hx Hg Ht Hw.
  destruct (render_frame_counts n0 cfg env l m gc S Hfl Hg Hp Hx)
    as (l1 & m1 & E1 & _ & Hg1 & _).
  set (ts := [StrTag "frame_label"; gc]).
  assert (Hts : Forall (protected n0) ts) by (repeat constructor; exact Hp).
  assert (R : inv_and n0 (window_has ts (Some gc)) [] [] m).
  { apply ready_intro; auto. repeat constructor; assumption. }
  apply (triple_exec _ _ _ (window_render_frame ts (Some gc) Hts []
                              cfg env l)) in R.
  rewrite (exec_returns _ _ _ _ E1) in R.
  assert (Hgx : forall gc', grid_child (state m) = Some gc' ->
                            truthy_tag gc' = true ->
                            item_exists (dpg m) gc' = true).
  { intros gc' E _. rewrite Hg in E. now injection E as <-. }
  assert (Hl1 : rect_width env gc = 0 \/ rect_width env gc = last_w l1).
  { pose proof (render_frame_effect cfg env l m Hfl Hgx) as E. cbv zeta in E.
    rewrite E1, Hg, Ht in E. simpl andb in E.
    destruct (truthy_int (rect_width env gc)) eqn:Etr; simpl andb in E.
    - destruct (rect_width env gc =? last_w l)%Z eqn:Ew; simpl in E.
      + right. apply Z.eqb_eq in Ew. injection E as -> _.
        now destruct (_ >=? _)%Z.
      + unfold bind in E.
        destruct (build_thumbnail_grid cfg env (count_frame m)) as [[[]|e] m2];
          [|discriminate E].
        injection E as -> _. right. reflexivity.
    - left. unfold truthy_int in Etr. apply negb_false_iff in Etr.
      now apply Z.eqb_eq in Etr. }
  destruct (render_frame_steady cfg env2 l1 m1) as (l2 & E2 & Hw2).
  { apply (ready_exists _ _ _ (StrTag "frame_label") R). now left. }
  { intros gc' Hgc' _. rewrite Hg1, Hg in Hgc'. injection Hgc' as <-.
    split; [apply (ready_exists _ _ _ gc R); right; now left|].
    now rewrite Hw. }
  exists l1, m1, l2. auto.
Qed.

Lemma X21_witness :
  exists l1 m1 l2,
    render_frame linux_cfg good_env sample_loop browser_machine = (Ok l1, m1) /\
    render_frame linux_cfg good_env l1 m1 = (Ok l2, count_frame m1) /\
    last_w l2 = last_w l1.
Proof.
  apply (X21_a_width_is_laid_out_once 30 linux_cfg good_env good_env
           sample_loop browser_machine (StrTag "grid_child")).
  - exact browser_machine_sound.
  - reflexivity.
  - exact I.
  - reflexivity.
  - reflexivity.
  - reflexivity.
  - reflexivity.
Defined.

(** ** The viewer *)

(** X22: when Pillow is missing or the image cannot be decoded, the viewer
    shows nothing itself (no window, no image, no viewport) and hands the
    image to the operating system: the only thing that leaves the process is
    the opener's call for that path, without Pillow not even the attempt to
    decode. *)
Theorem X22_viewer_falls_back_to_the_system
        (cfg : Config) (venv : ViewerEnv) (image_path : string) (m : Machine) :
  PIL_OK cfg = false \/ (exists e, load_view venv image_path = Raise e) ->
  let calls := fst (viewer_mode cfg venv image_path m) in
  let m' := snd (snd (viewer_mode cfg venv image_path m)) in
  List.filter is_window_call calls = [] /\
  spawns (trace m') = spawns (trace m) ++ [system_open_call cfg image_path] /\
  (PIL_OK cfg = false ->
   calls = [] /\ trace m' = trace m ++ [system_open_call cfg image_path]) /\
  state m' = state m /\ dpg m' = dpg m.
Proof.
  intros H calls m'. subst calls m'. unfold viewer_mode.
  assert (Hs : is_spawn (system_open_call cfg image_path) = true).
  { unfold system_open_call.
    destruct (String.prefix _ _); [|destruct (String.eqb _ _)]; reflexivity. }
  destruct (PIL_OK cfg) eqn:Hpil; simpl negb; cbv iota.
  - destruct H as [H|[e He]]; [discriminate|]. rewrite He. simpl fst. simpl snd.
    set (m1 := exec (log (ImageOpen image_path)) m).
    destruct (open_system_viewer_trace cfg (view_env venv) image_path m1)
      as (Ht & Hst & Hd).
    unfold exec in Ht, Hst, Hd.
    rewrite Ht, Hst, Hd. simpl.
    rewrite !spawns_app. simpl. rewrite Hs, app_nil_r.
    conjs; auto. intros E. discriminate E.
  - simpl fst. simpl snd.
    destruct (open_system_viewer_trace cfg (view_env venv) image_path m)
      as (Ht & Hst & Hd).
    unfold exec in Ht, Hst, Hd.
    rewrite Ht, Hst, Hd.
    rewrite !spawns_app. simpl. rewrite Hs.
    conjs; auto.
Qed.

Lemma X22_witness :
  (PIL_OK linux_cfg = false \/
   (exists e, load_view blind_world "/pics/a.jpg" = Raise e)) /\
  let calls := fst (viewer_mode linux_cfg blind_world "/pics/a.jpg" start_machine) in
  let m' := snd (snd (viewer_mode linux_cfg blind_world "/pics/a.jpg"
                                  start_machine)) in
  List.filter is_window_call calls = [] /\
  spawns (trace m') = spawns (trace start_machine)
                      ++ [system_open_call linux_cfg "/pics/a.jpg"] /\
  (PIL_OK linux_cfg = false ->
   calls = [] /\
   trace m' = trace start_machine ++ [system_open_call linux_cfg "/pics/a.jpg"]) /\
  state m' = state start_machine /\ dpg m' = dpg start_machine.
Proof.
  assert (H : PIL_OK linux_cfg = false \/
              (exists e, load_view blind_world "/pics/a.jpg" = Raise e))
    by (right; eexists; reflexivity).
  split; [exact H|].
  exact (X22_viewer_falls_back_to_the_system linux_cfg blind_world "/pics/a.jpg"
           start_machine H).
Defined.

(** X23: when the image decodes, the viewer never calls the operating
    system; it makes its DPG calls between [create_context] and
    [destroy_context] and renders as long as the window lives.  For an image
    within the bounds that [thumbnail((1600, 1000))] guarantees, the limits
    of 1800 and 1200 are never reached: the viewport is the image plus 40 by
    100, the window the image plus 20 by 40, so the image fits in the window
    and the window in the viewport. *)
Theorem X23_viewer_window_fits_the_image
        (cfg : Config) (venv : ViewerEnv) (image_path : string) (m : Machine)
        (im : Image) :
  PIL_OK cfg = true ->
  load_view venv image_path = Ok im ->
  1 <= img_width im <= 1600 -> 1 <= img_height im <= 1000 ->
  let w := img_width im in
  let h := img_height im in
  exists shown,
    viewer_mode cfg venv image_path m
    = (CreateContext :: shown ++ repeat RenderFrame (view_frames venv)
                     ++ [DestroyContext],
       (Ok tt, mkMachine (state m) (dpg m) (trace m ++ [ImageOpen image_path]))) /\
    List.filter is_window_call shown
    = [AddWindow (basename image_path) "main_window" (w + 20) (h + 40);
       AddImage;
       CreateViewport ("Image Viewer — " ++ basename image_path)
                      (w + 40) (h + 100) 100 100] /\
    In (AddStaticTexture w h (img_data im)) shown /\
    ~ In RenderFrame shown /\ ~ In DestroyContext shown /\
    w <= w + 20 <= w + 40 /\ h <= h + 40 <= h + 100.
Proof.
  intros Hpil Hl Hw Hh w h. subst w h.
  unfold viewer_mode. rewrite Hpil, Hl. simpl negb. cbv iota.
  rewrite !Z.min_l by lia.
  replace (img_width im + 40 - 20) with (img_width im + 20) by lia.
  replace (img_height im + 100 - 60) with (img_height im + 40) by lia.
  destruct (has_set_primary_window venv).
  - eexists [AddTextureRegistry; _; _; _; _; _; _; _].
    split; [reflexivity|]. simpl.
    conjs; auto; try lia; intuition discriminate.
  - eexists [AddTextureRegistry; _; _; _; _; _; _].
    split; [reflexivity|]. simpl.
    conjs; auto; try lia; intuition discriminate.
Qed.

Lemma X23_witness :
  PIL_OK linux_cfg = true /\
  load_view view_world "/pics/a.jpg" = Ok (mkImage 1200 800 []) /\
  1 <= 1200 <= 1600 /\ 1 <= 800 <= 1000 /\
  exists shown,
    viewer_mode linux_cfg view_world "/pics/a.jpg" start_machine
    = (CreateContext :: shown ++ repeat RenderFrame (view_frames view_world)
                     ++ [DestroyContext],
       (Ok tt, mkMachine (state start_machine) (dpg start_machine)
                         (trace start_machine ++ [ImageOpen "/pics/a.jpg"]))) /\
    List.filter is_window_call shown
    = [AddWindow (basename "/pics/a.jpg") "main_window" (1200 + 20) (800 + 40);
       AddImage;
       CreateViewport ("Image Viewer — " ++ basename "/pics/a.jpg")
                      (1200 + 40) (800 + 100) 100 100] /\
    In (AddStaticTexture 1200 800 []) shown /\
    ~ In RenderFrame shown /\ ~ In DestroyContext shown /\
    1200 <= 1200 + 20 <= 1200 + 40 /\ 800 <= 800 + 40 <= 800 + 100.
Proof.
  split; [reflexivity|]. split; [reflexivity|].
  split; [lia|]. split; [lia|].
  apply (X23_viewer_window_fits_the_image linux_cfg view_world "/pics/a.jpg"
           start_machine (mkImage 1200 800 []) eq_refl eq_refl); simpl; lia.
Defined.

(** X24: the browser never deletes what [build_ui] made: an item with an
    alias (the main window, the labels, the tree of the sidebar, the child
    window of the grid, the texture registry) or with an identifier
    generated before the browser started stays in the registry, below the
    parent it had, through every turn of the render loop and every
    callback. *)
Theorem X24_aliased_items_are_never_deleted
        (n0 : positive) (cfg : Config) (turns : list Turn) (l : Loop)
        (m : Machine) (t : tag) (q : option tag) :
  sound n0 m -> protected n0 t -> present m t q ->
  present (snd (render_loop cfg turns l m)) t q.
Proof. intros S Hp. now apply (present_render_loop t q Hp). Qed.

Lemma X24_witness :
  sound 30 shown_machine /\
  protected 30 (StrTag "grid_child") /\
  present shown_machine (StrTag "grid_child") (Some (StrTag "main_window")) /\
  present (snd (render_loop linux_cfg sample_turns sample_loop shown_machine))
          (StrTag "grid_child") (Some (StrTag "main_window")).
Proof.
  assert (H : present shown_machine (StrTag "grid_child")
                      (Some (StrTag "main_window"))).
  { exists (mkItem (StrTag "grid_child") (Some (StrTag "main_window")) ChildWindow).
    split; [pick_item|split; reflexivity]. }
  split; [exact shown_machine_sound|]. split; [exact I|]. split; [exact H|].
  exact (X24_aliased_items_are_never_deleted 30 linux_cfg sample_turns
           sample_loop shown_machine (StrTag "grid_child")
           (Some (StrTag "main_window")) shown_machine_sound I H).
Defined.

(** X25: the path label always shows the selected directory: if it does
    when the browser starts, then after every turn of the render loop and
    every callback the registry still holds the text [path_label], it is the
    only item of that name, and it shows [state["current_dir"]]. *)
Theorem X25_path_label_shows_the_current_directory
        (n0 : positive) (cfg : Config) (turns : list Turn) (l : Loop) (m : Machine) :
  sound n0 m -> shows_text m "path_label" (current_dir (state m)) ->
  let m' := snd (render_loop cfg turns l m) in
  shows_text m' "path_label" (current_dir (state m')) /\
  forall it, In it (items (dpg m')) -> item_tag it = StrTag "path_label" ->
             item_kind it = Text (current_dir (state m')).
Proof.
  intros S H m'.
  pose proof (path_label_render_loop cfg turns l m S H) as H'. fold m' in H'.
  split; [exact H'|]. intros it Hin Ht.
  apply (shows_text_unique (n0 := n0) m' "path_label"); auto.
  now apply sound_render_loop.
Qed.

Lemma X25_witness :
  sound 30 browser_machine /\
  shows_text browser_machine "path_label" (current_dir (state browser_machine)) /\
  let m' := snd (render_loop linux_cfg sample_turns sample_loop browser_machine) in
  shows_text m' "path_label" (current_dir (state m')) /\
  forall it, In it (items (dpg m')) -> item_tag it = StrTag "path_label" ->
             item_kind it = Text (current_dir (state m')).
Proof.
  assert (H : shows_text browser_machine "path_label"
                         (current_dir (state browser_machine))).
  { exists (mkItem (StrTag "path_label") (Some (StrTag "main_window")) (Text "/pics")).
    split; [pick_item|split; reflexivity]. }
  split; [exact browser_machine_sound|]. split; [exact H|].
  exact (X25_path_label_shows_the_current_directory 30 linux_cfg sample_turns
           sample_loop browser_machine browser_machine_sound H).
Defined.

(** X26: the frame label always shows the frame counter: if it does when
    the render loop starts, then after every turn and every callback the
    registry still holds the text [frame_label], it is the only item of
    that name, and it shows [str(state["frames"])]. *)
Theorem X26_frame_label_shows_the_frame_counter
        (n0 : positive) (cfg : Config) (turns : list Turn) (l : Loop) (m : Machine) :
  sound n0 m -> shows_text m "frame_label" (str_of_int (frames (state m))) ->
  let m' := snd (render_loop cfg turns l m) in
  shows_text m' "frame_label" (str_of_int (frames (state m'))) /\
  forall it, In it (items (dpg m')) -> item_tag it = StrTag "frame_label" ->
             item_kind it = Text (str_of_int (frames (state m'))).
Proof.
  intros S H m'.
  pose proof (frame_label_render_loop cfg turns l m S H) as H'. fold m' in H'.
  split; [exact H'|]. intros it Hin Ht.
  apply (shows_text_unique (n0 := n0) m' "frame_label"); auto.
  now apply sound_render_loop.
Qed.

Lemma X26_witness :
  sound 30 browser_machine /\
  shows_text browser_machine "frame_label"
             (str_of_int (frames (state browser_machine))) /\
  let m' := snd (render_loop linux_cfg sample_turns sample_loop browser_machine) in
  shows_text m' "frame_label" (str_of_int (frames (state m'))) /\
  forall it, In it (items (dpg m')) -> item_tag it = StrTag "frame_label" ->
             item_kind it = Text (str_of_int (frames (state m'))).
Proof.
  assert (H : shows_text browser_machine "frame_label"
                         (str_of_int (frames (state browser_machine)))).
  { exists (mkItem (StrTag "frame_label") (Some (StrTag "main_window")) (Text "0")).
    split; [pick_item|split; reflexivity]. }
  split; [exact browser_machine_sound|]. split; [exact H|].
  exact (X26_frame_label_shows_the_frame_counter 30 linux_cfg sample_turns
           sample_loop browser_machine browser_machine_sound H).
Defined.

(** ** The viewport and the main window *)

(** X27: [resize_callback] makes the main window as wide as the viewport
    and 30 less high, whatever the rebuilding of the grid does afterwards;
    data with fewer than two sizes is ignored: nothing changes and nothing
    is raised. *)
Theorem X27_resize_callback_sizes_the_main_window
        (n0 : positive) (cfg : Config) (env : Env) (app_data : list Z) (m : Machine)
        (q : option tag) (w0 h0 : Z) :
  sound n0 m ->
  In (mkItem (StrTag "main_window") q (Window w0 h0)) (items (dpg m)) ->
  match app_data with
  | w :: h :: _ =>
      In (mkItem (StrTag "main_window") q (Window w (h - 30)))
         (items (dpg (exec (resize_callback cfg env app_data) m)))
  | _ => resize_callback cfg env app_data m = (Ok tt, m)
  end.
Proof.
  intros S Hin. destruct app_data as [|w [|h rest]]; try reflexivity.
  set (mu := exec (update_item (StrTag "main_window") (set_size w (h - 30))) m).
  set (it := mkItem (StrTag "main_window") q (Window w (h - 30))).
  assert (Hu : In it (items (dpg mu))).
  { apply (update_item_same m (StrTag "main_window") (set_size w (h - 30))
             (mkItem (StrTag "main_window") q (Window w0 h0)) Hin eq_refl). }
  assert (Iu : inv n0 [] [] mu).
  { apply inv_update_item;
      [intros []; reflexivity|intros []; reflexivity|intros []; reflexivity
      |intros [] H; first [discriminate H|reflexivity]
      |intros [] b H; first [discriminate H|exact H]|now apply sound_inv]. }
  assert (Hx : item_exists (dpg m) (StrTag "main_window") = true).
  { apply item_exists_In. eexists. split; [exact Hin|reflexivity]. }
  assert (Er : exec (resize_callback cfg env (w :: h :: rest)) m
               = exec (build_thumbnail_grid cfg env) mu).
  { unfold mu, exec, resize_callback, bind, try_catch, index. simpl.
    now rewrite update_item_ok. }
  rewrite Er.
  refine (proj2 (triple_exec _ (build_thumbnail_grid cfg env)
                   (fun m' => inv n0 [] [] m' /\ In it (items (dpg m')))
                   (tripleX_build_thumbnail_grid
                      (fun m' => In it (items (dpg m'))) _ _ _ _ _ [] cfg env)
                   mu (conj Iu Hu))).
  - intros m0 parent k _ H.
    destruct (exec_add_item parent k m0) as [[_ ->]|[_ ->]]; [exact H|].
    simpl. apply in_app_iff. now left.
  - intros m0 t S0 Hd H.
    apply (delete_item_keeps_static (n0 := n0) m0 t it); auto. exact I.
  - intros m0 a b H. now rewrite items_bind_item_handler_registry.
  - intros m0 s' _ _ _ H. exact H.
  - intros m0 c H. exact H.
Qed.

Lemma X27_witness :
  sound 30 browser_machine /\
  In (mkItem (StrTag "main_window") None (Window 900 820))
     (items (dpg browser_machine)) /\
  In (mkItem (StrTag "main_window") None (Window 1024 (768 - 30)))
     (items (dpg (exec (resize_callback linux_cfg good_env [1024; 768])
                       browser_machine))).
Proof.
  assert (H : In (mkItem (StrTag "main_window") None (Window 900 820))
                 (items (dpg browser_machine))) by pick_item.
  split; [exact browser_machine_sound|]. split; [exact H|].
  exact (X27_resize_callback_sizes_the_main_window 30 linux_cfg good_env
           [1024; 768] browser_machine None 900 820 browser_machine_sound H).
Defined.

(** ** Decoding once *)

Lemma decodes_of_app p tr tr' :
  decodes_of p (tr ++ tr') = decodes_of p tr ++ decodes_of p tr'.
Proof. apply List.filter_app. Qed.

(** X28: an image whose thumbnail is in the cache is never decoded again:
    through every turn of the render loop and every callback its handle
    stays in the cache and no decoding of its path is added to the trace. *)
Theorem X28_a_cached_image_is_not_decoded_again
        (cfg : Config) (turns : list Turn) (l : Loop) (m : Machine)
        (p : string) (t : tag) :
  thumb_tex (state m) !! p = Some t -> truthy_tag t = true ->
  let m' := snd (render_loop cfg turns l m) in
  thumb_tex (state m') !! p = Some t /\
  decodes_of p (trace m') = decodes_of p (trace m).
Proof.
  intros Hl Ht.
  apply (out_render_loop cfg
           (fun m' => thumb_tex (state m') !! p = Some t /\
                      decodes_of p (trace m') = decodes_of p (trace m))
           (fun c => is_decode_of p c = false)); auto.
  - intros m' s' Hs' _ _ [H1 H2]. simpl. split; congruence.
  - intros m' c Hc [H1 H2]. simpl. split; [exact H1|].
    rewrite decodes_of_app, H2. simpl. rewrite Hc. apply app_nil_r.
  - intros env p' m' [H1 H2].
    destruct (thumb_for_cases cfg env p' m')
      as [[_ ->]|[(t' & _ & _ & ->)|[[Hmiss ->]|[Hmiss [im ->]]]]]; auto.
    + assert (Hne : p' <> p).
      { intros ->. rewrite H1 in Hmiss. simpl in Hmiss. congruence. }
      simpl. split; [exact H1|].
      rewrite decodes_of_app, H2. simpl.
      rewrite (proj2 (String.eqb_neq p' p) Hne). apply app_nil_r.
    + assert (Hne : p' <> p).
      { intros ->. rewrite H1 in Hmiss. simpl in Hmiss. congruence. }
      simpl. split.
      * rewrite lookup_insert_ne by exact Hne. exact H1.
      * rewrite decodes_of_app, H2. simpl.
        rewrite (proj2 (String.eqb_neq p' p) Hne). apply app_nil_r.
  - apply List.Forall_forall. intros tn _.
    apply List.Forall_forall. intros ec _ _ c Hc. now destruct c.
Qed.

Lemma X28_witness :
  thumb_tex (state shown_machine) !! "/pics/a.jpg" = Some (IntTag 35) /\
  truthy_tag (IntTag 35) = true /\
  let m' := snd (render_loop linux_cfg sample_turns sample_loop shown_machine) in
  thumb_tex (state m') !! "/pics/a.jpg" = Some (IntTag 35) /\
  decodes_of "/pics/a.jpg" (trace m')
  = decodes_of "/pics/a.jpg" (trace shown_machine).
Proof.
  assert (H : thumb_tex (state shown_machine) !! "/pics/a.jpg" = Some (IntTag 35))
    by (vm_compute; reflexivity).
  split; [exact H|]. split; [reflexivity|].
  exact (X28_a_cached_image_is_not_decoded_again linux_cfg sample_turns
           sample_loop shown_machine "/pics/a.jpg" (IntTag 35) H eq_refl).
Defined.
